(* ===== verification/_CoqProject ===== *)
-Q . S2P
Prelude.v
GoText.v
GoNet.v
Sha256.v
GoJson.v
Warnings.v
CidrOverlap.v
AddrMap.v
Grants.v
AddrText.v
ClaimNames.v
Registry.v
Claims.v
ClaimSafety.v
ClaimServe.v
ClaimRun.v
KernelMap.v
Lpm.v
Packet.v
Embedded.v
SecurityGroups.v
SgDatapath.v
Nat.v
PortPrefix.v
Verdict.v
NetworkPolicy.v
HostFirewall.v
HfCompile.v
SgIdentity.v
RouteBudget.v
Routes.v
NpCompile.v
Boundary.v
BoundaryGate.v
BoundaryCompile.v
Networks.v
Services.v
Authority.v
VpcStrategy.v
SgCompile.v
ApiCalls.v
Vni.v
VniSafety.v
VniRun.v
PodLabels.v
SgMembers.v
PortGc.v
