(* ===== verification/Prelude.v ===== *)
(** * Cozyplane: a verification development

    Cozyplane is a VPC overlay for Kubernetes.  Tenants declare VPCs, bindings, peerings,
    security groups, services, routes and policies; an aggregated API server validates and
    stores them ([pkg/registry]); controllers number and resolve them ([internal/controller]);
    a node agent ([cmd/agent], [datapath]) compiles what concerns its node into pinned kernel
    maps; BPF programs ([bpf/overlay.c]) read those maps for every packet.  The development
    follows that pipeline.

    ** Files

    Foundations:
    - [Prelude]: errors ([result]), integers at their width, tactics, hints, list lemmas.
    - [GoText], [GoNet], [AddrText], [GoJson], [Sha256]: what the program uses of Go's
      [strings], [strconv], [net], [net/netip], [encoding/json] and [crypto/sha256], executable.
    - [Warnings]: bounded compile warnings (cmd/agent/warnings.go).
    - [CidrOverlap], [Grants]: VPC address ranges and forwarding grants (api/sdn/v1alpha1).
    - [AddrMap]: 16-byte map addresses and map prefixes (datapath/address128.go, cidr.go).
    - [KernelMap]: the monad [M] of passes over kernel maps and its weakest preconditions [wp];
      [syncMap] (datapath/securitygroup.go).
    - [Lpm], [Verdict], [PortPrefix]: longest-prefix-match lookup, allow and deny ranges in
      such a map, port ranges as prefixes.
    - [ApiCalls]: programs of API calls, the paged scan (internal/ipam/claims.go) and a
      rely-guarantee logic for programs that run beside others.

    API server:
    - [ClaimNames], [Registry], [Claims]: the names that are the allocation of an address
      (api/sdn/names.go), the strategies of Ports and ServiceVIPs, and the atomic create
      (pkg/registry/sdn/claim).  [ClaimSafety] has the concurrent system, [ClaimServe] the
      undisturbed create, [ClaimRun] an etcd in memory and runs on it.
    - [Authority], [VpcStrategy]: who may export, peer and bound a VPC (pkg/registry/sdn/authz,
      vpcbinding, vpcpeering, vpc).  The strategy of security groups is in [SgCompile].

    Controllers (internal/controller/sdn):
    - [Vni]: the VPC reconciler; [VniSafety] the system of many of them, [VniRun] its runs.
    - [PodLabels], [SgMembers]: label snapshots (internal/podlabels), the SecurityGroup and
      membership reconcilers.
    - [PortGc]: the collector of abandoned Ports.

    Agent and datapath, per feature the compiler, the map pass and the gate:
    - [SgCompile], [SgIdentity], [SecurityGroups], [SgDatapath]: security groups.
    - [NpCompile], [NetworkPolicy]: network policies.
    - [HfCompile], [HostFirewall]: the host firewall.
    - [BoundaryCompile], [Boundary], [BoundaryGate]: operator boundaries between VPCs, and the
      program at a pod's interface.
    - [Networks]: scoped networks and peerings.  [Services]: virtual services inside a VPC.
    - [Routes], [RouteBudget]: route tables, blocked scopes, next hops, fair budgets.
    - [Packet], [Embedded]: frames, parsers, the MSS clamp, checksums modulo 65535, the packets
      inside ICMP errors.
    - [Nat]: connection tracking, the fabric bridge and the masquerade over IPv4.

    ** State and effects

    A kernel map is a [gmap] from the key struct to the value struct; the maps of a component
    are a record, accessed through lenses.  Agent code runs in [M], in which any call may fail,
    Go and the kernel choose iteration orders and every intermediate kernel state is recorded;
    the class [Runtime] is the environment's choice of faults and orders, and every theorem
    holds for all of them.  BPF code is a pure function of the maps and the frame.  Code that
    calls etcd or the API server is a program, a tree of calls and continuations, and a step of
    the system answers one call of one program; answers may be failures, stale reads, or
    failures of a write that was applied.

    Code outside the repository is a parameter with its documented laws and a concrete instance
    that witnesses them: [ChecksumHelpers] (BPF helpers), [Selectors] (label selectors), [Etcd]
    and [Storage] (the key-value store, the codec and the key functions), the authorizer, the
    name syntax of the Kubernetes library, the random source of the port allocator.

    ** What the theorems show

    - Updates fail closed: whatever call fails, a packet meets the old state, the new state or
      a state that denies ([*_guarded], [SyncBoundaries_versioned]), and a pass that meets no
      fault installs exactly the desired state ([syncMap_exact], [*_total]).
    - Compilers are exact ([compileNetworkPolicies_exact], [compiled_rules_mean_policies],
      [sg_compiled_exact], [consent_exact], [hfCompileRule_exact]) and bounded.
    - Gates enforce what was declared ([np_ingress_correct], [to_pod_sg_correct],
      [ns_sg_admit_correct], [hf_gate_correct], [boundary_gate_authorised],
      [from_pod_contained], [peering_enforced], [services_enforced], [routes_enforced]).
    - Shared resources have one owner under concurrency: addresses and NICs
      ([claims_exclusive]), network identifiers ([vni_never_shared]), masquerade ports
      ([masq_ports_unique]); and undisturbed requests get them ([create_exact],
      [Reconcile_assigns]).
    - Addresses are freed only when nobody uses them ([port_gc_safe]) and then they are
      ([gc_exact]).
    - What is stored was authorised ([binding_authorized], [peering_authorized],
      [vpc_authorized]), and what is stored compiles ([valid_vpc_compiles]).
    - Membership is proved end to end ([membership_end_to_end]): the bits the gates read are the
      groups that select the pod, and an unresolved selection denies.
    - Packets keep their meaning: headers are where the programs look for them, checksums stay
      valid, replies of translated flows return to their origin.

    ** Bounds and fuel

    Loops the source bounds by a constant use that constant as fuel: 40 rounds over TCP options
    ([mss_loop], enough by [tcp_mss_clamp_complete]), 16 probes of the port allocator, 17
    doublings of a port block, 512 pages of 128 objects in [WalkClaims] (more than 65536 objects
    are an error of the source), [persistentScanLimit] keys in the NIC scan ([scan_fuel]).  The
    retries of the counter take the step count of the retry helper as a parameter.  Parsers and
    printers of text use the length of the text; their round trips show that it is enough.
    Every other recursion is structural.

    ** Not modelled

    Netlink, tc, sysctl and informer wiring (I/O); the CNI plugin; the controllers and
    strategies of floating addresses, gateways and VPNs and the admission webhook; VPN daemons
    and the socket load balancer, which drive third-party processes; in [bpf/overlay.c] the IPv6
    twins of the translations, the VPC gateway, service load balancing and the VPN filters;
    generated code.  The connection-tracking maps are LRU maps: an entry may be evicted, and the
    theorems on flows say what holds while it is there. *)

From stdpp Require Export base list gmap strings sorting numbers fin_maps.
From Stdlib Require Export Lia Ascii.

(** Concatenation of literals computes. *)
#[global] Arguments String.append : simpl nomatch.

#[export] Set Default Goal Selector "!".

(** ** Errors

    Go functions that return [(T, error)] return a [result T] here: [Ok] carries
    the values of the success path and [Err] the text of the [error]. *)
Inductive result (A : Type) : Type :=
| Ok (a : A)
| Err (e : string).
Arguments Ok {A} a.
Arguments Err {A} e.

#[export] Instance result_mret : MRet result := fun A a => Ok a.
#[export] Instance result_mbind : MBind result := fun A B f m =>
  match m with Ok a => f a | Err e => Err e end.
#[export] Instance result_fmap : FMap result := fun A B f m =>
  match m with Ok a => Ok (f a) | Err e => Err e end.

#[export] Instance result_eq_dec {A} `{EqDecision A} : EqDecision (result A).
Proof. solve_decision. Defined.

Definition is_ok {A} (r : result A) : bool :=
  match r with Ok _ => true | Err _ => false end.

Lemma bind_ok {A B} (m : result A) (f : A -> result B) b :
  m ≫= f = Ok b <-> exists a, m = Ok a /\ f a = Ok b.
Proof. destruct m; cbn; split; [eauto| by intros (?&[= <-]&?)|done|by intros (?&?&_)]. Qed.

(** The loops of the source that stop at the first error. *)
Fixpoint foldM {A B} (f : B -> A -> result B) (acc : B) (l : list A) : result B :=
  match l with
  | [] => Ok acc
  | x :: l => match f acc x with Ok acc => foldM f acc l | Err e => Err e end
  end.

Lemma foldM_app {A B} (f : B -> A -> result B) acc l k :
  foldM f acc (l ++ k) = (foldM f acc l ≫= fun a => foldM f a k).
Proof. revert acc; induction l; intros; cbn; [done|]. destruct (f acc a); cbn; auto. Qed.

(** An invariant of the accumulator, indexed by the elements already consumed. *)
Lemma foldM_invariant {A B} (f : B -> A -> result B) (P : list A -> B -> Prop) acc l acc' :
  P [] acc ->
  (forall pre x post a a', l = pre ++ x :: post -> P pre a -> f a x = Ok a' -> P (pre ++ [x]) a') ->
  foldM f acc l = Ok acc' -> P l acc'.
Proof.
  intros H0 Hs.
  cut (forall post pre acc, l = pre ++ post -> P pre acc -> foldM f acc post = Ok acc' -> P l acc').
  { intros H Hf. exact (H l [] acc eq_refl H0 Hf). }
  clear acc H0. induction post as [|x post IH]; intros pre acc E HP; cbn.
  - intros [= <-]. by rewrite E, app_nil_r.
  - destruct (f acc x) as [a|] eqn:Ex; [|done]. apply (IH (pre ++ [x])); [by rewrite <-app_assoc|eauto].
Qed.

(** ** Tactics *)

(** Split the boolean guard an [if] of the goal or of a hypothesis tests. *)
Ltac case_if :=
  match goal with
  | |- context [if ?b then _ else _] => let E := fresh "E" in destruct b eqn:E
  | _ : context [if ?b then _ else _] |- _ => let E := fresh "E" in destruct b eqn:E
  end.

(** Turn boolean facts on [Z] and [nat] into propositions. *)
Ltac to_prop :=
  repeat match goal with
  | H : _ && _ = true |- _ => apply andb_true_iff in H; destruct H
  | H : _ || _ = false |- _ => apply orb_false_iff in H; destruct H
  | H : negb _ = true |- _ => apply negb_true_iff in H
  | H : negb _ = false |- _ => apply negb_false_iff in H
  | H : bool_decide _ = true |- _ => apply bool_decide_eq_true in H
  | H : bool_decide _ = false |- _ => apply bool_decide_eq_false in H
  | H : (_ <? _)%Z = true |- _ => apply Z.ltb_lt in H
  | H : (_ <? _)%Z = false |- _ => apply Z.ltb_ge in H
  | H : (_ <=? _)%Z = true |- _ => apply Z.leb_le in H
  | H : (_ <=? _)%Z = false |- _ => apply Z.leb_gt in H
  | H : (_ =? _)%Z = true |- _ => apply Z.eqb_eq in H
  | H : (_ =? _)%Z = false |- _ => apply Z.eqb_neq in H
  | H : (_ <? _)%nat = true |- _ => apply Nat.ltb_lt in H
  | H : (_ <? _)%nat = false |- _ => apply Nat.ltb_ge in H
  | H : (_ <=? _)%nat = true |- _ => apply Nat.leb_le in H
  | H : (_ <=? _)%nat = false |- _ => apply Nat.leb_gt in H
  | H : (_ =? _)%nat = true |- _ => apply Nat.eqb_eq in H
  | H : (_ =? _)%nat = false |- _ => apply Nat.eqb_neq in H
  | H : (_ >? _)%Z = true |- _ => rewrite Z.gtb_ltb in H
  | H : (_ >? _)%Z = false |- _ => rewrite Z.gtb_ltb in H
  end.

Create HintDb cozy discriminated.

(** ** Machine integers *)

Definition u16 (z : Z) : Z := z mod 2 ^ 16.
Definition u32 (z : Z) : Z := z mod 2 ^ 32.
Definition u64 (z : Z) : Z := z mod 2 ^ 64.

(** ** Bitmaps

    The union of the bitmaps a loop accumulates with [|=]. *)
Fixpoint lor_all {A} (f : A -> Z) (l : list A) : Z :=
  match l with [] => 0%Z | x :: l => Z.lor (f x) (lor_all f l) end.

Lemma lor_all_testbit {A} (f : A -> Z) l i :
  Z.testbit (lor_all f l) i = existsb (fun x => Z.testbit (f x) i) l.
Proof.
  induction l as [|x l IH]; cbn; [apply Z.testbit_0_l|]. by rewrite Z.lor_spec, IH.
Qed.

Lemma lor_all_bit {A} (f : A -> Z) l i :
  Z.testbit (lor_all f l) i = true <-> exists x, x ∈ l /\ Z.testbit (f x) i = true.
Proof. rewrite lor_all_testbit, existsb_exists. by setoid_rewrite list_elem_of_In. Qed.

Lemma lor_all_app {A} (f : A -> Z) l k :
  lor_all f (l ++ k) = Z.lor (lor_all f l) (lor_all f k).
Proof. induction l; cbn; [done|]. by rewrite IHl, Z.lor_assoc. Qed.

Lemma fold_left_lor {A} (f : A -> Z) l acc :
  fold_left (fun acc x => Z.lor acc (f x)) l acc = Z.lor acc (lor_all f l).
Proof.
  revert acc; induction l; intros; cbn; [by rewrite Z.lor_0_r|].
  by rewrite IHl, Z.lor_assoc.
Qed.

Lemma lor_all_perm {A} (f : A -> Z) l k : l ≡ₚ k -> lor_all f l = lor_all f k.
Proof.
  induction 1; cbn; [done|by f_equal| |by etrans].
  by rewrite !Z.lor_assoc, (Z.lor_comm (f y)).
Qed.

(** One bit of a word. *)
Local Open Scope Z_scope.
Lemma bit_test b i : 0 <= i -> negb (Z.land b (Z.shiftl 1 i) =? 0) = Z.testbit b i.
Proof.
  intros Hi. destruct (Z.testbit b i) eqn:E.
  - apply negb_true_iff, Z.eqb_neq. intros H0. assert (Z.testbit (Z.land b (Z.shiftl 1 i)) i = true) as Ht.
    { rewrite Z.land_spec, E, Z.shiftl_spec, Z.sub_diag by lia. done. }
    rewrite H0, Z.bits_0 in Ht. done.
  - apply negb_false_iff, Z.eqb_eq. apply Z.bits_inj'. intros n Hn. rewrite Z.land_spec, Z.bits_0, Z.shiftl_spec by lia.
    destruct (Z.eq_dec n i) as [->|Hne]; [by rewrite E|]. destruct (Z_lt_dec n i).
    + rewrite (Z.testbit_neg_r 1) by lia. apply andb_false_r.
    + rewrite (Z.bits_above_log2 1); [apply andb_false_r|lia|cbn; lia].
Qed.

(** Disjoint bit ranges add. *)
Lemma lor_add a b n : 0 <= n -> 0 <= b < 2 ^ n -> Z.lor (a * 2 ^ n) b = a * 2 ^ n + b.
Proof.
  intros Hn Hb. assert (Z.land (a * 2 ^ n) b = 0) as Hl.
  { apply Z.bits_inj'. intros i Hi. rewrite Z.land_spec, Z.bits_0, <-Z.shiftl_mul_pow2, Z.shiftl_spec by lia.
    destruct (Z_lt_dec i n) as [Hlt|Hge]; [by rewrite Z.testbit_neg_r by lia|].
    destruct (Z.eq_dec b 0) as [->|]; [by rewrite Z.bits_0, andb_false_r|].
    rewrite andb_comm, Z.bits_above_log2; [done|lia|]. apply Z.log2_lt_pow2; [lia|].
    assert (2 ^ n <= 2 ^ i) by (apply Z.pow_le_mono_r; lia). lia. }
  by rewrite <-Z.lxor_lor, <-Z.add_nocarry_lxor.
Qed.

Lemma bit_shift i n : 0 <= i -> 0 <= n -> Z.testbit (Z.shiftl 1 i) n = bool_decide (n = i).
Proof.
  intros Hi Hn. rewrite Z.shiftl_spec by done. case_bool_decide as E; [subst; by rewrite Z.sub_diag|].
  destruct (Z_lt_dec n i); [apply Z.testbit_neg_r; lia|]. apply Z.bits_above_log2; [lia|cbn; lia].
Qed.

Lemma bit_shift_same i : 0 <= i -> Z.testbit (Z.shiftl 1 i) i = true.
Proof. intros. rewrite bit_shift by done. by apply bool_decide_true. Qed.

Lemma bit_shift_ne i n : 0 <= i -> 0 <= n -> n <> i -> Z.testbit (Z.shiftl 1 i) n = false.
Proof. intros. rewrite bit_shift by done. by apply bool_decide_false. Qed.
Local Close Scope Z_scope.

(** ** Sorted lists *)
Lemma StronglySorted_lookup_lt {A} (R : relation A) l i j x y :
  StronglySorted R l -> l !! i = Some x -> l !! j = Some y -> (i < j)%nat -> R x y.
Proof.
  intros Hs; revert i j; induction Hs as [|z l Hs IH Hz]; intros i j Hi Hj Hij; [done|].
  destruct j as [|j]; [lia|]. cbn in Hj. destruct i as [|i]; cbn in Hi.
  - simplify_eq. by eapply Forall_lookup_1.
  - eapply IH; eauto. lia.
Qed.
