(* ===== verification/GoText.v ===== *)
(** * Text: the parts of Go's [strings], [strconv] and [encoding/hex] the program uses

    Go strings are byte sequences; they are modelled by [string], whose
    characters are bytes.  Everything here is executable. *)

From S2P Require Import Prelude.
Local Open Scope Z_scope.

(** Digit values of a byte. *)
Definition code (c : Ascii.ascii) : Z := Z.of_N (Ascii.N_of_ascii c).

Definition dec_val (c : Ascii.ascii) : option Z :=
  if (48 <=? code c) && (code c <=? 57) then Some (code c - 48) else None.

Definition hex_val (c : Ascii.ascii) : option Z :=
  if (48 <=? code c) && (code c <=? 57) then Some (code c - 48)
  else if (97 <=? code c) && (code c <=? 102) then Some (code c - 87)
  else if (65 <=? code c) && (code c <=? 70) then Some (code c - 55)
  else None.

Definition chr (z : Z) : Ascii.ascii := Ascii.ascii_of_N (Z.to_N z).
Definition digit_char (d : Z) : Ascii.ascii := chr (if d <? 10 then 48 + d else 87 + d).

(** [strings.Cut] at a one-byte separator. *)
Fixpoint cut (sep : Ascii.ascii) (s : string) : option (string * string) :=
  match s with
  | EmptyString => None
  | String c s =>
      if decide (c = sep) then Some (EmptyString, s)
      else match cut sep s with
           | Some (a, b) => Some (String c a, b)
           | None => None
           end
  end.

(** [strings.CutPrefix]. *)
Fixpoint cut_prefix (p s : string) : option string :=
  match p, s with
  | EmptyString, _ => Some s
  | String c p, String d s => if decide (c = d) then cut_prefix p s else None
  | String _ _, EmptyString => None
  end.

Definition has_prefix (s p : string) : bool :=
  match cut_prefix p s with Some _ => true | None => false end.

(** [strings.Split] at a one-byte separator: never the empty list. *)
Fixpoint split (sep : Ascii.ascii) (s : string) : list string :=
  match s with
  | EmptyString => [EmptyString]
  | String c s =>
      if decide (c = sep) then EmptyString :: split sep s
      else match split sep s with
           | x :: l => String c x :: l
           | [] => [String c EmptyString]
           end
  end.

(** [strings.Join]. *)
Fixpoint join (sep : string) (l : list string) : string :=
  match l with
  | [] => EmptyString
  | [x] => x
  | x :: l => x +:+ sep +:+ join sep l
  end.

(** Does a byte satisfying [f] occur? *)
Fixpoint str_any (f : Ascii.ascii -> bool) (s : string) : bool :=
  match s with
  | EmptyString => false
  | String c s => f c || str_any f s
  end.

Fixpoint str_map (f : Ascii.ascii -> Ascii.ascii) (s : string) : string :=
  match s with
  | EmptyString => EmptyString
  | String c s => String (f c) (str_map f s)
  end.

Fixpoint str_last (s : string) : option Ascii.ascii :=
  match s with
  | EmptyString => None
  | String c EmptyString => Some c
  | String _ s => str_last s
  end.

(** The digits of a decimal number, accumulated most significant first. *)
Fixpoint dec_scan (acc : Z) (s : string) : option Z :=
  match s with
  | EmptyString => Some acc
  | String c s =>
      match dec_val c with
      | Some d => dec_scan (acc * 10 + d) s
      | None => None
      end
  end.

(** A non-empty string of decimal digits, leading zeros allowed: what [dtoi] of
    package [net] and [strconv.ParseUint(s, 10, _)] accept before their range
    checks. *)
Definition parse_dec (s : string) : option Z :=
  match s with EmptyString => None | _ => dec_scan 0 s end.

(** [strconv.ParseInt(s, 10, 32)]: an optional sign, then digits, in range. *)
Definition parse_int32 (s : string) : option Z :=
  let inrange z := if (- 2 ^ 31 <=? z) && (z <? 2 ^ 31) then Some z else None in
  match s with
  | String "+"%char s => parse_dec s ≫= inrange
  | String "-"%char s => parse_dec s ≫= fun z => inrange (- z)
  | _ => parse_dec s ≫= inrange
  end.

(** [strconv.ParseUint(s, 10, 32)]. *)
Definition parse_uint32 (s : string) : option Z :=
  z ← parse_dec s; if z <? 2 ^ 32 then Some z else None.

(** [%d] of a non-negative number, as its digits; [fuel] bounds their count. *)
Fixpoint dec_digits (fuel : nat) (n : Z) : list Z :=
  match fuel with
  | O => []
  | S fuel => if n <? 10 then [n] else dec_digits fuel (n / 10) ++ [n mod 10]
  end.

Fixpoint str_of (l : list Ascii.ascii) : string :=
  match l with [] => EmptyString | c :: l => String c (str_of l) end.

(** Twenty digits hold every 64-bit number. *)
Definition fmt_nat (n : Z) : string := str_of (digit_char <$> dec_digits 20 n).
Definition fmt_d (n : Z) : string :=
  if n <? 0 then String "-"%char (fmt_nat (- n)) else fmt_nat n.

(** Two lower-case hexadecimal digits per byte, [hex.EncodeToString]. *)
Fixpoint hex_encode (l : list Z) : string :=
  match l with
  | [] => EmptyString
  | b :: l => String (digit_char (b / 16)) (String (digit_char (b mod 16)) (hex_encode l))
  end.

(** ** [strings.TrimSpace]

    The white space of Unicode, as UTF-8. *)
Definition utf8 (bytes : list Z) : string := str_of (chr <$> bytes).
Definition white_space : list string :=
  ((fun b => utf8 [b]) <$> [9; 10; 11; 12; 13; 32]) ++
  [utf8 [0xC2; 0x85]; utf8 [0xC2; 0xA0]; utf8 [0xE1; 0x9A; 0x80]] ++
  ((fun b => utf8 [0xE2; 0x80; b]) <$> [0x80; 0x81; 0x82; 0x83; 0x84; 0x85; 0x86; 0x87; 0x88; 0x89; 0x8A; 0xA8; 0xA9; 0xAF]) ++
  [utf8 [0xE2; 0x81; 0x9F]; utf8 [0xE3; 0x80; 0x80]].

Fixpoint str_rev_onto (s acc : string) : string :=
  match s with EmptyString => acc | String c s => str_rev_onto s (String c acc) end.
Definition str_rev (s : string) : string := str_rev_onto s EmptyString.

(** Drop leading occurrences of the given strings; each round drops at least a byte. *)
Fixpoint trim_left (fuel : nat) (spaces : list string) (s : string) : string :=
  match fuel with
  | O => s
  | S fuel =>
      match head (omap (fun sp => cut_prefix sp s) spaces) with
      | Some rest => trim_left fuel spaces rest
      | None => s
      end
  end.

Definition TrimSpace (s : string) : string :=
  let s := trim_left (String.length s) white_space s in
  str_rev (trim_left (String.length s) (str_rev <$> white_space) (str_rev s)).

Example TrimSpace_both : TrimSpace (utf8 [32; 0xC2; 0xA0] +:+ "10.0.0.0/8" +:+ utf8 [10; 0xE2; 0x80; 0xA8]) = "10.0.0.0/8".
Proof. reflexivity. Qed.

(** ** Lemmas *)

Lemma app_str_assoc (a b c : string) : (a +:+ b) +:+ c = a +:+ (b +:+ c).
Proof. induction a as [|x a IH]; cbn; [done|]. by f_equal. Qed.
Lemma app_str_nil (a : string) : a +:+ "" = a.
Proof. induction a as [|x a IH]; cbn; [done|]. by f_equal. Qed.

Lemma app_str_inj (p a b : string) : p +:+ a = p +:+ b -> a = b.
Proof. induction p as [|c p IH]; cbn; [done|]. intros [= H]. by apply IH. Qed.

Lemma cut_prefix_app p s : cut_prefix p (p +:+ s) = Some s.
Proof. induction p as [|c p IH]; cbn; [done|]. by rewrite decide_True. Qed.

Lemma cut_prefix_Some p s r : cut_prefix p s = Some r -> s = p +:+ r.
Proof.
  revert s; induction p as [|c p IH]; intros [|d s]; cbn; try congruence.
  case_decide; [|done]. intros ?%IH. by subst.
Qed.

Lemma cut_app sep a b : str_any (fun c => bool_decide (c = sep)) a = false ->
  cut sep (a +:+ String sep b) = Some (a, b).
Proof.
  induction a as [|c a IH]; cbn; [by rewrite decide_True|].
  intros [H1 H2]%orb_false_iff. to_prop. rewrite decide_False by done.
  by rewrite IH.
Qed.

Lemma cut_Some sep s a b : cut sep s = Some (a, b) -> s = a +:+ String sep b.
Proof.
  revert a; induction s as [|c s IH]; intros a; cbn; [done|].
  case_decide; [intros [= <- <-]; by subst|].
  destruct (cut sep s) as [[x y]|] eqn:E; [|done].
  intros [= <- <-]. cbn. f_equal. by apply IH.
Qed.

Lemma str_any_app f a b : str_any f (a +:+ b) = str_any f a || str_any f b.
Proof. induction a as [|c a IH]; cbn; [done|]. by rewrite IH, orb_assoc. Qed.

Lemma str_of_app a b : str_of (a ++ b) = str_of a +:+ str_of b.
Proof. induction a; cbn; [done|]. by f_equal. Qed.

Lemma str_any_str_of f l : str_any f (str_of l) = existsb f l.
Proof. induction l; cbn; [done|]. by rewrite IHl. Qed.

(** A digit is a [Z] below ten; the finitely many cases are computed. *)
Lemma small_cases (n : nat) (P : Z -> Prop) :
  Forall P (Z.of_nat <$> seq 0 n) -> forall d, 0 <= d < Z.of_nat n -> P d.
Proof.
  rewrite Forall_fmap, Forall_forall. intros H d Hd. rewrite <-(Z2Nat.id d) by lia.
  apply H. apply elem_of_seq. lia.
Qed.

Lemma dec_val_digit d : 0 <= d < 10 -> dec_val (digit_char d) = Some d.
Proof. revert d. apply (small_cases 10). by repeat constructor. Qed.

Lemma hex_val_digit d : 0 <= d < 16 -> hex_val (digit_char d) = Some d.
Proof. revert d. apply (small_cases 16). by repeat constructor. Qed.

Lemma dec_scan_digits ds acc :
  Forall (fun d => 0 <= d < 10) ds ->
  dec_scan acc (str_of (digit_char <$> ds)) = Some (fold_left (fun a d => a * 10 + d) ds acc).
Proof.
  intros H; revert acc; induction H; intros; cbn; [done|].
  by rewrite dec_val_digit.
Qed.

Lemma dec_digits_spec fuel n : 0 <= n < 10 ^ Z.of_nat fuel -> (0 < fuel)%nat ->
  Forall (fun d => 0 <= d < 10) (dec_digits fuel n) /\
  fold_left (fun a d => a * 10 + d) (dec_digits fuel n) 0 = n /\ dec_digits fuel n <> [].
Proof.
  revert n; induction fuel as [|fuel IH]; intros n Hn Hf; [lia|]. cbn [dec_digits].
  case_if; to_prop.
  - split_and!; [constructor; [lia|constructor]|cbn; lia|done].
  - rewrite Nat2Z.inj_succ, Z.pow_succ_r in Hn by lia.
    assert (fuel <> 0%nat) by (intros ->; cbn in Hn; lia).
    assert (0 <= n / 10 < 10 ^ Z.of_nat fuel)
      by (split; [apply Z.div_pos; lia|apply Z.div_lt_upper_bound; lia]).
    destruct (IH (n / 10)) as (H1&H2&H3); [done|lia|].
    split_and!.
    + apply Forall_app; split; [done|]. constructor; [|constructor].
      apply Z.mod_pos_bound. lia.
    + rewrite fold_left_app, H2. cbn. pose proof (Z.div_mod n 10). lia.
    + by destruct (dec_digits fuel (n / 10)).
Qed.

(** Decimal printing and parsing are inverse on 64-bit numbers. *)
Lemma parse_dec_fmt n : 0 <= n < 2 ^ 64 -> parse_dec (fmt_nat n) = Some n.
Proof.
  intros Hn. unfold fmt_nat.
  destruct (dec_digits_spec 20 n) as (H1&H2&H3); [cbn; lia|lia|].
  transitivity (dec_scan 0 (str_of (digit_char <$> dec_digits 20 n))).
  - destruct (dec_digits 20 n); [done|]. reflexivity.
  - rewrite dec_scan_digits by done. by rewrite H2.
Qed.

(** No character outside the decimal digits occurs in a printed number. *)
Lemma fmt_nat_any f n : 0 <= n < 2 ^ 64 ->
  (forall d, 0 <= d < 10 -> f (digit_char d) = false) -> str_any f (fmt_nat n) = false.
Proof.
  intros Hn Hf. unfold fmt_nat. rewrite str_any_str_of.
  destruct (dec_digits_spec 20 n) as (H1&_); [cbn; lia|lia|].
  induction H1; cbn; [done|]. by rewrite Hf.
Qed.

Lemma fmt_nat_nonempty n : 0 <= n < 2 ^ 64 -> fmt_nat n <> "".
Proof. intros Hn H. pose proof (parse_dec_fmt n Hn) as P. by rewrite H in P. Qed.

Lemma fmt_nat_inj n m : 0 <= n < 2 ^ 64 -> 0 <= m < 2 ^ 64 -> fmt_nat n = fmt_nat m -> n = m.
Proof.
  intros Hn Hm H. apply parse_dec_fmt in Hn, Hm. rewrite H in Hn. congruence.
Qed.

Lemma parse_int32_fmt n : 0 <= n < 2 ^ 31 -> parse_int32 (fmt_nat n) = Some n.
Proof.
  intros Hn. unfold parse_int32. pose proof (parse_dec_fmt n) as Hp.
  assert (Hc : forall c, dec_val c = None -> str_any (fun a => bool_decide (a = c)) (fmt_nat n) = false).
  { intros c Hc. apply fmt_nat_any; [lia|]. intros d Hd. apply bool_decide_false. intros <-.
    by rewrite dec_val_digit in Hc. }
  pose proof (Hc "+"%char eq_refl) as Hplus. pose proof (Hc "-"%char eq_refl) as Hminus.
  assert (Hr : (- 2 ^ 31 <=? n) && (n <? 2 ^ 31) = true)
    by (apply andb_true_iff; split; [apply Z.leb_le|apply Z.ltb_lt]; lia).
  destruct (fmt_nat n) as [|c s]; [by specialize (Hp ltac:(lia))|].
  cbn [str_any] in Hplus, Hminus. apply orb_false_iff in Hplus as [H1 _], Hminus as [H2 _].
  apply bool_decide_eq_false in H1, H2.
  destruct c as [[] [] [] [] [] [] [] []]; try done; rewrite Hp by lia; cbn [mbind option_bind]; by rewrite Hr.
Qed.

Lemma parse_uint32_fmt n : 0 <= n < 2 ^ 32 -> parse_uint32 (fmt_nat n) = Some n.
Proof.
  intros Hn. unfold parse_uint32. rewrite parse_dec_fmt by lia. cbn. case_if; to_prop; [done|lia].
Qed.
