(* ===== verification/GoNet.v ===== *)
(** * Addresses: the parts of Go's [net] and [net/netip] the program uses

    A [net.IP] is a byte slice: a list of bytes, [[]] for [nil].  A [netip.Addr]
    is a family and a number; zones only occur in the text parser, which returns
    them beside the address.  A [net.IPNet] keeps its address and mask bytes. *)

From S2P Require Import Prelude GoText.
Local Open Scope Z_scope.

(** ** Big-endian byte strings *)

Definition byte (b : Z) : Prop := 0 <= b < 256.
Abbreviation IP := (list Z).

Definition be_acc (acc : Z) (l : list Z) : Z := fold_left (fun a b => a * 256 + b) l acc.
Definition be (l : list Z) : Z := be_acc 0 l.

Fixpoint be_bytes (n : nat) (v : Z) : list Z :=
  match n with
  | O => []
  | S n => be_bytes n (v / 256) ++ [v mod 256]
  end.

(** ** [netip.Addr] *)

Record Addr := MkAddr { Is4 : bool; aval : Z }.

#[export] Instance Addr_eq_dec : EqDecision Addr.
Proof. solve_decision. Defined.
#[export] Instance Addr_countable : Countable Addr.
Proof.
  apply (inj_countable' (fun a => (Is4 a, aval a)) (fun p => MkAddr p.1 p.2)).
  by intros [].
Defined.

Definition Is6 (a : Addr) : bool := negb (Is4 a).
Definition BitLen (a : Addr) : Z := if Is4 a then 32 else 128.
Definition addr_wf (a : Addr) : Prop := 0 <= aval a < 2 ^ BitLen a.

(** The number of ::ffff:0:0, the IPv4-mapped prefix. *)
Definition v4mapped : Z := 65535 * 2 ^ 32.

Definition Is4In6 (a : Addr) : bool := Is6 a && (Z.shiftr (aval a) 32 =? 65535).
Definition Unmap (a : Addr) : Addr :=
  if Is4In6 a then MkAddr true (aval a mod 2 ^ 32) else a.
Definition AsSlice (a : Addr) : list Z := be_bytes (if Is4 a then 4 else 16) (aval a).
Definition As16 (a : Addr) : list Z :=
  be_bytes 16 (if Is4 a then v4mapped + aval a else aval a).
(** [Next] is the zero [Addr] past the last address of the family. *)
Definition Next (a : Addr) : option Addr :=
  if aval a + 1 <? 2 ^ BitLen a then Some (MkAddr (Is4 a) (aval a + 1)) else None.

Definition AddrFromSlice (s : list Z) : option Addr :=
  match length s with
  | 4%nat => Some (MkAddr true (be s))
  | 16%nat => Some (MkAddr false (be s))
  | _ => None
  end.

(** [Addr.Compare]: by bit length, then by value. *)
Definition addr_compare (a b : Addr) : comparison :=
  match (BitLen a ?= BitLen b) with Eq => (aval a ?= aval b) | c => c end.

(** ** [netip.Prefix] *)

Record Prefix := MkPrefix { paddr : Addr; pbits : Z }.

#[export] Instance Prefix_eq_dec : EqDecision Prefix.
Proof. solve_decision. Defined.
#[export] Instance Prefix_countable : Countable Prefix.
Proof.
  apply (inj_countable' (fun a => (paddr a, pbits a)) (fun p => MkPrefix p.1 p.2)).
  by intros [].
Defined.

Definition prefix_wf (p : Prefix) : Prop := addr_wf (paddr p) /\ 0 <= pbits p <= BitLen (paddr p).

(** Keep the leading [bits] of a [w]-bit number. *)
Definition mask_val (w bits v : Z) : Z := Z.shiftl (Z.shiftr v (w - bits)) (w - bits).

Definition Masked (p : Prefix) : Prefix :=
  let a := paddr p in
  MkPrefix (MkAddr (Is4 a) (mask_val (BitLen a) (pbits p) (aval a))) (pbits p).

Definition masked (p : Prefix) : Prop := Masked p = p.

Definition Contains (p : Prefix) (a : Addr) : bool :=
  Bool.eqb (Is4 (paddr p)) (Is4 a) &&
  (Z.shiftr (Z.lxor (aval (paddr p)) (aval a)) (BitLen a - pbits p) =? 0).

(** ** [net.IP] and [net.IPNet] *)

Definition v4InV6Prefix : list Z := [0;0;0;0;0;0;0;0;0;0;255;255].

Definition To4 (ip : IP) : option IP :=
  match length ip with
  | 4%nat => Some ip
  | 16%nat => if decide (take 12 ip = v4InV6Prefix) then Some (drop 12 ip) else None
  | _ => None
  end.

Definition To16 (ip : IP) : option IP :=
  match length ip with
  | 4%nat => Some (v4InV6Prefix ++ ip)
  | 16%nat => Some ip
  | _ => None
  end.

Definition IP_Equal (a b : IP) : bool :=
  if decide (length a = length b) then bool_decide (a = b)
  else if decide (length a = 4%nat /\ length b = 16%nat) then
    bool_decide (take 12 b = v4InV6Prefix /\ a = drop 12 b)
  else if decide (length a = 16%nat /\ length b = 4%nat) then
    bool_decide (take 12 a = v4InV6Prefix /\ drop 12 a = b)
  else false.

Record IPNet := MkIPNet { inIP : IP; inMask : list Z }.

(** [simpleMaskLength]: the length of a mask of ones followed by zeros.  The
    inner loop counts the leading ones of the first byte that is not 0xff. *)
Fixpoint lead_ones (fuel : nat) (v n : Z) : Z * Z :=
  match fuel with
  | O => (n, v)
  | S fuel => if Z.testbit v 7 then lead_ones fuel ((v * 2) mod 256) (n + 1) else (n, v)
  end.

Fixpoint mask_len (mask : list Z) : option Z :=
  match mask with
  | [] => Some 0
  | v :: rest =>
      if v =? 255 then (fun n => n + 8) <$> mask_len rest
      else
        let '(n, v) := lead_ones 8 v 0 in
        if negb (v =? 0) then None
        else if forallb (fun b => b =? 0) rest then Some n else None
  end.

(** [IPMask.Size]: (ones, bits), or (0, 0) for a mask not in canonical form. *)
Definition Mask_Size (mask : list Z) : Z * Z :=
  match mask_len mask with
  | Some n => (n, Z.of_nat (length mask) * 8)
  | None => (0, 0)
  end.

(** [net.CIDRMask]. *)
Definition CIDRMask (ones : Z) (bits : nat) : list Z :=
  be_bytes (bits / 8) (mask_val (Z.of_nat bits) ones (2 ^ Z.of_nat bits - 1)).

(** [IP.Mask]: [[]] when address and mask lengths do not fit. *)
Definition IP_Mask (ip : IP) (mask : list Z) : IP :=
  let mask := if decide (length mask = 16%nat /\ length ip = 4%nat /\ take 12 mask = replicate 12 255)
              then drop 12 mask else mask in
  let ip := if decide (length mask = 4%nat /\ length ip = 16%nat /\ take 12 ip = v4InV6Prefix)
            then drop 12 ip else ip in
  if decide (length ip = length mask) then zip_with Z.land ip mask else [].

(** ** Text *)

(** [parseIPv4Fields]: four octets without leading zeros. [digLen] digits of the
    current octet were read, and its value so far is [val]. *)
Fixpoint v4_fields (s : string) (val : Z) (digLen : nat) (fields : list Z) : option (list Z) :=
  match s with
  | EmptyString => if decide (length fields = 3%nat) then Some (fields ++ [val]) else None
  | String c rest =>
      match dec_val c with
      | Some d =>
          if decide (digLen = 1%nat /\ val = 0) then None
          else if 255 <? val * 10 + d then None
          else v4_fields rest (val * 10 + d) (S digLen) fields
      | None =>
          if decide (c = "."%char) then
            if decide (digLen = O \/ rest = EmptyString) then None
            else if decide (length fields = 3%nat) then None
            else v4_fields rest 0 O (fields ++ [val])
          else None
      end
  end.

(** The digits of one hexadecimal group: its value, how many there were, the rest. *)
Fixpoint v6_group (s : string) (acc : Z) (off : nat) : option (Z * nat * string) :=
  match s with
  | EmptyString => Some (acc, off, EmptyString)
  | String c rest =>
      match hex_val c with
      | Some d => if decide (3 < off)%nat then None else v6_group rest (acc * 16 + d) (S off)
      | None => Some (acc, off, s)
      end
  end.

(** The rest of a string after one expected byte. *)
Definition after (c : ascii) (s : string) : option string :=
  match s with
  | String d rest => if decide (d = c) then Some rest else None
  | EmptyString => None
  end.

(** The loop of [parseIPv6]: [ip] holds the bytes read, [ell] the position of the
    ellipsis.  It runs at most eight times. *)
Fixpoint v6_loop (fuel : nat) (s : string) (ip : list Z) (ell : option nat)
    : option (list Z * option nat * string) :=
  match fuel with
  | O => Some (ip, ell, s)
  | S fuel =>
      '(acc, off, rest) ← v6_group s 0 0;
      if decide (off = O) then None
      else match after "." rest with
      | Some _ =>
          if decide (ell = None /\ length ip <> 12%nat) then None
          else if decide (16 < length ip + 4)%nat then None
          else f ← v4_fields s 0 0 []; Some (ip ++ f, ell, EmptyString)
      | None =>
          let ip := ip ++ be_bytes 2 acc in
          if decide (rest = EmptyString) then Some (ip, ell, EmptyString)
          else
            rest ← after ":" rest;
            if decide (rest = EmptyString) then None
            else match after ":" rest with
            | None => v6_loop fuel rest ip ell
            | Some rest =>
                if decide (ell <> None) then None
                else if decide (rest = EmptyString) then Some (ip, Some (length ip), EmptyString)
                else v6_loop fuel rest ip (Some (length ip))
            end
      end
  end.

Definition v6_expand (r : list Z * option nat * string) : option (list Z) :=
  let '(ip, ell, s) := r in
  match s with
  | EmptyString =>
      if decide (length ip < 16)%nat then
        e ← ell; Some (take e ip ++ replicate (16 - length ip) 0 ++ drop e ip)
      else match ell with Some _ => None | None => Some ip end
  | _ => None
  end.

(** [parseIPv6]: the address and its zone. *)
Definition parse_v6 (s : string) : option (Addr * string) :=
  '(s, zone) ← (match cut "%"%char s with
                | Some (_, EmptyString) => None
                | Some (s, zone) => Some (s, zone)
                | None => Some (s, EmptyString)
                end);
  match after ":" s ≫= after ":" with
  | Some rest =>
      if decide (rest = EmptyString) then Some (MkAddr false 0, zone)
      else r ← v6_loop 8 rest [] (Some O); ip ← v6_expand r; Some (MkAddr false (be ip), zone)
  | None => r ← v6_loop 8 s [] None; ip ← v6_expand r; Some (MkAddr false (be ip), zone)
  end.

(** [netip.ParseAddr]: the first of ['.'], [':'] and ['%'] decides. *)
Fixpoint parse_addr_at (s full : string) : option (Addr * string) :=
  match s with
  | EmptyString => None
  | String c s =>
      if decide (c = "."%char) then
        f ← v4_fields full 0 0 []; Some (MkAddr true (be f), EmptyString)
      else if decide (c = ":"%char) then parse_v6 full
      else if decide (c = "%"%char) then None
      else parse_addr_at s full
  end.
Definition ParseAddr (s : string) : option (Addr * string) := parse_addr_at s s.

(** [net.ParseIP]: sixteen bytes, or [[]] ([nil]). *)
Definition ParseIP (s : string) : IP :=
  match ParseAddr s with
  | Some (a, EmptyString) => As16 a
  | _ => []
  end.

(** [net.ParseCIDR].  Its [dtoi] also stops at 0xFFFFFF, far above the largest
    prefix length; leading zeros of the length are accepted. *)
Definition ParseCIDR (s : string) : option (IP * IPNet) :=
  '(addr, mask) ← cut "/"%char s;
  '(a, zone) ← ParseAddr addr;
  if decide (zone <> EmptyString) then None
  else
    n ← parse_dec mask;
    if BitLen a <? n then None
    else
      let m := CIDRMask n (Z.to_nat (BitLen a)) in
      Some (As16 a, MkIPNet (IP_Mask (As16 a) m) m).

(** [strings.LastIndex] of a byte, as a cut. *)
Fixpoint cut_last (sep : ascii) (s : string) : option (string * string) :=
  match s with
  | EmptyString => None
  | String c s =>
      match cut_last sep s with
      | Some (a, b) => Some (String c a, b)
      | None => if decide (c = sep) then Some (EmptyString, s) else None
      end
  end.

(** [netip.ParsePrefix]: a prefix length of more than one byte must start with a
    digit from 1 to 9. *)
Definition ParsePrefix (s : string) : option Prefix :=
  '(addr, bits) ← cut_last "/"%char s;
  '(a, zone) ← ParseAddr addr;
  if decide (zone <> EmptyString) then None
  else
    let lead := match bits with
                | String c (String _ _) => (49 <=? code c) && (code c <=? 57)
                | _ => true
                end in
    if negb lead then None
    else
      n ← parse_dec bits;
      if BitLen a <? n then None else Some (MkPrefix a n).

(** ** Lemmas *)

Lemma be_acc_spec l acc : be_acc acc l = acc * 256 ^ Z.of_nat (length l) + be l.
Proof.
  unfold be. revert acc; induction l as [|b l IH]; intros acc; cbn [be_acc fold_left length].
  - cbn. lia.
  - change (be_acc (acc * 256 + b) l = acc * 256 ^ Z.of_nat (S (length l)) + be_acc (0 * 256 + b) l).
    rewrite IH, (IH (0 * 256 + b)), Nat2Z.inj_succ, Z.pow_succ_r by lia. lia.
Qed.

Lemma be_app a b : be (a ++ b) = be a * 256 ^ Z.of_nat (length b) + be b.
Proof. unfold be at 1, be_acc. rewrite fold_left_app. apply be_acc_spec. Qed.

Lemma be_cons b l : be (b :: l) = b * 256 ^ Z.of_nat (length l) + be l.
Proof. change (b :: l) with ([b] ++ l). by rewrite be_app. Qed.

Lemma be_bound l : Forall byte l -> 0 <= be l < 256 ^ Z.of_nat (length l).
Proof.
  induction 1 as [|b l Hb _ IH]; [done|]. unfold byte in Hb.
  rewrite be_cons. cbn [length]. rewrite Nat2Z.inj_succ, Z.pow_succ_r by lia. nia.
Qed.

Lemma be_bytes_length n v : length (be_bytes n v) = n.
Proof. revert v; induction n; intros; cbn; [done|]. rewrite length_app, IHn. cbn. lia. Qed.

Lemma be_bytes_byte n v : Forall byte (be_bytes n v).
Proof.
  revert v; induction n; intros; cbn; [constructor|]. apply Forall_app; split; [done|].
  constructor; [|constructor]. apply Z.mod_pos_bound. lia.
Qed.

Lemma be_be_bytes n v : 0 <= v < 256 ^ Z.of_nat n -> be (be_bytes n v) = v.
Proof.
  revert v; induction n; intros v Hv; [cbn in *; lia|].
  rewrite Nat2Z.inj_succ, Z.pow_succ_r in Hv by lia.
  cbn [be_bytes]. rewrite be_app, IHn.
  - cbn. pose proof (Z.div_mod v 256). lia.
  - split; [apply Z.div_pos; lia|apply Z.div_lt_upper_bound; lia].
Qed.

Lemma be_inj a b : Forall byte a -> Forall byte b -> length a = length b -> be a = be b -> a = b.
Proof.
  intros Ha; revert b; induction Ha as [|x a Hx Ha IH]; intros b Hb Hl He.
  - by destruct b.
  - destruct Hb as [|y b Hy Hb]; [done|]. cbn in Hl. injection Hl as Hl.
    rewrite !be_cons, Hl in He.
    pose proof (be_bound _ Ha). pose proof (be_bound _ Hb). rewrite Hl in *.
    unfold byte in *.
    assert (x = y) as -> by nia. f_equal. apply IH; [done..|lia].
Qed.

Lemma be_bytes_be l : Forall byte l -> be_bytes (length l) (be l) = l.
Proof.
  intros Hl. apply be_inj; [apply be_bytes_byte|done|by rewrite be_bytes_length|].
  apply be_be_bytes. by apply be_bound.
Qed.

Lemma BitLen_range a : BitLen a = 32 \/ BitLen a = 128.
Proof. unfold BitLen. destruct (Is4 a); auto. Qed.

(** Two numbers agree on their leading bits. *)
Lemma shiftr_lxor_0 a b k : Z.shiftr (Z.lxor a b) k = 0 <-> Z.shiftr a k = Z.shiftr b k.
Proof.
  rewrite Z.shiftr_lxor. split; [apply Z.lxor_eq|]. intros ->. apply Z.lxor_nilpotent.
Qed.

Lemma Contains_spec p a :
  Contains p a = true <->
  Is4 (paddr p) = Is4 a /\ Z.shiftr (aval (paddr p)) (BitLen a - pbits p) = Z.shiftr (aval a) (BitLen a - pbits p).
Proof.
  unfold Contains. rewrite andb_true_iff, Z.eqb_eq, shiftr_lxor_0, Bool.eqb_true_iff. done.
Qed.

Lemma mask_val_shiftr w bits v : 0 <= bits <= w ->
  Z.shiftr (mask_val w bits v) (w - bits) = Z.shiftr v (w - bits).
Proof. intros. unfold mask_val. rewrite Z.shiftr_shiftl_l by lia. by rewrite Z.sub_diag, Z.shiftl_0_r. Qed.

Lemma mask_val_idem w bits v : 0 <= bits <= w -> mask_val w bits (mask_val w bits v) = mask_val w bits v.
Proof. intros. unfold mask_val at 1. by rewrite mask_val_shiftr. Qed.

Lemma mask_val_bound w bits v : 0 <= bits <= w -> 0 <= v < 2 ^ w -> 0 <= mask_val w bits v <= v.
Proof.
  intros. unfold mask_val. rewrite Z.shiftl_mul_pow2, Z.shiftr_div_pow2 by lia.
  assert (0 < 2 ^ (w - bits)) by (apply Z.pow_pos_nonneg; lia).
  pose proof (Z.div_mod v (2 ^ (w - bits))). pose proof (Z.mod_pos_bound v (2 ^ (w - bits))).
  pose proof (Z.div_pos v (2 ^ (w - bits))). nia.
Qed.

Lemma Masked_wf p : prefix_wf p -> prefix_wf (Masked p).
Proof.
  intros [Ha Hb]. split; [|done]. unfold addr_wf in *.
  pose proof (mask_val_bound _ _ _ Hb Ha).
  change (0 <= mask_val (BitLen (paddr p)) (pbits p) (aval (paddr p)) < 2 ^ BitLen (paddr p)). lia.
Qed.

Lemma Masked_masked p : prefix_wf p -> masked (Masked p).
Proof.
  intros [_ Hb]. unfold masked, Masked. cbn. f_equal. f_equal.
  unfold BitLen. cbn. by apply mask_val_idem.
Qed.

Lemma Masked_Contains p a : prefix_wf p -> Contains (Masked p) a = Contains p a.
Proof.
  intros [Hw Hb]. apply eq_bool_prop_intro. rewrite !Is_true_true, !Contains_spec. cbn.
  split; intros [H1 H2]; (split; [done|]); unfold BitLen in *; rewrite <-H1 in *;
    by rewrite ?mask_val_shiftr in *.
Qed.

Lemma AddrFromSlice_wf s a : Forall byte s -> AddrFromSlice s = Some a -> addr_wf a.
Proof.
  intros Hs. unfold AddrFromSlice, addr_wf, BitLen. pose proof (be_bound _ Hs) as B.
  destruct (length s) as [|[|[|[|[|[|[|[|[|[|[|[|[|[|[|[|[|]]]]]]]]]]]]]]]]] eqn:E; try done;
    intros [= <-]; cbn in *; lia.
Qed.

(** ** The text parsers return well-formed addresses *)

Lemma v4_fields_wf s val n fields r : 0 <= val < 256 -> Forall byte fields ->
  v4_fields s val n fields = Some r -> Forall byte r /\ length r = 4%nat.
Proof.
  revert val n fields; induction s as [|c s IH]; intros val n fields Hv Hf; cbn.
  - case_decide; [|done]. intros [= <-]. rewrite length_app, Forall_app. cbn.
    rewrite Forall_singleton. split; [by split|lia].
  - unfold dec_val. destruct ((48 <=? code c) && (code c <=? 57)) eqn:E; to_prop.
    + case_decide; [done|]. case_if; [done|]. to_prop. apply IH; [lia|done].
    + do 3 (case_decide; try done). apply IH; [lia|]. rewrite Forall_app, Forall_singleton. done.
Qed.

Lemma v6_loop_wf fuel s ip ell r : Forall byte ip -> (length ip + 2 * fuel = 16)%nat ->
  (forall e, ell = Some e -> e <= length ip)%nat ->
  v6_loop fuel s ip ell = Some r ->
  Forall byte r.1.1 /\ (length r.1.1 <= 16)%nat /\
  (forall e, r.1.2 = Some e -> e <= length r.1.1)%nat.
Proof.
  revert s ip ell; induction fuel as [|fuel IH]; intros s ip ell Hip Hl He; cbn [v6_loop].
  { intros [= <-]. cbn. split_and!; [done|lia|done]. }
  destruct (v6_group s 0 0) as [[[acc off] rest]|]; [|done]. cbn [mbind option_bind].
  case_decide; [done|].
  assert (Forall byte (ip ++ be_bytes 2 acc)) as Hip' by (apply Forall_app; auto using be_bytes_byte).
  assert (length (ip ++ be_bytes 2 acc) = S (S (length ip))) as Hl' by (rewrite length_app, be_bytes_length; lia).
  assert (forall e, ell = Some e -> e <= length (ip ++ be_bytes 2 acc))%nat as He'
    by (intros e Hee%He; lia).
  set (ip' := ip ++ be_bytes 2 acc) in *. clearbody ip'.
  assert (forall e, Some (length ip') = Some e -> e <= length ip')%nat as He'' by (by intros ? [= ->]).
  destruct (after "." rest) as [?|].
  - do 2 (case_decide; [done|]). destruct (v4_fields s 0 0 []) as [f|] eqn:E; [|done].
    cbn. intros [= <-]. cbn. apply v4_fields_wf in E as [Hb Hb4]; [|lia|constructor].
    rewrite length_app, Forall_app. split_and!; [done|done|lia|]. intros e Hee%He. lia.
  - case_decide; [intros [= <-]; split_and!; [done|cbn; lia|done]|].
    destruct (after ":" rest) as [rest'|]; [|done]. cbn [mbind option_bind].
    case_decide; [done|]. destruct (after ":" rest') as [rest''|].
    + case_decide; [done|]. case_decide.
      * intros [= <-]. split_and!; [done|cbn; lia|done].
      * apply IH; [done|lia|done].
    + apply IH; [done|lia|done].
Qed.

Lemma v6_expand_wf r ip : Forall byte r.1.1 -> (length r.1.1 <= 16)%nat ->
  (forall e, r.1.2 = Some e -> e <= length r.1.1)%nat ->
  v6_expand r = Some ip -> Forall byte ip /\ length ip = 16%nat.
Proof.
  destruct r as [[ip' ell] s]; cbn. intros Hb Hl He. destruct s; [|done].
  case_decide.
  - destruct ell as [e|]; [|done]. cbn. intros [= <-]. specialize (He e eq_refl).
    rewrite !length_app, length_replicate, length_take, length_drop. split; [|lia].
    rewrite !Forall_app. split_and!; [by apply Forall_take|by apply Forall_replicate|by apply Forall_drop].
  - destruct ell; [done|]. intros [= <-]. split; [done|lia].
Qed.

Lemma be16_wf ip : Forall byte ip -> length ip = 16%nat -> addr_wf (MkAddr false (be ip)).
Proof. intros Hb Hl. unfold addr_wf. pose proof (be_bound ip Hb) as B. rewrite Hl in B. exact B. Qed.

Lemma parse_v6_wf s a z : parse_v6 s = Some (a, z) -> addr_wf a.
Proof.
  assert (forall s' ell, (ell = None \/ ell = Some O) ->
    forall z', (r ← v6_loop 8 s' [] ell; ip ← v6_expand r; Some (MkAddr false (be ip), z')) = Some (a, z) ->
    addr_wf a) as Hgo.
  { intros s' ell Hell z'. destruct (v6_loop 8 s' [] ell) as [r|] eqn:E; [|done]. cbn.
    destruct (v6_expand r) as [ip|] eqn:Ee; [|done]. cbn. intros [= <- _].
    apply v6_loop_wf in E as (?&?&?); [|constructor|done|intros e ->; naive_solver lia].
    apply v6_expand_wf in Ee as [? ?]; [by apply be16_wf|done..]. }
  unfold parse_v6. destruct (match cut "%" s with Some _ => _ | None => _ end) as [[s' z']|]; [|done].
  cbn [mbind option_bind].
  destruct (after ":" s' ≫= after ":") as [rest|]; [|by apply Hgo; left].
  case_decide; [by intros [= <- _]|by apply Hgo; right].
Qed.

Lemma ParseAddr_wf s a z : ParseAddr s = Some (a, z) -> addr_wf a.
Proof.
  unfold ParseAddr. generalize s at 1. intros s0. induction s0 as [|c s0 IH]; cbn; [done|].
  case_decide.
  - destruct (v4_fields s 0 0 []) as [f|] eqn:E; [|done]. cbn. intros [= <- _].
    apply v4_fields_wf in E as [Hb Hl]; [|lia|constructor].
    unfold addr_wf. pose proof (be_bound f Hb) as B. rewrite Hl in B. exact B.
  - case_decide; [apply parse_v6_wf|]. by case_decide.
Qed.

Lemma dec_scan_nonneg acc s n : 0 <= acc -> dec_scan acc s = Some n -> 0 <= n.
Proof.
  revert acc; induction s as [|c s IH]; intros acc Ha; cbn; [by intros [= <-]|].
  destruct (dec_val c) as [d|] eqn:E; [|done]. apply IH.
  unfold dec_val in E. case_if; [|done]. to_prop. injection E as <-. lia.
Qed.

Lemma parse_dec_nonneg s n : parse_dec s = Some n -> 0 <= n.
Proof. destruct s; [done|]. by apply dec_scan_nonneg. Qed.

Lemma ParsePrefix_wf s p : ParsePrefix s = Some p -> prefix_wf p.
Proof.
  unfold ParsePrefix. destruct (cut_last "/" s) as [[x y]|]; [|done]. cbn.
  destruct (ParseAddr x) as [[a z]|] eqn:Ea; [|done]. cbn.
  case_decide; [done|]. case_if; [done|]. destruct (parse_dec y) as [n|] eqn:En; [|done]. cbn.
  case_if; [done|]. intros [= <-]. to_prop. split; cbn; [by eapply ParseAddr_wf|].
  apply parse_dec_nonneg in En. lia.
Qed.

(** A number is its own mask when the low bits are zero. *)
Lemma mask_val_id w bits v : 0 <= bits <= w -> mask_val w bits v = v <-> v mod 2 ^ (w - bits) = 0.
Proof.
  intros. unfold mask_val. rewrite Z.shiftl_mul_pow2, Z.shiftr_div_pow2 by lia.
  assert (0 < 2 ^ (w - bits)) by (apply Z.pow_pos_nonneg; lia).
  pose proof (Z.div_mod v (2 ^ (w - bits))). lia.
Qed.

Example parse_examples :
  ParseAddr "10.1.2.3" = Some (MkAddr true 167838211, "") /\
  ParseAddr "010.1.2.3" = None /\
  ParseAddr "64:ff9b::10.1.2.3" = Some (MkAddr false (be [0;100;255;155;0;0;0;0;0;0;0;0;10;1;2;3]), "") /\
  ParseAddr "fe80::1%eth0" = Some (MkAddr false (be [254;128;0;0;0;0;0;0;0;0;0;0;0;0;0;1]), "eth0") /\
  ParseAddr "1::2::3" = None /\ ParseAddr "1:2:3:4:5:6:7::8" = None /\
  ParsePrefix "10.0.0.0/8" = Some (MkPrefix (MkAddr true 167772160) 8) /\
  ParsePrefix "10.0.0.0/08" = None /\
  (snd <$> ParseCIDR "10.1.2.3/08") = Some (MkIPNet [10;0;0;0] [255;0;0;0]) /\
  (snd <$> ParseCIDR "::ffff:10.0.0.1/120") =
    Some (MkIPNet [0;0;0;0;0;0;0;0;0;0;255;255;10;0;0;0]
            [255;255;255;255;255;255;255;255;255;255;255;255;255;255;255;0]).
Proof. vm_compute. repeat split. Qed.
