(* ===== verification/Sha256.v ===== *)
(** * SHA-256, the part of Go's [crypto/sha256] the agent uses (FIPS 180-4)

    Words are 32-bit numbers; a message is a list of bytes.  The three published test
    vectors at the end evaluate the function. *)

From S2P Require Import Prelude GoText GoNet.
Local Open Scope Z_scope.

Definition rotr (n x : Z) : Z := Z.lor (Z.shiftr x n) (u32 (Z.shiftl x (32 - n))).

(** The constants of FIPS 180-4 are the first 32 bits of the fractional parts of the cube and
    square roots of the first primes; they are computed from that description. *)
Definition is_prime (n : Z) : bool := forallb (fun d => negb (n mod d =? 0)) (seqZ 2 (n - 2)).
Definition first_primes (k : nat) : list Z := take k (filter (fun n => is_prime n = true) (seqZ 2 311)).

(** The integer cube root, a bit at a time. *)
Fixpoint cube_root (bits : nat) (root n : Z) : Z :=
  match bits with
  | O => root
  | S bits =>
      let next := root + 2 ^ Z.of_nat bits in
      cube_root bits (if next * next * next <=? n then next else root) n
  end.

Definition round_constants : list Z :=
  Eval vm_compute in (fun p => cube_root 36 0 (p * 2 ^ 96) mod 2 ^ 32) <$> first_primes 64.
Definition initial_hash : list Z :=
  Eval vm_compute in (fun p => Z.sqrt (p * 2 ^ 64) mod 2 ^ 32) <$> first_primes 8.

(** Groups of [n] elements; a shorter rest is dropped. *)
Fixpoint chunks {A} (fuel n : nat) (l : list A) : list (list A) :=
  match fuel with
  | O => []
  | S fuel => if decide (length l < n)%nat then [] else take n l :: chunks fuel n (drop n l)
  end.

(** The message schedule: [w] holds the words so far, latest first. *)
Fixpoint schedule (rounds : nat) (w : list Z) : list Z :=
  match rounds with
  | O => w
  | S rounds =>
      let w15 := nth 14 w 0 in
      let w2 := nth 1 w 0 in
      let s0 := Z.lxor (Z.lxor (rotr 7 w15) (rotr 18 w15)) (Z.shiftr w15 3) in
      let s1 := Z.lxor (Z.lxor (rotr 17 w2) (rotr 19 w2)) (Z.shiftr w2 10) in
      schedule rounds (u32 (nth 15 w 0 + s0 + nth 6 w 0 + s1) :: w)
  end.

Definition round (h : list Z) (kw : Z * Z) : list Z :=
  match h with
  | [a; b; c; d; e; f; g; h] =>
      let s1 := Z.lxor (Z.lxor (rotr 6 e) (rotr 11 e)) (rotr 25 e) in
      let ch := Z.lxor (Z.land e f) (Z.land (Z.lxor e 0xffffffff) g) in
      let t1 := u32 (h + s1 + ch + kw.1 + kw.2) in
      let s0 := Z.lxor (Z.lxor (rotr 2 a) (rotr 13 a)) (rotr 22 a) in
      let maj := Z.lxor (Z.lxor (Z.land a b) (Z.land a c)) (Z.land b c) in
      let t2 := u32 (s0 + maj) in
      [u32 (t1 + t2); a; b; c; u32 (d + t1); e; f; g]
  | _ => h
  end.

Definition compress (h : list Z) (block : list Z) : list Z :=
  let words := be <$> chunks 16 4 block in
  let w := reverse (schedule 48 (reverse words)) in
  zip_with (fun x y => u32 (x + y)) h (fold_left round (zip round_constants w) h).

(** One 0x80 byte, zeros up to eight bytes short of a block, the bit length. *)
Definition pad (msg : list Z) : list Z :=
  let n := Z.of_nat (length msg) in
  msg ++ [0x80] ++ replicate (Z.to_nat ((55 - n) mod 64)) 0 ++ be_bytes 8 (8 * n).

(** [sha256.Sum256]. *)
Definition Sum256 (msg : list Z) : list Z :=
  let padded := pad msg in
  mjoin (be_bytes 4 <$> fold_left compress (chunks (length padded) 64 padded) initial_hash).

(** The bytes of a Go string. *)
Fixpoint bytes_of (s : string) : list Z :=
  match s with EmptyString => [] | String c s => code c :: bytes_of s end.

Lemma bytes_of_app a b : bytes_of (a +:+ b) = bytes_of a ++ bytes_of b.
Proof. induction a as [|c a IH]; cbn; [done|]. by rewrite IH. Qed.

Lemma bytes_of_byte s : Forall byte (bytes_of s).
Proof.
  induction s as [|c s IH]; cbn; constructor; [|done]. unfold byte, code.
  pose proof (Ascii.N_ascii_bounded c). lia.
Qed.

Lemma fold_round_length h l : length h = 8%nat -> length (fold_left round l h) = 8%nat.
Proof.
  revert h. induction l as [|kw l IH]; intros h Hh; cbn; [done|]. apply IH.
  unfold round. repeat (destruct h as [|? h]; try done).
Qed.

Lemma compress_length h block : length h = 8%nat -> length (compress h block) = 8%nat.
Proof. intros Hh. unfold compress. rewrite length_zip_with, fold_round_length, Hh; done. Qed.

Lemma Sum256_length msg : length (Sum256 msg) = 32%nat.
Proof.
  unfold Sum256. set (l := chunks _ _ _). clearbody l.
  assert (forall h, length h = 8%nat -> length (fold_left compress l h) = 8%nat) as Hl.
  { induction l as [|b l IH]; intros h Hh; cbn; [done|]. apply IH. by apply compress_length. }
  specialize (Hl initial_hash eq_refl). destruct (fold_left compress l initial_hash) as [|x0 h]; [done|].
  do 7 (destruct h as [|? h]; [done|]). destruct h; [|done]. done.
Qed.

Lemma Sum256_byte msg : Forall byte (Sum256 msg).
Proof.
  unfold Sum256. generalize (fold_left compress (chunks (length (pad msg)) 64 (pad msg)) initial_hash). intros l.
  induction l as [|x l IH]; [constructor|]. cbn [fmap list_fmap]. change (mjoin (?a :: ?k)) with (a ++ mjoin k).
  apply Forall_app. split; [apply be_bytes_byte|done].
Qed.

Example Sum256_empty : hex_encode (Sum256 []) = "e3b0c44298fc1c149afbf4c8996fb92427ae41e4649b934ca495991b7852b855".
Proof. vm_compute. reflexivity. Qed.
Example Sum256_abc : hex_encode (Sum256 (bytes_of "abc")) = "ba7816bf8f01cfea414140de5dae2223b00361a396177a9cb410ff61f20015ad".
Proof. vm_compute. reflexivity. Qed.
Example Sum256_two_blocks :
  hex_encode (Sum256 (bytes_of "abcdbcdecdefdefgefghfghighijhijkijkljklmklmnlmnomnopnopq"))
  = "248d6a61d20638b8e5c026930c3e6039a33ce45964ff2167f6ecedd419db06c1".
Proof. vm_compute. reflexivity. Qed.
