(* ===== verification/GoJson.v ===== *)
(** * JSON text: the part of Go's [encoding/json] the program uses

    [json.Marshal] of strings, integers, booleans, slices, pointers and structs, over bytes.
    Strings are escaped the way [Marshal] does it: HTML characters too, and a byte that is not
    part of well-formed UTF-8 becomes the replacement character. *)
From S2P Require Import Prelude GoText GoNet Sha256.
Local Open Scope Z_scope.

Inductive json :=
| JNull
| JBool (b : bool)
| JInt (n : Z)
| JStr (s : string)
| JArr (l : list json)
| JObj (l : list (string * json)).

(** A [u] escape. *)
Definition escape (hex : list Z) : list Z := [92; 117] ++ hex.
Definition low_hex (b : Z) : list Z := code <$> [digit_char (b / 16); digit_char (b mod 16)].

(** A byte below 0x80. *)
Definition quote_ascii (b : Z) : list Z :=
  if (b =? 34) || (b =? 92) then [92; b]
  else if b =? 8 then [92; 98] else if b =? 12 then [92; 102]
  else if b =? 10 then [92; 110] else if b =? 13 then [92; 114] else if b =? 9 then [92; 116]
  else if (b <? 32) || (b =? 60) || (b =? 62) || (b =? 38)
  then escape (bytes_of "00" ++ low_hex b)
  else [b].

Definition in_range (lo hi b : Z) : bool := (lo <=? b) && (b <=? hi).
Definition continuation (b : Z) : bool := in_range 0x80 0xbf b.

(** The second byte a leading byte allows. *)
Definition second_ok (b0 b1 : Z) : bool :=
  if b0 =? 0xe0 then in_range 0xa0 0xbf b1 else if b0 =? 0xed then in_range 0x80 0x9f b1
  else if b0 =? 0xf0 then in_range 0x90 0xbf b1 else if b0 =? 0xf4 then in_range 0x80 0x8f b1
  else continuation b1.

Definition replacement : list Z := escape (bytes_of "fffd").

(** The body of a string literal. *)
Fixpoint quote_bytes (l : list Z) : list Z :=
  match l with
  | [] => []
  | b0 :: r0 =>
      if b0 <? 0x80 then quote_ascii b0 ++ quote_bytes r0
      else if in_range 0xc2 0xdf b0 then
        match r0 with
        | b1 :: r1 => if continuation b1 then [b0; b1] ++ quote_bytes r1 else replacement ++ quote_bytes r0
        | [] => replacement
        end
      else if in_range 0xe0 0xef b0 then
        match r0 with
        | b1 :: ((b2 :: r2) as r1) =>
            if second_ok b0 b1 && continuation b2 then
              (if (b0 =? 0xe2) && (b1 =? 0x80) && ((b2 =? 0xa8) || (b2 =? 0xa9))
               then escape (bytes_of (if b2 =? 0xa8 then "2028" else "2029")) else [b0; b1; b2]) ++ quote_bytes r2
            else replacement ++ quote_bytes r0
        | _ => replacement ++ quote_bytes r0
        end
      else if in_range 0xf0 0xf4 b0 then
        match r0 with
        | b1 :: b2 :: b3 :: r3 =>
            if second_ok b0 b1 && continuation b2 && continuation b3 then [b0; b1; b2; b3] ++ quote_bytes r3
            else replacement ++ quote_bytes r0
        | _ => replacement ++ quote_bytes r0
        end
      else replacement ++ quote_bytes r0
  end.

Definition quote_string (s : string) : list Z := [34] ++ quote_bytes (bytes_of s) ++ [34].

Definition commas (l : list (list Z)) : list Z :=
  match l with [] => [] | x :: l => x ++ mjoin ((fun y => 44 :: y) <$> l) end.

Fixpoint marshal (j : json) : list Z :=
  match j with
  | JNull => bytes_of "null"
  | JBool b => bytes_of (if b then "true" else "false")
  | JInt n => bytes_of (fmt_d n)
  | JStr s => quote_string s
  | JArr l => [91] ++ commas (marshal <$> l) ++ [93]
  | JObj l => [123] ++ commas ((fun e => quote_string e.1 ++ [58] ++ marshal e.2) <$> l) ++ [125]
  end.

Definition to_text (l : list Z) : string := str_of (chr <$> l).

Example marshal_escapes :
  marshal (JStr (utf8 [97; 34; 60; 10; 1; 0xe2; 0x80; 0xa8; 0xc3; 0xa9; 0xff])) =
  [34; 97; 92; 34] ++ escape (bytes_of "003c") ++ [92; 110] ++ escape (bytes_of "0001") ++ escape (bytes_of "2028") ++ [0xc3; 0xa9] ++ escape (bytes_of "fffd") ++ [34].
Proof. by vm_compute. Qed.

Example marshal_struct : to_text (marshal (JObj [("a", JArr [JInt (-3); JBool true]); ("b", JNull)])) =
  String (chr 123) (String (chr 34) ("a" +:+ String (chr 34) (":[-3,true]," +:+ String (chr 34) ("b" +:+ String (chr 34) ":null}")))).
Proof. by vm_compute. Qed.
