(* ===== verification/Warnings.v ===== *)
(** * Compiler limits and warnings (cmd/agent/policy_limits.go, cmd/agent/warnings.go)

    The policy compilers collect warnings and the agent logs each one once while it
    persists.  Both the collection and the memory of what was logged are bounded. *)

From S2P Require Import Prelude GoText GoNet Sha256.
Local Open Scope Z_scope.

(** [policyRowLimit], cmd/agent/policy_limits.go:13-13. *)
Definition policyRowLimit : Z := 65536.
(** [policyWorkLimit], cmd/agent/policy_limits.go:14-14. *)
Definition policyWorkLimit : Z := Z.shiftl 1 20.

(** [maxCompileWarnings], cmd/agent/warnings.go:5-5. *)
Definition maxCompileWarnings : nat := 512.

(** [addCompileWarnings], cmd/agent/warnings.go:34-43. *)
Definition addCompileWarnings {A} (warnings values : list A) : list A :=
  let room := (maxCompileWarnings + 1 - length warnings)%nat in
  warnings ++ take room values.

(** [compileWarnings], the hashes of the warnings of the last snapshot,
    cmd/agent/warnings.go:9-9. *)
Definition compileWarnings : Type := gset (list Z).

(** [compileWarnings.update], the loop: the hashes so far, the warnings not seen in the
    previous snapshot, and whether the loop stopped at the bound,
    cmd/agent/warnings.go:15-28. *)
Fixpoint scan (previous next : gset (list Z)) (fresh : list string) (warnings : list string) :
    gset (list Z) * list string * bool :=
  match warnings with
  | [] => (next, fresh, false)
  | warning :: rest =>
      let key := Sum256 (bytes_of warning) in
      if decide (key ∈ next) then scan previous next fresh rest
      else if decide (maxCompileWarnings <= size next)%nat then (next, fresh, true)
      else scan previous ({[key]} ∪ next) (if decide (key ∈ previous) then fresh else fresh ++ [warning]) rest
  end.

(** [compileWarnings.update], cmd/agent/warnings.go:15-28. *)
Definition update (previous : compileWarnings) (warnings : list string) : compileWarnings * (list string * bool) :=
  let '(next, fresh, full) := scan previous ∅ [] warnings in
  (next, (fresh, bool_decide (maxCompileWarnings < length warnings)%nat || full)).

(** ** Bounds and deduplication *)

Lemma addCompileWarnings_length {A} (warnings values : list A) :
  (length warnings <= maxCompileWarnings + 1)%nat ->
  (length (addCompileWarnings warnings values) <= maxCompileWarnings + 1)%nat.
Proof. intros. unfold addCompileWarnings. rewrite length_app, length_take. lia. Qed.

(** The invariant of the loop. *)
Lemma scan_spec previous next fresh warnings :
  (size next <= maxCompileWarnings)%nat -> (length fresh <= size next)%nat ->
  Forall (fun w => Sum256 (bytes_of w) ∉ previous /\ Sum256 (bytes_of w) ∈ next) fresh ->
  let '(next', fresh', _) := scan previous next fresh warnings in
  (size next' <= maxCompileWarnings)%nat /\ (length fresh' <= size next')%nat /\ next ⊆ next' /\
  Forall (fun w => Sum256 (bytes_of w) ∉ previous /\ Sum256 (bytes_of w) ∈ next') fresh' /\
  (forall w, w ∈ fresh' -> w ∈ fresh \/ w ∈ warnings) /\
  (forall k, k ∈ next' -> k ∈ next \/ exists w, w ∈ warnings /\ k = Sum256 (bytes_of w)).
Proof.
  revert next fresh. induction warnings as [|w ws IH]; intros next fresh Hn Hl Hf; cbn [scan].
  { repeat (split; [done|]). split; [by left|by left]. }
  set (key := Sum256 (bytes_of w)). destruct (decide (key ∈ next)) as [Hin|Hin].
  { specialize (IH next fresh Hn Hl Hf). destruct (scan previous next fresh ws) as [[next' fresh'] full].
    destruct IH as (? & ? & ? & ? & H5 & H6). repeat (split; [done|]). split.
    - intros x Hx. destruct (H5 x Hx); [by left|right; set_solver].
    - intros k Hk. destruct (H6 k Hk) as [|(x & ? & ?)]; [by left|right; exists x; set_solver]. }
  destruct (decide (maxCompileWarnings <= size next)%nat) as [Hfull|Hroom].
  { repeat (split; [done|]). split; [by left|by left]. }
  assert (size ({[key]} ∪ next) = S (size next)) as Es by (rewrite size_union, size_singleton by set_solver; done).
  set (fresh1 := if decide (key ∈ previous) then fresh else fresh ++ [w]).
  specialize (IH ({[key]} ∪ next) fresh1 ltac:(lia)).
  destruct (scan previous ({[key]} ∪ next) fresh1 ws) as [[next' fresh'] full].
  destruct IH as (? & ? & ? & ? & H5 & H6).
  - unfold fresh1. case_decide; rewrite ?length_app; cbn; lia.
  - assert (Forall (fun x => Sum256 (bytes_of x) ∉ previous /\ Sum256 (bytes_of x) ∈ {[key]} ∪ next) fresh) as Hf'.
    { eapply Forall_impl; [exact Hf|]. cbn. intros x []. split; [done|set_solver]. }
    unfold fresh1. case_decide; [done|]. apply Forall_app. split; [done|]. apply Forall_singleton. split; [done|set_solver].
  - split; [done|]. split; [done|]. split; [set_solver|]. split; [done|]. split.
    + intros x Hx. destruct (H5 x Hx) as [Hx'|]; [|right; set_solver]. unfold fresh1 in Hx'. case_decide; [by left|].
      apply elem_of_app in Hx' as [|Hx']; [by left|]. right. set_solver.
    + intros k Hk. destruct (H6 k Hk) as [Hk'|(x & ? & ?)]; [|right; exists x; set_solver].
      apply elem_of_union in Hk' as [Hk'|]; [|by left]. apply elem_of_singleton in Hk' as ->. right. exists w. set_solver.
Qed.

(** Which hashes are kept does not depend on what was logged before. *)
Lemma scan_next previous previous' next fresh fresh' warnings :
  (scan previous next fresh warnings).1.1 = (scan previous' next fresh' warnings).1.1 /\
  (scan previous next fresh warnings).2 = (scan previous' next fresh' warnings).2.
Proof.
  revert next fresh fresh'. induction warnings as [|w ws IH]; intros next fresh fresh'; cbn [scan]; [done|].
  case_decide; [apply IH|]. case_decide; [done|]. apply IH.
Qed.

(** Every key the loop adds ends up in the result. *)
Lemma scan_quiet previous next warnings : (size next <= maxCompileWarnings)%nat ->
  (scan previous next [] warnings).1.1 ⊆ previous -> (scan previous next [] warnings).1.2 = [].
Proof.
  revert next. induction warnings as [|w ws IH]; intros next Hn; cbn [scan]; [done|].
  case_decide; [by apply IH|]. case_decide; [done|]. set (key := Sum256 (bytes_of w)) in *. intros Hsub.
  assert (size ({[key]} ∪ next) = S (size next)) as Es by (rewrite size_union, size_singleton by set_solver; done).
  assert (key ∈ previous) as Hk.
  { apply Hsub. pose proof (scan_spec previous ({[key]} ∪ next) [] ws ltac:(lia) ltac:(cbn; lia) (Forall_nil_2 _)) as Hs.
    rewrite (proj1 (scan_next previous previous _ _ [] ws)).
    destruct (scan previous ({[key]} ∪ next) [] ws) as [[next' fresh'] full]. cbn. set_solver. }
  rewrite (decide_True (P := key ∈ previous)) in * by done. apply IH; [lia|done].
Qed.

(** Logging is bounded and does not repeat itself: at most 512 hashes are remembered and
    at most 512 warnings reported, every reported warning belongs to the snapshot and was not
    in the previous one, and a snapshot seen twice in a row is reported only once. *)
Theorem update_bounded_fresh previous warnings :
  let '(next, (fresh, truncated)) := update previous warnings in
  (size next <= maxCompileWarnings)%nat /\ (length fresh <= maxCompileWarnings)%nat /\
  (forall w, w ∈ fresh -> w ∈ warnings /\ Sum256 (bytes_of w) ∉ previous) /\
  update next warnings = (next, ([], truncated)).
Proof.
  unfold update. pose proof (scan_spec previous ∅ [] warnings) as Hs. pose proof (scan_next previous (scan previous ∅ [] warnings).1.1 ∅ [] [] warnings) as [E1 E2].
  pose proof (scan_quiet (scan previous ∅ [] warnings).1.1 ∅ warnings) as Hq.
  destruct (scan previous ∅ [] warnings) as [[next fresh] full]. cbn [fst snd] in *.
  destruct Hs as (H1 & H2 & _ & H4 & H5 & _); [rewrite size_empty; lia|rewrite size_empty; cbn; lia|constructor|].
  split; [done|]. split; [lia|]. split.
  { intros w Hw. destruct (H5 w Hw) as [[]%not_elem_of_nil|Hin]. split; [done|].
    eapply Forall_forall in H4; [|exact Hw]. apply H4. }
  rewrite <-E1 in Hq. specialize (Hq ltac:(rewrite size_empty; lia) ltac:(done)).
  destruct (scan next ∅ [] warnings) as [[next2 fresh2] full2]. cbn [fst snd] in *. by subst.
Qed.
