(* ===== verification/CidrOverlap.v ===== *)
(** * Overlap of two CIDR lists (api/sdn/v1alpha1/cidr.go)

    [CIDRsOverlap] decides whether two VPCs may be peered.  The code sorts one
    list, keeps a disjoint subsequence of it and searches that by bisection; the
    main theorem is that the answer is the naive one: some prefix of [a] and some
    prefix of [b] have an address in common. *)

From S2P Require Import Prelude GoText GoNet.
Local Open Scope Z_scope.

(** [overlapPrefix], api/sdn/v1alpha1/cidr.go:71-82. *)
Definition overlapPrefix (value : string) : option Prefix :=
  p ← ParsePrefix value;
  let p := Masked p in
  if Is4In6 (paddr p) && (96 <=? pbits p)
  then Some (MkPrefix (Unmap (paddr p)) (pbits p - 96))
  else Some p.

(** [slices.SortFunc] is given this comparison, by address, the containing prefix
    first, api/sdn/v1alpha1/cidr.go:42-47. *)
Definition prefix_cmp (a b : Prefix) : comparison :=
  match addr_compare (paddr a) (paddr b) with
  | Eq => pbits a ?= pbits b
  | order => order
  end.

Definition prefix_le (a b : Prefix) : Prop := prefix_cmp a b <> Gt.

#[export] Instance prefix_le_dec : RelDecision prefix_le.
Proof. intros a b. unfold prefix_le. apply _. Defined.

(** [disjoint], the prefixes no earlier one contains, api/sdn/v1alpha1/cidr.go:50-55. *)
Definition keep_disjoint (disjoint : list Prefix) (prefix : Prefix) : list Prefix :=
  match last disjoint with
  | None => disjoint ++ [prefix]
  | Some l => if negb (Contains l (paddr prefix)) then disjoint ++ [prefix] else disjoint
  end.

(** [slices.BinarySearchFunc] on the start addresses: the loop halves [i, j).
    [length l] rounds are enough. *)
Fixpoint search (fuel : nat) (l : list Prefix) (t : Addr) (i j : nat) : nat :=
  match fuel with
  | O => i
  | S fuel =>
      if decide (i < j)%nat then
        let h := ((i + j) / 2)%nat in
        match l !! h with
        | None => i
        | Some p =>
            match addr_compare (paddr p) t with
            | Lt => search fuel l t (S h) j
            | _ => search fuel l t i h
            end
        end
      else i
  end.

(** [CIDRsOverlap], one prefix of [a] against the disjoint list,
    api/sdn/v1alpha1/cidr.go:57-67. *)
Definition overlap_one (disjoint : list Prefix) (an : Prefix) : bool :=
  let i := search (length disjoint) disjoint (paddr an) 0 (length disjoint) in
  match disjoint !! i with
  | Some d => Contains an (paddr d)
  | None => false
  end ||
  (match i with
   | O => false
   | S i => match disjoint !! i with
            | Some d => Contains d (paddr an)
            | None => false
            end
   end).

(** [CIDRsOverlap], api/sdn/v1alpha1/cidr.go:32-69. *)
Definition CIDRsOverlap (a b : list string) : bool :=
  match a, b with
  | [], _ | _, [] => false
  | _, _ =>
      let prefixes := merge_sort prefix_le (omap overlapPrefix b) in
      let disjoint := fold_left keep_disjoint prefixes [] in
      existsb (fun v => match overlapPrefix v with
                        | Some an => overlap_one disjoint an
                        | None => false
                        end) a
  end.

(** ** Prefixes as intervals

    Addresses are numbered so that the order of [Addr.Compare] is the order of
    the numbers: all of IPv4 first. *)
Definition pos (a : Addr) : Z := (if Is4 a then 0 else 2 ^ 32) + aval a.
Definition size_of (p : Prefix) : Z := 2 ^ (BitLen (paddr p) - pbits p).
Definition lo (p : Prefix) : Z := pos (paddr p).
Definition hi (p : Prefix) : Z := lo p + size_of p - 1.

(** What [overlapPrefix] returns: a well-formed prefix with no host bits. *)
Definition canon (p : Prefix) : Prop := prefix_wf p /\ masked p.

Lemma addr_compare_pos a b : addr_wf a -> addr_wf b -> addr_compare a b = (pos a ?= pos b).
Proof.
  unfold addr_wf, addr_compare, pos, BitLen. intros Ha Hb.
  destruct (Is4 a), (Is4 b); cbn [Z.compare Pos.compare Pos.compare_cont]; symmetry.
  - by rewrite !Z.add_0_l.
  - apply Z.compare_lt_iff. lia.
  - apply Z.compare_gt_iff. lia.
  - apply Z.add_compare_mono_l.
Qed.

Lemma pos_inj a b : addr_wf a -> addr_wf b -> pos a = pos b -> a = b.
Proof.
  destruct a as [[] a], b as [[] b]; unfold addr_wf, pos, BitLen; cbn; intros; f_equal; lia.
Qed.

Lemma size_of_pos p : prefix_wf p -> 0 < size_of p.
Proof. intros [_ ?]. apply Z.pow_pos_nonneg; lia. Qed.

Lemma masked_divides p : canon p -> exists q, aval (paddr p) = q * size_of p.
Proof.
  intros [[_ Hb] Hm]. unfold masked, Masked in Hm.
  exists (Z.shiftr (aval (paddr p)) (BitLen (paddr p) - pbits p)).
  unfold size_of. rewrite <-Z.shiftl_mul_pow2 by lia.
  destruct p as [[f v] n]. cbn in *. injection Hm as Hm. by symmetry.
Qed.

Lemma div_interval q s a : 0 < s -> q = a / s <-> q * s <= a <= q * s + s - 1.
Proof.
  intros Hs. pose proof (Z.div_mod a s). pose proof (Z.mod_pos_bound a s). split.
  - intros ->. nia.
  - intros. apply (Z.div_unique _ _ _ (a - q * s)); nia.
Qed.

(** A prefix stays within the numbers of its family. *)
Lemma val_upper p : canon p -> aval (paddr p) + size_of p <= 2 ^ BitLen (paddr p).
Proof.
  intros Hc. pose proof (size_of_pos p (proj1 Hc)). destruct (masked_divides p Hc) as [q Hq].
  destruct Hc as [[Hp Hb] _]. unfold addr_wf in Hp.
  assert (2 ^ BitLen (paddr p) = 2 ^ pbits p * size_of p) as He
    by (unfold size_of; rewrite <-Z.pow_add_r by lia; f_equal; lia).
  rewrite He, Hq in *. assert (q < 2 ^ pbits p) by nia. nia.
Qed.

(** Containment is membership in the interval. *)
Lemma Contains_interval p a : canon p -> addr_wf a ->
  Contains p a = true <-> lo p <= pos a <= hi p.
Proof.
  intros Hc Ha. pose proof (size_of_pos p (proj1 Hc)) as Hs. pose proof (val_upper p Hc) as Hu.
  destruct (masked_divides p Hc) as [q Hq]. rewrite Contains_spec.
  destruct Hc as [[Hp Hb] _]. unfold hi, lo, pos, addr_wf in *.
  assert (Is4 (paddr p) = Is4 a -> BitLen (paddr p) = BitLen a) as Hl by (unfold BitLen; by intros ->).
  destruct (bool_decide (Is4 (paddr p) = Is4 a)) eqn:E; to_prop.
  - rewrite !Z.shiftr_div_pow2 by (rewrite <-Hl by done; lia). rewrite <-Hl by done.
    fold (size_of p). rewrite Hq, Z.div_mul by lia. rewrite div_interval by done.
    rewrite E. split; [lia|]. intros; split; [done|lia].
  - split; [by intros [? _]|]. unfold BitLen in *. destruct (Is4 (paddr p)), (Is4 a); lia || done.
Qed.

(** Prefixes are nested or disjoint: a prefix that starts inside another one, at or
    after its start and not before it in the sort order, lies inside it. *)
Lemma laminar p q : canon p -> canon q -> prefix_le p q ->
  lo p <= lo q <= hi p -> hi q <= hi p.
Proof.
  intros Hp Hq Hle Hi.
  assert (Contains p (paddr q) = true) as Hc by (apply Contains_interval; [done|apply Hq|done]).
  apply Contains_spec in Hc as [Hf _].
  assert (BitLen (paddr p) = BitLen (paddr q)) as Hl by (unfold BitLen; by rewrite Hf).
  pose proof (size_of_pos p (proj1 Hp)). pose proof (size_of_pos q (proj1 Hq)).
  destruct (masked_divides p Hp) as [x Hx], (masked_divides q Hq) as [y Hy].
  destruct Hp as [[Hp Hbp] _], Hq as [[Hq Hbq] _].
  unfold hi, lo, pos in *. rewrite Hf in *.
  destruct (decide (pbits p <= pbits q)) as [Hb|Hb].
  - assert (exists k, size_of p = k * size_of q /\ 0 < k) as (k&Hk&Hk0).
    { exists (2 ^ (pbits q - pbits p)). unfold size_of. rewrite Hl, <-Z.pow_add_r by lia.
      split; [f_equal; lia|apply Z.pow_pos_nonneg; lia]. }
    rewrite Hx, Hy, Hk in *. generalize dependent (size_of q); intros z **.
    assert (y < x * k + k) by (apply (Z.mul_lt_mono_pos_r z); lia). nia.
  - exfalso. assert (exists k, size_of q = k * size_of p /\ 1 < k) as (k&Hk&Hk0).
    { exists (2 ^ (pbits p - pbits q)). unfold size_of. rewrite Hl, <-Z.pow_add_r by lia.
      split; [f_equal; lia|apply Z.pow_gt_1; lia]. }
    assert (x = k * y).
    { rewrite Hx, Hy, Hk in *. clear -Hi H. generalize dependent (size_of p); intros z **.
      assert (x <= k * y) by (apply (Z.mul_le_mono_pos_r _ _ z); lia).
      assert (k * y < x + 1) by (apply (Z.mul_lt_mono_pos_r z); lia). lia. }
    apply Hle. unfold prefix_cmp. rewrite addr_compare_pos by done. unfold pos. rewrite Hf.
    rewrite Hx, Hy, Hk in *. replace (y * (k * size_of p)) with (x * size_of p) by (subst; ring).
    rewrite Z.compare_refl. apply Z.compare_gt_iff. lia.
Qed.

(** ** The sort order *)

Lemma prefix_le_lex p q :
  prefix_le p q <->
  BitLen (paddr p) < BitLen (paddr q) \/
  BitLen (paddr p) = BitLen (paddr q) /\
    (aval (paddr p) < aval (paddr q) \/
     aval (paddr p) = aval (paddr q) /\ pbits p <= pbits q).
Proof.
  unfold prefix_le, prefix_cmp, addr_compare.
  destruct (Z.compare_spec (BitLen (paddr p)) (BitLen (paddr q))),
    (Z.compare_spec (aval (paddr p)) (aval (paddr q))),
    (Z.compare_spec (pbits p) (pbits q)); split; intros; lia || done.
Qed.

#[export] Instance prefix_le_total : Total prefix_le.
Proof. intros p q. rewrite !prefix_le_lex. lia. Qed.

#[export] Instance prefix_le_trans : Transitive prefix_le.
Proof. intros p q r. rewrite !prefix_le_lex. lia. Qed.

Lemma prefix_le_lo p q : canon p -> canon q -> prefix_le p q -> lo p <= lo q.
Proof.
  intros [[Hp _] _] [[Hq _] _]. rewrite prefix_le_lex. unfold lo, pos, addr_wf, BitLen in *.
  destruct (Is4 (paddr p)), (Is4 (paddr q)); lia.
Qed.

(** ** The disjoint list *)

(** Intervals in order, with nothing shared. *)
Definition apart (p q : Prefix) : Prop := hi p < lo q.

Lemma keep_disjoint_spec l : Forall canon l -> StronglySorted prefix_le l ->
  let D := fold_left keep_disjoint l [] in
  D ⊆ l /\ StronglySorted apart D /\
  (forall p, p ∈ l -> exists d, d ∈ D /\ lo d <= lo p /\ hi p <= hi d).
Proof.
  induction l as [|x l IH] using rev_ind; intros Hc Hs; cbn.
  { split_and!; [done|constructor|]. intros p Hp%not_elem_of_nil. done. }
  apply Forall_app in Hc as [Hc Hx]. apply Forall_cons_1 in Hx as [Hx _].
  apply StronglySorted_app in Hs as (Hle&Hs&_).
  destruct (IH Hc Hs) as (Hsub&Hap&Hcov). clear IH. rewrite fold_left_app. cbn.
  set (D := fold_left keep_disjoint l []) in *. clearbody D.
  assert (forall d, d ∈ D -> canon d /\ prefix_le d x /\ lo d <= lo x) as HD.
  { intros d Hd. assert (d ∈ l) by auto. assert (canon d) by (by eapply Forall_forall).
    assert (prefix_le d x) by (apply Hle; [done|set_solver]).
    split; [done|]. split; [done|]. by apply prefix_le_lo. }
  unfold keep_disjoint. destruct (last D) as [y|] eqn:Ely.
  2: { apply last_None in Ely. rewrite Ely in *. cbn. split_and!; [set_solver|by repeat constructor|].
       intros p [Hp|Hp]%elem_of_app; [destruct (Hcov p Hp) as (d&Hd&_); set_solver|].
       apply list_elem_of_singleton in Hp as ->. exists x. set_solver. }
  apply last_Some in Ely as [D' Ely].
  assert (y ∈ D) as Hy by (rewrite Ely; set_solver).
  destruct (HD y Hy) as (Hcy&Hly&Hloy).
  destruct (Contains y (paddr x)) eqn:Ec; cbn.
  - apply Contains_interval in Ec; [|done|apply Hx]. fold (lo x) in Ec.
    split_and!; [set_solver|done|]. intros p [Hp|Hp]%elem_of_app; [by apply Hcov|].
    apply list_elem_of_singleton in Hp as ->. exists y. split_and!; [done|lia|by apply laminar].
  - assert (hi y < lo x) as Hgap.
    { destruct (Z.lt_ge_cases (hi y) (lo x)) as [|Hge]; [done|].
      rewrite (proj2 (Contains_interval y (paddr x) Hcy (proj1 (proj1 Hx)))) in Ec by (fold (lo x); lia). done. }
    split_and!.
    + set_solver.
    + apply StronglySorted_app; split_and!; [|done|by repeat constructor].
      intros d x' Hd Hx'%list_elem_of_singleton. subst x'. unfold apart.
      rewrite Ely in Hd, Hap. apply elem_of_app in Hd as [Hd|Hd].
      * assert (hi d < lo y) by (apply (StronglySorted_app_1_elem_of _ _ _ _ _ Hap); [done|set_solver]).
        lia.
      * by apply list_elem_of_singleton in Hd as ->.
    + intros p [Hp|Hp]%elem_of_app.
      * destruct (Hcov p Hp) as (d&Hd&?). exists d. set_solver.
      * apply list_elem_of_singleton in Hp as ->. exists x. set_solver.
Qed.

(** ** The bisection finds the first prefix that does not start before [t]. *)
Lemma search_spec fuel D t i j : Forall canon D -> StronglySorted apart D -> addr_wf t ->
  (i <= j <= length D)%nat -> (j - i <= fuel)%nat ->
  (forall k p, (k < i)%nat -> D !! k = Some p -> lo p < pos t) ->
  (forall k p, (j <= k)%nat -> D !! k = Some p -> pos t <= lo p) ->
  let r := search fuel D t i j in
  (r <= j)%nat /\
  (forall k p, (k < r)%nat -> D !! k = Some p -> lo p < pos t) /\
  (forall k p, (r <= k)%nat -> D !! k = Some p -> pos t <= lo p).
Proof.
  intros Hc Hs Ht. revert i j; induction fuel as [|fuel IH]; intros i j Hij Hf Hl Hr; cbn [search].
  { assert (i = j) as -> by lia. split; [lia|done]. }
  case_decide as Hlt; [|assert (i = j) as -> by lia; split; [lia|done]].
  set (h := ((i + j) / 2)%nat).
  assert (i <= h < j)%nat as Hh.
  { unfold h. pose proof (Nat.div_mod (i + j) 2). pose proof (Nat.mod_upper_bound (i + j) 2). lia. }
  destruct (lookup_lt_is_Some_2 D h) as [p Hp]; [lia|]. rewrite Hp.
  assert (canon p) as Hcp by (eapply Forall_lookup_1; eauto).
  assert (forall k q, D !! k = Some q -> (k < h)%nat -> lo q <= lo p) as Hbelow.
  { intros k q Hk Hkh. assert (canon q) as [Hwq _] by (eapply Forall_lookup_1; eauto).
    assert (apart q p) as Ha by (by eapply StronglySorted_lookup_lt).
    unfold apart, hi in Ha. pose proof (size_of_pos q Hwq). lia. }
  assert (forall k q, D !! k = Some q -> (h < k)%nat -> lo p <= lo q) as Habove.
  { intros k q Hk Hkh. assert (apart p q) as Ha by (by eapply StronglySorted_lookup_lt).
    unfold apart, hi in Ha. pose proof (size_of_pos p (proj1 Hcp)). lia. }
  rewrite addr_compare_pos by (done || apply Hcp). fold (lo p).
  assert (Hge : pos t <= lo p -> forall k q, (h <= k)%nat -> D !! k = Some q -> pos t <= lo q).
  { intros Hpt k q Hk Hq. destruct (decide (k = h)) as [->|]; [congruence|].
    specialize (Habove k q Hq). lia. }
  destruct (Z.compare_spec (lo p) (pos t)).
  1,3: destruct (IH i h) as (?&?&?); [lia|lia|done|apply Hge; lia|]; split_and!; [lia|done|done].
  apply IH; try lia; try done.
  intros k q Hk Hq. destruct (decide (k = h)) as [->|]; [congruence|].
  specialize (Hbelow k q Hq). lia.
Qed.

(** ** Correctness *)

Lemma overlapPrefix_canon v p : overlapPrefix v = Some p -> canon p.
Proof.
  unfold overlapPrefix. destruct (ParsePrefix v) as [p0|] eqn:Ep; [|done]. cbn [mbind option_bind].
  apply ParsePrefix_wf in Ep. pose proof (Masked_wf _ Ep) as Hw. pose proof (Masked_masked _ Ep) as Hm.
  set (m := Masked p0) in *. clearbody m. case_if; intros [= <-]; [|done]. to_prop.
  destruct m as [[f v0] n]. unfold Is4In6, Is6 in *. cbn in *. to_prop. subst f.
  unfold Unmap, Is4In6, Is6, canon, prefix_wf, addr_wf, masked, Masked, BitLen in *. cbn in *.
  destruct Hw as [Hv Hn]. injection Hm as Hm. apply mask_val_id in Hm; [|lia].
  rewrite (proj2 (Z.eqb_eq _ _)) by done. cbn. split_and!; try lia.
  { apply Z.mod_pos_bound. lia. } { apply Z.mod_pos_bound. lia. }
  f_equal. f_equal. apply mask_val_id; [lia|].
  replace (32 - (n - 96)) with (128 - n) by lia.
  rewrite <-Znumtheory.Zmod_div_mod; [done|lia|lia|].
  exists (2 ^ (n - 96)). rewrite <-Z.pow_add_r by lia. f_equal. lia.
Qed.

(** Two prefixes have an address in common. *)
Definition share (p q : Prefix) : Prop :=
  exists a, addr_wf a /\ Contains p a = true /\ Contains q a = true.

(** For intervals this is: one of them starts inside the other. *)
Lemma share_starts p q : canon p -> canon q ->
  share p q <-> lo p <= lo q <= hi p \/ lo q <= lo p <= hi q.
Proof.
  intros Hp Hq. unfold share. split.
  - intros (a&Ha&H1&H2). apply Contains_interval in H1, H2; [|done..]. lia.
  - pose proof (size_of_pos p (proj1 Hp)). pose proof (size_of_pos q (proj1 Hq)).
    intros [Hi|Hi]; [exists (paddr q)|exists (paddr p)].
    all: split_and!; [apply Hp || apply Hq|..]; apply Contains_interval; try done;
      (apply Hp || apply Hq || (unfold hi in *; fold (lo p); fold (lo q); lia)).
Qed.

Lemma overlap_one_spec l an : Forall canon l -> canon an ->
  overlap_one (fold_left keep_disjoint (merge_sort prefix_le l) []) an = true <->
  exists p, p ∈ l /\ share an p.
Proof.
  intros Hl Ha. pose proof (merge_sort_Permutation prefix_le l) as Hperm.
  assert (Forall canon (merge_sort prefix_le l)) as Hs by (by rewrite Hperm).
  destruct (keep_disjoint_spec _ Hs) as (Hsub&Hap&Hcov).
  { apply Sorted_StronglySorted; [apply _|]. apply Sorted_merge_sort, _. }
  set (D := fold_left keep_disjoint _ _) in *. clearbody D.
  assert (Forall canon D) as HD.
  { rewrite Forall_forall in Hs |- *. auto. }
  destruct (search_spec (length D) D (paddr an) 0 (length D)) as (Hrj&Hlt&Hge);
    [done|done|apply Ha|lia|lia|lia| |].
  { intros k p Hk Hp%lookup_lt_Some. lia. }
  unfold overlap_one. set (r := search _ _ _ _ _) in *. clearbody r. fold (lo an) in Hlt, Hge.
  assert (forall k d, D !! k = Some d -> canon d /\ d ∈ D) as Hin.
  { intros k d Hk. split; [by eapply Forall_lookup_1|]. by eapply list_elem_of_lookup_2. }
  rewrite orb_true_iff. split.
  - intros H. assert (exists d, d ∈ D /\ share an d) as (d&Hd&Hsh).
    { destruct H as [H|H]; [|destruct r as [|r]; [done|]];
        (destruct (D !! r) as [d|] eqn:E; [|done]); destruct (Hin _ _ E) as [Hcd Hd];
        exists d; (split; [done|]); apply share_starts; try done;
        (apply Contains_interval in H; [|done|apply Ha || apply Hcd]); fold (lo an) (lo d) in H; auto. }
    exists d. split; [|done]. by rewrite <-Hperm; apply Hsub.
  - intros (p&Hp&Hsh). rewrite <-Hperm in Hp. destruct (Hcov p Hp) as (d&Hd&Hlo&Hhi).
    assert (canon p) as Hcp by (by apply (proj1 (Forall_forall _ _) Hs)).
    apply list_elem_of_lookup in Hd as [k Hk]. destruct (Hin _ _ Hk) as [Hcd _].
    apply share_starts in Hsh; [|done..]. pose proof (size_of_pos p (proj1 Hcp)) as Hsz.
    pose proof (size_of_pos an (proj1 Ha)) as Hsa.
    assert (lo an <= lo d <= hi an \/ lo d < lo an <= hi d) as [H|H]; [unfold hi in *; lia|..].
    + left. destruct (decide (k < r)%nat) as [Hkr|Hkr]; [specialize (Hlt _ _ Hkr Hk); lia|].
      destruct (lookup_lt_is_Some_2 D r) as [e He]; [apply lookup_lt_Some in Hk; lia|]. rewrite He.
      destruct (Hin _ _ He) as [Hce _]. apply Contains_interval; [done|apply Hce|]. fold (lo e).
      specialize (Hge r e (le_n _) He). destruct (decide (k = r)) as [->|]; [simplify_eq; lia|].
      assert (apart e d) as Ha' by (eapply StronglySorted_lookup_lt; eauto; lia).
      pose proof (size_of_pos e (proj1 Hce)). unfold apart, hi in *. lia.
    + right. destruct (decide (r <= k)%nat) as [Hkr|Hkr]; [specialize (Hge _ _ Hkr Hk); lia|].
      destruct r as [|r]; [lia|].
      destruct (decide (k = r)) as [->|].
      { rewrite Hk. apply Contains_interval; [done|apply Ha|]. fold (lo an). lia. }
      destruct (lookup_lt_is_Some_2 D r) as [e He]; [lia|].
      assert (apart d e) as Ha' by (eapply StronglySorted_lookup_lt; eauto; lia).
      specialize (Hlt r e ltac:(lia) He). unfold apart in Ha'. lia.
Qed.

(** C35. The sorted, disjoint and bisected search of [CIDRsOverlap] answers exactly the
    question it is asked: some parsable prefix of [a] and some parsable prefix of [b]
    contain a common address. *)
Theorem CIDRsOverlap_correct a b :
  CIDRsOverlap a b = true <->
  exists x y p q, x ∈ a /\ y ∈ b /\ overlapPrefix x = Some p /\ overlapPrefix y = Some q /\ share p q.
Proof.
  assert (CIDRsOverlap a b = true <->
    existsb (fun v => match overlapPrefix v with
      | Some an => overlap_one (fold_left keep_disjoint (merge_sort prefix_le (omap overlapPrefix b)) []) an
      | None => false end) a = true) as ->.
  { unfold CIDRsOverlap. destruct a as [|a0 a]; [done|]. destruct b as [|b0 b]; [|done].
    split; [done|]. rewrite existsb_exists. intros (x&_&Hx). by destruct (overlapPrefix x). }
  assert (Forall canon (omap overlapPrefix b)) as Hb.
  { apply Forall_forall. intros p (y&_&Hy)%list_elem_of_omap. by eapply overlapPrefix_canon. }
  rewrite existsb_exists. split.
  - intros (x&Hx&H). destruct (overlapPrefix x) as [p|] eqn:Ex; [|done].
    apply overlap_one_spec in H as (q&(y&Hy&Hq)%list_elem_of_omap&Hsh);
      [|done|by eapply overlapPrefix_canon].
    exists x, y, p, q. split_and!; try done. by apply list_elem_of_In.
  - intros (x&y&p&q&Hx&Hy&Hp&Hq&Hsh). exists x. split; [by apply list_elem_of_In|]. rewrite Hp.
    apply overlap_one_spec; [done|by eapply overlapPrefix_canon|].
    exists q. split; [|done]. apply list_elem_of_omap. eauto.
Qed.
