(* ===== verification/AddrMap.v ===== *)
(** * Map addresses and prefixes (datapath/datapath.go, datapath/cidr.go,
      datapath/address128.go, datapath/services.go, pkg/netid)

    Every kernel map keys addresses as 16 bytes in network order: a v6 address as
    it is, a v4 address under 64:ff9b::/96.  A CIDR becomes such an address and a
    prefix length over 128 bits, with the family kept beside it where the map
    must not confuse the two. *)

From S2P Require Import Prelude GoText GoNet.
Local Open Scope Z_scope.

(** ** Identifiers *)

(** [FirstVNI], pkg/netid/netid.go:21-21. *)
Definition FirstVNI : Z := 100.
(** [LastVNI], pkg/netid/netid.go:23-23. *)
Definition LastVNI : Z := Z.shiftl 1 22 - 1.
(** [LastGroup], pkg/netid/netid.go:24-24. *)
Definition LastGroup : Z := 62.

(** [ValidVNI], pkg/netid/netid.go:27-27. *)
Definition ValidVNI (v : Z) : bool := (FirstVNI <=? v) && (v <=? LastVNI).

(** [ValidGroup], pkg/netid/netid.go:28-28. *)
Definition ValidGroup (v : Z) : bool := (1 <=? v) && (v <=? LastGroup).

(** [VNI], pkg/netid/netid.go:31-36. *)
Definition VNI (v : Z) : Z := if (v <? FirstVNI) || (LastVNI <? v) then 0 else u32 v.

(** [Group], pkg/netid/netid.go:38-43. *)
Definition Group (v : Z) : Z := if (v <? 1) || (LastGroup <? v) then 0 else u16 v.

(** [PortGatewayFlag], datapath/paths.go:106-106. *)
Definition PortGatewayFlag : Z := Z.shiftl 1 31.
(** [PortForwardFlag], datapath/paths.go:108-117. *)
Definition PortForwardFlag : Z := Z.shiftl 1 30.
(** [PortForwardScopedFlag], datapath/paths.go:124-124. *)
Definition PortForwardScopedFlag : Z := Z.shiftl 1 29.

(** [PortNet], datapath/paths.go:128-130. *)
Definition PortNet (v : Z) : Z :=
  Z.ldiff v (Z.lor (Z.lor PortGatewayFlag PortForwardFlag) PortForwardScopedFlag).

(** [QuarantineNet], datapath/paths.go:138-138. *)
Definition QuarantineNet : Z := 0xFFFFFFFF.

(** [htons], datapath/services.go:121-121. *)
Definition htons (p : Z) : Z := Z.lor (u16 (Z.shiftl p 8)) (Z.shiftr p 8).

(** ** Addresses *)

Definition nat64_head : list Z := [0; 0x64; 0xff; 0x9b] ++ replicate 8 0.

(** [addr128], datapath/datapath.go:476-488. *)
Definition addr128 (ip : IP) : result (list Z) :=
  match To4 ip with
  | Some v4 => Ok (nat64_head ++ v4)
  | None =>
      match To16 ip with
      | Some v6 => Ok v6
      | None => Err "invalid IP"
      end
  end.

(** [addr128Str], datapath/datapath.go:491-497. *)
Definition addr128Str (s : string) : result (list Z) :=
  let ip := ParseIP s in
  if decide (ip = []) then Err "invalid IP" else addr128 ip.

(** [addr128ToIP], datapath/datapath.go:501-512. *)
Definition addr128ToIP (a : list Z) : IP :=
  if decide (take 12 a = nat64_head) then drop 12 a else a.

(** [EncodeAddress128], datapath/address128.go:6-9. *)
Definition EncodeAddress128 (ip : IP) : result (list Z) := addr128 ip.

(** ** Prefixes *)

(** [normalizedCIDR], datapath/cidr.go:11-34.  A [nil] network is [None]. *)
Definition normalizedCIDR (cidr : option IPNet) : result Prefix :=
  match cidr with
  | None => Err "missing CIDR"
  | Some cidr =>
      let '(ones, bits) := Mask_Size (inMask cidr) in
      match AddrFromSlice (inIP cidr) with
      | None => Err "invalid CIDR address or mask"
      | Some addr =>
          if negb (bits =? 32) && negb (bits =? 128) then Err "invalid CIDR address or mask"
          else if bits =? 32 then
            let addr := Unmap addr in
            if negb (Is4 addr) then Err "IPv4 mask on IPv6 address"
            else Ok (Masked (MkPrefix addr ones))
          else if Is4 addr || Is4In6 addr then
            if 96 <=? ones then Ok (Masked (MkPrefix (Unmap addr) (ones - 96)))
            else if Is4 addr then Err "IPv6 mask on IPv4 address"
            else Ok (Masked (MkPrefix addr ones))
          else Ok (Masked (MkPrefix addr ones))
      end
  end.

(** [cidrPolicyPrefix], datapath/cidr.go:43-57: address, prefix length, family. *)
Definition cidrPolicyPrefix (cidr : option IPNet) : result (list Z * Z * Z) :=
  prefix ← normalizedCIDR cidr;
  addr ← addr128 (As16 (paddr prefix));
  mret (if Is4 (paddr prefix) then (addr, u32 (pbits prefix) + 96, 4)
        else (addr, u32 (pbits prefix), 6)).

(** [cidrAddressPrefix], datapath/cidr.go:38-41. *)
Definition cidrAddressPrefix (cidr : option IPNet) : result (list Z * Z) :=
  r ← cidrPolicyPrefix cidr; mret r.1.

(** [npCIDRDirection], datapath/cidr.go:59-64. *)
Definition npCIDRDirection (dir family : Z) : Z :=
  if family =? 4 then Z.lor dir 0x40 else Z.lor dir 0x80.

(** [overlayLpmKey], datapath/overlay_bpfel.go:236-241. *)
Record overlayLpmKey := MkLpmKey { lk_Prefixlen : Z; lk_ScopeNet : Z; lk_Addr : list Z }.

#[export] Instance overlayLpmKey_eq_dec : EqDecision overlayLpmKey.
Proof. solve_decision. Defined.
#[export] Instance overlayLpmKey_countable : Countable overlayLpmKey.
Proof.
  apply (inj_countable' (fun k => (lk_Prefixlen k, lk_ScopeNet k, lk_Addr k)) (fun '(a, b, c) => MkLpmKey a b c)).
  by intros [].
Defined.

(** [lpmKey], datapath/datapath.go:456-470. *)
Definition lpmKey (scope : Z) (cidr : string) : result overlayLpmKey :=
  match ParseCIDR cidr with
  | None => Err "parse CIDR"
  | Some (_, ipnet) =>
      '(addr, bits) ← cidrAddressPrefix (Some ipnet);
      mret (MkLpmKey (u32 (32 + bits)) scope addr)
  end.

(** ** Longest-prefix-match lookup

    The kernel's LPM trie compares the first [prefixlen] bits of the key bytes,
    most significant bit first.  For a 16-byte address tail this is agreement of
    the leading bits of its big-endian value. *)

Definition leading_match (bits : Z) (a b : list Z) : Prop :=
  Z.shiftr (be a) (128 - bits) = Z.shiftr (be b) (128 - bits).

(** ** Lemmas *)

(** The number behind an address' 16 map bytes. *)
Definition nat64_base : Z := Z.shiftl 0x64ff9b 96.
Definition enc (a : Addr) : Z := if Is4 a then nat64_base + aval a else aval a.

(** An address as the source's [net.IP] values denote it: v4 in its 32-bit form. *)
Definition plain (a : Addr) : Prop := addr_wf a /\ Is4In6 a = false.

Definition family_of (a : Addr) : Z := if Is4 a then 4 else 6.

Lemma family_cases a : family_of a = 4 \/ family_of a = 6.
Proof. unfold family_of. destruct (Is4 a); auto. Qed.

Lemma lead_ones_bound fuel v n : n <= (lead_ones fuel v n).1 <= n + Z.of_nat fuel.
Proof.
  revert v n. induction fuel as [|fuel IH]; intros v n; cbn [lead_ones]; [cbn; lia|].
  case_match; [pose proof (IH ((v * 2) mod 256) (n + 1)); lia|cbn; lia].
Qed.

Lemma mask_len_bound m n : mask_len m = Some n -> 0 <= n <= 8 * Z.of_nat (length m).
Proof.
  revert n. induction m as [|v m IH]; intros n; cbn [mask_len]; [intros [= <-]; done|].
  cbn [length]. case_match.
  - rewrite fmap_Some. intros (n' & Hn & ->). apply IH in Hn. lia.
  - pose proof (lead_ones_bound 8 v 0) as Hl. destruct (lead_ones 8 v 0) as [k v']. cbn in Hl.
    repeat case_match; intros [= <-]; lia.
Qed.

Lemma Mask_Size_bound m n b : Mask_Size m = (n, b) -> 0 <= n <= b.
Proof.
  unfold Mask_Size. case_match eqn:E; intros [= <- <-]; [|lia]. apply mask_len_bound in E. lia.
Qed.

Lemma Unmap_wf a : addr_wf a -> addr_wf (Unmap a).
Proof.
  unfold Unmap. case_match eqn:E; [|done]. unfold Is4In6 in E. unfold addr_wf, BitLen. cbn.
  intros _. apply Z.mod_pos_bound. lia.
Qed.

Lemma Unmap_plain a : addr_wf a -> plain (Unmap a).
Proof.
  intros Ha. split; [by apply Unmap_wf|]. unfold Unmap. case_match; [done|done].
Qed.

(** Masking below bit 96 clears bit 32, so the result is not a mapped address. *)
Lemma Masked_not_mapped a bits : Is4 a = false -> addr_wf a -> 0 <= bits <= 128 ->
  (bits < 96 \/ Is4In6 a = false) -> Is4In6 (paddr (Masked (MkPrefix a bits))) = false.
Proof.
  intros H4 Ha Hb Hor. unfold Is4In6, Is6, Masked, BitLen in *. cbn. rewrite H4 in *. cbn in *.
  apply Z.eqb_neq. destruct (Z_lt_dec bits 96) as [Hlt|Hge].
  - intros E. assert (Z.testbit (Z.shiftr (mask_val 128 bits (aval a)) 32) 0 = false) as Hf.
    { rewrite Z.shiftr_spec by lia. unfold mask_val. rewrite Z.shiftl_spec_low; [done|lia]. }
    rewrite E in Hf. done.
  - destruct Hor as [|Hm]; [lia|]. apply Z.eqb_neq in Hm. contradict Hm. rewrite <-Hm.
    apply Z.bits_inj'. intros n Hn. rewrite !Z.shiftr_spec by lia. unfold mask_val.
    rewrite Z.shiftl_spec, Z.shiftr_spec by lia. f_equal. lia.
Qed.

Lemma normalizedCIDR_spec cidr p :
  Forall byte (inIP cidr) -> normalizedCIDR (Some cidr) = Ok p ->
  prefix_wf p /\ masked p /\ plain (paddr p).
Proof.
  intros Hb. unfold normalizedCIDR. destruct (Mask_Size (inMask cidr)) as [ones bits] eqn:Em.
  apply Mask_Size_bound in Em. destruct (AddrFromSlice (inIP cidr)) as [a|] eqn:Ea; [|done].
  apply AddrFromSlice_wf in Ea as Ha; [|done].
  assert (forall a' o, prefix_wf (MkPrefix a' o) -> Is4In6 (paddr (Masked (MkPrefix a' o))) = false ->
    Ok (Masked (MkPrefix a' o)) = Ok p -> prefix_wf p /\ masked p /\ plain (paddr p)) as K.
  { intros a' o Hw Hm [= <-]. split; [by apply Masked_wf|]. split; [by apply Masked_masked|].
    split; [|done]. by apply Masked_wf in Hw as [? _]. }
  assert (forall a', Is4 a' = true -> forall o, Is4In6 (paddr (Masked (MkPrefix a' o))) = false) as K4.
  { intros a' H4 o. unfold Is4In6, Is6, Masked. cbn. by rewrite H4. }
  case_match; [done|]. to_prop. case_match eqn:E32; to_prop.
  { case_match eqn:E4; [done|]. to_prop. apply K; [|by apply K4].
    split; [by apply Unmap_wf|]. unfold BitLen. cbn. rewrite E4. lia. }
  assert (bits = 128) as -> by lia.
  destruct (Is4 a) eqn:E4; cbn [orb].
  - case_match eqn:E96; [|done]. to_prop.
    assert (Unmap a = a) as -> by (unfold Unmap, Is4In6, Is6; by rewrite E4).
    apply K; [|by apply K4]. split; [done|]. unfold BitLen. cbn. rewrite E4. lia.
  - case_match eqn:Em6; [case_match eqn:E96|].
    + assert (Is4 (Unmap a) = true) as Hu by (unfold Unmap; by rewrite Em6).
      to_prop. apply K; [|by apply K4]. split; [by apply Unmap_wf|]. unfold BitLen. cbn. rewrite Hu. lia.
    + to_prop. apply K; [split; [done|]; unfold BitLen; cbn; rewrite E4; lia|].
      apply Masked_not_mapped; auto with lia.
    + apply K; [split; [done|]; unfold BitLen; cbn; rewrite E4; lia|].
      apply Masked_not_mapped; auto with lia.
Qed.

(** The two halves of a 16-byte address, as numbers. *)
Lemma be_split12 l : Forall byte l -> length l = 16%nat ->
  be (take 12 l) = Z.shiftr (be l) 32 /\ be (drop 12 l) = be l mod 2 ^ 32.
Proof.
  intros Hb Hl. assert (length (drop 12 l) = 4%nat) as Hd by (rewrite length_drop; lia).
  pose proof (be_app (take 12 l) (drop 12 l)) as E. rewrite take_drop, Hd in E.
  pose proof (be_bound (drop 12 l) (Forall_drop _ _ _ Hb)) as B. rewrite Hd in B.
  rewrite Z.shiftr_div_pow2 by lia. change (256 ^ Z.of_nat 4) with (2 ^ 32) in *.
  split; [apply (Z.div_unique _ _ _ (be (drop 12 l)))|apply (Z.mod_unique _ _ (be (take 12 l)))]; lia.
Qed.

Lemma be_take12_eq l h : Forall byte l -> length l = 16%nat -> Forall byte h -> length h = 12%nat ->
  take 12 l = h <-> Z.shiftr (be l) 32 = be h.
Proof.
  intros Hb Hl Hh Hlh. destruct (be_split12 l Hb Hl) as [E _]. rewrite <-E.
  split; [by intros ->|]. apply be_inj; [by apply Forall_take|done|rewrite length_take; lia].
Qed.

Lemma bytes_lit l : forallb (fun b => (0 <=? b) && (b <? 256)) l = true -> Forall byte l.
Proof.
  rewrite forallb_forall, Forall_forall. intros H b Hb. apply list_elem_of_In, H in Hb.
  to_prop. unfold byte. lia.
Qed.

Lemma As16_bytes a : Forall byte (As16 a) /\ length (As16 a) = 16%nat.
Proof. split; [apply be_bytes_byte|apply be_bytes_length]. Qed.

Lemma enc_bound a : addr_wf a -> 0 <= enc a < 2 ^ 128.
Proof.
  unfold addr_wf, enc, BitLen. change nat64_base with (0x64ff9b * 2 ^ 96).
  destruct (Is4 a); [|done]. lia.
Qed.

Lemma AddrFromSlice_Some s a : AddrFromSlice s = Some a ->
  (length s = 4%nat /\ a = MkAddr true (be s)) \/ (length s = 16%nat /\ a = MkAddr false (be s)).
Proof. unfold AddrFromSlice. intros E. repeat case_match; simplify_eq; auto. Qed.

(** The map form of any valid address, from its unmapped number. *)
Lemma addr128_spec ip a : Forall byte ip -> AddrFromSlice ip = Some a ->
  addr128 ip = Ok (be_bytes 16 (enc (Unmap a))).
Proof.
  intros Hb Ha. apply AddrFromSlice_Some in Ha. unfold addr128, To4, To16.
  assert (forall v4, Forall byte v4 -> length v4 = 4%nat ->
    nat64_head ++ v4 = be_bytes 16 (nat64_base + be v4)) as K.
  { intros v4 H4 L4. rewrite <-(be_bytes_be (nat64_head ++ v4)).
    2: { apply Forall_app. split; [by apply bytes_lit|done]. }
    rewrite length_app, L4. f_equal. rewrite be_app, L4. done. }
  destruct Ha as [[L ->]|[L ->]]; rewrite L.
  { change (Ok (nat64_head ++ ip) = Ok (be_bytes 16 (nat64_base + be ip))). by rewrite K. }
  pose proof (be_take12_eq ip v4InV6Prefix Hb L ltac:(by apply bytes_lit) eq_refl) as Hm.
  unfold Unmap, Is4In6, Is6. cbn [Is4 aval negb andb].
  destruct (be_split12 ip Hb L) as [_ E4]. case_decide as Hd.
  - apply Hm in Hd. rewrite Hd. change (be v4InV6Prefix =? 65535) with true. unfold enc. cbn [Is4 aval].
    rewrite <-E4. f_equal. apply K; [by apply Forall_drop|rewrite length_drop; lia].
  - destruct (Z.eqb_spec (Z.shiftr (be ip) 32) 65535) as [E|E]; [by rewrite Hm in Hd|].
    f_equal. unfold enc. cbn [Is4 aval]. rewrite <-L. by rewrite be_bytes_be.
Qed.

Lemma be16_plain a : addr_wf a -> Is4 a = false -> be (be_bytes 16 (aval a)) = aval a.
Proof. intros Ha H4. apply be_be_bytes. unfold addr_wf, BitLen in Ha. rewrite H4 in Ha. exact Ha. Qed.

Lemma be4_plain a : addr_wf a -> Is4 a = true -> be (be_bytes 4 (aval a)) = aval a.
Proof. intros Ha H4. apply be_be_bytes. unfold addr_wf, BitLen in Ha. rewrite H4 in Ha. exact Ha. Qed.

Lemma plain_Unmap a : plain a -> Unmap a = a.
Proof. intros [_ H]. unfold Unmap. by rewrite H. Qed.

(** Both byte forms of an address have the same map form. *)
Lemma addr128_AsSlice a : plain a -> addr128 (AsSlice a) = Ok (be_bytes 16 (enc a)).
Proof.
  intros Hp. pose proof (plain_Unmap a Hp) as Hu. destruct Hp as [Ha Hm].
  rewrite <-Hu at 2. apply addr128_spec; [apply be_bytes_byte|]. unfold AsSlice, AddrFromSlice.
  rewrite be_bytes_length. destruct a as [[] v]; cbn [Is4 aval] in *; do 2 f_equal.
  - by apply (be4_plain (MkAddr true v)).
  - by apply (be16_plain (MkAddr false v)).
Qed.

Lemma addr128_As16 a : plain a -> addr128 (As16 a) = Ok (be_bytes 16 (enc a)).
Proof.
  intros Hp. pose proof (plain_Unmap a Hp) as Hu. destruct Hp as [Ha Hm]. destruct (As16_bytes a) as [Hb Hl].
  assert (AddrFromSlice (As16 a) = Some (MkAddr false (be (As16 a)))) as E by (unfold AddrFromSlice; by rewrite Hl).
  rewrite (addr128_spec _ _ Hb E). do 2 f_equal. f_equal. unfold As16.
  destruct a as [[] v]; cbn [Is4 aval] in *.
  - unfold addr_wf, BitLen in Ha. cbn in Ha. unfold v4mapped.
    rewrite be_be_bytes by lia. unfold Unmap, Is4In6. cbn [Is6 Is4 aval negb andb].
    rewrite Z.shiftr_div_pow2 by lia.
    assert ((65535 * 2 ^ 32 + v) / 2 ^ 32 = 65535) as -> by (symmetry; apply (Z.div_unique _ _ _ v); lia).
    rewrite Z.eqb_refl. f_equal. symmetry. apply (Z.mod_unique _ _ 65535); lia.
  - pose proof (be16_plain (MkAddr false v) Ha eq_refl) as E16. cbn [aval] in E16. by rewrite E16.
Qed.

Lemma be_enc a : addr_wf a -> be (be_bytes 16 (enc a)) = enc a.
Proof. intros Ha. apply be_be_bytes. exact (enc_bound a Ha). Qed.

(** The map form is a faithful name for an address: only native members of
    64:ff9b::/96 share one with a v4 address. *)
Definition native_nat64 (a : Addr) : bool := negb (Is4 a) && (Z.shiftr (aval a) 32 =? Z.shiftl 0x64ff9b 64).

Lemma enc_shiftr32 a : plain a -> (Z.shiftr (enc a) 32 =? Z.shiftl 0x64ff9b 64) = Is4 a || native_nat64 a.
Proof.
  intros [Ha Hm]. unfold native_nat64, enc. destruct (Is4 a) eqn:E4; cbn [negb andb orb]; [|done].
  unfold addr_wf, BitLen in Ha. rewrite E4 in Ha. apply Z.eqb_eq.
  change nat64_base with (Z.shiftl 0x64ff9b 64 * 2 ^ 32). rewrite Z.shiftr_div_pow2 by lia.
  symmetry. apply (Z.div_unique _ _ _ (aval a)); lia.
Qed.

Lemma addr128ToIP_enc a : plain a -> native_nat64 a = false ->
  addr128ToIP (be_bytes 16 (enc a)) = AsSlice a.
Proof.
  intros Hp Hn. pose proof (enc_shiftr32 a Hp) as Hs. rewrite Hn, orb_false_r in Hs. destruct Hp as [Ha Hm].
  pose proof (be_bytes_byte 16 (enc a)) as Hb. pose proof (be_bytes_length 16 (enc a)) as Hl.
  pose proof (be_take12_eq _ nat64_head Hb Hl ltac:(by apply bytes_lit) eq_refl) as Ht.
  rewrite (be_enc a Ha) in Ht. change (be nat64_head) with (Z.shiftl 0x64ff9b 64) in Ht.
  unfold addr128ToIP, AsSlice. destruct (be_split12 _ Hb Hl) as [_ E4]. rewrite (be_enc a Ha) in E4.
  case_decide as Hd.
  - apply Ht in Hd. rewrite Hd, Z.eqb_refl in Hs. rewrite <-Hs.
    rewrite <-(be_bytes_be (drop 12 (be_bytes 16 (enc a)))) by (by apply Forall_drop).
    rewrite length_drop, Hl. change (16 - 12)%nat with 4%nat. rewrite E4. f_equal. unfold enc. rewrite <-Hs.
    unfold addr_wf, BitLen in Ha. rewrite <-Hs in Ha.
    symmetry. apply (Z.mod_unique _ _ (Z.shiftl 0x64ff9b 64)); [lia|]. change nat64_base with (2^32 * Z.shiftl 0x64ff9b 64). lia.
  - destruct (Is4 a) eqn:E; [by apply Z.eqb_eq, Ht in Hs|]. unfold enc. by rewrite E.
Qed.

(** [IP.Equal] does not see the difference between an address and its unmapped bytes. *)
Lemma AsSlice_Unmap_Equal ip a : Forall byte ip -> AddrFromSlice ip = Some a ->
  IP_Equal (AsSlice (Unmap a)) ip = true.
Proof.
  intros Hb Ha. apply AddrFromSlice_Some in Ha as [[L ->]|[L ->]].
  - unfold Unmap, AsSlice. cbn [Is4In6 Is6 Is4 negb andb aval]. rewrite <-L at 1. rewrite be_bytes_be by done.
    unfold IP_Equal. rewrite decide_True by done. by apply bool_decide_eq_true.
  - unfold Unmap, Is4In6, AsSlice. cbn [Is6 Is4 negb andb aval].
    destruct (be_split12 ip Hb L) as [_ E4]. destruct (Z.eqb_spec (Z.shiftr (be ip) 32) 65535) as [E|E]; cbn [Is4 aval].
    + assert (be_bytes 4 (be ip mod 2 ^ 32) = drop 12 ip) as ->.
      { rewrite <-E4. pose proof (be_bytes_be (drop 12 ip) ltac:(by apply Forall_drop)) as R.
        by rewrite length_drop, L in R. }
      assert (length (drop 12 ip) = 4%nat) as L4 by (rewrite length_drop; lia).
      unfold IP_Equal. rewrite decide_False by lia. rewrite decide_True by lia.
      apply bool_decide_eq_true. split; [|done].
      apply be_take12_eq; [done|done|by apply bytes_lit|done|done].
    + rewrite <-L, be_bytes_be by done. unfold IP_Equal. rewrite decide_True by done.
      by apply bool_decide_eq_true.
Qed.

(** The leading bits of the map forms agree exactly when the leading bits of the
    addresses do. *)
Lemma enc_leading a x b : addr_wf a -> addr_wf x -> Is4 a = Is4 x -> 0 <= b <= BitLen x ->
  leading_match (if Is4 a then b + 96 else b) (be_bytes 16 (enc a)) (be_bytes 16 (enc x)) <->
  Z.shiftr (aval a) (BitLen x - b) = Z.shiftr (aval x) (BitLen x - b).
Proof.
  intros Ha Hx H4 Hb. unfold leading_match. rewrite !be_enc by done. unfold enc, BitLen in *.
  rewrite H4. destruct (Is4 x); [|done]. replace (128 - (b + 96)) with (32 - b) by lia.
  rewrite !Z.shiftr_div_pow2 by lia.
  assert (nat64_base = Z.shiftl 0x64ff9b 64 * 2 ^ b * 2 ^ (32 - b)) as ->.
  { rewrite <-Z.mul_assoc, <-Z.pow_add_r by lia. by replace (b + (32 - b)) with 32 by lia. }
  rewrite !(Z.add_comm (_ * _) (aval _)), !Z.div_add by lia. lia.
Qed.

(** A map address names the IP it was made from: encoding an IPv4, mapped or native IPv6
    address and decoding it gives an equal IP, unless the address is a native member of
    64:ff9b::/96, the range v4 addresses are encoded in. *)
Theorem addr128_roundtrip ip a :
  Forall byte ip -> AddrFromSlice ip = Some a -> native_nat64 (Unmap a) = false ->
  exists e, addr128 ip = Ok e /\ length e = 16%nat /\ IP_Equal (addr128ToIP e) ip = true.
Proof.
  intros Hb Ha Hn. exists (be_bytes 16 (enc (Unmap a))).
  split; [by apply addr128_spec|]. split; [apply be_bytes_length|].
  rewrite addr128ToIP_enc; [by apply AsSlice_Unmap_Equal| |done].
  apply Unmap_plain. by apply AddrFromSlice_wf in Ha.
Qed.

Lemma addr128_roundtrip_witness :
  exists e, addr128 [0;0;0;0;0;0;0;0;0;0;255;255;192;0;2;1] = Ok e /\ length e = 16%nat /\
    IP_Equal (addr128ToIP e) [0;0;0;0;0;0;0;0;0;0;255;255;192;0;2;1] = true.
Proof.
  apply (addr128_roundtrip _ (MkAddr false (65535 * 2 ^ 32 + 3221225985))).
  - apply bytes_lit. reflexivity.
  - reflexivity.
  - reflexivity.
Defined.

(** The prefix length of a normalized prefix over the 128-bit map address. *)
Definition map_bits (p : Prefix) : Z := if Is4 (paddr p) then pbits p + 96 else pbits p.

Lemma map_bits_range p : prefix_wf p -> 0 <= map_bits p <= 128.
Proof. intros [_ Hb]. unfold map_bits, BitLen in *. destruct (Is4 (paddr p)); lia. Qed.

Lemma cidrPolicyPrefix_spec cidr p : normalizedCIDR cidr = Ok p -> prefix_wf p -> plain (paddr p) ->
  cidrPolicyPrefix cidr = Ok (be_bytes 16 (enc (paddr p)), map_bits p, family_of (paddr p)).
Proof.
  intros Ep Hw Hp. unfold cidrPolicyPrefix. rewrite Ep. cbn [mbind result_mbind].
  rewrite (addr128_As16 _ Hp). cbn [mbind result_mbind mret result_mret].
  assert (u32 (pbits p) = pbits p) as ->.
  { unfold u32. apply Z.mod_small. destruct Hw as [_ Hb]. unfold BitLen in Hb. destruct (Is4 (paddr p)); lia. }
  unfold map_bits, family_of. by destruct (Is4 (paddr p)).
Qed.

(** The two families never share a key, and within one the leading bits decide. *)
Lemma map_prefix_contains p x : prefix_wf p -> plain x ->
  (family_of (paddr p) = family_of x /\ leading_match (map_bits p) (be_bytes 16 (enc (paddr p))) (be_bytes 16 (enc x)))
  <-> Contains p x = true.
Proof.
  intros [Hw Hb] [Hx _]. rewrite Contains_spec. pose proof (enc_leading (paddr p) x (pbits p) Hw Hx) as L.
  unfold map_bits, family_of, BitLen in *. destruct (Is4 (paddr p)), (Is4 x); naive_solver lia.
Qed.

(** Byte swapping. *)
Lemma htons_spec p : 0 <= p < 65536 -> htons p = (p mod 256) * 256 + p / 256.
Proof.
  intros Hp. unfold htons, u16. rewrite Z.shiftl_mul_pow2, Z.shiftr_div_pow2 by lia.
  change (2 ^ 8) with 256. change (2 ^ 16) with 65536.
  assert ((p * 256) mod 65536 = (p mod 256) * 256) as -> by (change 65536 with (256 * 256); rewrite Zmult_mod_distr_r; done).
  assert (0 <= p / 256 < 256) by (split; [apply Z.div_pos; lia|apply Z.div_lt_upper_bound; lia]).
  change 256 with (2 ^ 8) at 2. by apply lor_add.
Qed.

Lemma htons_range p : 0 <= p < 65536 -> 0 <= htons p < 65536.
Proof.
  intros Hp. rewrite htons_spec by done. pose proof (Z.mod_pos_bound p 256).
  assert (0 <= p / 256 < 256) by (split; [apply Z.div_pos; lia|apply Z.div_lt_upper_bound; lia]). lia.
Qed.

Lemma htons_htons p : 0 <= p < 65536 -> htons (htons p) = p.
Proof.
  intros Hp. rewrite (htons_spec (htons p)), htons_spec by (done || by apply htons_range).
  pose proof (Z.mod_pos_bound p 256 ltac:(lia)). pose proof (Z.div_mod p 256 ltac:(lia)).
  assert (0 <= p / 256 < 256) by (split; [apply Z.div_pos; lia|apply Z.div_lt_upper_bound; lia]).
  replace (p mod 256 * 256 + p / 256) with (p / 256 + p mod 256 * 256) by lia.
  rewrite Z.mod_add, Z.div_add by lia. rewrite (Z.mod_small (p / 256)), (Z.div_small (p / 256)) by lia. lia.
Qed.

Lemma htons_inj p q : 0 <= p < 65536 -> 0 <= q < 65536 -> htons p = htons q -> p = q.
Proof.
  intros Hp Hq. rewrite !htons_spec by done. intros E.
  assert (0 <= p / 256 < 256) by (split; [apply Z.div_pos; lia|apply Z.div_lt_upper_bound; lia]).
  assert (0 <= q / 256 < 256) by (split; [apply Z.div_pos; lia|apply Z.div_lt_upper_bound; lia]).
  pose proof (Z.mod_pos_bound p 256). pose proof (Z.mod_pos_bound q 256).
  rewrite (Z.div_mod p 256), (Z.div_mod q 256) by lia. lia.
Qed.

(** A CIDR's map prefix matches exactly the addresses the CIDR contains: the key has the
    address' family and agrees with its leading bits iff the normalized prefix contains it.
    IPv4 masks, IPv4-mapped masks and IPv6 masks go through the same encoding. *)
Theorem cidrPolicyPrefix_exact cidr addr bits fam :
  Forall byte (inIP cidr) -> cidrPolicyPrefix (Some cidr) = Ok (addr, bits, fam) ->
  exists p, normalizedCIDR (Some cidr) = Ok p /\
    forall x e, plain x -> addr128 (AsSlice x) = Ok e ->
      (fam = family_of x /\ leading_match bits addr e) <-> Contains p x = true.
Proof.
  intros Hb E. destruct (normalizedCIDR (Some cidr)) as [p|] eqn:Ep.
  2: { unfold cidrPolicyPrefix in E. by rewrite Ep in E. }
  pose proof (normalizedCIDR_spec _ _ Hb Ep) as (Hw & _ & Hp). exists p. split; [done|].
  rewrite (cidrPolicyPrefix_spec _ _ Ep Hw Hp) in E. injection E as <- <- <-.
  intros x e Hx. rewrite (addr128_AsSlice x Hx). intros [= <-]. by apply map_prefix_contains.
Qed.

Lemma cidrPolicyPrefix_exact_witness :
  exists p, normalizedCIDR (Some (MkIPNet [10;0;0;0] [255;0;0;0])) = Ok p /\
    forall x e, plain x -> addr128 (AsSlice x) = Ok e ->
      (4 = family_of x /\ leading_match 104 (nat64_head ++ [10;0;0;0]) e) <-> Contains p x = true.
Proof.
  apply cidrPolicyPrefix_exact.
  - apply bytes_lit. reflexivity.
  - reflexivity.
Defined.

(** A parsed CIDR holds bytes. *)
Lemma ParseCIDR_bytes s ip net : ParseCIDR s = Some (ip, net) -> Forall byte (inIP net).
Proof.
  unfold ParseCIDR. rewrite bind_Some. intros ([addr mask] & _ & E). apply bind_Some in E as ([a zone] & _ & E).
  case_decide; [done|]. apply bind_Some in E as (n & _ & E). case_if; [done|]. injection E as <- <-. cbn [inIP].
  unfold IP_Mask. case_decide; [|constructor].
  assert (Forall byte (As16 a)) as Hb by apply As16_bytes.
  match goal with |- Forall byte (zip_with _ ?x ?y) => assert (Forall byte x) as Hx by (case_decide; auto using Forall_drop);
    generalize dependent x; generalize y end.
  intros m x _ Hx. revert m. induction Hx as [|b x Hb' Hx IH]; intros [|c m]; cbn; constructor; [|apply IH].
  unfold byte in *. assert (Z.land b c = Z.land b c mod 256) as ->; [|apply Z.mod_pos_bound; lia].
  change 256 with (2 ^ 8). rewrite <-Z.land_ones, <-Z.land_assoc, (Z.land_comm c), Z.land_assoc, Z.land_ones by lia.
  by rewrite (Z.mod_small b) by (cbn; lia).
Qed.
