(* ===== verification/Grants.v ===== *)
(** * Binding grants and CIDR text budgets
      (api/sdn/v1alpha1/binding_grants.go, api/sdn/v1alpha1/vpc_cidrs.go)

    A [VPCBinding] in a consumer namespace authorizes attachment to a VPC and
    may grant forwarding, unrestricted or scoped to prefixes.  The grants of a
    consumer are the union of its live bindings; the agent and the CNI compute it
    from a list or from a stream. *)

From S2P Require Import Prelude GoText GoNet CidrOverlap.
Local Open Scope Z_scope.

(** [VPCRef], api/sdn/v1alpha1/port_types.go:26-33. *)
Record VPCRef := MkVPCRef { refNamespace : string; refName : string }.

#[export] Instance VPCRef_eq_dec : EqDecision VPCRef.
Proof. solve_decision. Defined.
#[export] Program Instance VPCRef_countable : Countable VPCRef :=
  inj_countable' (fun r => (refNamespace r, refName r)) (fun '(a, b) => MkVPCRef a b) _.
Next Obligation. by intros []. Qed.

(** [VPCBinding], the fields the grants depend on, api/sdn/v1alpha1/vpcbinding_types.go:25-79. *)
Record VPCBinding := MkVPCBinding {
  bNamespace : string;
  bDeleting : bool; (* DeletionTimestamp is set *)
  bVPCRef : VPCRef;
  bAllowForwarding : bool;
  bForwardingCIDRs : list string
}.

(** [MaxForwardingPrefixes], api/sdn/v1alpha1/binding_grants.go:10-10. *)
Definition MaxForwardingPrefixes : nat := Z.to_nat 4096.
(** [MaxForwardingPrefixBytes], api/sdn/v1alpha1/binding_grants.go:12-12. *)
Definition MaxForwardingPrefixBytes : nat := 64.
(** [MaxVPCCIDRs], api/sdn/v1alpha1/vpc_cidrs.go:10-10. *)
Definition MaxVPCCIDRs : nat := Z.to_nat 1024.
(** [MaxVPCCIDRBytes], api/sdn/v1alpha1/vpc_cidrs.go:12-12. *)
Definition MaxVPCCIDRBytes : nat := 64.

(** The loop both validators share, from index [i]: each entry within its byte budget and a
    valid CIDR. *)
Fixpoint validate_cidr_texts (what : string) (max_bytes : nat) (i : nat) (cidrs : list string) : result unit :=
  match cidrs with
  | [] => Ok tt
  | cidr :: rest =>
      if decide (max_bytes < String.length cidr)%nat
      then Err (what +:+ " at index " +:+ fmt_d (Z.of_nat i) +:+ " exceeds " +:+ fmt_d (Z.of_nat max_bytes) +:+ " bytes")
      else match ParseCIDR cidr with
           | None => Err (what +:+ " at index " +:+ fmt_d (Z.of_nat i) +:+ " is not a valid IP CIDR")
           | Some _ => validate_cidr_texts what max_bytes (S i) rest
           end
  end.

(** [ValidateForwardingPrefixes], api/sdn/v1alpha1/binding_grants.go:14-27. *)
Definition ValidateForwardingPrefixes (cidrs : list string) : result unit :=
  if decide (MaxForwardingPrefixes < length cidrs)%nat
  then Err "forwarding grant exceeds 4096 input prefixes"
  else validate_cidr_texts "forwarding prefix" MaxForwardingPrefixBytes 0 cidrs.

(** [ValidateVPCCIDRs], api/sdn/v1alpha1/vpc_cidrs.go:14-27. *)
Definition ValidateVPCCIDRs (cidrs : list string) : result unit :=
  if decide (MaxVPCCIDRs < length cidrs)%nat
  then Err "VPC exceeds 1024 input CIDRs"
  else validate_cidr_texts "VPC CIDR" MaxVPCCIDRBytes 0 cidrs.

(** [BindingAuthorizesAttachment], api/sdn/v1alpha1/binding_grants.go:103-112.
    A [nil] binding is [None]. *)
Definition BindingAuthorizesAttachment (binding : option VPCBinding) (consumerNS vpcNS vpcName : string) : bool :=
  match binding with
  | None => false
  | Some b =>
      if negb (bool_decide (bNamespace b = consumerNS)) || bDeleting b then false
      else
        let ns := if decide (refNamespace (bVPCRef b) = "") then bNamespace b
                  else refNamespace (bVPCRef b) in
        bool_decide (ns = vpcNS) && bool_decide (refName (bVPCRef b) = vpcName)
  end.

(** [BindingGrantAccumulator], api/sdn/v1alpha1/binding_grants.go:55-60. *)
Record BindingGrantAccumulator := MkAccumulator {
  consumerNS : string; vpcNS : string; vpcName : string;
  attached : bool; forwarding : bool; blanket : bool;
  cidrs : list string;
  err : option string
}.

(** [NewBindingGrantAccumulator], api/sdn/v1alpha1/binding_grants.go:62-64. *)
Definition NewBindingGrantAccumulator (consumerNS vpcNS vpcName : string) : BindingGrantAccumulator :=
  MkAccumulator consumerNS vpcNS vpcName false false false [] None.

(** [BindingGrantAccumulator.Add], api/sdn/v1alpha1/binding_grants.go:66-92. *)
Definition Add (g : BindingGrantAccumulator) (binding : option VPCBinding) : BindingGrantAccumulator :=
  let set att fwd bl cs e := MkAccumulator (consumerNS g) (vpcNS g) (vpcName g) att fwd bl cs e in
  match binding with
  | None => g
  | Some b =>
      if negb (BindingAuthorizesAttachment binding (consumerNS g) (vpcNS g) (vpcName g)) then g
      else if negb (bAllowForwarding b) then set true (forwarding g) (blanket g) (cidrs g) (err g)
      else if decide (bForwardingCIDRs b = []) then set true true true [] None
      else if blanket g || bool_decide (is_Some (err g)) then set true true (blanket g) (cidrs g) (err g)
      else
        let e := if decide (Z.of_nat MaxForwardingPrefixes - Z.of_nat (length (cidrs g))
                            < Z.of_nat (length (bForwardingCIDRs b)))
                 then Err "forwarding grant exceeds 4096 input prefixes"
                 else ValidateForwardingPrefixes (bForwardingCIDRs b) in
        match e with
        | Err e => set true true (blanket g) [] (Some e)
        | Ok _ => set true true (blanket g) (cidrs g ++ bForwardingCIDRs b) None
        end
  end.

(** The four results of [Result] and [BindingGrantsWithBudget]. *)
Definition grant : Type := bool * bool * list string * option string.

(** [BindingGrantAccumulator.Result], api/sdn/v1alpha1/binding_grants.go:94-99. *)
Definition Result (g : BindingGrantAccumulator) : grant :=
  match err g with
  | Some e => (attached g, false, [], Some e)
  | None => (attached g, forwarding g, cidrs g, None)
  end.

(** [BindingGrantsWithBudget], api/sdn/v1alpha1/binding_grants.go:38-49. *)
Definition BindingGrantsWithBudget (bindings : list (option VPCBinding)) (consumerNS vpcNS vpcName : string) : grant :=
  let unrestricted binding :=
    BindingAuthorizesAttachment binding consumerNS vpcNS vpcName &&
    match binding with
    | Some b => bAllowForwarding b && bool_decide (bForwardingCIDRs b = [])
    | None => false
    end in
  if existsb unrestricted bindings then (true, true, [], None)
  else Result (fold_left Add bindings (NewBindingGrantAccumulator consumerNS vpcNS vpcName)).

(** [BindingGrants], api/sdn/v1alpha1/binding_grants.go:31-34. *)
Definition BindingGrants (bindings : list (option VPCBinding)) (consumerNS vpcNS vpcName : string)
    : bool * bool * list string :=
  (BindingGrantsWithBudget bindings consumerNS vpcNS vpcName).1.

(** ** Specification: the union of the live grants

    [live] are the bindings that authorize the attachment. *)
Section Spec.
Context (cns vns vn : string).

Definition live (bindings : list (option VPCBinding)) : list VPCBinding :=
  omap (fun b => if BindingAuthorizesAttachment b cns vns vn then b else None) bindings.

Definition is_blanket (b : VPCBinding) : bool := bAllowForwarding b && bool_decide (bForwardingCIDRs b = []).

(** The prefixes of all scoped grants, in order. *)
Definition scoped (bs : list VPCBinding) : list string :=
  mjoin ((fun b => if bAllowForwarding b then bForwardingCIDRs b else []) <$> bs).

Definition valid_prefix (c : string) : bool :=
  bool_decide (String.length c <= MaxForwardingPrefixBytes)%nat && bool_decide (is_Some (ParseCIDR c)).

(** Within the total budget, every prefix valid. *)
Definition within_budget (cs : list string) : bool :=
  bool_decide (length cs <= MaxForwardingPrefixes)%nat && forallb valid_prefix cs.

(** Does the grant have the union's flags and prefixes, and an error exactly when
    the scoped union does not fit? *)
Definition grant_spec (bindings : list (option VPCBinding)) (g : grant) : Prop :=
  let bs := live bindings in
  let '(att, fwd, cs, e) := g in
  att = negb (bool_decide (bs = [])) /\
  (if existsb is_blanket bs then fwd = true /\ cs = [] /\ e = None
   else if within_budget (scoped bs) then fwd = existsb bAllowForwarding bs /\ cs = scoped bs /\ e = None
   else fwd = false /\ cs = [] /\ is_Some e).
End Spec.

(** ** Lemmas *)

Lemma validate_texts_ok what n i cs :
  is_ok (validate_cidr_texts what n i cs) =
  forallb (fun c => bool_decide (String.length c <= n)%nat && bool_decide (is_Some (ParseCIDR c))) cs.
Proof.
  revert i. induction cs as [|c cs IH]; intros i; cbn; [done|].
  case_decide; [rewrite bool_decide_false by lia; done|]. rewrite bool_decide_true by lia.
  destruct (ParseCIDR c); [apply IH|done].
Qed.

Lemma ValidateForwardingPrefixes_ok cs : is_ok (ValidateForwardingPrefixes cs) = within_budget cs.
Proof.
  unfold ValidateForwardingPrefixes, within_budget. case_decide.
  - by rewrite bool_decide_false by lia.
  - rewrite bool_decide_true by lia. apply validate_texts_ok.
Qed.

Lemma scoped_app b1 b2 : scoped (b1 ++ b2) = scoped b1 ++ scoped b2.
Proof. unfold scoped. by rewrite fmap_app, join_app. Qed.

Lemma within_budget_app a b :
  within_budget (a ++ b) =
  within_budget a && bool_decide (length b <= MaxForwardingPrefixes - length a)%nat && within_budget b.
Proof.
  unfold within_budget. rewrite length_app, forallb_app.
  destruct (forallb valid_prefix a), (forallb valid_prefix b); rewrite ?andb_false_r, ?andb_true_r; try done.
  repeat case_bool_decide; cbn; lia || done.
Qed.

Lemma live_app cns vns vn a b : live cns vns vn (a ++ b) = live cns vns vn a ++ live cns vns vn b.
Proof. unfold live. apply omap_app. Qed.

Lemma authorized_live cns vns vn b :
  live cns vns vn [b] = (if BindingAuthorizesAttachment b cns vns vn then match b with Some x => [x] | None => [] end else []).
Proof. unfold live. cbn. by destruct (BindingAuthorizesAttachment b cns vns vn), b. Qed.

(** The accumulator after a prefix of the stream. *)
Definition acc_inv (cns vns vn : string) (seen : list (option VPCBinding)) (g : BindingGrantAccumulator) : Prop :=
  let bs := live cns vns vn seen in
  consumerNS g = cns /\ vpcNS g = vns /\ vpcName g = vn /\
  attached g = negb (bool_decide (bs = [])) /\
  forwarding g = existsb bAllowForwarding bs /\
  blanket g = existsb is_blanket bs /\
  if existsb is_blanket bs then cidrs g = [] /\ err g = None
  else if within_budget (scoped bs) then cidrs g = scoped bs /\ err g = None
  else cidrs g = [] /\ is_Some (err g).

Lemma Add_inv cns vns vn seen g b :
  acc_inv cns vns vn seen g -> acc_inv cns vns vn (seen ++ [b]) (Add g b).
Proof.
  intros (<-&<-&<-&Ha&Hf&Hb&Hc). unfold acc_inv. cbv zeta. rewrite live_app, authorized_live.
  set (bs := live (consumerNS g) (vpcNS g) (vpcName g) seen) in *. clearbody bs.
  destruct b as [b|]; cbn [Add]; [|by destruct (BindingAuthorizesAttachment _ _ _ _); rewrite app_nil_r].
  destruct (BindingAuthorizesAttachment (Some b) _ _ _); cbn [negb]; [|by rewrite app_nil_r].
  rewrite !existsb_app, scoped_app. cbn [existsb].
  assert (bool_decide (bs ++ [b] = []) = false) as -> by (apply bool_decide_false; by destruct bs).
  assert (scoped [b] = if bAllowForwarding b then bForwardingCIDRs b else []) as ->
    by (unfold scoped; cbn; apply app_nil_r).
  change (is_blanket b) with (bAllowForwarding b && bool_decide (bForwardingCIDRs b = [])). destruct (bAllowForwarding b) eqn:Eaf; cbn [negb andb].
  2: { rewrite !orb_false_r, app_nil_r. by split_and!. }
  case_decide as Hnil.
  { rewrite bool_decide_true by done. cbn. rewrite !orb_true_r.
    by split_and!. }
  rewrite (bool_decide_false (bForwardingCIDRs b = [])) by done. rewrite !orb_false_r. cbn [orb]. rewrite !orb_true_r.
  rewrite Hb. destruct (existsb is_blanket bs) eqn:Ebl; cbn [orb].
  { destruct Hc as [Hc1 Hc2]. cbn. rewrite Hc1, Hc2. by split_and!. }
  rewrite within_budget_app. destruct (within_budget (scoped bs)) eqn:Ew; cbn [andb].
  2: { destruct Hc as [Hc1 Hc2]. rewrite bool_decide_true by done. cbn. rewrite Hc1. by split_and!. }
  destruct Hc as [Hc1 Hc2]. rewrite Hc1, Hc2. rewrite bool_decide_false by (by intros []).
  assert (length (scoped bs) <= MaxForwardingPrefixes)%nat.
  { unfold within_budget in Ew. to_prop. done. }
  case_decide.
  { rewrite bool_decide_false by lia. cbn. by split_and!; [..|eauto]. }
  rewrite bool_decide_true by lia. cbn [andb]. rewrite <-ValidateForwardingPrefixes_ok.
  destruct (ValidateForwardingPrefixes _); cbn; by split_and!; [..|eauto].
Qed.

Lemma fold_Add_inv cns vns vn bs :
  acc_inv cns vns vn bs (fold_left Add bs (NewBindingGrantAccumulator cns vns vn)).
Proof.
  induction bs as [|b bs IH] using rev_ind; [by split_and!|].
  rewrite fold_left_app. by apply Add_inv.
Qed.

Lemma Result_spec cns vns vn bs g :
  acc_inv cns vns vn bs g -> grant_spec cns vns vn bs (Result g).
Proof.
  intros (_&_&_&Ha&Hf&_&Hc). unfold grant_spec, Result. cbv zeta.
  destruct (existsb is_blanket _) eqn:Ebl.
  - destruct Hc as [-> ->]. split_and!; [done| |done|done]. rewrite Hf.
    apply existsb_exists in Ebl as (b & Hb & Hbl). apply existsb_exists. exists b.
    unfold is_blanket in Hbl. apply andb_true_iff in Hbl as [Hbl _]. done.
  - destruct (within_budget _); destruct Hc as [Hc1 Hc2].
    + rewrite Hc1, Hc2. by split_and!.
    + destruct Hc2 as [e ->]. split_and!; by eauto.
Qed.

(** A blanket binding in the list is a blanket live grant. *)
Lemma existsb_live cns vns vn bs :
  existsb is_blanket (live cns vns vn bs) =
  existsb (fun b => BindingAuthorizesAttachment b cns vns vn &&
    match b with Some b => is_blanket b | None => false end) bs.
Proof.
  induction bs as [|b bs IH]; [done|]. change (b :: bs) with ([b] ++ bs).
  rewrite live_app, !existsb_app, IH, authorized_live. f_equal.
  cbn [existsb]. destruct (BindingAuthorizesAttachment b cns vns vn), b; done.
Qed.

Lemma batch_eq_stream bindings cns vns vn :
  BindingGrantsWithBudget bindings cns vns vn =
  Result (fold_left Add bindings (NewBindingGrantAccumulator cns vns vn)).
Proof.
  unfold BindingGrantsWithBudget.
  pose proof (Result_spec _ _ _ _ _ (fold_Add_inv cns vns vn bindings)) as Hs.
  pose proof (existsb_live cns vns vn bindings) as Hl. unfold is_blanket in Hl at 2. rewrite <-Hl.
  destruct (existsb is_blanket _) eqn:Eb; [|done].
  destruct (Result _) as [[[att fwd] cs] e]. unfold grant_spec in Hs. cbv zeta in Hs. rewrite Eb in Hs.
  destruct Hs as (-> & -> & -> & ->). by destruct (live cns vns vn bindings).
Qed.

(** C36. The grants of a consumer are exactly the union of its live bindings: attached iff some
    live binding references the VPC; an unrestricted forwarding binding dominates every other,
    malformed ones included; otherwise the prefixes are the concatenation of every scoped
    grant, and the grant fails closed (no forwarding, no prefix, an error) exactly when that
    union exceeds 4096 prefixes or contains an oversized or malformed one. *)
Theorem BindingGrantsWithBudget_spec bindings cns vns vn :
  grant_spec cns vns vn bindings (BindingGrantsWithBudget bindings cns vns vn).
Proof. rewrite batch_eq_stream. apply Result_spec, fold_Add_inv. Qed.

(** Streaming the bindings through the accumulator in any number of [Add] calls gives the
    same result, error text included, as the list function with its early return. *)
Theorem accumulator_equals_batch bindings cns vns vn :
  Result (fold_left Add bindings (NewBindingGrantAccumulator cns vns vn)) =
  BindingGrantsWithBudget bindings cns vns vn.
Proof. by rewrite batch_eq_stream. Qed.

(** The batch on a mixed list: a malformed scoped grant fails closed until a blanket one arrives. *)
Example grants_example :
  let mk fwd cs := Some (MkVPCBinding "team" false (MkVPCRef "infra" "vpc") fwd cs) in
  BindingGrantsWithBudget [mk true ["10.0.0.0/8"]; mk true ["10.0.0.0/08"]; mk true ["zzz"]] "team" "infra" "vpc" =
    (true, false, [], Some "forwarding prefix at index 0 is not a valid IP CIDR") /\
  BindingGrantsWithBudget [mk true ["zzz"]; mk true []] "team" "infra" "vpc" = (true, true, [], None) /\
  BindingGrants [mk true ["10.0.0.0/8"]; None; mk false []] "team" "infra" "vpc" = (true, true, ["10.0.0.0/8"]).
Proof. by vm_compute. Qed.

(** The two CIDR parsers disagree on a prefix length with a leading zero: validation reads
    [10.0.0.0/08] with [net.ParseCIDR], the overlap check with [netip.ParsePrefix], which
    ignores it, so two VPCs with the same validated range are not seen to overlap. *)
Lemma validated_cidrs_overlap_unseen :
  let cidrs := ["10.0.0.0/08"] in
  ValidateVPCCIDRs cidrs = Ok tt /\ CIDRsOverlap cidrs cidrs = false /\
  CIDRsOverlap ["10.0.0.0/8"] ["10.0.0.0/8"] = true.
Proof. by vm_compute. Qed.
