(* ===== verification/AddrText.v ===== *)
(** * Printing addresses: [IP.String] of package [net], [Addr.String] of
      [net/netip]

    The printed form of an IPv6 address is a join of hexadecimal groups with at
    most one empty stretch; the lemmas of this file give that shape, which is
    what the names built from addresses rely on. *)

From S2P Require Import Prelude GoText GoNet.
Local Open Scope Z_scope.

(** [appendHex]: a group without its leading zeros. *)
Definition hex_group (x : Z) : string :=
  str_of (digit_char <$>
    (if 4096 <=? x then [x / 4096] else []) ++
    (if 256 <=? x then [(x / 256) mod 16] else []) ++
    (if 16 <=? x then [(x / 16) mod 16] else []) ++ [x mod 16]).

(** [v6u16]. *)
Definition v6u16 (ip : list Z) (i : nat) : Z :=
  nth (2 * i) ip 0 * 256 + nth (2 * i + 1) ip 0.

(** The end of the run of zero groups that starts at [j]. *)
Fixpoint zero_run (fuel : nat) (ip : list Z) (j : nat) : nat :=
  match fuel with
  | O => j
  | S fuel => if (j <? 8)%nat && (v6u16 ip j =? 0) then zero_run fuel ip (S j) else j
  end.

(** The first longest run of at least two zero groups; (255, 255) without one. *)
Definition zeros (ip : list Z) : nat * nat :=
  fold_left (fun best i =>
    let j := zero_run 8 ip i in
    if (2 <=? j - i)%nat && (best.2 - best.1 <? j - i)%nat then (i, j) else best)
    (seq 0 8) (255%nat, 255%nat).

(** The printing loop of [appendTo6], over the printed groups. *)
Fixpoint append_groups (fuel : nat) (h : nat -> string) (zs ze i : nat) : string :=
  match fuel with
  | O => EmptyString
  | S fuel =>
      if (8 <=? i)%nat then EmptyString
      else if (i =? zs)%nat then
        "::" +:+ (if (8 <=? ze)%nat then EmptyString else h ze +:+ append_groups fuel h zs ze (S ze))
      else (if (0 <? i)%nat then ":" else EmptyString) +:+ h i +:+ append_groups fuel h zs ze (S i)
  end.

Definition string6 (ip : list Z) : string :=
  append_groups 8 (fun i => hex_group (v6u16 ip i)) (zeros ip).1 (zeros ip).2 0.

Definition string4 (ip : list Z) : string := join "." (fmt_nat <$> ip).

(** [IP.String]. *)
Definition IP_String (ip : IP) : string :=
  match ip with
  | [] => "<nil>"
  | _ =>
      match To4 ip with
      | Some p4 => string4 p4
      | None => if decide (length ip = 16%nat) then string6 ip else "?" +:+ hex_encode ip
      end
  end.

(** An address string that is the printed form of the address it parses to. *)
Definition canonical (s : string) : Prop := ParseIP s <> [] /\ IP_String (ParseIP s) = s.
#[export] Instance canonical_dec s : Decision (canonical s).
Proof. unfold canonical. apply _. Defined.

(** ** Hardware addresses

    [net.ParseMAC]: groups of two hexadecimal digits with [:] or [-], or of four
    with [.], for addresses of 6, 8 or 20 bytes. *)
Definition hex2 (s : string) : option (list Z) :=
  match s with
  | String a (String b EmptyString) => x ← hex_val a; y ← hex_val b; Some [x * 16 + y]
  | _ => None
  end.
Definition hex4 (s : string) : option (list Z) :=
  match s with
  | String a (String b (String c (String d EmptyString))) =>
      x ← hex2 (String a (String b EmptyString)); y ← hex2 (String c (String d EmptyString)); Some (x ++ y)
  | _ => None
  end.
Definition mac_bytes (group : string -> option (list Z)) (parts : list string) : option (list Z) :=
  bytes ← foldr (fun p acc => x ← group p; l ← acc; Some (x ++ l)) (Some []) parts;
  if decide (length bytes ∈ [6; 8; 20]%nat) then Some bytes else None.

Definition ParseMAC (s : string) : option (list Z) :=
  if (String.length s <? 14)%nat then None
  else if decide (String.get 2 s = Some ":"%char) then mac_bytes hex2 (split ":" s)
  else if decide (String.get 2 s = Some "-"%char) then mac_bytes hex2 (split "-" s)
  else if decide (String.get 4 s = Some "."%char) then mac_bytes hex4 (split "." s)
  else None.

(** [HardwareAddr.String]. *)
Definition MAC_String (mac : list Z) : string := join ":" ((fun b => hex_encode [b]) <$> mac).

Example ParseMAC_forms :
  ParseMAC "02:00:5e:10:00:FF" = Some [2; 0; 0x5e; 0x10; 0; 255] /\
  ParseMAC "0200.5e10.00ff" = ParseMAC "02-00-5e-10-00-ff" /\ ParseMAC "02:00:5e:10:00" = None /\
  MAC_String [2; 0; 0x5e; 0x10; 0; 255] = "02:00:5e:10:00:ff".
Proof. by vm_compute. Qed.

Example string6_doc : IP_String (ParseIP "2001:db8:0:0:1:0:0:1") = "2001:db8::1:0:0:1".
Proof. reflexivity. Qed.
Example string6_edges :
  IP_String (ParseIP "0:0:0:0:0:0:0:1") = "::1" /\ IP_String (ParseIP "fe80:0::0") = "fe80::" /\
  IP_String (ParseIP "::ffff:10.0.0.1") = "10.0.0.1" /\ IP_String (ParseIP "::") = "::".
Proof. by vm_compute. Qed.

(** ** The shape of a printed address *)

Lemma Forall_str_any f (l : list Ascii.ascii) :
  Forall (fun c => f c = false) l -> str_any f (str_of l) = false.
Proof. rewrite str_any_str_of. induction 1 as [|c l Hc _ IH]; cbn; [done|]. by rewrite Hc. Qed.

Lemma digits_any f (l : list Z) n : Forall (fun d => 0 <= d < n) l ->
  (forall d, 0 <= d < n -> f (digit_char d) = false) -> str_any f (str_of (digit_char <$> l)) = false.
Proof. intros Hl Hf. apply Forall_str_any, Forall_fmap. eapply Forall_impl; [done|]. naive_solver. Qed.

Lemma hex_group_any f x : 0 <= x < 65536 ->
  (forall d, 0 <= d < 16 -> f (digit_char d) = false) -> str_any f (hex_group x) = false.
Proof.
  intros Hx Hf. apply (digits_any _ _ 16); [|done].
  assert (0 <= x / 4096 < 16) by (split; [apply Z.div_pos; lia|apply Z.div_lt_upper_bound; lia]).
  do 3 case_if; rewrite ?Forall_app, ?Forall_cons, ?Forall_nil; split_and!;
    solve [done | lia | apply Z.mod_pos_bound; lia].
Qed.

Lemma hex_group_nonempty x : hex_group x <> EmptyString.
Proof. unfold hex_group. do 3 case_if; done. Qed.

Lemma split_join_one sep x : str_any (fun c => bool_decide (c = sep)) x = false -> split sep x = [x].
Proof.
  induction x as [|c x IH]; cbn; [done|]. intros [Hc Hx]%orb_false_iff.
  apply bool_decide_eq_false in Hc. rewrite decide_False by done. by rewrite IH.
Qed.

Lemma split_app sep x r : str_any (fun c => bool_decide (c = sep)) x = false ->
  split sep (x +:+ String sep r) = x :: split sep r.
Proof.
  induction x as [|c x IH]; cbn; intros H.
  - by rewrite decide_True.
  - apply orb_false_iff in H as [Hc Hx]. apply bool_decide_eq_false in Hc.
    rewrite decide_False by done. by rewrite IH.
Qed.

(** [Split] inverts [Join] of parts without the separator. *)
Lemma split_join sep l : l <> [] ->
  Forall (fun x => str_any (fun c => bool_decide (c = sep)) x = false) l ->
  split sep (join (String sep EmptyString) l) = l.
Proof.
  intros Hne H; induction H as [|x l Hx Hl IH]; [done|]. destruct l as [|y l].
  - by apply split_join_one.
  - change (join _ (x :: y :: l)) with (x +:+ String sep EmptyString +:+ join (String sep EmptyString) (y :: l)).
    cbn [String.append]. rewrite split_app by done. by rewrite IH.
Qed.

Lemma str_map_app f a b : str_map f (a +:+ b) = str_map f a +:+ str_map f b.
Proof. induction a; cbn; [done|]. by f_equal. Qed.

Lemma str_map_id f a : str_any (fun c => negb (bool_decide (f c = c))) a = false -> str_map f a = a.
Proof.
  induction a as [|c a IH]; cbn; [done|]. intros [Hc Ha]%orb_false_iff.
  apply negb_false_iff, bool_decide_eq_true in Hc. by rewrite Hc, IH.
Qed.

Lemma str_map_join f sep l : str_map f (join sep l) = join (str_map f sep) (str_map f <$> l).
Proof.
  induction l as [|x [|y l] IH]; [done|done|].
  change (join sep (x :: y :: l)) with (x +:+ sep +:+ join sep (y :: l)).
  rewrite !str_map_app, IH. done.
Qed.

Lemma str_any_join f sep l : str_any f sep = false -> Forall (fun x => str_any f x = false) l ->
  str_any f (join sep l) = false.
Proof.
  intros Hs H; induction H as [|x l Hx Hl IH]; [done|]. destruct l as [|y l]; [done|].
  change (join sep (x :: y :: l)) with (x +:+ sep +:+ join sep (y :: l)).
  by rewrite !str_any_app, Hx, Hs, IH.
Qed.

(** The parts of a printed IPv6 address: eight groups, or fewer around an empty
    part, which is doubled at an edge. *)
Definition parts6 (h : nat -> string) (zs ze : nat) : list string :=
  if (8 <=? zs)%nat then h <$> seq 0 8
  else (if (zs =? 0)%nat then [EmptyString] else h <$> seq 0 zs) ++ [EmptyString] ++
       (if (8 <=? ze)%nat then [EmptyString] else h <$> seq ze (8 - ze)).

Definition run_ok (zs ze : nat) : Prop :=
  (zs = 255 /\ ze = 255 \/ zs < 8 /\ zs + 2 <= ze /\ ze <= 8)%nat.

Lemma zeros_ok ip : run_ok (zeros ip).1 (zeros ip).2.
Proof.
  assert (Hz : forall fuel j, (j <= 8)%nat -> (j <= zero_run fuel ip j <= 8)%nat).
  { induction fuel as [|fuel IH]; intros j Hj; cbn [zero_run]; [lia|]. case_if; to_prop; [|lia].
    specialize (IH (S j)). lia. }
  unfold zeros.
  assert (Hl : Forall (fun i => i < 8)%nat (seq 0 8)) by (repeat constructor; lia).
  assert (H0 : run_ok (255%nat, 255%nat).1 (255%nat, 255%nat).2) by (left; done).
  revert H0. generalize (255%nat, 255%nat). induction Hl as [|i l Hi Hl IH]; intros b Hb; [done|].
  cbn [fold_left]. apply IH. case_if; [|done]. to_prop. right. cbn [fst snd] in *. specialize (Hz 8%nat i). lia.
Qed.

Lemma append_groups_parts h zs ze : run_ok zs ze -> append_groups 8 h zs ze 0 = join ":" (parts6 h zs ze).
Proof.
  intros [[-> ->]|(H1&H2&H3)].
  - cbn. by rewrite ?app_str_assoc, ?app_str_nil.
  - assert (Hc : In (zs, ze) (list_prod (seq 0 8) (seq 0 9))) by (apply in_prod; apply in_seq; lia).
    clear H1 H3. revert H2. cbn in Hc.
    repeat destruct Hc as [[= <- <-]|Hc]; try done; intros H2; try lia;
      cbn; by rewrite ?app_str_assoc, ?app_str_nil.
Qed.
