(* ===== verification/ClaimNames.v ===== *)
(** * Address claims and their names (api/sdn/names.go, api/sdn/v1alpha1,
      api/localsdn, internal/ipam/reserved.go)

    A Port and a ServiceVIP are named by the address they hold; the name is the
    allocation.  This file has the objects, the names, their parsers and the
    reserved addresses, and shows that a name determines the network and the
    address it claims. *)

From S2P Require Import Prelude GoText GoNet AddrText AddrMap Grants.
Local Open Scope Z_scope.

(** ** The objects *)

(** The metadata the claim code reads; [Deleting] is a deletion timestamp that is
    set, and an absent label or annotation reads as the empty string. *)
Record ObjectMeta := MkMeta {
  m_Name : string; m_Namespace : string; m_UID : string; m_ResourceVersion : Z; m_Deleting : bool;
  m_Labels : gmap string string; m_Annotations : gmap string string; m_Finalizers : list string
}.
Definition at_key (m : gmap string string) (k : string) : string := default EmptyString (m !! k).

(** [PortSpec], api/sdn/v1alpha1/port_types.go:41-97. *)
Record PortSpec := MkPortSpec {
  s_VPCRef : VPCRef; s_IP : string; s_MAC : string; s_Node : string; s_NodeIP : string;
  s_PodNamespace : string; s_PodName : string; s_Gateway : bool; s_Forwarding : bool; s_Primary : bool
}.
(** [PortStatus], api/sdn/v1alpha1/port_types.go:100-118. *)
Record PortStatus := MkPortStatus { st_Groups : list Z; st_GroupRefs : list (Z * string); st_GroupPodUID : string }.
(** [Port], api/sdn/v1alpha1/port_types.go:140-146. *)
Record Port := MkPort { p_Meta : ObjectMeta; p_Spec : PortSpec; p_Status : PortStatus }.

(** [VIPPort], api/sdn/v1alpha1/servicevip_types.go:45-53. *)
Record VIPPort := MkVIPPort { vp_Name : string; vp_Protocol : string; vp_Port : Z }.
(** [VIPBackendPort], api/sdn/v1alpha1/servicevip_types.go:57-64. *)
Record VIPBackendPort := MkVIPBackendPort { bp_Protocol : string; bp_Port : Z; bp_TargetPort : Z }.
(** [VIPBackend], api/sdn/v1alpha1/servicevip_types.go:68-74. *)
Record VIPBackend := MkVIPBackend { bk_IP : string; bk_Ports : list VIPBackendPort }.
(** [ServiceVIPSpec], api/sdn/v1alpha1/servicevip_types.go:87-107. *)
Record ServiceVIPSpec := MkVIPSpec {
  v_VPCRef : VPCRef; v_IP : string; v_ServiceRef : string * string; v_Ports : list VIPPort; v_SessionAffinity : string
}.
(** [ServiceVIP], api/sdn/v1alpha1/servicevip_types.go:142-148. *)
Record ServiceVIP := MkVIP { v_Meta : ObjectMeta; v_Spec : ServiceVIPSpec; v_Backends : list VIPBackend }.

Definition p_Name (p : Port) : string := m_Name (p_Meta p).
Definition v_Name (v : ServiceVIP) : string := m_Name (v_Meta v).

#[export] Instance ObjectMeta_eq_dec : EqDecision ObjectMeta. Proof. solve_decision. Defined.
#[export] Instance PortSpec_eq_dec : EqDecision PortSpec. Proof. solve_decision. Defined.
#[export] Instance PortStatus_eq_dec : EqDecision PortStatus. Proof. solve_decision. Defined.
#[export] Instance Port_eq_dec : EqDecision Port. Proof. solve_decision. Defined.
#[export] Instance VIPPort_eq_dec : EqDecision VIPPort. Proof. solve_decision. Defined.
#[export] Instance VIPBackendPort_eq_dec : EqDecision VIPBackendPort. Proof. solve_decision. Defined.
#[export] Instance VIPBackend_eq_dec : EqDecision VIPBackend. Proof. solve_decision. Defined.
#[export] Instance ServiceVIPSpec_eq_dec : EqDecision ServiceVIPSpec. Proof. solve_decision. Defined.
#[export] Instance ServiceVIP_eq_dec : EqDecision ServiceVIP. Proof. solve_decision. Defined.

(** [LabelVMName], api/sdn/v1alpha1/labels.go:103-103. *)
Definition LabelVMName : string := "sdn.cozystack.io/vm-name".
(** [LabelVMNIC], api/sdn/v1alpha1/labels.go:117-117. *)
Definition LabelVMNIC : string := "sdn.cozystack.io/vm-nic".

(** ** Names *)

(** [ClaimPrefixPort], api/sdn/names.go:39-39. *)
Definition ClaimPrefixPort : string := "v".
(** [ClaimPrefixServiceVIP], api/sdn/names.go:40-40. *)
Definition ClaimPrefixServiceVIP : string := "sv".

(** The replacer of both [EscapeIP]s. *)
Definition dash (c : ascii) : ascii :=
  if decide (c = "."%char) then "-"%char else if decide (c = ":"%char) then "-"%char else c.

Definition dash_edge (s : string) : bool :=
  has_prefix s "-" || match str_last s with Some c => bool_decide (c = "-"%char) | None => false end.

(** [EscapeIP], api/sdn/names.go:47-56. *)
Definition EscapeIP (ip : string) : string :=
  let escaped := str_map dash ip in
  if dash_edge escaped then
    match ParseAddr ip with
    | Some (addr, EmptyString) => if Is6 addr then "x" +:+ hex_encode (As16 addr) else escaped
    | _ => escaped
    end
  else escaped.

(** [PortName], api/sdn/names.go:59-61. *)
Definition PortName (vni : Z) (ip : string) : string :=
  ClaimPrefixPort +:+ fmt_d vni +:+ "." +:+ EscapeIP ip.
(** [ServiceVIPName], api/sdn/names.go:65-67. *)
Definition ServiceVIPName (vni : Z) (ip : string) : string :=
  ClaimPrefixServiceVIP +:+ fmt_d vni +:+ "." +:+ EscapeIP ip.

(** [ParseClaim], api/sdn/names.go:72-86. *)
Definition ParseClaim (prefix name : string) : option (Z * string) :=
  rest ← cut_prefix prefix name;
  '(vniStr, esc) ← cut "."%char rest;
  if decide (vniStr = EmptyString \/ esc = EmptyString) then None
  else
    n ← parse_int32 vniStr;
    if (n <? FirstVNI) || (LastVNI <? n) then None else Some (n, esc).

(** [vniFromPortName], cmd/agent/main.go:2022-2035: the agent's parser of the same
    names, which reads an unsigned number. *)
Definition vniFromPortName (name : string) : option Z :=
  rest ← cut_prefix "v" name;
  '(vniStr, _) ← cut "."%char rest;
  if decide (vniStr = EmptyString) then None
  else
    vni ← parse_uint32 vniStr;
    if (vni <? FirstVNI) || (LastVNI <? vni) then None else Some vni.

(** [netFromPortName], cmd/cni/main.go:1528-1541: the plugin's. *)
Definition netFromPortName (name : string) : option Z :=
  if (String.length name <? 2)%nat then None
  else
    rest ← cut_prefix "v" name;
    '(vniStr, _) ← cut "."%char rest;
    if decide (vniStr = EmptyString) then None
    else
      vni ← parse_uint32 vniStr;
      if (vni <? FirstVNI) || (LastVNI <? vni) then None else Some vni.

(** [EscapeIP], api/localsdn/v1alpha1/fabricip_types.go:29-31. *)
Definition fabric_EscapeIP (ip : string) : string := str_map dash ip.

(** [FabricIPName], api/localsdn/v1alpha1/fabricip_types.go:50-52. *)
Definition FabricIPName (ip : string) : string := "f-" +:+ fabric_EscapeIP ip.

(** ** Reserved addresses *)

(** [reserved], internal/ipam/reserved.go:9-25. *)
Definition reserved : list Addr :=
  omap (fun s => fst <$> ParseAddr s)
    ["169.254.1.1"; "fe80::1"; "169.254.42.1"; "fe80::2a:1"; "64:ff9b::a9fe:101"; "64:ff9b::a9fe:2a01"].

(** [IsReserved], internal/ipam/reserved.go:29-36. *)
Definition IsReserved (ip : IP) : bool :=
  match AddrFromSlice ip with
  | Some address => bool_decide (Unmap address ∈ reserved)
  | None => false
  end.

(** [IsPoolReserved], internal/ipam/reserved.go:40-50. *)
Definition IsPoolReserved (network : option IPNet) (ip : IP) : bool :=
  match network with
  | None => true
  | Some network =>
      if decide (ip = []) then true
      else if IsReserved ip then true
      else
        let base := IP_Mask (inIP network) (inMask network) in
        match AddrFromSlice base with
        | None => true
        | Some address =>
            IP_Equal ip base ||
            IP_Equal ip (match Next (Unmap address) with Some a => AsSlice a | None => [] end)
        end
  end.

(** ** A name is a claim on one address *)

Lemma dash_digit d : 0 <= d < 16 -> dash (digit_char d) = digit_char d.
Proof. revert d. apply (small_cases 16). by repeat constructor. Qed.

Lemma dash_group_id x : 0 <= x < 65536 -> str_map dash (hex_group x) = hex_group x.
Proof.
  intros Hx. apply str_map_id, hex_group_any; [done|]. intros d Hd. by rewrite dash_digit, bool_decide_true.
Qed.

Lemma dash_dec_id n : 0 <= n < 2 ^ 64 -> str_map dash (fmt_nat n) = fmt_nat n.
Proof.
  intros Hn. apply str_map_id, fmt_nat_any; [done|]. intros d Hd. rewrite dash_digit by lia. by rewrite bool_decide_true.
Qed.

(** The parts of a printed address: decimal or hexadecimal digits only. *)
Definition digits_only (x : string) : Prop :=
  forall f, (forall d, 0 <= d < 16 -> f (digit_char d) = false) -> str_any f x = false.

Lemma digits_only_empty : digits_only EmptyString.
Proof. by intros f Hf. Qed.

Lemma digits_only_dash x : digits_only x -> str_map dash x = x.
Proof. intros Hx. apply str_map_id, Hx. intros d Hd. by rewrite dash_digit, bool_decide_true. Qed.

Lemma digits_only_no c x : digits_only x -> hex_val c = None -> str_any (fun a => bool_decide (a = c)) x = false.
Proof.
  intros Hx Hc. apply Hx. intros d Hd. apply bool_decide_false. intros <-. by rewrite hex_val_digit in Hc.
Qed.

(** The two shapes of a printed address, by family. *)
Definition shape4 (parts : list string) : Prop := length parts = 4%nat /\ EmptyString ∉ parts.
Definition shape6 (parts : list string) : Prop := (length parts = 8%nat \/ EmptyString ∈ parts).
Definition printed (s : string) (parts : list string) : Prop :=
  Forall digits_only parts /\ parts <> [] /\
  (shape4 parts /\ s = join "." parts \/ shape6 parts /\ s = join ":" parts).

Lemma printed4 ip : length ip = 4%nat -> Forall byte ip -> printed (string4 ip) (fmt_nat <$> ip).
Proof.
  intros Hl Hb. split_and!.
  - apply Forall_fmap. eapply Forall_impl; [done|]. intros b Hr f Hf. unfold byte in Hr.
    apply fmt_nat_any; [lia|]. intros d Hd. apply Hf. lia.
  - by destruct ip.
  - left. split; [|done]. split; [by rewrite length_fmap|].
    rewrite list_elem_of_fmap. intros (b & Hb' & Hin). rewrite Forall_forall in Hb. apply Hb in Hin.
    unfold byte in Hin. by apply (fmt_nat_nonempty b); [lia|].
Qed.

Lemma v6u16_bound ip i : Forall byte ip -> 0 <= v6u16 ip i < 65536.
Proof.
  intros Hb. unfold v6u16.
  assert (H : forall j, 0 <= nth j ip 0 < 256).
  { intros j. destruct (nth_in_or_default j ip 0) as [Hin| ->]; [|lia].
    rewrite Forall_forall in Hb. by apply Hb, list_elem_of_In. }
  pose proof (H (2 * i)%nat). pose proof (H (2 * i + 1)%nat). lia.
Qed.

Lemma printed6 ip : Forall byte ip ->
  printed (string6 ip) (parts6 (fun i => hex_group (v6u16 ip i)) (zeros ip).1 (zeros ip).2).
Proof.
  intros Hb. pose proof (zeros_ok ip) as Hz. unfold string6. rewrite append_groups_parts by done.
  assert (Hh : forall l : list nat, Forall digits_only ((fun i => hex_group (v6u16 ip i)) <$> l)).
  { intros l. apply Forall_fmap, Forall_forall. intros i _ f Hf. apply hex_group_any; [|done]. by apply v6u16_bound. }
  unfold parts6. clear Hz Hb. destruct (zeros ip) as [zs ze]. cbn [fst snd].
  generalize dependent (fun i => hex_group (v6u16 ip i)). intros h Hh. destruct (8 <=? zs)%nat.
  - split_and!; [apply Hh|done|]. right. split; [by left|done].
  - split_and!; [|intros H%(f_equal length); rewrite !length_app in H; cbn in H; lia|].
    + rewrite !Forall_app. split_and!.
      * case_if; [|apply Hh]. apply Forall_singleton, digits_only_empty.
      * apply Forall_singleton, digits_only_empty.
      * case_if; [|apply Hh]. apply Forall_singleton, digits_only_empty.
    + right. split; [|done]. right. apply elem_of_app. right. apply elem_of_app. left. by left.
Qed.

Lemma As16_wf a : length (As16 a) = 16%nat /\ Forall byte (As16 a).
Proof. split; [apply be_bytes_length|apply be_bytes_byte]. Qed.

Lemma ParseIP_16 s : ParseIP s <> [] -> length (ParseIP s) = 16%nat /\ Forall byte (ParseIP s).
Proof. unfold ParseIP. destruct (ParseAddr s) as [[a []]|]; try done. intros _. apply As16_wf. Qed.

Lemma canonical_printed s : canonical s -> exists parts, printed s parts.
Proof.
  intros [Hne Hs]. destruct (ParseIP_16 s Hne) as [Hl Hb]. revert Hs. unfold IP_String, To4. rewrite Hl.
  destruct (ParseIP s) as [|b ip] eqn:E; [done|]. rewrite <-E in *.
  case_decide; intros <-.
  - eexists. apply printed4; [rewrite length_drop; lia|by apply Forall_drop].
  - rewrite decide_True by done. eexists. by apply printed6.
Qed.

Lemma dash_parts parts : Forall digits_only parts -> str_map dash <$> parts = parts.
Proof. induction 1 as [|x l Hx _ IH]; cbn; [done|]. by rewrite digits_only_dash, IH. Qed.

Lemma printed_escaped s parts : printed s parts -> str_map dash s = join "-" parts.
Proof. intros (Hd & _ & [[_ ->]|[_ ->]]); rewrite str_map_join; cbn; by rewrite dash_parts. Qed.

(** The parts determine the address string: the families never print alike. *)
Lemma printed_inj s s' parts : printed s parts -> printed s' parts -> s = s'.
Proof.
  intros (_ & _ & [[H1 ->]|[H1 ->]]) (_ & _ & [[H2 ->]|[H2 ->]]); try done; exfalso;
    unfold shape4, shape6 in *; destruct H1, H2; naive_solver lia.
Qed.

Lemma join_dash_parts parts : Forall digits_only parts -> parts <> [] -> split "-" (join "-" parts) = parts.
Proof.
  intros Hd Hne. apply split_join; [done|]. eapply Forall_impl; [done|]. intros x Hx. by apply digits_only_no.
Qed.

Lemma escaped_inj s s' : canonical s -> canonical s' -> str_map dash s = str_map dash s' -> s = s'.
Proof.
  intros [ps Hs]%canonical_printed [ps' Hs']%canonical_printed H.
  rewrite (printed_escaped _ _ Hs), (printed_escaped _ _ Hs') in H.
  destruct (Hs) as (Hd & Hn & _), (Hs') as (Hd' & Hn' & _).
  apply (f_equal (split "-")) in H. rewrite !join_dash_parts in H by done. subst ps'. by eapply printed_inj.
Qed.

Lemma escaped_no_x s : canonical s -> str_any (fun c => bool_decide (c = "x"%char)) (str_map dash s) = false.
Proof.
  intros [ps Hs]%canonical_printed. rewrite (printed_escaped _ _ Hs). destruct Hs as (Hd & _).
  apply str_any_join; [done|]. eapply Forall_impl; [done|]. intros x Hx. by apply digits_only_no.
Qed.

Lemma hex_encode_inj a b : Forall byte a -> Forall byte b -> hex_encode a = hex_encode b -> a = b.
Proof.
  assert (Hd : forall x y, 0 <= x < 16 -> 0 <= y < 16 -> digit_char x = digit_char y -> x = y).
  { intros x y Hx Hy H. apply (f_equal hex_val) in H. rewrite !hex_val_digit in H by done. congruence. }
  intros Ha; revert b; induction Ha as [|x a Hx Ha IH]; intros [|y b] Hb; cbn; try done.
  apply Forall_cons in Hb as [Hy Hb]. unfold byte in *. intros [= H1 H2 H3].
  apply Hd in H1, H2; try (Z.div_mod_to_equations; lia).
  f_equal; [Z.div_mod_to_equations; lia|auto].
Qed.

(** What [EscapeIP] does to a canonical address: dashes, or the sixteen bytes. *)
Lemma EscapeIP_cases ip : canonical ip ->
  EscapeIP ip = str_map dash ip \/ EscapeIP ip = "x" +:+ hex_encode (ParseIP ip).
Proof.
  intros Hc. unfold EscapeIP, ParseIP. case_if; [|by left].
  destruct (ParseAddr ip) as [[a []]|]; [|by left..]. destruct (Is6 a); [by right|by left].
Qed.

Lemma EscapeIP_inj ip ip' : canonical ip -> canonical ip' -> EscapeIP ip = EscapeIP ip' -> ip = ip'.
Proof.
  intros Hc Hc' H. pose proof (escaped_no_x _ Hc) as Hx. pose proof (escaped_no_x _ Hc') as Hx'.
  destruct (EscapeIP_cases _ Hc) as [E|E], (EscapeIP_cases _ Hc') as [E'|E']; rewrite E, E' in H.
  - by apply escaped_inj.
  - by rewrite H in Hx.
  - by rewrite <-H in Hx'.
  - injection H as H. destruct Hc as [Hn <-], Hc' as [Hn' <-].
    apply ParseIP_16 in Hn as [_ Hb], Hn' as [_ Hb']. f_equal. by apply hex_encode_inj.
Qed.

Lemma ValidVNI_range v : ValidVNI v = true <-> 100 <= v <= 4194303.
Proof.
  unfold ValidVNI, FirstVNI, LastVNI. change (Z.shiftl 1 22 - 1) with 4194303.
  rewrite andb_true_iff, !Z.leb_le. lia.
Qed.

Lemma fmt_vni v : ValidVNI v = true -> fmt_d v = fmt_nat v.
Proof. rewrite ValidVNI_range. intros H. unfold fmt_d. case_if; to_prop; [lia|done]. Qed.

Lemma EscapeIP_nonempty ip : canonical ip -> EscapeIP ip <> EmptyString.
Proof.
  intros Hc H. destruct (EscapeIP_cases _ Hc) as [E|E]; rewrite E in H; [|done].
  destruct Hc as [Hn _]. by destruct ip.
Qed.

Lemma vni_digits vni r : ValidVNI vni = true ->
  cut "."%char (fmt_d vni +:+ "." +:+ r) = Some (fmt_d vni, r) /\ fmt_d vni <> EmptyString /\
  parse_uint32 (fmt_d vni) = Some vni.
Proof.
  intros Hv. rewrite fmt_vni by done. rewrite ValidVNI_range in Hv. split_and!.
  - apply cut_app, fmt_nat_any; [lia|]. apply (small_cases 10). by repeat constructor.
  - apply fmt_nat_nonempty. lia.
  - apply parse_uint32_fmt. lia.
Qed.

Lemma in_range vni : ValidVNI vni = true -> (vni <? FirstVNI) || (LastVNI <? vni) = false.
Proof. unfold ValidVNI. rewrite andb_true_iff, orb_false_iff, !Z.ltb_antisym. by intros [-> ->]. Qed.

(** The claim of a printed name, under either prefix. *)
Lemma ParseClaim_print prefix vni ip : ValidVNI vni = true -> canonical ip ->
  ParseClaim prefix (prefix +:+ fmt_d vni +:+ "." +:+ EscapeIP ip) = Some (vni, EscapeIP ip).
Proof.
  intros Hv Hc. pose proof (EscapeIP_nonempty ip Hc). destruct (vni_digits vni (EscapeIP ip) Hv) as (H1 & H2 & _).
  unfold ParseClaim. rewrite cut_prefix_app. cbn [mbind option_bind]. rewrite H1. cbn [mbind option_bind].
  rewrite decide_False by naive_solver. pose proof Hv as Hr. rewrite ValidVNI_range in Hr.
  rewrite fmt_vni, parse_int32_fmt by (done || lia). cbn [mbind option_bind]. by rewrite in_range.
Qed.

Lemma vniFromPortName_print vni ip : ValidVNI vni = true -> vniFromPortName (PortName vni ip) = Some vni.
Proof.
  intros Hv. destruct (vni_digits vni (EscapeIP ip) Hv) as (H1 & H2 & H3). unfold vniFromPortName, PortName.
  rewrite cut_prefix_app. cbn [mbind option_bind]. rewrite H1. cbn [mbind option_bind].
  rewrite decide_False by done. rewrite H3. cbn [mbind option_bind]. by rewrite in_range.
Qed.

Lemma netFromPortName_print vni ip : ValidVNI vni = true -> netFromPortName (PortName vni ip) = Some vni.
Proof.
  intros Hv. unfold netFromPortName.
  assert (Hl : (String.length (PortName vni ip) <? 2)%nat = false).
  { unfold PortName. destruct (vni_digits vni (EscapeIP ip) Hv) as (_ & H & _). by destruct (fmt_d vni). }
  rewrite Hl. by apply vniFromPortName_print.
Qed.

Lemma ParseClaim_sound prefix name vni esc : ParseClaim prefix name = Some (vni, esc) ->
  ValidVNI vni = true /\ esc <> EmptyString.
Proof.
  unfold ParseClaim. destruct (cut_prefix prefix name) as [rest|]; [|done]. cbn.
  destruct (cut "." rest) as [[a b]|]; [|done]. cbn. case_decide; [done|].
  destruct (parse_int32 a) as [n|]; [|done]. cbn [mbind option_bind]. case_if; [done|].
  intros [= -> ->]. to_prop. unfold ValidVNI. rewrite andb_true_iff, !Z.leb_le. naive_solver lia.
Qed.

Lemma PortName_inj vni vni' ip ip' : ValidVNI vni = true -> ValidVNI vni' = true -> canonical ip -> canonical ip' ->
  PortName vni ip = PortName vni' ip' -> vni = vni' /\ ip = ip'.
Proof.
  intros Hv Hv' Hc Hc' H. pose proof (ParseClaim_print ClaimPrefixPort vni ip Hv Hc) as P.
  unfold PortName in H. rewrite H, ParseClaim_print in P by done. injection P as -> P. split; [done|].
  by apply EscapeIP_inj.
Qed.

Lemma ServiceVIPName_inj vni vni' ip ip' : ValidVNI vni = true -> ValidVNI vni' = true -> canonical ip -> canonical ip' ->
  ServiceVIPName vni ip = ServiceVIPName vni' ip' -> vni = vni' /\ ip = ip'.
Proof.
  intros Hv Hv' Hc Hc' H. pose proof (ParseClaim_print ClaimPrefixServiceVIP vni ip Hv Hc) as P.
  unfold ServiceVIPName in H. rewrite H, ParseClaim_print in P by done. injection P as -> P. split; [done|].
  by apply EscapeIP_inj.
Qed.

(** C40. A name is the claim of exactly one address: for canonical addresses in valid networks,
    the registry's parser reads the network back out of both kinds of name, the agent's and the
    plugin's parsers agree with it, distinct network and address pairs never share a Port name,
    a ServiceVIP name or a fabric name, and no Port name is a ServiceVIP name. *)
Theorem claim_names_exact (vni vni' : Z) (ip ip' : string) :
  ValidVNI vni = true -> ValidVNI vni' = true -> canonical ip -> canonical ip' ->
  ParseClaim ClaimPrefixPort (PortName vni ip) = Some (vni, EscapeIP ip) /\
  ParseClaim ClaimPrefixServiceVIP (ServiceVIPName vni ip) = Some (vni, EscapeIP ip) /\
  vniFromPortName (PortName vni ip) = Some vni /\ netFromPortName (PortName vni ip) = Some vni /\
  (PortName vni ip = PortName vni' ip' <-> vni = vni' /\ ip = ip') /\
  (ServiceVIPName vni ip = ServiceVIPName vni' ip' <-> vni = vni' /\ ip = ip') /\
  (FabricIPName ip = FabricIPName ip' <-> ip = ip') /\
  PortName vni ip <> ServiceVIPName vni' ip'.
Proof.
  intros Hv Hv' Hc Hc'. split_and!.
  - by apply ParseClaim_print.
  - by apply ParseClaim_print.
  - by apply vniFromPortName_print.
  - by apply netFromPortName_print.
  - split; [by apply PortName_inj|by intros [-> ->]].
  - split; [by apply ServiceVIPName_inj|by intros [-> ->]].
  - split; [|by intros ->]. intros H%app_str_inj. by apply escaped_inj.
  - done.
Qed.

Lemma claim_names_exact_witness :
  PortName 100 "10.0.0.5" = "v100.10-0-0-5" /\ ServiceVIPName 100 "fd00::5" = "sv100.fd00--5" /\
  PortName 100 "::1" = "v100.x00000000000000000000000000000001" /\
  ParseClaim ClaimPrefixPort (PortName 100 "10.0.0.5") = Some (100, EscapeIP "10.0.0.5") /\
  PortName 100 "10.0.0.5" <> ServiceVIPName 4194303 "fd00::5".
Proof.
  split_and!; [reflexivity..| |].
  - apply (claim_names_exact 100 4194303 "10.0.0.5" "fd00::5"); try reflexivity; by apply (bool_decide_unpack _); vm_compute.
  - apply (claim_names_exact 100 4194303 "10.0.0.5" "fd00::5"); try reflexivity; by apply (bool_decide_unpack _); vm_compute.
Defined.

(** The parsers differ off the printed names: only the registry's accepts a sign. *)
Example parsers_differ : ParseClaim ClaimPrefixPort "v+100.10-0-0-5" = Some (100, "10-0-0-5") /\
  vniFromPortName "v+100.10-0-0-5" = None.
Proof. by vm_compute. Qed.
