(* ===== verification/Registry.v ===== *)
(** * Registry strategies of the address claims (pkg/registry/sdn/port,
      pkg/registry/sdn/servicevip)

    What the aggregated API server admits on a create, an update and a status
    update of a Port and of a ServiceVIP.  The [claim] invariant states what an
    admitted object promises to everyone that reads its name. *)

From S2P Require Import Prelude GoText GoNet AddrText AddrMap Grants ClaimNames.
Local Open Scope Z_scope.

(** ** Field errors

    [field.Error]: the kind and the path; the texts are not kept. *)
Inductive ferror :=
| Required (path : string)
| Invalid (path : string)
| Forbidden (path : string)
| NotSupported (path : string)
| TooMany (path : string).
#[export] Instance ferror_eq_dec : EqDecision ferror. Proof. solve_decision. Defined.
Abbreviation ErrorList := (list ferror).

(** [Path.Index], [Path.Key] and [Path.Child]. *)
Definition Index (path : string) (i : nat) : string := path +:+ "[" +:+ fmt_nat (Z.of_nat i) +:+ "]".
Definition Key (path key : string) : string := path +:+ "[" +:+ key +:+ "]".
Definition Child (path name : string) : string := path +:+ "." +:+ name.

(** The errors of [f] on each element with its position. *)
Definition each {A} (f : nat -> A -> ErrorList) (l : list A) : ErrorList := concat (imap f l).
Definition check (ok : bool) (e : ferror) : ErrorList := if ok then [] else [e].

Lemma check_nil ok e : check ok e = [] <-> ok = true.
Proof. by destruct ok. Qed.

Lemma each_nil {A} (f : nat -> A -> ErrorList) l : each f l = [] <-> forall i x, l !! i = Some x -> f i x = [].
Proof.
  unfold each. revert f; induction l as [|y l IH]; intros f; cbn; [by split|].
  rewrite app_nil, (IH (f ∘ S)). split.
  - intros [Hy Hl] [|i] x Hx; [by injection Hx as ->|by apply Hl].
  - intros H. split; [by apply (H 0%nat)|]. intros i x Hx. by apply (H (S i)).
Qed.

(** ** Ports *)

(** [IsPersistent], pkg/registry/sdn/claim/persistent.go:24-24. *)
Definition IsPersistent (p : Port) : bool := negb (bool_decide (at_key (m_Labels (p_Meta p)) LabelVMName = EmptyString)).

(** [SamePersistentNIC], pkg/registry/sdn/claim/persistent.go:28-32. *)
Definition SamePersistentNIC (a b : Port) : bool :=
  IsPersistent a && IsPersistent b &&
  bool_decide (s_PodNamespace (p_Spec a) = s_PodNamespace (p_Spec b)) &&
  bool_decide (s_VPCRef (p_Spec a) = s_VPCRef (p_Spec b)) &&
  bool_decide (at_key (m_Labels (p_Meta a)) LabelVMName = at_key (m_Labels (p_Meta b)) LabelVMName) &&
  bool_decide (at_key (m_Labels (p_Meta a)) LabelVMNIC = at_key (m_Labels (p_Meta b)) LabelVMNIC).

Definition emptyStatus : PortStatus := MkPortStatus [] [] EmptyString.

(** [portStrategy.PrepareForCreate], pkg/registry/sdn/port/strategy.go:80-84. *)
Definition port_PrepareForCreate (p : Port) : Port := MkPort (p_Meta p) (p_Spec p) emptyStatus.

(** [portStrategy.PrepareForUpdate], pkg/registry/sdn/port/strategy.go:86-92. *)
Definition port_PrepareForUpdate (p old : Port) : Port := MkPort (p_Meta p) (p_Spec p) (p_Status old).

(** The six-byte unicast test of a pinned MAC. *)
Definition unicast6 (mac : string) : bool :=
  match ParseMAC mac with
  | Some mac => bool_decide (length mac = 6%nat) && (Z.land (nth 0 mac 0) 1 =? 0)
  | None => false
  end.

(** [portStrategy.Validate], pkg/registry/sdn/port/strategy.go:98-140. *)
Definition port_Validate (p : Port) : ErrorList :=
  let labels := m_Labels (p_Meta p) in
  let errs :=
    if IsPersistent p then
      concat ((fun '(path, value) => check (negb (bool_decide (value = EmptyString))) (Required path)) <$>
        [("spec.podNamespace", s_PodNamespace (p_Spec p));
         ("spec.vpcRef.namespace", refNamespace (s_VPCRef (p_Spec p)));
         ("spec.vpcRef.name", refName (s_VPCRef (p_Spec p)));
         (Key "metadata.labels" LabelVMNIC, at_key labels LabelVMNIC)]) ++
      check (unicast6 (s_MAC (p_Spec p))) (Invalid "spec.mac")
    else [] in
  let ip := ParseIP (s_IP (p_Spec p)) in
  if decide (ip = [] \/ IP_String ip <> s_IP (p_Spec p)) then errs ++ [Invalid "spec.ip"]
  else
    errs ++ check (negb (IsReserved ip)) (Invalid "spec.ip") ++
    match ParseClaim ClaimPrefixPort (p_Name p) with
    | None => [Invalid "metadata.name"]
    | Some (vni, _) => check (bool_decide (p_Name p = PortName vni (s_IP (p_Spec p)))) (Invalid "metadata.name")
    end.

(** [validatePersistentUpdate], pkg/registry/sdn/port/strategy.go:214-230. *)
Definition validatePersistentUpdate (next old : Port) : ErrorList :=
  concat ((fun key => check (bool_decide (at_key (m_Labels (p_Meta next)) key = at_key (m_Labels (p_Meta old)) key))
                        (Forbidden (Key "metadata.labels" key))) <$> [LabelVMName; LabelVMNIC]) ++
  if IsPersistent old then
    check (bool_decide (s_PodNamespace (p_Spec next) = s_PodNamespace (p_Spec old))) (Forbidden "spec.podNamespace") ++
    check (bool_decide (s_MAC (p_Spec next) = s_MAC (p_Spec old))) (Forbidden "spec.mac")
  else [].

(** [portStrategy.ValidateUpdate], pkg/registry/sdn/port/strategy.go:162-175. *)
Definition port_ValidateUpdate (p old : Port) : ErrorList :=
  check (bool_decide (s_IP (p_Spec p) = s_IP (p_Spec old))) (Forbidden "spec.ip") ++
  check (bool_decide (s_VPCRef (p_Spec p) = s_VPCRef (p_Spec old))) (Forbidden "spec.vpcRef") ++
  validatePersistentUpdate p old.

(** [portStatusStrategy.PrepareForUpdate], pkg/registry/sdn/port/strategy.go:193-197. *)
Definition port_status_PrepareForUpdate (p old : Port) : Port := MkPort (p_Meta p) (p_Spec old) (p_Status p).

(** [portStatusStrategy.ValidateUpdate], pkg/registry/sdn/port/strategy.go:199-212:
    the first bad group is the only error. *)
Definition port_status_ValidateUpdate (p old : Port) : ErrorList :=
  let groups := st_Groups (p_Status p) in
  if (63 <? length groups)%nat then [TooMany "status.groups"]
  else
    match head (each (fun i id => check ((id =? 0) || ValidGroup id) (Invalid (Index "status.groups" i))) groups) with
    | Some e => [e]
    | None => validatePersistentUpdate p old
    end.

(** ** ServiceVIPs *)

(** [servicevip_PrepareForCreate], pkg/registry/sdn/servicevip/strategy.go:75-80. *)
Definition vip_PrepareForCreate (v : ServiceVIP) : ServiceVIP := MkVIP (v_Meta v) (v_Spec v) [].

(** [servicevip_PrepareForUpdate], pkg/registry/sdn/servicevip/strategy.go:82-87. *)
Definition vip_PrepareForUpdate (v old : ServiceVIP) : ServiceVIP := MkVIP (v_Meta v) (v_Spec v) (v_Backends old).

(** [validatePort], pkg/registry/sdn/servicevip/strategy.go:196-205. *)
Definition validatePort (protocol : string) (port : Z) (p : string) : ErrorList :=
  check (bool_decide (protocol = "TCP") || bool_decide (protocol = "UDP")) (NotSupported (Child p "protocol")) ++
  check (negb ((port <? 1) || (65535 <? port))) (Invalid (Child p "port")).

(** [validateVIPPorts], pkg/registry/sdn/servicevip/strategy.go:188-194. *)
Definition validateVIPPorts (v : ServiceVIP) : ErrorList :=
  each (fun i port => validatePort (vp_Protocol port) (vp_Port port) (Index "spec.ports" i)) (v_Ports (v_Spec v)).

(** [servicevip_Validate], pkg/registry/sdn/servicevip/strategy.go:93-116. *)
Definition vip_Validate (v : ServiceVIP) : ErrorList :=
  let errs := validateVIPPorts v in
  let ip := ParseIP (v_IP (v_Spec v)) in
  if decide (ip = [] \/ IP_String ip <> v_IP (v_Spec v)) then errs ++ [Invalid "spec.ip"]
  else
    errs ++ check (negb (IsReserved ip)) (Invalid "spec.ip") ++
    match ParseClaim ClaimPrefixServiceVIP (v_Name v) with
    | None => [Invalid "metadata.name"]
    | Some (vni, _) => check (bool_decide (v_Name v = ServiceVIPName vni (v_IP (v_Spec v)))) (Invalid "metadata.name")
    end.

(** [servicevip_ValidateUpdate], pkg/registry/sdn/servicevip/strategy.go:137-150. *)
Definition vip_ValidateUpdate (v old : ServiceVIP) : ErrorList :=
  validateVIPPorts v ++
  check (bool_decide (v_IP (v_Spec v) = v_IP (v_Spec old))) (Forbidden "spec.ip") ++
  check (bool_decide (v_VPCRef (v_Spec v) = v_VPCRef (v_Spec old))) (Forbidden "spec.vpcRef").

(** [serviceVIPStatusStrategy.PrepareForUpdate], pkg/registry/sdn/servicevip/strategy.go:168-172. *)
Definition vip_status_PrepareForUpdate (v old : ServiceVIP) : ServiceVIP := MkVIP (v_Meta v) (v_Spec old) (v_Backends v).

(** [serviceVIPStatusStrategy.ValidateUpdate], pkg/registry/sdn/servicevip/strategy.go:174-186. *)
Definition vip_status_ValidateUpdate (v old : ServiceVIP) : ErrorList :=
  each (fun i backend => each (fun j port =>
    let p := Index (Child (Index "status.backends" i) "ports") j in
    validatePort (bp_Protocol port) (bp_Port port) p ++
    check (negb ((bp_TargetPort port <? 1) || (65535 <? bp_TargetPort port))) (Invalid (Child p "targetPort")))
    (bk_Ports backend)) (v_Backends v).

(** ** What an admitted object promises *)

(** The Port is named by the network and the address it holds. *)
Definition port_claims (p : Port) (vni : Z) : Prop :=
  ValidVNI vni = true /\ canonical (s_IP (p_Spec p)) /\ p_Name p = PortName vni (s_IP (p_Spec p)).
Definition vip_claims (v : ServiceVIP) (vni : Z) : Prop :=
  ValidVNI vni = true /\ canonical (v_IP (v_Spec v)) /\ v_Name v = ServiceVIPName vni (v_IP (v_Spec v)).

Lemma Port_Validate_claims p : port_Validate p = [] ->
  exists vni, port_claims p vni /\ IsReserved (ParseIP (s_IP (p_Spec p))) = false.
Proof.
  unfold port_Validate. case_decide as Hip; [by intros [_ ?]%app_nil|].
  intros [_ [Hr Hn]%app_nil]%app_nil. apply check_nil, negb_true_iff in Hr.
  destruct (ParseClaim ClaimPrefixPort (p_Name p)) as [[vni esc]|] eqn:E; [|done].
  apply check_nil, bool_decide_eq_true in Hn. exists vni. split; [|done].
  apply ParseClaim_sound in E as [Hv _]. split_and!; [done| |done]. unfold canonical.
  destruct (decide (IP_String (ParseIP (s_IP (p_Spec p))) = s_IP (p_Spec p))); naive_solver.
Qed.

Lemma VIP_Validate_claims v : vip_Validate v = [] ->
  exists vni, vip_claims v vni /\ IsReserved (ParseIP (v_IP (v_Spec v))) = false.
Proof.
  unfold vip_Validate. case_decide as Hip; [by intros [_ ?]%app_nil|].
  intros [_ [Hr Hn]%app_nil]%app_nil. apply check_nil, negb_true_iff in Hr.
  destruct (ParseClaim ClaimPrefixServiceVIP (v_Name v)) as [[vni esc]|] eqn:E; [|done].
  apply check_nil, bool_decide_eq_true in Hn. exists vni. split; [|done].
  apply ParseClaim_sound in E as [Hv _]. split_and!; [done| |done]. unfold canonical.
  destruct (decide (IP_String (ParseIP (v_IP (v_Spec v))) = v_IP (v_Spec v))); naive_solver.
Qed.
