(* ===== verification/Claims.v ===== *)
(** * The atomic address claim (pkg/registry/sdn/claim, the [BeginCreate] hooks
      of the Port and ServiceVIP registries)

    A create writes its key only when its own key and the key of its twin, the
    other kind's object on the same address, are absent; a persistent Port also
    requires that nothing of its network was written since a complete scan for
    its NIC.  The creates of all API servers run concurrently: each is a program
    of etcd calls, and a step of the system performs one call of one of them.

    etcd, the storage codec and the key functions of the generic registry are
    interfaces, with their documented behaviour as laws. *)

From S2P Require Import Prelude GoText GoNet AddrText AddrMap Grants ClaimNames Registry.
Local Open Scope Z_scope.

(** ** Strings *)

(** The byte order of Go strings. *)
Fixpoint str_ltb (a b : string) : bool :=
  match a, b with
  | _, EmptyString => false
  | EmptyString, String _ _ => true
  | String x a, String y b => if code x <? code y then true else if code y <? code x then false else str_ltb a b
  end.

(** [strings.TrimPrefix] and [strings.TrimSuffix]. *)
Definition TrimPrefix (s p : string) : string := default s (cut_prefix p s).
Definition TrimSuffix (s p : string) : string := str_rev (TrimPrefix (str_rev s) (str_rev p)).

(** The string up to and with its last slash, [s[:strings.LastIndex(s, "/")+1]]. *)
Definition dir_of (s : string) : string :=
  match cut_last "/"%char s with Some (a, _) => a +:+ "/" | None => EmptyString end.

Definition nul : string := String (chr 0) EmptyString.

(** ** etcd *)

(** [persistentPageSize], pkg/registry/sdn/claim/persistent.go:20-20. *)
Definition persistentPageSize : nat := 128.

Record kv := MkKv { kv_Key : string; kv_Value : string; kv_ModRevision : Z }.
(** A range response; a missing header or entry is [None]. *)
Record page := MkPage { pg_Revision : option Z; pg_Kvs : list (option kv); pg_More : bool }.
Inductive cmp :=
| VersionZero (key : string)
| ModBelow (start end_ : string) (rev : Z).
(** A transaction response; [tx_Found] says of each range of its failure branch
    whether it returned a key. *)
Record txn := MkTxn { tx_Succeeded : bool; tx_Found : list bool }.

Definition in_range_of (start end_ k : string) : bool := negb (str_ltb k start) && str_ltb k end_.

(** What etcd documents of its keyspace: a revision that grows by one with each
    write, reads of past revisions, and the revision of the last change of a key. *)
Class Etcd := {
  db : Type;
  now : db -> Z;
  live : db -> gmap string (string * Z);
  past : db -> Z -> gmap string (string * Z);
  put : db -> string -> string -> db;
  del : db -> string -> db;
  range_end : string -> string;
  past_now d : past d (now d) = live d;
  live_le d k v m : live d !! k = Some (v, m) -> m <= now d;
  live_mod d k v m r : live d !! k = Some (v, m) -> m <= r <= now d -> past d r !! k = Some (v, m);
  now_put d k v : now (put d k v) = now d + 1;
  live_put d k v : live (put d k v) = <[k := (v, now d + 1)]> (live d);
  past_put d k v r : r <= now d -> past (put d k v) r = past d r;
  now_del d k : now (del d k) = now d + 1;
  live_del d k : live (del d k) = delete k (live d);
  past_del d k r : r <= now d -> past (del d k) r = past d r;
  (** [GetPrefixRangeEnd] of a prefix that ends in a dot. *)
  range_end_prefix p k : str_last p = Some "."%char -> in_range_of p (range_end p) k = has_prefix k p
}.

Section etcd.
Context `{Etcd}.

(** The comparisons of a transaction. *)
Definition cmp_holds (d : db) (c : cmp) : bool :=
  match c with
  | VersionZero k => bool_decide (live d !! k = None)
  | ModBelow start end_ rev =>
      forallb (fun '(k, (_, m)) => negb (in_range_of start end_ k) || (m <? rev)) (map_to_list (live d))
  end.

(** What a range request of a page of keys in ascending order may answer: entries of
    the keyspace in the range, and every key that is missing lies past the last
    of them and is announced by [More]. *)
Definition page_of (m : gmap string (string * Z)) (start end_ : string) (rev : Z) (pg : page) : Prop :=
  pg_Revision pg = Some rev /\ (length (pg_Kvs pg) <= persistentPageSize)%nat /\
  (forall e, e ∈ pg_Kvs pg -> exists k v r, e = Some (MkKv k v r) /\ m !! k = Some (v, r) /\ in_range_of start end_ k = true) /\
  (forall k v r, m !! k = Some (v, r) -> in_range_of start end_ k = true ->
     Some (MkKv k v r) ∈ pg_Kvs pg \/
     pg_More pg = true /\ exists e, last (pg_Kvs pg) = Some (Some e) /\ str_ltb (kv_Key e) k = true).

(** A read without a revision sees the current keyspace. *)
Definition answers (d : db) (start end_ : string) (rev : option Z) (pg : page) : Prop :=
  page_of (match rev with None => live d | Some r => past d r end) start end_ (now d) pg.

End etcd.

(** ** Programs of storage calls *)

Inductive prog (A : Type) :=
| Ret (r : result A)
| CtxErr (k : option string -> prog A)
| Get (start end_ : string) (rev : option Z) (k : result page -> prog A)
| Exists (key : string) (k : result bool -> prog A)
| Txn (checks : list cmp) (key value : string) (gets : list string) (k : result txn -> prog A).
Arguments Ret {A}. Arguments CtxErr {A}. Arguments Get {A}. Arguments Exists {A}. Arguments Txn {A}.

#[export] Instance prog_ret : MRet prog := fun A a => Ret (Ok a).
Fixpoint prog_bind {A B} (f : A -> prog B) (p : prog A) : prog B :=
  match p with
  | Ret (Ok a) => f a
  | Ret (Err e) => Ret (Err e)
  | CtxErr k => CtxErr (fun e => prog_bind f (k e))
  | Get s e r k => Get s e r (fun pg => prog_bind f (k pg))
  | Exists key k => Exists key (fun b => prog_bind f (k b))
  | Txn c key v g k => Txn c key v g (fun t => prog_bind f (k t))
  end.
#[export] Instance prog_mbind : MBind prog := fun A B f p => prog_bind f p.
Definition plift {A} (r : result A) : prog A := Ret r.
Definition pfail {A} (e : string) : prog A := Ret (Err e).
(** [if err := ctx.Err(); err != nil { return err }]. *)
Definition ctx_alive : prog unit := CtxErr (fun e => match e with Some e => pfail e | None => mret tt end).
Definition kv_get (start end_ : string) (rev : option Z) : prog page := Get start end_ rev plift.

(** ** The storage of one kind *)

Inductive kind := KPort | KVIP.
#[export] Instance kind_eq_dec : EqDecision kind. Proof. solve_decision. Defined.
Definition twin_of (k : kind) : kind := match k with KPort => KVIP | KVIP => KPort end.
Inductive claim := CPort (p : Port) | CVIP (v : ServiceVIP).
Definition kind_of (c : claim) : kind := match c with CPort _ => KPort | CVIP _ => KVIP end.
Definition c_Meta (c : claim) : ObjectMeta := match c with CPort p => p_Meta p | CVIP v => v_Meta v end.
Definition c_Name (c : claim) : string := m_Name (c_Meta c).

Definition meta_rv (rev : Z) (m : ObjectMeta) : ObjectMeta :=
  MkMeta (m_Name m) (m_Namespace m) (m_UID m) rev (m_Deleting m) (m_Labels m) (m_Annotations m) (m_Finalizers m).
Definition with_rv (rev : Z) (c : claim) : claim :=
  match c with
  | CPort p => CPort (MkPort (meta_rv rev (p_Meta p)) (p_Spec p) (p_Status p))
  | CVIP v => CVIP (MkVIP (meta_rv rev (v_Meta v)) (v_Spec v) (v_Backends v))
  end.

(** The codec, the encryption at rest and the keys of the generic registry. *)
Class Storage := {
  Encode : claim -> result string;
  Decode : kind -> string -> Z -> result claim;
  ToStorage : string -> string -> result string;
  FromStorage : string -> string -> result string;
  cfgPrefix : string;
  root : kind -> string;
  KeyFunc : kind -> string -> result string;
  PrepareKey : string -> string -> result string;
  decode_encode c data rev : Encode c = Ok data -> Decode (kind_of c) data rev = Ok (with_rv rev c);
  from_to data key enc : ToStorage data key = Ok enc -> FromStorage enc key = Ok data;
  KeyFunc_spec k name key : KeyFunc k name = Ok key -> key = root k +:+ "/" +:+ name;
  PrepareKey_spec r key key' : PrepareKey r key = Ok key' -> key' = key;
  roots_apart a b : TrimPrefix (root KPort +:+ "/") "/" +:+ a <> TrimPrefix (root KVIP +:+ "/") "/" +:+ b
}.

(** [persistentCreateAttempts], pkg/registry/sdn/claim/persistent.go:18-18. *)
Definition persistentCreateAttempts : nat := 8.
(** [persistentScanLimit], pkg/registry/sdn/claim/persistent.go:19-19. *)
Definition persistentScanLimit : Z := 65536.
(** [persistentScanBytes], pkg/registry/sdn/claim/persistent.go:22-22. *)
Definition persistentScanBytes : Z := Z.shiftl 64 20.

(** [persistentContention], pkg/registry/sdn/claim/persistent.go:34-36. *)
Definition persistentContention : string := "persistent NIC allocation changed concurrently; retry ADD".

Definition ErrExists (name : string) : string := "already exists: " +:+ name.
Definition MaxInt64 : Z := 2 ^ 63 - 1.

Section storage.
Context `{Etcd} `{Storage}.

(** The counters and the match of a scan. *)
Record scan := MkScan { sc_match : string; sc_seen : Z; sc_bytes : Z }.

(** [persistentGuard], one entry of a page, pkg/registry/sdn/claim/persistent.go:68-96. *)
Definition scan_entry (dir prefix start : string) (port : Port) (s : scan) (entry : option kv) : prog scan :=
  ctx_alive ;;
  match entry with
  | None => pfail "persistent NIC snapshot exceeds its byte budget or has a missing entry"
  | Some e =>
      let size := Z.of_nat (String.length (kv_Value e)) in
      if persistentScanBytes - sc_bytes s <? size then
        pfail "persistent NIC snapshot exceeds its byte budget or has a missing entry"
      else
        let s := MkScan (sc_match s) (sc_seen s + 1) (sc_bytes s + size) in
        if (persistentScanLimit <? sc_seen s) || negb (has_prefix (kv_Key e) prefix) || str_ltb (kv_Key e) start then
          pfail "persistent NIC snapshot exceeds its scope or claim budget"
        else
          data ← plift (FromStorage (kv_Value e) (kv_Key e));
          stored ← plift (Decode KPort data (kv_ModRevision e));
          match stored with
          | CVIP _ => pfail "decoded object is not a Port"
          | CPort stored =>
              if decide (kv_Key e <> dir +:+ p_Name stored) then
                pfail "persistent NIC snapshot has inconsistent claim identity"
              else if SamePersistentNIC port stored then
                if decide (sc_match s <> EmptyString) then
                  pfail "multiple existing claims for this persistent NIC; repair required"
                else mret (MkScan (p_Name stored) (sc_seen s) (sc_bytes s))
              else mret s
          end
  end.

Fixpoint scan_entries (dir prefix start : string) (port : Port) (s : scan) (l : list (option kv)) : prog scan :=
  match l with
  | [] => mret s
  | e :: l => s ← scan_entry dir prefix start port s e; scan_entries dir prefix start port s l
  end.

(** [persistentGuard], the loop over the pages, pkg/registry/sdn/claim/persistent.go:46-108:
    the revision of the first page fixes the snapshot. Every page but the last has an
    entry, so one page more than the claim limit ends the loop. *)
Fixpoint scan_pages (fuel : nat) (dir prefix end_ : string) (port : Port)
    (start : string) (revision : option Z) (s : scan) : prog (Z * string) :=
  match fuel with
  | O => pfail "the scan did not end"
  | S fuel =>
      ctx_alive ;;
      page ← kv_get start end_ revision;
      match pg_Revision page with
      | None => pfail "incomplete persistent NIC snapshot"
      | Some rev =>
          if rev <=? 0 then pfail "incomplete persistent NIC snapshot"
          else if (persistentPageSize <? length (pg_Kvs page))%nat then
            pfail "persistent NIC snapshot exceeds its page budget"
          else
            let revision := default rev revision in
            s ← scan_entries dir prefix start port s (pg_Kvs page);
            if negb (pg_More page) then mret (revision, sc_match s)
            else
              match last (pg_Kvs page) with
              | Some (Some e) =>
                  if persistentScanLimit <=? sc_seen s then
                    pfail "incomplete or oversized persistent NIC snapshot"
                  else
                    let next := kv_Key e +:+ nul in
                    if negb (str_ltb start next) || negb (str_ltb next end_) then
                      pfail "persistent NIC snapshot did not advance"
                    else scan_pages fuel dir prefix end_ port next (Some revision) s
              | _ => pfail "incomplete or oversized persistent NIC snapshot"
              end
      end
  end.

Definition scan_fuel : nat := Z.to_nat (persistentScanLimit + 1).

(** [persistentGuard], pkg/registry/sdn/claim/persistent.go:38-116. *)
Definition persistentGuard (prepared : string) (port : Port) : prog cmp :=
  let vni := match ParseClaim ClaimPrefixPort (p_Name port) with Some (vni, _) => vni | None => 0 end in
  let dir := dir_of prepared in
  let prefix := dir +:+ "v" +:+ fmt_d vni +:+ "." in
  let end_ := range_end prefix in
  '(revision, found) ← scan_pages scan_fuel dir prefix end_ port prefix None (MkScan EmptyString 0 0);
  if decide (found <> EmptyString) then pfail (ErrExists found)
  else if revision =? MaxInt64 then pfail persistentContention
  else mret (ModBelow prefix end_ (revision + 1)).

(** [Create], the name of the twin, pkg/registry/sdn/claim/atomic.go:129-145. *)
Definition twinName_of (c : claim) : result string :=
  match c with
  | CPort p =>
      match ParseClaim ClaimPrefixPort (p_Name p) with
      | Some (vni, _) => Ok (ServiceVIPName vni (s_IP (p_Spec p)))
      | None => Err "invalid Port claim"
      end
  | CVIP v =>
      match ParseClaim ClaimPrefixServiceVIP (v_Name v) with
      | Some (vni, _) => Ok (PortName vni (v_IP (v_Spec v)))
      | None => Err "invalid ServiceVIP claim"
      end
  end.

(** The key of the object in etcd, pkg/registry/sdn/claim/atomic.go:157-159. *)
Definition absolute (key : string) : string := (TrimSuffix cfgPrefix "/" +:+ "/") +:+ TrimPrefix key "/".

(** [Create], the attempts, pkg/registry/sdn/claim/atomic.go:176-205. *)
Fixpoint create_attempts (n : nat) (c : claim) (prepared twin encrypted : string) : prog unit :=
  match n with
  | O => pfail persistentContention
  | S n =>
      ctx_alive ;;
      guard ← match c with
              | CPort port => if IsPersistent port then g ← persistentGuard prepared port; mret [g] else mret []
              | CVIP _ => mret []
              end;
      Txn ([VersionZero prepared; VersionZero twin] ++ guard) prepared encrypted [prepared; twin] (fun response =>
        match response with
        | Err e => pfail e
        | Ok response =>
            if tx_Succeeded response then mret tt
            else if existsb id (tx_Found response) then pfail (ErrExists prepared)
            else create_attempts n c prepared twin encrypted
        end)
  end.

(** [Create], pkg/registry/sdn/claim/atomic.go:128-206. *)
Definition Create (key : string) (c : claim) (ttl : Z) : prog unit :=
  twinName ← plift (twinName_of c);
  if negb (ttl =? 0) then pfail "address claims cannot expire"
  else
    prepared ← plift (PrepareKey (root (kind_of c)) key);
    twin ← plift (KeyFunc (twin_of (kind_of c)) twinName);
    let prepared := absolute prepared in
    let twin := absolute twin in
    if negb (m_ResourceVersion (c_Meta c) =? 0) then pfail "resourceVersion should not be set on objects to be created"
    else
      data ← plift (Encode c);
      encrypted ← plift (ToStorage data prepared);
      create_attempts persistentCreateAttempts c prepared twin encrypted.

(** The [BeginCreate] hook of the Port registry, pkg/registry/sdn/port/etcd.go:59-75, and of the
    ServiceVIP registry: the twin must not exist. A create fails when the lookup does. *)
Definition BeginCreate (c : claim) : prog unit :=
  match twinName_of c with
  | Err _ => mret tt
  | Ok twinName =>
      key ← plift (KeyFunc (twin_of (kind_of c)) twinName);
      Exists (absolute key) (fun r =>
        match r with
        | Err e => pfail e
        | Ok true => pfail "the address is already held"
        | Ok false => mret tt
        end)
  end.

Definition PrepareForCreate (c : claim) : claim :=
  match c with
  | CPort p => CPort (port_PrepareForCreate p)
  | CVIP v => CVIP (vip_PrepareForCreate v)
  end.
Definition Validate (c : claim) : ErrorList :=
  match c with CPort p => port_Validate p | CVIP v => vip_Validate v end.

(** A create request as the generic registry runs it: strategy, hook, storage. *)
Definition register (c : claim) : prog unit :=
  let c := PrepareForCreate c in
  match Validate c with
  | [] =>
      key ← plift (KeyFunc (kind_of c) (c_Name c));
      BeginCreate c ;;
      Create key c 0
  | _ => pfail "invalid"
  end.

End storage.
