(* ===== verification/ClaimSafety.v ===== *)
(** * Address claims are exclusive under concurrency

    The system: an etcd keyspace and the create requests in flight, each a
    program of [Claims].  One step is one storage call of one request, with the
    answers and failures etcd may give, or an update, a status update, a delete,
    or a write outside the two collections.  In every reachable state an address
    has at most one claim, of either kind, and a VM NIC at most one Port. *)

From S2P Require Import Prelude GoText GoNet AddrText AddrMap Grants ClaimNames Registry Claims.
Local Open Scope Z_scope.

(** ** Strings *)

Lemma str_ltb_irrefl s : str_ltb s s = false.
Proof. induction s as [|c s IH]; cbn; [done|]. by rewrite Z.ltb_irrefl. Qed.

(** Nothing lies strictly between a string and the string with a zero byte. *)
Lemma str_ltb_nul k s : str_ltb k (s +:+ nul) = true -> str_ltb s k = false.
Proof.
  revert k; induction s as [|c s IH]; intros [|d k]; cbn [str_ltb String.append nul]; try done.
  - replace (code d <? code (chr 0)) with false by (symmetry; apply Z.ltb_ge; unfold code; cbn; lia).
    case_if; [done|]. by destruct k.
  - destruct (Z.lt_trichotomy (code d) (code c)) as [Hl|[He|Hl]].
    + rewrite (proj2 (Z.ltb_lt _ _) Hl). rewrite (proj2 (Z.ltb_ge (code c) (code d))); [done|lia].
    + rewrite He, Z.ltb_irrefl. apply IH.
    + rewrite (proj2 (Z.ltb_lt _ _) Hl). rewrite (proj2 (Z.ltb_ge (code d) (code c))); [done|lia].
Qed.

Lemma cut_prefix_more p a b : p <> EmptyString -> cut_prefix p (a +:+ b) = (fun r => r +:+ b) <$> cut_prefix p a \/ (String.length a < String.length p)%nat.
Proof.
  revert a; induction p as [|c p IH]; intros [|d a] Hp; try done; cbn; [right; lia|].
  case_decide; [|by left]. destruct p as [|e p]; [by left|]. destruct (IH a) as [->|]; [done|by left|right; lia].
Qed.

Lemma cut_last_app sep a b : str_any (fun c => bool_decide (c = sep)) b = false ->
  cut_last sep (a +:+ String sep b) = Some (a, b).
Proof.
  intros Hb. assert (Hn : forall s, str_any (fun c => bool_decide (c = sep)) s = false -> cut_last sep s = None).
  { induction s as [|c s IH]; cbn; [done|]. intros [Hc Hs]%orb_false_iff. rewrite IH by done.
    apply bool_decide_eq_false in Hc. by rewrite decide_False. }
  induction a as [|c a IH]; cbn; [|by rewrite IH]. rewrite Hn by done. by rewrite decide_True.
Qed.

Lemma has_prefix_app p s : has_prefix (p +:+ s) p = true.
Proof. unfold has_prefix. by rewrite cut_prefix_app. Qed.

Lemma hex_encode_any f l : Forall byte l -> (forall d, 0 <= d < 16 -> f (digit_char d) = false) -> str_any f (hex_encode l) = false.
Proof.
  intros Hl Hf. induction Hl as [|b l Hb _ IH]; cbn; [done|]. unfold byte in Hb.
  rewrite !Hf by (Z.div_mod_to_equations; lia). done.
Qed.

(** A claim name is one path segment. *)
Lemma PortName_no_slash vni ip : ValidVNI vni = true -> canonical ip ->
  str_any (fun c => bool_decide (c = "/"%char)) (PortName vni ip) = false.
Proof.
  intros Hv Hc. unfold PortName. rewrite !str_any_app, fmt_vni by done. pose proof Hv as Hr.
  rewrite ValidVNI_range in Hr.
  rewrite fmt_nat_any; [|lia|apply (small_cases 10); by repeat constructor]. cbn [ClaimPrefixPort str_any orb].
  destruct (EscapeIP_cases ip Hc) as [-> | ->].
  - destruct (canonical_printed _ Hc) as [ps Hp]. rewrite (printed_escaped _ _ Hp). destruct Hp as (Hd & _).
    apply str_any_join; [done|]. eapply Forall_impl; [done|]. intros x Hx. by apply digits_only_no.
  - destruct Hc as [[_ Hb]%ParseIP_16 _]. cbn [String.append str_any]. rewrite hex_encode_any; [done|done|].
    apply (small_cases 16). by repeat constructor.
Qed.

(** ** Identity of a NIC *)

Lemma SamePersistentNIC_sym a b : SamePersistentNIC a b = SamePersistentNIC b a.
Proof.
  unfold SamePersistentNIC. rewrite (andb_comm (IsPersistent a)).
  repeat f_equal; apply bool_decide_ext; done.
Qed.

(** What an update keeps of a Port. *)
Definition keeps_identity (p old : Port) : Prop :=
  s_IP (p_Spec p) = s_IP (p_Spec old) /\ s_VPCRef (p_Spec p) = s_VPCRef (p_Spec old) /\
  at_key (m_Labels (p_Meta p)) LabelVMName = at_key (m_Labels (p_Meta old)) LabelVMName /\
  at_key (m_Labels (p_Meta p)) LabelVMNIC = at_key (m_Labels (p_Meta old)) LabelVMNIC /\
  (IsPersistent old = true -> s_PodNamespace (p_Spec p) = s_PodNamespace (p_Spec old)).

Lemma validatePersistentUpdate_keeps p old : validatePersistentUpdate p old = [] ->
  at_key (m_Labels (p_Meta p)) LabelVMName = at_key (m_Labels (p_Meta old)) LabelVMName /\
  at_key (m_Labels (p_Meta p)) LabelVMNIC = at_key (m_Labels (p_Meta old)) LabelVMNIC /\
  (IsPersistent old = true -> s_PodNamespace (p_Spec p) = s_PodNamespace (p_Spec old)).
Proof.
  unfold validatePersistentUpdate. cbn [fmap list_fmap concat]. rewrite !app_nil, !check_nil, !bool_decide_eq_true.
  intros [(H1 & H2 & _) H3]. split_and!; [done..|]. intros Hp. rewrite Hp, app_nil, check_nil, bool_decide_eq_true in H3. naive_solver.
Qed.

Lemma ValidateUpdate_keeps p old : port_ValidateUpdate p old = [] -> keeps_identity p old.
Proof.
  unfold port_ValidateUpdate. rewrite !app_nil, !check_nil, !bool_decide_eq_true.
  intros (H1 & H2 & H3%validatePersistentUpdate_keeps). by split_and!; try apply H3.
Qed.

Lemma status_update_keeps p old :
  port_status_ValidateUpdate (port_status_PrepareForUpdate p old) old = [] ->
  keeps_identity (port_status_PrepareForUpdate p old) old.
Proof.
  unfold port_status_ValidateUpdate. case_if; [done|]. destruct (head _); [done|].
  intros H%validatePersistentUpdate_keeps. by split_and!; try apply H.
Qed.

Lemma keeps_SameNIC p old q : keeps_identity p old -> SamePersistentNIC p q = SamePersistentNIC old q.
Proof.
  intros (_ & H2 & H3 & H4 & H5). unfold SamePersistentNIC. rewrite H2, H3, H4.
  assert (Hp : IsPersistent p = IsPersistent old) by (unfold IsPersistent; by rewrite H3). rewrite Hp.
  destruct (IsPersistent old); [|done]. by rewrite H5.
Qed.

Section safety.
Context `{Etcd} `{Storage}.

(** ** Keys *)

Definition dir (k : kind) : string := (TrimSuffix cfgPrefix "/" +:+ "/") +:+ TrimPrefix (root k +:+ "/") "/".
Definition full (k : kind) (name : string) : string := dir k +:+ name.

Lemma TrimPrefix_app a b : a <> EmptyString -> TrimPrefix (a +:+ b) "/" = TrimPrefix a "/" +:+ b.
Proof. destruct a as [|c a]; [done|]. intros _. unfold TrimPrefix. cbn. by case_decide. Qed.

Lemma absolute_KeyFunc k name key : KeyFunc k name = Ok key -> absolute key = full k name.
Proof.
  intros ->%KeyFunc_spec. unfold absolute, full, dir. rewrite <-(app_str_assoc (root k)), TrimPrefix_app.
  - by rewrite !app_str_assoc.
  - by destruct (root k).
Qed.

Lemma full_inj k a b : full k a = full k b -> a = b.
Proof. apply app_str_inj. Qed.

Lemma full_apart a b : full KPort a <> full KVIP b.
Proof. unfold full, dir. rewrite !app_str_assoc. intros Hf%app_str_inj%app_str_inj. by apply (roots_apart a b). Qed.

Lemma dir_slash k : exists r, dir k = r +:+ "/".
Proof.
  unfold dir. destruct (root k) as [|c r].
  - exists (TrimSuffix cfgPrefix "/"). cbn. by rewrite app_str_nil.
  - unfold TrimPrefix. cbn. case_decide as Hc.
    + exists ((TrimSuffix cfgPrefix "/" +:+ "/") +:+ r). cbn. by rewrite !app_str_assoc.
    + exists ((TrimSuffix cfgPrefix "/" +:+ "/") +:+ String c r). cbn. by rewrite !app_str_assoc.
Qed.

Lemma dir_of_full k name : str_any (fun c => bool_decide (c = "/"%char)) name = false -> dir_of (full k name) = dir k.
Proof.
  intros Hn. destruct (dir_slash k) as [r Hr]. unfold full, dir_of. rewrite Hr, app_str_assoc.
  change ("/" +:+ name) with (String "/"%char name). by rewrite cut_last_app.
Qed.

(** ** The invariant *)

(** The value of a key, written at a revision, holds an object. *)
Definition decodes (k : kind) (key v : string) (m : Z) (c : claim) : Prop :=
  exists data, FromStorage v key = Ok data /\ Decode k data m = Ok c.

Lemma decodes_inj k key v m c c' : decodes k key v m c -> decodes k key v m c' -> c = c'.
Proof. intros (d1 & H1 & H2) (d2 & H3 & H4). congruence. Qed.

(** The object of a kind that the collection holds under a name. *)
Definition stored (d : db) (k : kind) (name : string) (c : claim) : Prop :=
  exists v m, live d !! full k name = Some (v, m) /\ decodes k (full k name) v m c.

Record Inv (d : db) : Prop := {
  inv_port name v m : live d !! full KPort name = Some (v, m) ->
    exists p vni, decodes KPort (full KPort name) v m (CPort p) /\ p_Name p = name /\ port_claims p vni;
  inv_vip name v m : live d !! full KVIP name = Some (v, m) ->
    exists w vni, decodes KVIP (full KVIP name) v m (CVIP w) /\ v_Name w = name /\ vip_claims w vni;
  inv_twin vni ip : ValidVNI vni = true -> canonical ip ->
    live d !! full KPort (PortName vni ip) = None \/ live d !! full KVIP (ServiceVIPName vni ip) = None;
  inv_nic n n' p q vni : stored d KPort n (CPort p) -> stored d KPort n' (CPort q) ->
    port_claims p vni -> port_claims q vni -> SamePersistentNIC p q = true -> n = n'
}.

(** Time passes: the revision grows and past reads keep their answers. *)
Definition later (d d' : db) : Prop := now d <= now d' /\ forall r, r <= now d -> past d' r = past d r.

#[local] Instance later_preorder : PreOrder later.
Proof.
  split; [by split|]. intros a b c [H1 H2] [H3 H4]. split; [lia|]. intros r Hr. rewrite H4 by lia. by apply H2.
Qed.

Lemma later_put d k v : later d (put d k v).
Proof. split; [rewrite now_put; lia|]. intros r Hr. by apply past_put. Qed.
Lemma later_del d k : later d (del d k).
Proof. split; [rewrite now_del; lia|]. intros r Hr. by apply past_del. Qed.

(** A write of a Port under its name. *)
Lemma Inv_put_port d p vni enc :
  Inv d -> port_claims p vni ->
  (forall m, exists p', decodes KPort (full KPort (p_Name p)) enc m (CPort p') /\ p_Name p' = p_Name p /\
     s_IP (p_Spec p') = s_IP (p_Spec p) /\ forall q, SamePersistentNIC p' q = SamePersistentNIC p q) ->
  live d !! full KVIP (ServiceVIPName vni (s_IP (p_Spec p))) = None ->
  (forall n q, n <> p_Name p -> stored d KPort n (CPort q) -> port_claims q vni -> SamePersistentNIC p q = false) ->
  Inv (put d (full KPort (p_Name p)) enc).
Proof.
  intros Hinv Hp Hdec Htwin Hnic.
  assert (Hcl : forall m p', decodes KPort (full KPort (p_Name p)) enc m (CPort p') ->
    p_Name p' = p_Name p /\ s_IP (p_Spec p') = s_IP (p_Spec p) /\ (forall q, SamePersistentNIC p' q = SamePersistentNIC p q) /\
    forall vni', port_claims p' vni' <-> vni' = vni).
  { intros m p' Hd. destruct (Hdec m) as (p2 & Hd2 & H1 & H2 & H3).
    pose proof (decodes_inj _ _ _ _ _ _ Hd Hd2) as [= ->]. split_and!; [done..|]. intros vni'. unfold port_claims in *.
    rewrite H1, H2. destruct Hp as (Hv & Hc & Hn). rewrite Hn. split; [|by intros ->].
    intros (Hv' & _ & He). by apply PortName_inj in He as [-> _]. }
  split.
  - intros name v m. rewrite live_put, lookup_insert_Some. intros [[He [= <- <-]]|[_ Hl]]; [|by eapply inv_port].
    apply full_inj in He as <-. destruct (Hdec (now d + 1)) as (p' & Hd & _). exists p', vni.
    destruct (Hcl _ _ Hd) as (? & ? & _ & Hc). split_and!; [done..|by apply Hc].
  - intros name v m. rewrite live_put, lookup_insert_ne by apply full_apart. by apply inv_vip.
  - intros vni' ip Hv Hc. rewrite live_put, (lookup_insert_ne _ _ (full KVIP _)) by apply full_apart.
    destruct (decide (PortName vni' ip = p_Name p)) as [He|Hne].
    + right. destruct Hp as (Hv' & Hc' & Hn). rewrite Hn in He. by apply PortName_inj in He as [-> ->].
    + rewrite lookup_insert_ne; [by apply inv_twin|]. intros ?%full_inj. done.
  - intros n n' a b vni'. unfold stored. rewrite !live_put. intros (v & m & Hl & Hd) (v' & m' & Hl' & Hd') Ha Hb Hs.
    apply lookup_insert_Some in Hl as [[E1 [= <- <-]]|[N1 Hl]], Hl' as [[E2 [= <- <-]]|[N2 Hl']].
    + apply full_inj in E1 as <-. by apply full_inj in E2 as <-.
    + exfalso. apply full_inj in E1 as <-. destruct (Hcl _ _ Hd) as (_ & _ & H3 & H4). apply H4 in Ha as ->.
      rewrite H3, (Hnic n' b) in Hs; [done|congruence|by exists v', m'|done].
    + exfalso. apply full_inj in E2 as <-. destruct (Hcl _ _ Hd') as (_ & _ & H3 & H4). apply H4 in Hb as ->.
      rewrite SamePersistentNIC_sym, H3, (Hnic n a) in Hs; [done|congruence|by exists v, m|done].
    + eapply (inv_nic d Hinv); [by exists v, m|by exists v', m'|done..].
Qed.

(** A write of a ServiceVIP under its name. *)
Lemma Inv_put_vip d w vni enc :
  Inv d -> vip_claims w vni ->
  (forall m, exists w', decodes KVIP (full KVIP (v_Name w)) enc m (CVIP w') /\ v_Name w' = v_Name w /\
     v_IP (v_Spec w') = v_IP (v_Spec w)) ->
  live d !! full KPort (PortName vni (v_IP (v_Spec w))) = None ->
  Inv (put d (full KVIP (v_Name w)) enc).
Proof.
  intros Hinv Hw Hdec Htwin.
  assert (Hne : forall a b, full KVIP a <> full KPort b) by (intros a b He; by eapply full_apart).
  split.
  - intros name v m. rewrite live_put, lookup_insert_ne by apply Hne. by apply inv_port.
  - intros name v m. rewrite live_put, lookup_insert_Some. intros [[He [= <- <-]]|[_ Hl]]; [|by eapply inv_vip].
    apply full_inj in He as <-. destruct (Hdec (now d + 1)) as (w' & Hd & H1 & H2). exists w', vni.
    split_and!; [done..|]. unfold vip_claims. by rewrite H1, H2.
  - intros vni' ip Hv Hc. rewrite live_put, (lookup_insert_ne _ _ (full KPort _)) by apply Hne.
    destruct (decide (ServiceVIPName vni' ip = v_Name w)) as [He|Hn].
    + left. destruct Hw as (Hv' & Hc' & Hn). rewrite Hn in He. by apply ServiceVIPName_inj in He as [-> ->].
    + rewrite lookup_insert_ne; [by apply inv_twin|]. intros ?%full_inj. done.
  - intros n n' a b vni'. unfold stored. rewrite !live_put.
    setoid_rewrite lookup_insert_ne; [|apply Hne..]. by apply inv_nic.
Qed.

Lemma Inv_del d key : Inv d -> Inv (del d key).
Proof.
  intros Hinv. assert (Hs : forall k n c, stored (del d key) k n c -> stored d k n c).
  { intros k n c (v & m & Hl & Hd). rewrite live_del, lookup_delete_Some in Hl. exists v, m. naive_solver. }
  split.
  - intros name v m. rewrite live_del, lookup_delete_Some. intros [_ Hl]. by apply (inv_port d Hinv).
  - intros name v m. rewrite live_del, lookup_delete_Some. intros [_ Hl]. by apply (inv_vip d Hinv).
  - intros vni ip Hv Hc. rewrite live_del, !lookup_delete_None. destruct (inv_twin d Hinv vni ip Hv Hc); auto.
  - intros n n' p q vni H1%Hs H2%Hs. by apply (inv_nic d Hinv).
Qed.

(** A write outside the two collections. *)
Lemma Inv_put_other d key v : (forall k name, key <> full k name) -> Inv d -> Inv (put d key v).
Proof.
  intros Hk [I1 I2 I3 I4].
  assert (Hl : forall k n, live (put d key v) !! full k n = live d !! full k n)
    by (intros k n; rewrite live_put; apply lookup_insert_ne, Hk).
  split; unfold stored; setoid_rewrite Hl; done.
Qed.

(** ** Safe programs

    [safe d p Q]: from store [d] on, whatever the others do between its calls and
    whatever etcd answers, [p] only commits writes that keep the invariant, and
    ends in [Q]. *)
Fixpoint safe {A} (d : db) (p : prog A) (Q : db -> result A -> Prop) : Prop :=
  match p with
  | Ret r => Q d r
  | CtxErr k => forall e, safe d (k e) Q
  | Get start end_ rev k => forall d', later d d' ->
      (forall pg, answers d' start end_ rev pg -> safe d' (k (Ok pg)) Q) /\ forall e, safe d' (k (Err e)) Q
  | Exists _ k => forall r, safe d (k r) Q
  | Txn checks key v _ k => forall d', later d d' ->
      (Inv d' -> Forall (fun c => cmp_holds d' c = true) checks -> Inv (put d' key v)) /\
      forall d'' r, later d' d'' -> safe d'' (k r) Q
  end.

Definition stable {A} (Q : db -> result A -> Prop) : Prop := forall d d' r, later d d' -> Q d r -> Q d' r.
Definition any {A} : db -> result A -> Prop := fun _ _ => True.

Lemma safe_later {A} (p : prog A) Q d d' : stable Q -> later d d' -> safe d p Q -> safe d' p Q.
Proof.
  intros HQ. revert d d'. induction p as [r|k IH|? ? ? k IH|? k IH|? ? ? ? k IH]; cbn; intros d d' Hl Hs.
  - by eapply HQ.
  - intros e. by eapply IH.
  - intros d2 Hl2. apply Hs. by transitivity d'.
  - intros r. by eapply IH.
  - intros d2 Hl2. apply Hs. by transitivity d'.
Qed.

Lemma safe_mono {A} (p : prog A) (Q Q' : db -> result A -> Prop) d :
  (forall d r, Q d r -> Q' d r) -> safe d p Q -> safe d p Q'.
Proof.
  intros HQ. revert d. induction p as [r|k IH|? ? ? k IH|? k IH|? ? ? ? k IH]; cbn; intros d Hs; auto.
  - intros d' Hl. destruct (Hs d' Hl) as [H1 H2]. split; auto.
  - intros d' Hl. destruct (Hs d' Hl) as [H1 H2]. split; [done|]. intros d2 r Hl2. by apply IH, H2.
Qed.

Lemma safe_track {A} (p : prog A) (Q : db -> result A -> Prop) d0 d : later d0 d ->
  safe d p Q -> safe d p (fun d' r => later d0 d' /\ Q d' r).
Proof.
  revert d. induction p as [r|k IH|? ? ? k IH|? k IH|? ? ? ? k IH]; cbn; intros d Hl Hs; auto.
  - intros d' Hl'. destruct (Hs d' Hl') as [H1 H2]. assert (later d0 d') by by transitivity d. split; auto.
  - intros d' Hl'. destruct (Hs d' Hl') as [H1 H2]. split; [done|]. intros d2 r Hl2. apply IH; [|by apply H2].
    transitivity d; [done|]. by transitivity d'.
Qed.

Definition bind_post {A B} (f : A -> prog B) (Q : db -> result B -> Prop) (d : db) (r : result A) : Prop :=
  match r with Ok a => safe d (f a) Q | Err e => Q d (Err e) end.

Lemma safe_bind {A B} (p : prog A) (f : A -> prog B) Q d : safe d p (bind_post f Q) -> safe d (p ≫= f) Q.
Proof.
  unfold mbind, prog_mbind. revert d. induction p as [[]|k IH|? ? ? k IH|? k IH|? ? ? ? k IH]; cbn; intros d Hs; auto.
  - intros d' Hl. destruct (Hs d' Hl) as [H1 H2]. split; auto.
  - intros d' Hl. destruct (Hs d' Hl) as [H1 H2]. split; [done|]. intros d2 r Hl2. by apply IH, H2.
Qed.

Lemma safe_ctx {B} (p : prog B) (Q : db -> result B -> Prop) d :
  (forall e, Q d (Err e)) -> safe d p Q -> safe d (ctx_alive ;; p) Q.
Proof. intros He Hp. apply safe_bind. cbn. intros [e|]; [apply He|done]. Qed.

Lemma safe_plift {A B} (r : result A) (f : A -> prog B) (Q : db -> result B -> Prop) d :
  (forall e, Q d (Err e)) -> (forall a, r = Ok a -> safe d (f a) Q) -> safe d (plift r ≫= f) Q.
Proof. intros He Hf. destruct r as [a|e]; cbn; [by apply Hf|apply He]. Qed.

(** *** The scan for a NIC *)

Section scan.
Context (port : Port) (pdir prefix : string) (Hprefix : exists r, prefix = pdir +:+ String "v"%char r).

(** The entry was read and is not the NIC. *)
Definition cleared (k v : string) (m : Z) : Prop :=
  exists p, decodes KPort k v m (CPort p) /\ SamePersistentNIC port p = false.

Definition entries_post (s0 : scan) (l : list (option kv)) (_ : db) (r : result scan) : Prop :=
  match r with
  | Ok s => sc_match s = EmptyString -> sc_match s0 = EmptyString /\
      forall e, e ∈ l -> exists k v m, e = Some (MkKv k v m) /\ cleared k v m
  | Err _ => True
  end.

Lemma safe_scan_entry start s e d :
  safe d (scan_entry pdir prefix start port s e) (entries_post s [e]).
Proof.
  unfold scan_entry. apply safe_ctx; [done|]. destruct e as [[k v m]|]; [|done]. cbn [kv_Value kv_Key kv_ModRevision].
  case_if; [done|]. case_if; [done|]. apply safe_plift; [done|]. intros data Hf.
  apply safe_plift; [done|]. intros [p|w] Hd; [|done]. case_decide as Hk; [done|].
  case_if; [case_decide as Hm; [done|]|].
  - cbn. intros He. exfalso. apply orb_false_iff in E0 as [[_ E2%negb_false_iff]%orb_false_iff _].
    destruct Hprefix as [r ->]. rewrite Hk, He in E2. unfold has_prefix in E2.
    destruct (cut_prefix _ _) as [x|] eqn:Ec; [|done]. apply cut_prefix_Some in Ec.
    rewrite app_str_assoc in Ec. by apply app_str_inj in Ec.
  - cbn. intros He. split; [done|]. intros e ->%list_elem_of_singleton. exists k, v, m. split; [done|].
    exists p. split; [by exists data|done].
Qed.

Lemma safe_scan_entries start l s d :
  safe d (scan_entries pdir prefix start port s l) (entries_post s l).
Proof.
  revert s d; induction l as [|e l IH]; intros s d; cbn [scan_entries].
  - cbn. intros Hs. split; [done|]. by intros e ?%not_elem_of_nil.
  - apply safe_bind. eapply safe_mono; [|apply safe_scan_entry]. intros d' [s'|err] Hp; cbn; [|done].
    eapply safe_mono; [|apply IH]. intros d2 [s2|err]; [|done]. cbn. intros Hp2 Hm.
    destruct (Hp2 Hm) as [Hm' Hl]. destruct (Hp Hm') as [Hm0 He]. split; [done|].
    intros x [->|Hx]%elem_of_cons; [|by apply Hl]. apply He. by apply list_elem_of_singleton.
Qed.

Definition scanned (d : db) (rev : Z) (start : string) : Prop :=
  forall k v m, past d rev !! k = Some (v, m) -> has_prefix k prefix = true -> str_ltb k start = true -> cleared k v m.
Definition complete (d : db) (rev : Z) : Prop :=
  rev <= now d /\ forall k v m, past d rev !! k = Some (v, m) -> has_prefix k prefix = true -> cleared k v m.

Definition pages_post (d : db) (r : result (Z * string)) : Prop :=
  match r with Ok (rev, found) => found = EmptyString -> complete d rev | Err _ => True end.

Lemma pages_post_stable : stable pages_post.
Proof.
  intros d d' [[rev found]|e] [Hn Hp] Hq; [|done]. intros He. destruct (Hq He) as [Hr Hc]. split; [lia|].
  intros k v m. rewrite Hp by done. apply Hc.
Qed.

Lemma scanned_later d d' rev start : later d d' -> rev <= now d -> scanned d rev start -> scanned d' rev start.
Proof. intros [_ Hp] Hr Hs k v m. rewrite Hp by done. apply Hs. Qed.

(** A page extends the scan up to the key the next page starts at, or completes it. *)
Lemma page_cleared d rev start pg : str_last prefix = Some "."%char ->
  page_of (past d rev) start (range_end prefix) (now d) pg ->
  (start = prefix \/ scanned d rev start) ->
  (forall e, e ∈ pg_Kvs pg -> exists k v m, e = Some (MkKv k v m) /\ cleared k v m) ->
  (pg_More pg = false -> forall k v m, past d rev !! k = Some (v, m) -> has_prefix k prefix = true -> cleared k v m) /\
  (forall e, last (pg_Kvs pg) = Some (Some e) -> scanned d rev (kv_Key e +:+ nul)).
Proof.
  intros Hdot (_ & _ & _ & Hall) Hstart Hl.
  assert (Hin : forall k v m, Some (MkKv k v m) ∈ pg_Kvs pg -> cleared k v m).
  { intros k v m (k' & v' & m' & [= -> -> ->] & Hc)%Hl. done. }
  assert (Hcase : forall k v m, past d rev !! k = Some (v, m) -> has_prefix k prefix = true ->
    cleared k v m \/ pg_More pg = true /\ exists e, last (pg_Kvs pg) = Some (Some e) /\ str_ltb (kv_Key e) k = true).
  { intros k v m Hk Hp. pose proof Hp as Hr. rewrite <-range_end_prefix in Hr by done.
    destruct (str_ltb k start) eqn:Es.
    - left. destruct Hstart as [-> |Hs]; [|by eapply Hs].
      unfold in_range_of in Hr. by rewrite Es in Hr.
    - destruct (Hall k v m Hk) as [?|?]; [|left; auto|right; done].
      unfold in_range_of in *. rewrite Es. by apply andb_true_iff in Hr as [_ ->]. }
  split.
  - intros Hm k v m Hk Hp. destruct (Hcase k v m Hk Hp) as [?|[? _]]; [done|congruence].
  - intros e He k v m Hk Hp Hlt. destruct (Hcase k v m Hk Hp) as [?|(_ & e' & He' & Hgt)]; [done|].
    rewrite He in He'. injection He' as <-. apply str_ltb_nul in Hlt. congruence.
Qed.

Lemma safe_scan_pages fuel start revision s d : str_last prefix = Some "."%char ->
  (revision = None -> start = prefix) ->
  (forall rev, revision = Some rev -> rev <= now d /\ (sc_match s = EmptyString -> scanned d rev start)) ->
  safe d (scan_pages fuel pdir prefix (range_end prefix) port start revision s) pages_post.
Proof.
  intros Hdot. revert start revision s d. induction fuel as [|fuel IH]; intros start revision s d Hn Hr; [done|].
  cbn [scan_pages]. apply safe_ctx; [done|]. apply safe_bind. cbn [safe kv_get plift]. intros d' Hl.
  split; [|done]. intros pg Hpg. cbn [bind_post]. destruct (Hpg) as (Hrev & _). rewrite Hrev. case_if; [done|]. case_if; [done|].
  set (rev := default (now d') revision).
  assert (Hpage : page_of (past d' rev) start (range_end prefix) (now d') pg).
  { unfold rev, answers in *. destruct revision; cbn; [done|]. by rewrite past_now. }
  assert (Hle : rev <= now d').
  { unfold rev. destruct revision as [r|]; cbn; [|lia]. destruct (Hr r eq_refl) as [? _], Hl as [? _]. lia. }
  assert (Hstart : sc_match s = EmptyString -> start = prefix \/ scanned d' rev start).
  { unfold rev. intros Hm. destruct revision as [r|]; cbn; [right|by left; apply Hn].
    destruct (Hr r eq_refl) as [Hle' Hs]. by apply (scanned_later d); auto. }
  apply safe_bind. eapply safe_mono; [|apply (safe_track _ (entries_post s (pg_Kvs pg)) d'); [done|apply safe_scan_entries]].
  intros d2 [s2|err] [Hl2 Hp]; cbn; [|done].
  pose proof (fun Hm => page_cleared d' rev start pg Hdot Hpage (Hstart (proj1 (Hp Hm))) (proj2 (Hp Hm))) as Hc.
  destruct (pg_More pg) eqn:Em; cbn [negb].
  - destruct (last (pg_Kvs pg)) as [[e|]|] eqn:Elast; [|done..]. case_if; [done|]. case_if; [done|].
    apply IH; [done|]. intros r [= <-]. destruct Hl2 as [Hn2 Hp2]. split; [lia|].
    intros Hm. destruct (Hc Hm) as [_ Hs]. eapply scanned_later; [by split|done|]. by apply Hs.
  - cbn. intros Hm. destruct (Hc Hm) as [Hs _]. destruct Hl2 as [Hn2 Hp2]. split; [lia|].
    intros k v m. rewrite Hp2 by done. by apply Hs.
Qed.

End scan.

(** *** The create *)

Definition net_prefix (vni : Z) : string := dir KPort +:+ "v" +:+ fmt_d vni +:+ ".".

Definition guard_post (port : Port) (vni : Z) (d : db) (r : result cmp) : Prop :=
  match r with
  | Ok g => exists rev, g = ModBelow (net_prefix vni) (range_end (net_prefix vni)) (rev + 1) /\
      complete port (net_prefix vni) d rev
  | Err _ => True
  end.

Lemma str_last_app a c : str_last (a +:+ String c EmptyString) = Some c.
Proof. induction a as [|x a IH]; [done|]. cbn. by destruct (a +:+ String c EmptyString). Qed.

Lemma port_claims_parse p vni : port_claims p vni -> ParseClaim ClaimPrefixPort (p_Name p) = Some (vni, EscapeIP (s_IP (p_Spec p))).
Proof. intros (Hv & Hc & ->). by apply ParseClaim_print. Qed.

Lemma safe_persistentGuard port vni d : port_claims port vni ->
  safe d (persistentGuard (full KPort (p_Name port)) port) (guard_post port vni).
Proof.
  intros Hp. unfold persistentGuard. rewrite (port_claims_parse _ _ Hp).
  destruct Hp as (Hv & Hc & Hn). rewrite Hn, dir_of_full by by apply PortName_no_slash. fold (net_prefix vni).
  apply safe_bind. eapply safe_mono; [|apply (safe_scan_pages port (dir KPort) (net_prefix vni)); try done].
  - intros d' [[rev found]|e]; [|done]. cbn. intros Hq. case_decide; [done|]. case_if; [done|]. cbn. exists rev. auto.
  - by exists (fmt_d vni +:+ ".").
  - unfold net_prefix. rewrite <-!app_str_assoc. apply str_last_app.
Qed.

(** The object read back from what a create or an update wrote. *)
Lemma decodes_written c data enc key m : Encode c = Ok data -> ToStorage data key = Ok enc ->
  decodes (kind_of c) key enc m (with_rv m c).
Proof. intros He Ht. exists data. split; [by apply from_to|by apply decode_encode]. Qed.

Lemma with_rv_NIC p q m : SamePersistentNIC (MkPort (meta_rv m (p_Meta p)) (p_Spec p) (p_Status p)) q = SamePersistentNIC p q.
Proof. done. Qed.

(** A guard that holds: no Port of the network changed since the scan. *)
Lemma guard_excludes port vni d d' rev q n :
  Inv d' -> complete port (net_prefix vni) d rev -> later d d' ->
  cmp_holds d' (ModBelow (net_prefix vni) (range_end (net_prefix vni)) (rev + 1)) = true ->
  stored d' KPort n (CPort q) -> port_claims q vni -> SamePersistentNIC port q = false.
Proof.
  intros Hinv [Hr Hc] [Hn Hp] Hg (v & m & Hl & Hd) Hq. cbn in Hg. rewrite forallb_forall in Hg.
  destruct (inv_port d' Hinv n v m Hl) as (q' & vni' & Hd' & Hname & _).
  pose proof (decodes_inj _ _ _ _ _ _ Hd Hd') as [= <-].
  assert (Hpre : has_prefix (full KPort n) (net_prefix vni) = true).
  { rewrite <-Hname. destruct Hq as (_ & _ & ->). unfold full, net_prefix, PortName, ClaimPrefixPort.
    replace (dir KPort +:+ "v" +:+ fmt_d vni +:+ "." +:+ EscapeIP (s_IP (p_Spec q)))
      with ((dir KPort +:+ "v" +:+ fmt_d vni +:+ ".") +:+ EscapeIP (s_IP (p_Spec q))) by by rewrite !app_str_assoc.
    apply has_prefix_app. }
  specialize (Hg (full KPort n, (v, m)) ltac:(apply list_elem_of_In, elem_of_map_to_list; done)).
  cbn beta iota in Hg. rewrite range_end_prefix, Hpre in Hg
    by (unfold net_prefix; rewrite <-!app_str_assoc; apply str_last_app).
  assert (Hm : m <= rev) by (cbn in Hg; to_prop; lia).
  pose proof (live_mod d' _ v m rev Hl ltac:(lia)) as Hpast. rewrite Hp in Hpast by done.
  destruct (Hc _ _ _ Hpast Hpre) as (q2 & Hd2 & Hs). pose proof (decodes_inj _ _ _ _ _ _ Hd Hd2) as [= <-]. done.
Qed.

(** The claim an admitted object makes, and what its create must not find. *)
Definition admitted (c : claim) (vni : Z) : Prop :=
  match c with CPort p => port_claims p vni | CVIP v => vip_claims v vni end.
Definition twin_key (c : claim) (vni : Z) : string :=
  match c with
  | CPort p => full KVIP (ServiceVIPName vni (s_IP (p_Spec p)))
  | CVIP v => full KPort (PortName vni (v_IP (v_Spec v)))
  end.

Lemma Inv_create d c vni data enc : Inv d -> admitted c vni ->
  Encode c = Ok data -> ToStorage data (full (kind_of c) (c_Name c)) = Ok enc ->
  live d !! full (kind_of c) (c_Name c) = None -> live d !! twin_key c vni = None ->
  (forall p, c = CPort p -> IsPersistent p = true ->
     forall n q, stored d KPort n (CPort q) -> port_claims q vni -> SamePersistentNIC p q = false) ->
  Inv (put d (full (kind_of c) (c_Name c)) enc).
Proof.
  intros Hinv Ha He Ht Habs Htwin Hnic.
  pose proof (fun m => decodes_written _ _ _ _ m He Ht) as Hd. destruct c as [p|w]; cbn in *.
  - apply (Inv_put_port d p vni); try done; [|].
    + intros m. eexists. split; [apply Hd|]. done.
    + intros n q _ Hs Hq. destruct (IsPersistent p) eqn:Ep; [by eapply Hnic|]. unfold SamePersistentNIC. by rewrite Ep.
  - apply (Inv_put_vip d w vni); try done. intros m. eexists. split; [apply Hd|]. done.
Qed.

Lemma safe_create_attempts n c vni d data enc : admitted c vni ->
  Encode c = Ok data -> ToStorage data (full (kind_of c) (c_Name c)) = Ok enc ->
  safe d (create_attempts n c (full (kind_of c) (c_Name c)) (twin_key c vni) enc) any.
Proof.
  intros Ha He Ht. revert d. induction n as [|n IH]; intros d; [done|]. cbn [create_attempts].
  apply safe_ctx; [done|]. apply safe_bind.
  apply (safe_mono _ (fun d r => match r with
    | Ok guard => forall d' p, later d d' -> Inv d' -> Forall (fun c => cmp_holds d' c = true) guard ->
        c = CPort p -> IsPersistent p = true -> forall n q, stored d' KPort n (CPort q) -> port_claims q vni -> SamePersistentNIC p q = false
    | Err _ => True end)).
  - intros d1 [guard|err] Hg; [|done]. cbn. intros d2 Hl. split.
    + intros Hinv [H1 [H2 H3]%Forall_cons]%Forall_cons. apply bool_decide_eq_true in H1, H2.
      eapply Inv_create; try done. intros p. by apply Hg.
    + intros d3 [[ok found]|e] Hl3; [|done]. cbn. case_if; [done|]. case_if; [done|]. apply IH.
  - destruct c as [p|w]; [|done]. destruct (IsPersistent p) eqn:Ep; [|cbn; congruence].
    apply safe_bind. eapply safe_mono; [|by apply safe_persistentGuard].
    intros d1 [g|e]; [|done]. cbn. intros (rev & -> & Hc) d2 p' Hl Hinv [Hg _]%Forall_cons [= <-] _ m q Hs Hq.
    by eapply guard_excludes.
Qed.

Lemma safe_Create c vni key ttl d : admitted c vni -> KeyFunc (kind_of c) (c_Name c) = Ok key ->
  safe d (Create key c ttl) any.
Proof.
  intros Ha Hk. unfold Create.
  assert (Htw : forall t, twinName_of c = Ok t -> forall k, KeyFunc (twin_of (kind_of c)) t = Ok k -> absolute k = twin_key c vni).
  { intros t Ht k ->%absolute_KeyFunc. destruct c as [p|w]; cbn [twinName_of kind_of admitted twin_key twin_of] in *.
    - rewrite (port_claims_parse _ _ Ha) in Ht. by injection Ht as <-.
    - destruct Ha as (Hv & Hc & Hn). rewrite Hn in Ht. unfold ServiceVIPName in Ht.
      rewrite ParseClaim_print in Ht by done. by injection Ht as <-. }
  apply safe_plift; [done|]. intros t Ht. case_if; [done|]. apply safe_plift; [done|]. intros pk ->%PrepareKey_spec.
  apply safe_plift; [done|]. intros tk Htk. rewrite (Htw _ Ht _ Htk), (absolute_KeyFunc _ _ _ Hk).
  case_if; [done|]. apply safe_plift; [done|]. intros data Hd. apply safe_plift; [done|]. intros enc He.
  by eapply safe_create_attempts.
Qed.

Lemma Validate_admitted c : Validate c = [] -> exists vni, admitted c vni.
Proof.
  destruct c as [p|w]; cbn.
  - intros (vni & ? & _)%Port_Validate_claims. by exists vni.
  - intros (vni & ? & _)%VIP_Validate_claims. by exists vni.
Qed.

Lemma safe_register c d : safe d (register c) any.
Proof.
  unfold register. destruct (Validate (PrepareForCreate c)) eqn:E; [|done].
  apply Validate_admitted in E as [vni Ha]. apply safe_plift; [done|]. intros key Hk.
  pose proof (fun d => safe_Create _ vni key 0 d Ha Hk) as Hc. apply safe_bind. unfold BeginCreate.
  destruct (twinName_of _); [|apply Hc]. apply safe_plift; [done|]. intros tk _. intros [[]|e]; [done|apply Hc|done].
Qed.

(** ** The system *)

Definition commit (d : db) (checks : list cmp) (key v : string) : db :=
  if forallb (cmp_holds d) checks then put d key v else d.
Definition present (d : db) (key : string) : bool := bool_decide (is_Some (live d !! key)).

(** One call of a request. A transaction whose answer is lost may have been applied. *)
Inductive call : db -> prog unit -> db -> prog unit -> Prop :=
| call_ctx d k e : call d (CtxErr k) d (k e)
| call_get d start end_ rev k pg : answers d start end_ rev pg ->
    call d (Get start end_ rev k) d (k (Ok pg))
| call_get_err d start end_ rev k e : call d (Get start end_ rev k) d (k (Err e))
| call_exists d key k : call d (Exists key k) d (k (Ok (present d key)))
| call_exists_err d key k e : call d (Exists key k) d (k (Err e))
| call_txn d checks key v gets k :
    call d (Txn checks key v gets k) (commit d checks key v)
      (k (Ok (if forallb (cmp_holds d) checks then MkTxn true [] else MkTxn false (present d <$> gets))))
| call_txn_lost d checks key v gets k e : call d (Txn checks key v gets k) (commit d checks key v) (k (Err e))
| call_txn_err d checks key v gets k e : call d (Txn checks key v gets k) d (k (Err e)).

(** What the update strategies make of a stored object; the generic registry
    keeps the name. *)
Inductive updated : claim -> claim -> Prop :=
| updated_port p old : let p' := port_PrepareForUpdate p old in
    port_ValidateUpdate p' old = [] -> updated (CPort old) (CPort p')
| updated_port_status p old : let p' := port_status_PrepareForUpdate p old in
    port_status_ValidateUpdate p' old = [] -> updated (CPort old) (CPort p')
| updated_vip v old : let v' := vip_PrepareForUpdate v old in
    vip_ValidateUpdate v' old = [] -> updated (CVIP old) (CVIP v')
| updated_vip_status v old : let v' := vip_status_PrepareForUpdate v old in
    vip_status_ValidateUpdate v' old = [] -> updated (CVIP old) (CVIP v').

(** A state is the keyspace and the requests in flight. *)
Inductive step : db * list (prog unit) -> db * list (prog unit) -> Prop :=
| step_request d ps c : step (d, ps) (d, register c :: ps)
| step_call d ps qs p d' p' : call d p d' p' -> step (d, ps ++ p :: qs) (d', ps ++ p' :: qs)
| step_update d ps name old new data enc :
    stored d (kind_of old) name old -> updated old new -> c_Name new = name ->
    Encode new = Ok data -> ToStorage data (full (kind_of old) name) = Ok enc ->
    step (d, ps) (put d (full (kind_of old) name) enc, ps)
| step_delete d ps key : step (d, ps) (del d key, ps)
| step_other d ps key v : (forall k name, key <> full k name) -> step (d, ps) (put d key v, ps).

Lemma call_safe d p d' p' : call d p d' p' -> Inv d -> safe d p any -> later d d' /\ Inv d' /\ safe d' p' any.
Proof.
  assert (Hc : forall d checks key v gets k, Inv d -> safe d (Txn checks key v gets k) any ->
    later d (commit d checks key v) /\ Inv (commit d checks key v) /\ forall r, safe (commit d checks key v) (k r) (@any unit)).
  { intros dd checks key v gets k Hinv Hs. destruct (Hs dd) as [H1 H2]; [done|].
    assert (Hl : later dd (commit dd checks key v)) by (unfold commit; case_if; [apply later_put|done]).
    split_and!; [done| |intros r; by apply H2]. unfold commit. case_if; [|done]. apply H1; [done|].
    apply Forall_forall. intros c Hc. rewrite forallb_forall in E. apply E. by apply list_elem_of_In. }
  intros Hcall Hinv Hs. destruct Hcall; try (split_and!; [done|done|]).
  - apply Hs.
  - destruct (Hs d) as [Hs1 _]; [done|]. by apply Hs1.
  - destruct (Hs d) as [_ Hs2]; [done|]. by apply Hs2.
  - apply Hs.
  - apply Hs.
  - destruct (Hc _ _ _ _ _ _ Hinv Hs) as (? & ? & Hk). split_and!; [done..|apply Hk].
  - destruct (Hc _ _ _ _ _ _ Hinv Hs) as (? & ? & Hk). split_and!; [done..|apply Hk].
  - destruct (Hs d) as [_ Hs2]; [done|]. by apply Hs2.
Qed.

Lemma Inv_update d name old new data enc : Inv d ->
  stored d (kind_of old) name old -> updated old new -> c_Name new = name ->
  Encode new = Ok data -> ToStorage data (full (kind_of old) name) = Ok enc ->
  Inv (put d (full (kind_of old) name) enc).
Proof.
  intros Hinv Hst Hu Hn He Ht. pose proof Hst as (v & m & Hl & Hd).
  assert (Hk : kind_of new = kind_of old) by (by destruct Hu). rewrite <-Hk in Ht.
  pose proof (fun m => decodes_written _ _ _ _ m He Ht) as Hw. rewrite Hk in Hw.
  destruct old as [old|old].
  - assert (exists p, new = CPort p /\ keeps_identity p old) as (p & -> & Hkeep).
    { inversion Hu; subst; eexists; (split; [done|]); [by apply ValidateUpdate_keeps|by apply status_update_keeps]. }
    destruct (inv_port d Hinv _ _ _ Hl) as (old' & vni & Hd' & Hname & Hcl).
    pose proof (decodes_inj _ _ _ _ _ _ Hd Hd') as [= <-]. cbn [kind_of] in *. change (p_Name p = name) in Hn.
    assert (Hp : port_claims p vni).
    { destruct Hcl as (Hv & Hc & He'), Hkeep as (Hip & _). unfold port_claims. rewrite Hn, <-Hname, Hip. done. }
    rewrite <-Hn in *. apply (Inv_put_port d p vni); [done|done| | |].
    + intros m'. eexists. split; [apply Hw|]. done.
    + destruct (inv_twin d Hinv vni (s_IP (p_Spec p))) as [Hnone|]; [apply Hp|apply Hp| |done].
      destruct Hp as (_ & _ & Hpn). by rewrite <-Hpn, Hl in Hnone.
    + intros n q Hne Hq Hqc. rewrite (keeps_SameNIC _ _ _ Hkeep).
      destruct (SamePersistentNIC old q) eqn:E; [|done]. exfalso. apply Hne. symmetry.
      eapply (inv_nic d Hinv); done.
  - assert (exists w, new = CVIP w /\ v_IP (v_Spec w) = v_IP (v_Spec old)) as (w & -> & Hip).
    { inversion Hu as [| |w old' w' Hv|w old' w' Hv]; subst; eexists; (split; [done|]); [|done].
      unfold vip_ValidateUpdate in Hv. rewrite !app_nil, !check_nil, !bool_decide_eq_true in Hv. naive_solver. }
    destruct (inv_vip d Hinv _ _ _ Hl) as (old' & vni & Hd' & Hname & Hcl).
    pose proof (decodes_inj _ _ _ _ _ _ Hd Hd') as [= <-]. cbn [kind_of] in *. change (v_Name w = name) in Hn.
    assert (Hp : vip_claims w vni).
    { destruct Hcl as (Hv & Hc & He'). unfold vip_claims. rewrite Hn, <-Hname, Hip. done. }
    rewrite <-Hn in *. apply (Inv_put_vip d w vni); [done|done| |].
    + intros m'. eexists. split; [apply Hw|]. done.
    + destruct (inv_twin d Hinv vni (v_IP (v_Spec w))) as [|Hnone]; [apply Hp|apply Hp|done|].
      destruct Hp as (_ & _ & Hpn). by rewrite <-Hpn, Hl in Hnone.
Qed.

Definition good (s : db * list (prog unit)) : Prop := Inv s.1 /\ Forall (fun p => safe s.1 p any) s.2.

Lemma any_stable {A} : stable (@any A).
Proof. done. Qed.

Lemma safe_all_later d d' ps : later d d' -> Forall (fun p => safe d p (@any unit)) ps -> Forall (fun p => safe d' p any) ps.
Proof. intros Hl Hf. eapply Forall_impl; [done|]. intros p. by apply safe_later. Qed.

Lemma step_good s s' : step s s' -> good s -> good s'.
Proof.
  unfold good. intros Hs [Hinv Hps]. destruct Hs as [d ps c|d ps qs p d' p' Hc|d ps name old new data enc|d ps key|d ps key v Hk]; cbn in *.
  - split; [done|]. constructor; [apply safe_register|done].
  - apply Forall_app in Hps as [H1 [H2 H3]%Forall_cons]. destruct (call_safe _ _ _ _ Hc Hinv H2) as (Hl & ? & ?).
    split; [done|]. apply Forall_app; split; [|constructor; [done|]]; by eapply safe_all_later.
  - split; [by eapply Inv_update|]. eapply safe_all_later; [apply later_put|done].
  - split; [by apply Inv_del|]. eapply safe_all_later; [apply later_del|done].
  - split; [by apply Inv_put_other|]. eapply safe_all_later; [apply later_put|done].
Qed.

Lemma Inv_empty d : live d = ∅ -> Inv d.
Proof.
  intros He. split; unfold stored; rewrite He; setoid_rewrite lookup_empty; try done; [by left|].
  intros ? ? ? ? ? (? & ? & ? & _). done.
Qed.

Lemma reachable_Inv d0 d ps : live d0 = ∅ -> rtc step (d0, []) (d, ps) -> Inv d.
Proof.
  intros He Hr. cut (good (d, ps)); [by intros [? _]|].
  assert (Hg : good (d0, [])) by (split; [by apply Inv_empty|constructor]). revert Hr Hg.
  generalize (d0, @nil (prog unit)) (d, ps). induction 1 as [|x y z Hs _ IH]; [done|]. eauto using step_good.
Qed.

(** The network and the address bytes a stored object holds. *)
Definition c_IP (c : claim) : string := match c with CPort p => s_IP (p_Spec p) | CVIP v => v_IP (v_Spec v) end.
Definition holds (d : db) (k : kind) (name : string) (c : claim) (vni : Z) (addr : IP) : Prop :=
  stored d k name c /\ admitted c vni /\ ParseIP (c_IP c) = addr.

Lemma Inv_holder d k name c vni addr : Inv d -> holds d k name c vni addr ->
  exists ip, canonical ip /\ ParseIP ip = addr /\ c_IP c = ip /\ ValidVNI vni = true /\
    name = match k with KPort => PortName vni ip | KVIP => ServiceVIPName vni ip end /\
    live d !! full k name <> None.
Proof.
  intros Hinv (Hs & Ha & <-). destruct Hs as (v & m & Hl & Hd). exists (c_IP c). destruct k.
  - destruct (inv_port d Hinv _ _ _ Hl) as (p & vni' & Hd' & Hn & Hc). pose proof (decodes_inj _ _ _ _ _ _ Hd Hd') as ->.
    cbn [c_IP admitted] in *. destruct Ha as (Hv & Hca & Hna). split_and!; try done; [by rewrite <-Hn|by rewrite Hl].
  - destruct (inv_vip d Hinv _ _ _ Hl) as (p & vni' & Hd' & Hn & Hc). pose proof (decodes_inj _ _ _ _ _ _ Hd Hd') as ->.
    cbn [c_IP admitted] in *. destruct Ha as (Hv & Hca & Hna). split_and!; try done; [by rewrite <-Hn|by rewrite Hl].
Qed.

End safety.

(** C2. From an empty keyspace, in every state that any interleaving of create, update,
    status-update and delete requests can reach, with every failure and lost answer of etcd: an
    address of a network is held by at most one object, Port or ServiceVIP, and a persistent
    NIC of a network by at most one Port; every stored object is named by the address it
    holds. *)
Theorem claims_exclusive `{Etcd} `{Storage} (d0 d : db) (ps : list (prog unit)) :
  live d0 = ∅ -> rtc step (d0, []) (d, ps) ->
  (forall k k' n n' c c' vni addr,
     holds d k n c vni addr -> holds d k' n' c' vni addr -> k = k' /\ n = n') /\
  (forall n n' p q vni, stored d KPort n (CPort p) -> stored d KPort n' (CPort q) ->
     port_claims p vni -> port_claims q vni -> SamePersistentNIC p q = true -> n = n') /\
  (forall k n c, stored d k n c -> exists vni, admitted c vni /\ n = c_Name c).
Proof.
  intros He Hr. pose proof (reachable_Inv _ _ _ He Hr) as Hinv. split_and!.
  - intros k k' n n' c c' vni addr Hh Hh'.
    destruct (Inv_holder _ _ _ _ _ _ Hinv Hh) as (ip & [_ Hc] & Ha & _ & Hv & Hn & Hl).
    destruct (Inv_holder _ _ _ _ _ _ Hinv Hh') as (ip' & [? Hc'] & Ha' & _ & _ & Hn' & Hl').
    assert (ip = ip') as -> by congruence.
    assert (Ht := inv_twin d Hinv vni ip' Hv ltac:(by split)). destruct k, k'; subst; naive_solver.
  - apply (inv_nic d Hinv).
  - intros k n c (v & m & Hl & Hd). destruct k.
    + destruct (inv_port d Hinv _ _ _ Hl) as (p & vni & Hd' & Hn & Hc). pose proof (decodes_inj _ _ _ _ _ _ Hd Hd') as ->. by exists vni.
    + destruct (inv_vip d Hinv _ _ _ Hl) as (p & vni & Hd' & Hn & Hc). pose proof (decodes_inj _ _ _ _ _ _ Hd Hd') as ->. by exists vni.
Qed.
