(* ===== verification/ClaimServe.v ===== *)
(** * An undisturbed create

    What a create request does when no other request runs, no call fails and the
    context stays alive: the request is served by an executable function, and a
    valid claim is stored exactly when its address and its NIC are free. *)

From S2P Require Import Prelude GoText GoNet AddrText AddrMap Grants ClaimNames Registry Claims ClaimSafety.
Local Open Scope Z_scope.

(** ** The order of keys *)

Lemma code_inj x y : code x = code y -> x = y.
Proof.
  unfold code. intros Hx%N2Z.inj. apply (f_equal Ascii.ascii_of_N) in Hx. by rewrite !Ascii.ascii_N_embedding in Hx.
Qed.

(** One step of the comparison of two strings that start with a byte. *)
Lemma str_ltb_cons x y a b : str_ltb (String x a) (String y b) = true <->
  code x < code y \/ x = y /\ str_ltb a b = true.
Proof.
  cbn. destruct (Z.lt_trichotomy (code x) (code y)) as [Hl|[He|Hl]].
  - rewrite (proj2 (Z.ltb_lt _ _) Hl). naive_solver.
  - rewrite He, Z.ltb_irrefl. apply code_inj in He as ->. split; [by right|]. intros [?|[_ ?]]; [lia|done].
  - rewrite (proj2 (Z.ltb_lt _ _) Hl), (proj2 (Z.ltb_ge (code x) (code y))) by lia. split; [done|].
    intros [?|[-> _]]; lia.
Qed.

Lemma str_ltb_trans a b c : str_ltb a b = true -> str_ltb b c = true -> str_ltb a c = true.
Proof.
  revert b c; induction a as [|x a IH]; intros [|y b] [|z c]; try done.
  rewrite !str_ltb_cons. intros [?|[-> ?]] [?|[-> ?]]; [left; lia|by left|by left|right; eauto].
Qed.

Lemma str_ltb_total a b : str_ltb a b = false -> a = b \/ str_ltb b a = true.
Proof.
  revert b; induction a as [|x a IH]; intros [|y b]; try done; [by left|by right|].
  intros Hn. destruct (Z.lt_trichotomy (code x) (code y)) as [Hl|[He|Hl]].
  - assert (str_ltb (String x a) (String y b) = true) by (apply str_ltb_cons; by left). congruence.
  - apply code_inj in He as ->. destruct (IH b) as [->|?]; [|by left|right; apply str_ltb_cons; by right].
    destruct (str_ltb a b) eqn:E; [|done]. assert (str_ltb (String y a) (String y b) = true) by (apply str_ltb_cons; by right). congruence.
  - right. apply str_ltb_cons. by left.
Qed.

Lemma str_ltb_asym a b : str_ltb a b = true -> str_ltb b a = false.
Proof.
  intros H1. destruct (str_ltb b a) eqn:E; [|done]. pose proof (str_ltb_trans _ _ _ H1 E) as H2. by rewrite str_ltb_irrefl in H2.
Qed.

Definition entry := (string * (string * Z))%type.
Definition key_le (a b : entry) : Prop := str_ltb b.1 a.1 = false.
Definition key_lt (a b : entry) : Prop := str_ltb a.1 b.1 = true.
#[export] Instance key_le_dec : RelDecision key_le. Proof. intros a b. unfold key_le. apply _. Defined.
#[export] Instance key_le_total : Total key_le.
Proof. intros a b. unfold key_le. destruct (str_ltb b.1 a.1) eqn:E; [right; by apply str_ltb_asym|by left]. Qed.
#[export] Instance key_le_trans : Transitive key_le.
Proof.
  intros a b c. unfold key_le. intros H1 H2. destruct (str_ltb c.1 a.1) eqn:E; [|done].
  destruct (str_ltb_total _ _ H1) as [He|Hlt]; [congruence|]. pose proof (str_ltb_trans _ _ _ E Hlt). congruence.
Qed.

(** The entries of a keyspace in a range, by key. *)
Definition in_order (m : gmap string (string * Z)) (start end_ : string) : list entry :=
  merge_sort key_le (filter (fun e => in_range_of start end_ e.1 = true) (map_to_list m)).

Lemma elem_of_in_order m start end_ e : e ∈ in_order m start end_ <-> m !! e.1 = Some e.2 /\ in_range_of start end_ e.1 = true.
Proof.
  unfold in_order. rewrite merge_sort_Permutation, list_elem_of_filter. destruct e as [k v]. rewrite elem_of_map_to_list. naive_solver.
Qed.

Lemma in_order_sorted m start end_ : StronglySorted key_lt (in_order m start end_).
Proof.
  assert (Hs : StronglySorted key_le (in_order m start end_)) by (apply Sorted_StronglySorted; [apply _|apply Sorted_merge_sort, _]).
  assert (Hn : NoDup (in_order m start end_).*1).
  { unfold in_order. rewrite merge_sort_Permutation. eapply sublist_NoDup; [apply (NoDup_fst_map_to_list m)|].
    apply fmap_sublist, sublist_filter. }
  induction Hs as [|e l Hs IH Hf]; [constructor|]. cbn in Hn. apply NoDup_cons in Hn as [He Hn]. constructor; [by apply IH|].
  apply Forall_forall. intros x Hx. rewrite Forall_forall in Hf. specialize (Hf x Hx).
  unfold key_lt, key_le in *. apply str_ltb_total in Hf as [Hf|?]; [|done].
  destruct He. apply list_elem_of_fmap. by exists x.
Qed.

(** A strictly sorted list is determined by its elements. *)
Lemma sorted_ext (l k : list entry) : StronglySorted key_lt l -> StronglySorted key_lt k ->
  (forall e, e ∈ l <-> e ∈ k) -> l = k.
Proof.
  assert (Hmin : forall a b, key_lt a b -> ~ key_lt b a).
  { intros a b H1 H2. unfold key_lt in *. apply str_ltb_asym in H1. congruence. }
  intros Hl; revert k; induction Hl as [|a l Hl IH Ha]; intros k Hk He.
  - destruct k as [|b k]; [done|]. exfalso. apply (not_elem_of_nil b), He. left.
  - destruct Hk as [|b k Hk Hb]; [exfalso; apply (not_elem_of_nil a), He; left|].
    rewrite Forall_forall in Ha, Hb. assert (a = b) as <-.
    { destruct (proj1 (elem_of_cons k a b)) as [|Hin]; [apply He; left|done|].
      destruct (proj1 (elem_of_cons l b a)) as [|Hin']; [apply He; left|done|]. by destruct (Hmin a b); auto. }
    f_equal. apply IH; [done|]. intros e. specialize (He e). rewrite !elem_of_cons in He.
    split; intros Hin.
    + destruct (proj1 He (or_intror Hin)) as [->|]; [|done]. by destruct (Hmin a a); auto.
    + destruct (proj2 He (or_intror Hin)) as [->|]; [|done]. by destruct (Hmin a a); auto.
Qed.

(** The entries past a key are the rest of the list. *)
Lemma in_order_next m start end_ l x r : in_order m start end_ = l ++ x :: r -> in_order m (x.1 +:+ nul) end_ = r.
Proof.
  intros He. pose proof (in_order_sorted m start end_) as Hs. rewrite He in Hs.
  assert (Hl : forall y, y ∈ l -> key_lt y x).
  { intros y Hy. apply StronglySorted_app in Hs as (Hf & _). apply Hf; [done|left]. }
  assert (Hr : StronglySorted key_lt (x :: r)) by (by apply StronglySorted_app in Hs as (_ & _ & ?)).
  apply sorted_ext; [apply in_order_sorted|by inversion Hr|]. intros e.
  rewrite elem_of_in_order. inversion Hr as [|? ? Hr1 Hr2]; subst. rewrite Forall_forall in Hr2.
  assert (Hrange : forall k, str_ltb k (x.1 +:+ nul) = false <-> str_ltb x.1 k = true).
  { intros k. split; intros Hk.
    - destruct (str_ltb x.1 k) eqn:E; [done|]. exfalso. revert Hk. apply not_false_iff_true.
      clear -E. revert k E. induction x.1 as [|c s IH]; intros [|d k] E; cbn in *; try done.
      destruct (code c <? code d) eqn:E1; [done|]. destruct (code d <? code c); [done|]. by apply IH.
    - destruct (str_ltb k (x.1 +:+ nul)) eqn:E; [|done]. apply str_ltb_nul in E. congruence. }
  unfold in_range_of. rewrite andb_true_iff, negb_true_iff, Hrange. split.
  - intros (Hm & Hgt & Hend). assert (Hin : e ∈ in_order m start end_).
    { apply elem_of_in_order. split; [done|]. unfold in_range_of. rewrite Hend, andb_true_r, negb_true_iff.
      assert (Hx : x ∈ in_order m start end_) by (rewrite He; apply elem_of_app; right; left).
      apply elem_of_in_order in Hx as [_ Hx]. unfold in_range_of in Hx. apply andb_true_iff in Hx as [Hx%negb_true_iff _].
      destruct (str_ltb e.1 start) eqn:E; [|done]. pose proof (str_ltb_trans _ _ _ Hgt E). congruence. }
    rewrite He in Hin. apply elem_of_app in Hin as [Hin|[->|]%elem_of_cons]; [|by rewrite str_ltb_irrefl in Hgt|done].
    apply Hl in Hin. apply str_ltb_asym in Hin. unfold key_lt in *. congruence.
  - intros Hin. assert (Hin' : e ∈ in_order m start end_) by (rewrite He; apply elem_of_app; right; by right).
    apply elem_of_in_order in Hin' as [Hm Hrg]. split; [done|]. split; [by apply Hr2|].
    unfold in_range_of in Hrg. by apply andb_true_iff in Hrg as [_ ?].
Qed.

Section serve.
Context `{Etcd} `{Storage}.

(** ** Serving a request *)

Definition kv_of (e : entry) : option kv := Some (MkKv e.1 e.2.1 e.2.2).
Definition page_exec (m : gmap string (string * Z)) (start end_ : string) (rev : Z) : page :=
  let l := in_order m start end_ in
  MkPage (Some rev) (kv_of <$> take persistentPageSize l) (persistentPageSize <? length l)%nat.

Definition keyspace (d : db) (rev : option Z) : gmap string (string * Z) := match rev with None => live d | Some r => past d r end.

Fixpoint serve {A} (d : db) (p : prog A) : db * result A :=
  match p with
  | Ret r => (d, r)
  | CtxErr k => serve d (k None)
  | Get start end_ rev k => serve d (k (Ok (page_exec (keyspace d rev) start end_ (now d))))
  | Exists key k => serve d (k (Ok (present d key)))
  | Txn checks key v gets k =>
      serve (commit d checks key v)
        (k (Ok (if forallb (cmp_holds d) checks then MkTxn true [] else MkTxn false (present d <$> gets))))
  end.

Lemma serve_bind {A B} (p : prog A) (f : A -> prog B) d :
  serve d (p ≫= f) = let '(d', r) := serve d p in match r with Ok a => serve d' (f a) | Err e => (d', Err e) end.
Proof.
  unfold mbind, prog_mbind. revert d. induction p as [[]|k IH|? ? ? k IH|? k IH|? ? ? ? k IH]; intros d; cbn; auto.
Qed.

(** The pages are answers etcd may give. *)
Lemma page_exec_answers d start end_ rev : answers d start end_ rev (page_exec (keyspace d rev) start end_ (now d)).
Proof.
  unfold answers. change (match rev with None => live d | Some r => past d r end) with (keyspace d rev).
  generalize (keyspace d rev). intros m. unfold page_of, page_exec. cbn [pg_Revision pg_Kvs pg_More].
  assert (Hlim : (0 < persistentPageSize)%nat) by (unfold persistentPageSize; lia). generalize dependent persistentPageSize. intros limit Hlim.
  set (l := in_order m start end_). split_and!; [done|rewrite length_fmap, length_take; lia| |].
  - intros e ([k [v r]] & -> & Hin)%list_elem_of_fmap. exists k, v, r. split; [done|].
    apply elem_of_take in Hin as (i & Hi & _). by apply list_elem_of_lookup_2, elem_of_in_order in Hi.
  - intros k v r Hk Hr. assert (Hin : (k, (v, r)) ∈ l) by by apply elem_of_in_order.
    rewrite <-(take_drop limit l), elem_of_app in Hin. destruct Hin as [Hin|Hin].
    + left. apply list_elem_of_fmap. by exists (k, (v, r)).
    + right. assert (Hlen : (limit < length l)%nat).
      { assert (drop limit l <> []) by (intros E; rewrite E in Hin; by apply not_elem_of_nil in Hin).
        destruct (decide (limit < length l)%nat); [done|]. rewrite drop_ge in H1 by lia. done. }
      split; [by apply Nat.ltb_lt|].
      destruct (lookup_lt_is_Some_2 l (pred limit)) as [x Hx]; [lia|]. exists (MkKv x.1 x.2.1 x.2.2). split.
      * rewrite last_lookup, length_fmap, length_take, list_lookup_fmap, Nat.min_l by lia.
        rewrite lookup_take_lt by lia. by rewrite Hx.
      * assert (Hs := in_order_sorted m start end_). fold l in Hs. rewrite <-(take_drop limit l) in Hs.
        apply StronglySorted_app in Hs as (Hf & _). apply (Hf x (k, (v, r))); [|done].
        apply list_elem_of_lookup_2 with (pred limit). by rewrite lookup_take_lt by lia.
Qed.

Lemma serve_ctx {A} (p : prog A) d : serve d (ctx_alive ;; p) = serve d p.
Proof. done. Qed.
Lemma serve_plift {A B} (a : A) (f : A -> prog B) d : serve d (plift (Ok a) ≫= f) = serve d (f a).
Proof. done. Qed.

(** ** The scan *)

Definition size_of (e : entry) : Z := Z.of_nat (String.length e.2.1).
Fixpoint sizes (l : list entry) : Z := match l with [] => 0 | e :: l => size_of e + sizes l end.

Lemma sizes_app l k : sizes (l ++ k) = sizes l + sizes k.
Proof. induction l as [|e l IH]; cbn [sizes app]; lia. Qed.
Lemma sizes_nonneg l : 0 <= sizes l.
Proof. induction l as [|e l IH]; cbn [sizes]; [lia|]. unfold size_of. lia. Qed.

Section scan.
Context (port : Port) (pdir prefix : string) (d : db).

(** An entry of the network that is another NIC. *)
Definition clear_entry (start : string) (e : entry) : Prop :=
  has_prefix e.1 prefix = true /\ str_ltb e.1 start = false /\
  exists p, decodes KPort e.1 e.2.1 e.2.2 (CPort p) /\ e.1 = pdir +:+ p_Name p /\ SamePersistentNIC port p = false.

Lemma serve_scan_entry start s e :
  clear_entry start e -> sc_seen s + 1 <= persistentScanLimit -> sc_bytes s + size_of e <= persistentScanBytes ->
  serve d (scan_entry pdir prefix start port s (kv_of e)) = (d, Ok (MkScan (sc_match s) (sc_seen s + 1) (sc_bytes s + size_of e))).
Proof.
  intros (Hp & Hst & p & (data & Hf & Hd) & Hk & Hs) H1 H2. unfold scan_entry. rewrite serve_ctx.
  unfold kv_of. cbn [kv_Value kv_Key kv_ModRevision]. fold (size_of e).
  rewrite (proj2 (Z.ltb_ge _ _)) by lia. cbn [sc_seen sc_match sc_bytes].
  rewrite Hp, Hst, (proj2 (Z.ltb_ge _ _)) by lia. cbn [negb orb]. rewrite Hf, serve_plift, Hd, serve_plift.
  rewrite decide_False by (intros Hn; by apply Hn). by rewrite Hs.
Qed.

Lemma serve_scan_entries start l s :
  Forall (clear_entry start) l -> sc_seen s + Z.of_nat (length l) <= persistentScanLimit ->
  sc_bytes s + sizes l <= persistentScanBytes ->
  serve d (scan_entries pdir prefix start port s (kv_of <$> l)) =
    (d, Ok (MkScan (sc_match s) (sc_seen s + Z.of_nat (length l)) (sc_bytes s + sizes l))).
Proof.
  intros Hl. revert s. induction Hl as [|e l He Hl IH]; intros s H1 H2; cbn [fmap list_fmap scan_entries].
  - destruct s as [mt seen b]. cbn. by rewrite !Z.add_0_r.
  - cbn [length sizes] in *. pose proof (sizes_nonneg l).
    rewrite serve_bind, serve_scan_entry by (done || lia). cbn beta iota. rewrite IH by (cbn; lia).
    cbn [sc_match sc_seen sc_bytes]. do 3 f_equal; lia.
Qed.

Context (Hdot : str_last prefix = Some "."%char) (Hnow : 0 < now d).

Lemma next_in_range k : has_prefix k prefix = true -> str_ltb (k +:+ nul) (range_end prefix) = true.
Proof.
  intros Hk. assert (Hk' : has_prefix (k +:+ nul) prefix = true).
  { unfold has_prefix in *. destruct (cut_prefix prefix k) as [r|] eqn:E; [|done].
    apply cut_prefix_Some in E as ->. by rewrite app_str_assoc, cut_prefix_app. }
  rewrite <-range_end_prefix in Hk' by done. unfold in_range_of in Hk'. by apply andb_true_iff in Hk' as [_ ?].
Qed.

Lemma str_ltb_next start k : str_ltb k start = false -> str_ltb start (k +:+ nul) = true.
Proof.
  revert k; induction start as [|c s IH]; intros [|x k]; cbn; try done.
  destruct (code x <? code c) eqn:E; [done|]. destruct (code c <? code x); [done|]. apply IH.
Qed.

Lemma serve_scan_pages fuel start revision s l :
  (revision = None \/ revision = Some (now d)) ->
  in_order (live d) start (range_end prefix) = l -> Forall (clear_entry start) l ->
  sc_seen s + Z.of_nat (length l) <= persistentScanLimit -> sc_bytes s + sizes l <= persistentScanBytes ->
  (length l < fuel)%nat ->
  serve d (scan_pages fuel pdir prefix (range_end prefix) port start revision s) = (d, Ok (now d, sc_match s)).
Proof.
  revert start revision s l. induction fuel as [|fuel IH]; intros start revision s l Hrev Hl Hcl H1 H2 Hf; [lia|].
  cbn [scan_pages]. rewrite serve_ctx, serve_bind. cbn [serve kv_get plift].
  assert (Hks : keyspace d revision = live d) by (destruct Hrev as [-> | ->]; cbn; [done|apply past_now]).
  rewrite Hks. unfold page_exec. rewrite Hl. cbn [pg_Revision pg_Kvs pg_More].
  rewrite (proj2 (Z.leb_gt _ _)) by lia. rewrite length_fmap, length_take.
  replace (_ <? _)%nat with false by (symmetry; apply Nat.ltb_ge; lia).
  assert (Hd : default (now d) revision = now d) by (by destruct Hrev as [-> | ->]). rewrite Hd.
  set (page := take persistentPageSize l).
  assert (Hsplit : l = page ++ drop persistentPageSize l) by (unfold page; by rewrite take_drop).
  rewrite Hsplit in Hcl, H1, H2. apply Forall_app in Hcl as [Hp Hr]. rewrite length_app in H1. rewrite sizes_app in H2.
  pose proof (sizes_nonneg (drop persistentPageSize l)).
  rewrite serve_bind, serve_scan_entries by (done || lia). cbn beta iota.
  destruct (persistentPageSize <? length l)%nat eqn:Em; cbn [negb]; [|done].
  apply Nat.ltb_lt in Em.
  assert (Hpl : length page = persistentPageSize) by (unfold page; rewrite length_take; lia).
  assert (exists b x, page = b ++ [x]) as (b & x & Hpage).
  { destruct (exists_last (l:=page)) as (b & x & ->); [|by eauto]. intros Hn. rewrite Hn in Hpl. cbn in Hpl. unfold persistentPageSize in Hpl. lia. }
  rewrite Hpage, fmap_app, (last_snoc (kv_of x)). cbn [kv_of]. rewrite Hpage in Hsplit, Hp.
  apply Forall_app in Hp as [_ [(Hxp & Hxs & _) _]%Forall_cons].
  rewrite <-Hpage. cbn [sc_seen sc_match sc_bytes kv_Key].
  assert (Hdl : (0 < length (drop persistentPageSize l))%nat) by (rewrite length_drop; lia).
  rewrite (proj2 (Z.leb_gt _ _)) by lia. rewrite str_ltb_next, next_in_range by done. cbn [negb orb].
  rewrite (IH _ _ _ (drop persistentPageSize l)); cbn [sc_seen sc_bytes];
    [done|by right| | |lia|lia|rewrite length_drop; unfold persistentPageSize; lia].
  - apply (in_order_next _ start _ b). rewrite Hl. rewrite Hsplit at 1. by rewrite <-app_assoc.
  - assert (Hs := in_order_sorted (live d) start (range_end prefix)). rewrite Hl in Hs. rewrite Hsplit in Hs.
    apply StronglySorted_app in Hs as (Hlt & _). apply Forall_forall. intros e He. rewrite Forall_forall in Hr.
    destruct (Hr e He) as (Hep & _ & Hec). split_and!; [done| |done].
    assert (Hxe : key_lt x e) by (apply Hlt; [apply elem_of_app; right; by left|done]).
    destruct (str_ltb e.1 (x.1 +:+ nul)) eqn:E; [|done]. apply str_ltb_nul in E. unfold key_lt in Hxe. congruence.
Qed.

End scan.

(** ** The create *)

(** The address and, for a persistent Port, the NIC are free. *)
Definition free (d : db) (c : claim) (vni : Z) : Prop :=
  live d !! full (kind_of c) (c_Name c) = None /\ live d !! twin_key c vni = None /\
  forall p, c = CPort p -> forall n q, stored d KPort n (CPort q) -> port_claims q vni -> SamePersistentNIC p q = false.

(** The scan of the network stays within its budgets. *)
Definition scannable (d : db) (vni : Z) : Prop :=
  let l := in_order (live d) (net_prefix vni) (range_end (net_prefix vni)) in
  0 < now d < MaxInt64 /\ Z.of_nat (length l) <= persistentScanLimit /\ sizes l <= persistentScanBytes.

Lemma has_prefix_name n vni : has_prefix n (net_prefix vni) = true -> exists name, n = full KPort name.
Proof.
  unfold has_prefix. destruct (cut_prefix (net_prefix vni) n) as [r|] eqn:E; [|done]. intros _.
  apply cut_prefix_Some in E as ->. unfold net_prefix, full. eexists. rewrite !app_str_assoc. done.
Qed.

Lemma net_prefix_dot vni : str_last (net_prefix vni) = Some "."%char.
Proof. unfold net_prefix. rewrite <-!app_str_assoc. apply str_last_app. Qed.

(** A Port of the network, from the invariant. *)
Lemma port_of_prefix d vni k v m : Inv d -> ValidVNI vni = true ->
  live d !! k = Some (v, m) -> has_prefix k (net_prefix vni) = true ->
  exists p, decodes KPort k v m (CPort p) /\ k = full KPort (p_Name p) /\ port_claims p vni.
Proof.
  intros Hinv Hv Hl Hp. destruct (has_prefix_name _ _ Hp) as [name ->].
  destruct (inv_port d Hinv _ _ _ Hl) as (p & vni' & Hd & Hn & Hc). exists p. rewrite Hn. split_and!; [done..|].
  assert (vni' = vni) as <-; [|done]. destruct Hc as (Hv' & _ & Hpn). rewrite Hn in Hpn.
  unfold has_prefix in Hp. destruct (cut_prefix (net_prefix vni) _) as [r|] eqn:E; [|done].
  apply cut_prefix_Some in E. unfold full, net_prefix in E. rewrite !app_str_assoc in E. apply app_str_inj in E.
  rewrite Hpn in E. apply (app_str_inj "v") in E.
  apply (f_equal (cut "."%char)) in E.
  rewrite (proj1 (vni_digits vni' _ Hv')), (proj1 (vni_digits vni _ Hv)) in E. injection E as E _.
  rewrite !fmt_vni in E by done. rewrite ValidVNI_range in Hv, Hv'. apply fmt_nat_inj in E; lia.
Qed.

Lemma serve_persistentGuard d port vni : Inv d -> port_claims port vni -> scannable d vni ->
  (forall n q, stored d KPort n (CPort q) -> port_claims q vni -> SamePersistentNIC port q = false) ->
  serve d (persistentGuard (full KPort (p_Name port)) port) =
    (d, Ok (ModBelow (net_prefix vni) (range_end (net_prefix vni)) (now d + 1))).
Proof.
  intros Hinv Hp (Hnow & Hlen & Hsz) Hfree. unfold persistentGuard. rewrite (port_claims_parse _ _ Hp).
  destruct Hp as (Hv & Hc & Hn). rewrite Hn, dir_of_full by by apply PortName_no_slash. fold (net_prefix vni).
  rewrite serve_bind, (serve_scan_pages port _ _ d (net_prefix_dot vni) (proj1 Hnow) _ _ _ _ (in_order (live d) (net_prefix vni) (range_end (net_prefix vni)))); try done.
  - cbn beta iota. rewrite decide_False by (intros Hx; by apply Hx). by rewrite (proj2 (Z.eqb_neq _ _)) by lia.
  - by left.
  - apply Forall_forall. intros [k [v m]] [Hl Hr]%elem_of_in_order. rewrite range_end_prefix in Hr by apply net_prefix_dot.
    destruct (port_of_prefix _ _ _ _ _ Hinv Hv Hl Hr) as (p & Hd & Hk & Hpc). split_and!; [done| |].
    + rewrite <-range_end_prefix in Hr by apply net_prefix_dot. unfold in_range_of in Hr.
      by apply andb_true_iff in Hr as [?%negb_true_iff _].
    + exists p. split_and!; [done..|]. apply (Hfree (p_Name p)); [|done]. exists v, m. rewrite <-Hk. done.
  - unfold scan_fuel. lia.
Qed.

(** A program without a transaction leaves the keyspace as it is. *)
Fixpoint reads {A} (p : prog A) : Prop :=
  match p with
  | Ret _ => True
  | CtxErr k => forall e, reads (k e)
  | Get _ _ _ k => forall r, reads (k r)
  | Exists _ k => forall r, reads (k r)
  | Txn _ _ _ _ _ => False
  end.

Lemma serve_reads {A} (p : prog A) d : reads p -> exists r, serve d p = (d, r).
Proof. revert d. induction p; cbn; intros d Hr; eauto. done. Qed.

Lemma reads_bind {A B} (p : prog A) (f : A -> prog B) : reads p -> (forall a, reads (f a)) -> reads (p ≫= f).
Proof. unfold mbind, prog_mbind. intros Hp Hf. induction p as [[]| | | |]; cbn in *; auto. Qed.

Lemma reads_ctx {B} (p : prog B) : reads p -> reads (ctx_alive ;; p).
Proof. intros Hp. by intros [e|]. Qed.

Lemma reads_persistentGuard prepared port : reads (persistentGuard prepared port).
Proof.
  assert (He : forall dir prefix start s e, reads (scan_entry dir prefix start port s e)).
  { intros. unfold scan_entry. apply reads_ctx. destruct e; [|done]. case_if; [done|]. case_if; [done|].
    do 2 (apply reads_bind; [done|intros ?]). case_match; [|done]. case_decide; [done|]. case_if; [by case_decide|done]. }
  assert (Hes : forall dir prefix start l s, reads (scan_entries dir prefix start port s l)).
  { induction l as [|e l IH]; intros s; [done|]. by apply reads_bind. }
  assert (Hp : forall fuel dir prefix end_ start rev s, reads (scan_pages fuel dir prefix end_ port start rev s)).
  { induction fuel as [|fuel IH]; intros; [done|]. cbn [scan_pages]. apply reads_ctx, reads_bind; [done|].
    intros pg. case_match; [|done]. case_if; [done|]. case_if; [done|]. apply reads_bind; [apply Hes|]. intros s'.
    case_if; [done|]. destruct (last _) as [[]|]; [|done..]. case_if; [done|]. by case_if. }
  unfold persistentGuard. apply reads_bind; [apply Hp|]. intros [rev found]. case_decide; [done|]. by case_if.
Qed.

(** A served create either meets its checks and writes the object, or writes nothing. *)
Lemma serve_create_attempts n c prepared twin enc d :
  serve d (create_attempts n c prepared twin enc) = (put d prepared enc, Ok tt) /\
    live d !! prepared = None /\ live d !! twin = None \/
  exists e, serve d (create_attempts n c prepared twin enc) = (d, Err e).
Proof.
  induction n as [|n IH]; [right; by eexists|]. cbn [create_attempts]. rewrite serve_ctx, serve_bind.
  set (g := match c with CPort port => _ | CVIP _ => _ end).
  destruct (serve_reads g d) as [[guard|e] ->]; [|cbn beta iota|right; by eexists].
  { unfold g. destruct c; [|done]. case_if; [|done]. apply reads_bind; [apply reads_persistentGuard|done]. }
  cbn [serve]. unfold commit. destruct (forallb _ _) eqn:Ec.
  - left. cbn in Ec. apply andb_true_iff in Ec as [H1 [H2 _]%andb_true_iff]. apply bool_decide_eq_true in H1, H2. done.
  - cbn [tx_Succeeded tx_Found]. case_if; [right; by eexists|]. apply IH.
Qed.

Lemma serve_create_free n c vni d enc : Inv d -> admitted c vni -> free d c vni -> (0 < n)%nat ->
  (forall p, c = CPort p -> IsPersistent p = true -> scannable d vni) ->
  serve d (create_attempts n c (full (kind_of c) (c_Name c)) (twin_key c vni) enc) =
    (put d (full (kind_of c) (c_Name c)) enc, Ok tt).
Proof.
  intros Hinv Ha (H1 & H2 & H3) Hn Hsc. destruct n as [|n]; [lia|]. cbn [create_attempts]. rewrite serve_ctx, serve_bind.
  assert (Hg : exists guard, serve d match c with CPort port => if IsPersistent port then g ← persistentGuard (full (kind_of c) (c_Name c)) port; mret [g] else mret [] | CVIP _ => mret [] end = (d, Ok guard) /\ forallb (cmp_holds d) guard = true).
  { destruct c as [p|w]; [|by exists []]. destruct (IsPersistent p) eqn:Ep; [|by exists []].
    exists [ModBelow (net_prefix vni) (range_end (net_prefix vni)) (now d + 1)]. split.
    - rewrite serve_bind. cbn [kind_of]. change (c_Name (CPort p)) with (p_Name p). rewrite serve_persistentGuard with (vni := vni); eauto.
    - cbn. rewrite andb_true_r. apply forallb_forall. intros [k [v m]] Hin%list_elem_of_In%elem_of_map_to_list.
      apply orb_true_iff. right. apply Z.ltb_lt. apply live_le in Hin. lia. }
  destruct Hg as (guard & -> & Hg). cbn beta iota. cbn [serve]. unfold commit.
  cbn [app forallb]. rewrite Hg. unfold cmp_holds at 1 2 3 4. rewrite !bool_decide_true by done. done.
Qed.

(** What the request needs of the codec and of the key functions. *)
Record servable (c : claim) (vni : Z) (enc : string) : Prop := {
  sv_key : exists key, KeyFunc (kind_of c) (c_Name c) = Ok key /\ PrepareKey (root (kind_of c)) key = Ok key;
  sv_twin : forall t, twinName_of c = Ok t -> exists key, KeyFunc (twin_of (kind_of c)) t = Ok key;
  sv_new : m_ResourceVersion (c_Meta c) = 0;
  sv_enc : exists data, Encode c = Ok data /\ ToStorage data (full (kind_of c) (c_Name c)) = Ok enc
}.

Lemma twinName_of_admitted c vni : admitted c vni -> exists t, twinName_of c = Ok t /\
  forall k, KeyFunc (twin_of (kind_of c)) t = Ok k -> absolute k = twin_key c vni.
Proof.
  intros Ha. destruct c as [p|w]; cbn [twinName_of kind_of admitted twin_key twin_of] in *.
  - rewrite (port_claims_parse _ _ Ha). eexists. split; [done|]. intros k. apply absolute_KeyFunc.
  - destruct Ha as (Hv & Hc & Hn). rewrite Hn. unfold ServiceVIPName at 1. rewrite ParseClaim_print by done.
    eexists. split; [done|]. intros k. apply absolute_KeyFunc.
Qed.

Lemma serve_register c0 vni enc d : let c := PrepareForCreate c0 in
  Validate c = [] -> admitted c vni -> servable c vni enc ->
  serve d (register c0) =
    (if present d (twin_key c vni) then (d, Err "the address is already held")
     else serve d (create_attempts persistentCreateAttempts c (full (kind_of c) (c_Name c)) (twin_key c vni) enc)).
Proof.
  intros c Hval Ha [(key & Hk & Hpk) Htw Hrv (data & He & Ht)]. unfold register. fold c. rewrite Hval.
  destruct (twinName_of_admitted c vni Ha) as (t & Htn & Habs). destruct (Htw t Htn) as (tk & Htk).
  rewrite Hk, serve_plift, serve_bind. unfold BeginCreate. rewrite Htn, Htk, serve_plift. cbn [serve]. rewrite (Habs _ Htk).
  destruct (present d (twin_key c vni)); [done|]. cbn [serve mret prog_ret].
  unfold Create. rewrite Htn, serve_plift. cbn [Z.eqb negb]. rewrite Hpk, serve_plift, Htk, serve_plift, Hrv. cbn [Z.eqb negb].
  rewrite He, serve_plift, (absolute_KeyFunc _ _ _ Hk), (Habs _ Htk), Ht, serve_plift. done.
Qed.

(** A served request is a run of its calls, so it keeps the invariant. *)
Lemma serve_Inv (p : prog unit) d : Inv d -> safe d p any -> Inv (serve d p).1.
Proof.
  assert (Hc : forall d d' p p', call d p d' p' -> Inv d -> safe d p any -> Inv d' /\ safe d' p' any).
  { intros d1 d2 p1 p2 Hcall Hi Hs. by destruct (call_safe _ _ _ _ Hcall Hi Hs) as (_ & ? & ?). }
  revert d. induction p as [r|k IH|start end_ rev k IH|key k IH|checks key v gets k IH]; intros d Hi Hs; cbn [serve]; [done|..].
  - by destruct (Hc _ _ _ _ (call_ctx d k None) Hi Hs); apply IH.
  - by destruct (Hc _ _ _ _ (call_get d _ _ _ k _ (page_exec_answers d start end_ rev)) Hi Hs); apply IH.
  - by destruct (Hc _ _ _ _ (call_exists d key k) Hi Hs); apply IH.
  - by destruct (Hc _ _ _ _ (call_txn d checks key v gets k) Hi Hs); apply IH.
Qed.

Lemma served_free c0 vni enc d : let c := PrepareForCreate c0 in
  Inv d -> Validate c = [] -> admitted c vni -> servable c vni enc ->
  serve d (register c0) = (put d (full (kind_of c) (c_Name c)) enc, Ok tt) ->
  live d !! full (kind_of c) (c_Name c) = None -> live d !! twin_key c vni = None -> free d c vni.
Proof.
  intros c Hinv Hval Ha Hsv Hs Hkey Htwin. split_and!; [done..|]. intros p Hp n q Hq Hqc.
  pose proof (serve_Inv (register c0) d Hinv (safe_register c0 d)) as Hinv'. rewrite Hs in Hinv'. cbn [fst] in Hinv'.
  destruct Hsv as [_ _ _ (data & He & Ht)]. pose proof (decodes_written c data enc _ (now d + 1) He Ht) as Hd.
  rewrite Hp in *. cbn [kind_of admitted] in *. change (c_Name (CPort p)) with (p_Name p) in *.
  destruct (SamePersistentNIC p q) eqn:E; [|done]. exfalso.
  assert (Hne : n <> p_Name p) by (intros ->; destruct Hq as (v & m & Hl & _); by rewrite Hkey in Hl).
  apply Hne. symmetry. apply (inv_nic _ Hinv' (p_Name p) n (MkPort (meta_rv (now d + 1) (p_Meta p)) (p_Spec p) (p_Status p)) q vni); [| |done..].
  - eexists _, _. split; [rewrite live_put; apply lookup_insert_eq|exact Hd].
  - destruct Hq as (v & m & Hl & Hdq). exists v, m. split; [|done]. rewrite live_put, lookup_insert_ne; [done|].
    intros ?%full_inj. by apply Hne.
Qed.


End serve.

