(* ===== verification/ClaimRun.v ===== *)
(** * A keyspace in memory, and runs of the claim protocol

    An instance of the interfaces of [Claims]: the keyspace is the list of its
    writes, and the codec prints an object as bits.  The runs show the protocol
    at work: the race of a Port and a ServiceVIP for an address, and a second
    Port for a persistent NIC. *)

From S2P Require Import Prelude GoText GoNet AddrText AddrMap Grants ClaimNames Registry Claims ClaimSafety ClaimServe.
Local Open Scope Z_scope.

(** ** The keyspace: its writes, newest first *)

Definition mem := list (string * option string).
Definition mem_now (d : mem) : Z := Z.of_nat (length d).
Fixpoint mem_live (d : mem) : gmap string (string * Z) :=
  match d with
  | [] => ∅
  | (k, Some v) :: d => <[k := (v, mem_now d + 1)]> (mem_live d)
  | (k, None) :: d => delete k (mem_live d)
  end.
Definition mem_past (d : mem) (r : Z) : gmap string (string * Z) := mem_live (drop (length d - Z.to_nat r) d).

(** The first string past every string with the prefix. *)
Fixpoint bump (s : string) : string :=
  match s with
  | EmptyString => EmptyString
  | String c EmptyString => String (chr (code c + 1)) EmptyString
  | String c s => String c (bump s)
  end.

Lemma mem_live_le d k v m : mem_live d !! k = Some (v, m) -> m <= mem_now d.
Proof.
  unfold mem_now. induction d as [|[k' [v'|]] d IH]; cbn [mem_live]; [done|..].
  - intros [[_ [= _ <-]]|[_ Hl%IH]]%lookup_insert_Some; unfold mem_now; cbn [length]; lia.
  - intros [_ Hl%IH]%lookup_delete_Some. cbn [length]. lia.
Qed.

Lemma mem_live_mod d k v m r : mem_live d !! k = Some (v, m) -> m <= r <= mem_now d -> mem_past d r !! k = Some (v, m).
Proof.
  unfold mem_past, mem_now. revert r. induction d as [|[k' o] d IH]; intros r Hl Hr; [done|].
  destruct (decide (r = Z.of_nat (length ((k', o) :: d)))) as [->|Hne].
  { by rewrite Nat2Z.id, Nat.sub_diag. }
  replace (length ((k', o) :: d) - Z.to_nat r)%nat with (S (length d - Z.to_nat r)) by (cbn in *; lia).
  cbn [drop]. destruct o as [v'|]; cbn in Hl.
  - apply lookup_insert_Some in Hl as [[_ [= _ <-]]|[_ Hl]]; [unfold mem_now in *; cbn in *; lia|].
    apply IH; [done|]. cbn in *. lia.
  - apply lookup_delete_Some in Hl as [_ Hl]. apply IH; [done|]. cbn in *. lia.
Qed.

Lemma mem_past_cons d w r : r <= mem_now d -> mem_past (w :: d) r = mem_past d r.
Proof.
  unfold mem_past, mem_now. intros Hr.
  by replace (length (w :: d) - Z.to_nat r)%nat with (S (length d - Z.to_nat r)) by (cbn; lia).
Qed.

Lemma bump_prefix p k : str_last p = Some "."%char -> in_range_of p (bump p) k = has_prefix k p.
Proof.
  unfold in_range_of, has_prefix. revert k. induction p as [|c p IH]; intros k Hp; [done|].
  destruct p as [|c' p].
  - injection Hp as ->. destruct k as [|x k]; [done|]. cbn. destruct (decide ("."%char = x)) as [<-|Hne].
    + by destruct k.
    + change (code (chr (code "." + 1))) with 47. change (code ".") with 46.
      assert (code x <> 46).
      { intros Hx. apply Hne. unfold code in Hx. apply (f_equal Z.to_N) in Hx. rewrite N2Z.id in Hx.
        apply (f_equal Ascii.ascii_of_N) in Hx. rewrite Ascii.ascii_N_embedding in Hx. by rewrite Hx. }
      replace (str_ltb k EmptyString) with false by by destruct k.
      destruct (Z.lt_trichotomy (code x) 46) as [Hl|[He|Hl]]; [|lia|].
      * by rewrite (proj2 (Z.ltb_lt _ _) Hl).
      * rewrite (proj2 (Z.ltb_ge (code x) 46)), (proj2 (Z.ltb_ge (code x) 47)) by lia. by case_if; case_if.
  - destruct k as [|x k]; [done|]. specialize (IH k Hp).
    change (bump (String c (String c' p))) with (String c (bump (String c' p))).
    cbn [str_ltb cut_prefix]. destruct (decide (c = x)) as [<-|Hne].
    + by rewrite Z.ltb_irrefl.
    + assert (code c <> code x).
      { unfold code. intros Hx. apply Hne. apply N2Z.inj in Hx. apply (f_equal Ascii.ascii_of_N) in Hx.
        by rewrite !Ascii.ascii_N_embedding in Hx. }
      destruct (code x <? code c) eqn:E1, (code c <? code x) eqn:E2; to_prop; try done; lia.
Qed.

#[export] Program Instance mem_etcd : Etcd := {|
  db := mem; now := mem_now; live := mem_live; past := mem_past;
  put := fun d k v => (k, Some v) :: d; del := fun d k => (k, None) :: d; range_end := bump;
  live_le := mem_live_le; live_mod := mem_live_mod; range_end_prefix := bump_prefix
|}.
Next Obligation. intros d. unfold mem_past, mem_now. by rewrite Nat2Z.id, Nat.sub_diag. Qed.
Next Obligation. intros d k v. unfold mem_now. cbn. lia. Qed.
Next Obligation. done. Qed.
Next Obligation. intros d k v r Hr. by apply mem_past_cons. Qed.
Next Obligation. intros d k. unfold mem_now. cbn. lia. Qed.
Next Obligation. done. Qed.
Next Obligation. intros d k r Hr. by apply mem_past_cons. Qed.

(** ** The codec *)

#[export] Program Instance ObjectMeta_countable : Countable ObjectMeta :=
  inj_countable' (fun m => (m_Name m, m_Namespace m, m_UID m, m_ResourceVersion m, m_Deleting m, m_Labels m, m_Annotations m, m_Finalizers m))
    (fun '(a, b, c, d, e, f, g, h) => MkMeta a b c d e f g h) _.
Next Obligation. by intros []. Qed.
#[export] Program Instance PortSpec_countable : Countable PortSpec :=
  inj_countable' (fun s => (s_VPCRef s, s_IP s, s_MAC s, s_Node s, s_NodeIP s, s_PodNamespace s, s_PodName s, s_Gateway s, s_Forwarding s, s_Primary s))
    (fun '(a, b, c, d, e, f, g, h, i, j) => MkPortSpec a b c d e f g h i j) _.
Next Obligation. by intros []. Qed.
#[export] Program Instance PortStatus_countable : Countable PortStatus :=
  inj_countable' (fun s => (st_Groups s, st_GroupRefs s, st_GroupPodUID s)) (fun '(a, b, c) => MkPortStatus a b c) _.
Next Obligation. by intros []. Qed.
#[export] Program Instance VIPPort_countable : Countable VIPPort :=
  inj_countable' (fun p => (vp_Name p, vp_Protocol p, vp_Port p)) (fun '(a, b, c) => MkVIPPort a b c) _.
Next Obligation. by intros []. Qed.
#[export] Program Instance VIPBackendPort_countable : Countable VIPBackendPort :=
  inj_countable' (fun p => (bp_Protocol p, bp_Port p, bp_TargetPort p)) (fun '(a, b, c) => MkVIPBackendPort a b c) _.
Next Obligation. by intros []. Qed.
#[export] Program Instance VIPBackend_countable : Countable VIPBackend :=
  inj_countable' (fun p => (bk_IP p, bk_Ports p)) (fun '(a, b) => MkVIPBackend a b) _.
Next Obligation. by intros []. Qed.
#[export] Program Instance VIPSpec_countable : Countable ServiceVIPSpec :=
  inj_countable' (fun p => (v_VPCRef p, v_IP p, v_ServiceRef p, v_Ports p, v_SessionAffinity p)) (fun '(a, b, c, d, e) => MkVIPSpec a b c d e) _.
Next Obligation. by intros []. Qed.
#[export] Instance claim_eq_dec : EqDecision claim. Proof. solve_decision. Defined.
#[export] Program Instance claim_countable : Countable claim :=
  inj_countable'
    (fun c => match c with
              | CPort p => inl (p_Meta p, p_Spec p, p_Status p)
              | CVIP v => inr (v_Meta v, v_Spec v, v_Backends v)
              end)
    (fun x => match x with inl (a, b, c) => CPort (MkPort a b c) | inr (a, b, c) => CVIP (MkVIP a b c) end) _.
Next Obligation. by intros [[]|[]]. Qed.

Fixpoint bits (p : positive) : string :=
  match p with
  | xH => EmptyString
  | xO p => String "0"%char (bits p)
  | xI p => String "1"%char (bits p)
  end.
Fixpoint unbits (s : string) : positive :=
  match s with
  | EmptyString => xH
  | String c s => if decide (c = "0"%char) then xO (unbits s) else xI (unbits s)
  end.
Lemma unbits_bits p : unbits (bits p) = p.
Proof. induction p as [p IH|p IH|]; cbn [bits unbits]; [rewrite decide_False by done|rewrite decide_True by done|done]; by rewrite IH. Qed.

Definition mem_decode (k : kind) (data : string) (rev : Z) : result claim :=
  match decode (unbits data) with
  | Some c => if decide (kind_of c = k) then Ok (with_rv rev c) else Err "wrong kind"
  | None => Err "cannot decode"
  end.
Definition mem_root (k : kind) : string :=
  match k with KPort => "/sdn.cozystack.io/ports" | KVIP => "/sdn.cozystack.io/servicevips" end.

#[export] Program Instance mem_storage : Storage := {|
  Encode := fun c => Ok (bits (encode c)); Decode := mem_decode;
  ToStorage := fun data _ => Ok data; FromStorage := fun data _ => Ok data;
  cfgPrefix := "/registry"; root := mem_root;
  KeyFunc := fun k name => Ok (mem_root k +:+ "/" +:+ name); PrepareKey := fun _ key => Ok key
|}.
Next Obligation. intros c data rev [= <-]. unfold mem_decode. rewrite unbits_bits, countable.decode_encode. by rewrite decide_True. Qed.
Next Obligation. naive_solver. Qed.
Next Obligation. naive_solver. Qed.
Next Obligation. naive_solver. Qed.
Next Obligation. done. Qed.

(** ** Runs *)

Definition meta (name : string) (labels : gmap string string) : ObjectMeta := MkMeta name EmptyString "u1" 0 false labels ∅ [].
Definition vm_port (vni : Z) (ip vm nic : string) : Port :=
  MkPort (meta (PortName vni ip) (<[LabelVMName := vm]> (<[LabelVMNIC := nic]> ∅)))
    (MkPortSpec (MkVPCRef "tenant" "blue") ip "02:00:00:00:00:01" "n1" "192.0.2.1" "tenant" "launcher" false false true) emptyStatus.
Definition pod_port (vni : Z) (ip : string) : Port :=
  MkPort (meta (PortName vni ip) ∅)
    (MkPortSpec (MkVPCRef "tenant" "blue") ip EmptyString "n1" "192.0.2.1" "tenant" "web" false false true) emptyStatus.
Definition svc_vip (vni : Z) (ip : string) : ServiceVIP :=
  MkVIP (meta (ServiceVIPName vni ip) ∅)
    (MkVIPSpec (MkVPCRef "tenant" "blue") ip ("tenant", "web") [MkVIPPort "http" "TCP" 80] EmptyString) [].

Fixpoint serve_all (d : mem) (l : list claim) : mem * list (result unit) :=
  match l with
  | [] => (d, [])
  | c :: l => let '(d, r) := serve d (register c) in let '(d, rs) := serve_all d l in (d, r :: rs)
  end.

(** A Port, the VIP on the same address, a VM's NIC, a second Port for that NIC, the other NIC. *)
Example serve_run :
  let '(d, rs) := serve_all [] [CPort (pod_port 100 "10.0.0.5"); CVIP (svc_vip 100 "10.0.0.5"); CVIP (svc_vip 101 "10.0.0.5");
    CPort (vm_port 100 "10.0.0.6" "vm" "0"); CPort (vm_port 100 "10.0.0.7" "vm" "0"); CPort (vm_port 100 "10.0.0.7" "vm" "1")] in
  rs = [Ok tt; Err "the address is already held"; Ok tt; Ok tt; Err (ErrExists "v100.10-0-0-6"); Ok tt] /\
  (map_to_list (mem_live d)).*1 ≡ₚ ["/registry/sdn.cozystack.io/ports/v100.10-0-0-5"; "/registry/sdn.cozystack.io/servicevips/sv101.10-0-0-5";
    "/registry/sdn.cozystack.io/ports/v100.10-0-0-6"; "/registry/sdn.cozystack.io/ports/v100.10-0-0-7"].
Proof. vm_compute. split; [done|]. apply (bool_decide_unpack _). by vm_compute. Qed.

(** One call of a request, with the answers of [serve]. *)
Definition one (d : mem) (p : prog unit) : mem * prog unit :=
  match p with
  | Ret r => (d, Ret r)
  | CtxErr k => (d, k None)
  | Get start end_ rev k => (d, k (Ok (page_exec (keyspace d rev) start end_ (now d))))
  | Exists key k => (d, k (Ok (present d key)))
  | Txn checks key v gets k =>
      (commit d checks key v,
       k (Ok (if forallb (cmp_holds d) checks then MkTxn true [] else MkTxn false (present d <$> gets))))
  end.
Definition turn (s : mem * list (prog unit)) (i : nat) : mem * list (prog unit) :=
  match s.2 !! i with Some p => let '(d, p) := one s.1 p in (d, <[i := p]> s.2) | None => s end.

Lemma turn_steps s i : rtc step s (turn s i).
Proof.
  destruct s as [d ps]. unfold turn. cbn [fst snd]. destruct (ps !! i) as [p|] eqn:E; [|done].
  pose proof (lookup_lt_Some _ _ _ E) as Hi. rewrite <-(take_drop_middle ps i p E) at 1.
  assert (Hcall : forall d' p', call d p d' p' -> rtc step (d, take i ps ++ p :: drop (S i) ps) (d', <[i := p']> ps)).
  { intros d' p' Hc. rewrite insert_take_drop by done. by apply rtc_once, step_call. }
  destruct p as [r|k|start end_ rev k|key k|checks key v gets k]; cbn [one]; [|apply Hcall..].
  - by rewrite take_drop_middle, list_insert_id.
  - apply call_ctx.
  - apply call_get, page_exec_answers.
  - apply call_exists.
  - apply call_txn.
Qed.

Lemma turns_steps l s : rtc step s (fold_left turn l s).
Proof. revert s; induction l as [|i l IH]; intros s; cbn; [done|]. etrans; [apply turn_steps|apply IH]. Qed.

(** A ServiceVIP and a Port race for an address: both find it free, the Port commits first. *)
Definition race : mem * list (prog unit) :=
  fold_left turn [0; 1; 1; 1; 0; 0]%nat ([], [register (CVIP (svc_vip 100 "10.0.0.5")); register (CPort (pod_port 100 "10.0.0.5"))]).

Definition outcome (p : prog unit) : option (result unit) := match p with Ret r => Some r | _ => None end.

Lemma claims_exclusive_witness :
  rtc step ([], []) race /\
  outcome <$> race.2 = [Some (Err (ErrExists "/registry/sdn.cozystack.io/servicevips/sv100.10-0-0-5")); Some (Ok tt)] /\
  present race.1 "/registry/sdn.cozystack.io/ports/v100.10-0-0-5" = true /\
  forall k k' n n' c c' vni addr,
    holds race.1 k n c vni addr -> holds race.1 k' n' c' vni addr -> k = k' /\ n = n'.
Proof.
  assert (Hr : rtc step ([], []) race).
  { eapply rtc_l; [exact (step_request (nil : @db mem_etcd) [] (CPort (pod_port 100 "10.0.0.5")))|].
    eapply rtc_l; [exact (step_request (nil : @db mem_etcd) _ (CVIP (svc_vip 100 "10.0.0.5")))|]. apply turns_steps. }
  split; [exact Hr|]. split; [by vm_compute|]. split; [by vm_compute|].
  apply (claims_exclusive (nil : @db mem_etcd) race.1 race.2); [reflexivity|]. by destruct race.
Defined.

