(* ===== verification/KernelMap.v ===== *)
(** * Kernel maps and the full-state sync (datapath/securitygroup.go: [putDesired], [syncMap])

    The agent owns a set of pinned kernel maps.  A pass over them reads, deletes and puts one
    entry at a time; any call can fail, Go and the kernel choose the iteration orders, and
    the datapath reads the maps between any two calls.  [M] keeps all of that: the effects
    of the calls made before a failure stay, and every kernel state a packet may have seen
    is recorded. *)

From S2P Require Import Prelude.

(** ** The world a pass runs in

    [fault n] is the error the [n]th call meets, [order n] the order the [n]th iteration
    delivers a map in.  Only an absent key is reported as [ErrKeyNotExist]. *)

Definition ErrKeyNotExist : string := "key does not exist".

Class Runtime := {
  fault : nat -> option string;
  order : forall {K V : Type} `{Countable K}, nat -> gmap K V -> list (K * V);
  fault_io : forall n, fault n <> Some ErrKeyNotExist;
  order_perm : forall {K V : Type} `{Countable K} n (m : gmap K V), order n m ≡ₚ map_to_list m
}.

(** No call fails. *)
Definition reliable `{Runtime} : Prop := forall n, fault n = None.

Record world (S : Type) := MkWorld { clock : nat; kern : S; hist : list S }.
Arguments MkWorld {_} _ _ _.
Arguments clock {_} _.
Arguments kern {_} _.
Arguments hist {_} _.

(** State and errors; the state survives an error. *)
Definition M (S A : Type) : Type := world S -> world S * result A.

#[export] Instance M_ret S : MRet (M S) := fun A a w => (w, Ok a).
#[export] Instance M_bind S : MBind (M S) := fun A B f m w =>
  match m w with
  | (w, Ok a) => f a w
  | (w, Err e) => (w, Err e)
  end.

Definition fail {S A} (e : string) : M S A := fun w => (w, Err e).

(** A pure computation that may fail. *)
Definition lift {S A} (r : result A) : M S A := fun w => (w, r).

(** [for ... { if err := f(x); err != nil { return err } }]. *)
Fixpoint forM {S A} (f : A -> M S unit) (l : list A) : M S unit :=
  match l with
  | [] => mret tt
  | x :: l => _ ← f x; forM f l
  end.

(** A loop that carries an accumulator. *)
Fixpoint foldlM {S A B} (f : B -> A -> M S B) (acc : B) (l : list A) : M S B :=
  match l with
  | [] => mret acc
  | x :: l => acc ← f acc x; foldlM f acc l
  end.

(** Run a step and keep its error as a value. *)
Definition attempt {S A} (m : M S A) : M S (result A) := fun w => let '(w, r) := m w in (w, Ok r).

(** ** One kernel map among several *)

Record Lens (S T : Type) := MkLens { view : S -> T; update : T -> S -> S }.
Arguments MkLens {_ _} _ _.
Arguments view {_ _} _ _.
Arguments update {_ _} _ _ _.

Class LensLaws {S T} (L : Lens S T) := {
  view_update : forall t s, view L (update L t s) = t;
  update_view : forall s, update L (view L s) s = s;
  update_update : forall t t' s, update L t (update L t' s) = update L t s
}.

Definition lens_id T : Lens T T := MkLens (fun s => s) (fun t _ => t).
#[export] Instance lens_id_laws T : LensLaws (lens_id T).
Proof. by split. Qed.

Section Ops.
Context `{Runtime} {S : Type}.

(** One call: [None] if it goes through. *)
Definition call : M S unit := fun w =>
  (MkWorld (Datatypes.S (clock w)) (kern w) (hist w),
   match fault (clock w) with Some e => Err e | None => Ok tt end).

Definition write (s : S) : M S unit := fun w => (MkWorld (clock w) s (s :: hist w), Ok tt).
Definition read : M S S := fun w => (w, Ok (kern w)).

Definition modify (f : S -> S) : M S unit := s ← read; write (f s).

(** The order the next iteration uses. *)
Definition arrange {K V} `{Countable K} (m : gmap K V) : M S (list (K * V)) := fun w =>
  (MkWorld (Datatypes.S (clock w)) (kern w) (hist w), Ok (order (clock w) m)).

Context {K V : Type} `{Countable K} (L : Lens S (gmap K V)).

(** [Map.Put] on a hash or LPM map with [cap] entries. *)
Definition Put (cap : nat) (k : K) (v : V) : M S unit :=
  _ ← call;
  s ← read;
  if decide (view L s !! k = None /\ (cap <= size (view L s))%nat) then fail "E2BIG"
  else write (update L (<[k:=v]> (view L s)) s).

(** [Map.Put] on an array map: every index is present. *)
Definition PutArray (k : K) (v : V) : M S unit :=
  _ ← call;
  s ← read;
  write (update L (<[k:=v]> (view L s)) s).

(** [Map.Delete]. *)
Definition Delete (k : K) : M S unit :=
  _ ← call;
  s ← read;
  if decide (view L s !! k = None) then fail ErrKeyNotExist
  else write (update L (delete k (view L s)) s).

(** [if err := m.Delete(k); err != nil && !isNotExist(err) { return err }]. *)
Definition DeleteIfExists (k : K) : M S unit := fun w =>
  match Delete k w with
  | (w, Err e) => if decide (e = ErrKeyNotExist) then (w, Ok tt) else (w, Err e)
  | r => r
  end.

(** [Map.Iterate] run to the end, with the final [it.Err()]. *)
Definition Iterate : M S (list (K * V)) :=
  _ ← call;
  s ← read;
  arrange (view L s).
End Ops.

(** [putDesired], datapath/securitygroup.go:343-349. *)
Definition putDesired {K V} `{Countable K} (cap : nat) (want : gmap K V) (key : K) (value : V) : result (gmap K V) :=
  if decide (want !! key = None /\ (cap <= size want)%nat) then Err "desired state exceeds map capacity"
  else Ok (<[key:=value]> want).

(** [syncMap], datapath/securitygroup.go:351-385. *)
Definition syncMap `{Runtime} {S K V : Type} `{Countable K} `{EqDecision V}
    (L : Lens S (gmap K V)) (cap : nat) (want : gmap K V) : M S unit :=
  if decide (cap < size want)%nat then fail "desired state exceeds map capacity"
  else
    entries ← Iterate L;
    let stale := (filter (fun e => want !! e.1 = None) entries).*1 in
    let unchanged := (filter (fun e => want !! e.1 = Some e.2) entries).*1 in
    _ ← forM (DeleteIfExists L) stale;
    desired ← arrange want;
    forM (fun '(k, v) => if decide (k ∈ unchanged) then mret tt else Put L cap k v) desired.

(** ** Reasoning about a pass

    [wp m I Q s]: run from the kernel state [s], [m] ends in a result and state that satisfy
    [Q], and every state it wrote on the way satisfies [I]. *)
Definition wp {S A} (m : M S A) (I : S -> Prop) (Q : result A -> S -> Prop) (s : S) : Prop :=
  forall w, kern w = s ->
    Q (m w).2 (kern (m w).1) /\ exists new, hist (m w).1 = new ++ hist w /\ Forall I new.

Section Wp.
Context `{Runtime} {S : Type}.
Implicit Types (I : S -> Prop) (s : S).

Lemma wp_mono {A} (m : M S A) I Q I' (Q' : result A -> S -> Prop) s :
  wp m I Q s -> (forall s, I s -> I' s) -> (forall r s, Q r s -> Q' r s) -> wp m I' Q' s.
Proof.
  intros Hw HI HQ w Hk. destruct (Hw w Hk) as (Hq & new & E & F).
  split; [auto|]. exists new. split; [done|]. eapply Forall_impl; eauto.
Qed.

Lemma wp_ret {A} (a : A) I (Q : result A -> S -> Prop) s : Q (Ok a) s -> wp (mret a) I Q s.
Proof. intros Hq w <-. split; [done|]. by exists []. Qed.

Lemma wp_lift {A} (r : result A) I (Q : result A -> S -> Prop) s : Q r s -> wp (lift r) I Q s.
Proof. intros Hq w <-. split; [done|]. by exists []. Qed.

Lemma wp_fail {A} e I (Q : result A -> S -> Prop) s : Q (Err e) s -> wp (fail e) I Q s.
Proof. intros Hq w <-. split; [done|]. by exists []. Qed.

Lemma wp_bind {A B} (m : M S A) (f : A -> M S B) I Q s :
  wp m I (fun r s' => match r with Ok a => wp (f a) I Q s' | Err e => Q (Err e) s' end) s ->
  wp (m ≫= f) I Q s.
Proof.
  intros Hm w Hk. destruct (Hm w Hk) as (Hq & new & E & F). unfold mbind, M_bind.
  destruct (m w) as [w1 [a|e]]; cbn in *.
  - destruct (Hq w1 eq_refl) as (Hq' & new' & E' & F'). split; [done|].
    exists (new' ++ new). rewrite E', E, app_assoc. split; [done|]. by apply Forall_app.
  - split; [done|]. by exists new.
Qed.

Lemma wp_call I (Q : result unit -> S -> Prop) s :
  Q (Ok tt) s -> (forall n e, fault n = Some e -> Q (Err e) s) -> wp call I Q s.
Proof.
  intros Hok Herr w <-. split; [|by exists []]. cbn. destruct (fault (clock w)) eqn:E; eauto.
Qed.

Lemma wp_write s' I (Q : result unit -> S -> Prop) s : I s' -> Q (Ok tt) s' -> wp (write s') I Q s.
Proof. intros HI Hq w <-. split; [done|]. exists [s']. auto using Forall_cons, Forall_nil. Qed.

Lemma wp_read I (Q : result S -> S -> Prop) s : Q (Ok s) s -> wp read I Q s.
Proof. intros Hq w <-. split; [done|]. by exists []. Qed.

Lemma wp_arrange {K V} `{Countable K} (m : gmap K V) I (Q : result (list (K * V)) -> S -> Prop) s :
  (forall l, l ≡ₚ map_to_list m -> Q (Ok l) s) -> wp (arrange m) I Q s.
Proof. intros Hq w <-. split; [|by exists []]. cbn. apply Hq, order_perm. Qed.

(** The loop rule; the invariant sees the elements already visited. *)
Lemma wp_forM {A} (f : A -> M S unit) l (Inv : list A -> S -> Prop) I Q s :
  Inv [] s ->
  (forall pre x post s, l = pre ++ x :: post -> Inv pre s ->
    wp (f x) I (fun r s' => match r with Ok _ => Inv (pre ++ [x]) s' | Err e => Q (Err e) s' end) s) ->
  (forall s, Inv l s -> Q (Ok tt) s) ->
  wp (forM f l) I Q s.
Proof.
  intros H0 Hs HQ. cut (forall post pre s, l = pre ++ post -> Inv pre s -> wp (forM f post) I Q s).
  { intros C. exact (C l [] s eq_refl H0). }
  clear s H0. induction post as [|x post IH]; intros pre s E Hi; cbn.
  - apply wp_ret, HQ. by rewrite E, app_nil_r.
  - apply wp_bind. eapply wp_mono; [by eapply Hs|done|]. intros [[]|e] s'; [|done].
    intros Hi'. apply (IH (pre ++ [x])); [by rewrite <-app_assoc|done].
Qed.

Lemma wp_foldlM {A B} (f : B -> A -> M S B) l b0 (Inv : list A -> B -> S -> Prop) I Q s :
  Inv [] b0 s ->
  (forall pre x post b s, l = pre ++ x :: post -> Inv pre b s ->
    wp (f b x) I (fun r s' => match r with Ok b' => Inv (pre ++ [x]) b' s' | Err e => Q (Err e) s' end) s) ->
  (forall b s, Inv l b s -> Q (Ok b) s) ->
  wp (foldlM f b0 l) I Q s.
Proof.
  intros H0 Hs HQ. cut (forall post pre b s, l = pre ++ post -> Inv pre b s -> wp (foldlM f b post) I Q s).
  { intros C. exact (C l [] b0 s eq_refl H0). }
  clear s b0 H0. induction post as [|x post IH]; intros pre b s E Hi; cbn.
  - apply wp_ret, HQ. by rewrite E, app_nil_r.
  - apply wp_bind. eapply wp_mono; [by eapply Hs|done|]. intros [b'|e] s'; [|done].
    intros Hi'. apply (IH (pre ++ [x])); [by rewrite <-app_assoc|done].
Qed.

Lemma wp_modify f I (Q : result unit -> S -> Prop) s : I (f s) -> Q (Ok tt) (f s) -> wp (modify f) I Q s.
Proof. intros HI Hq. apply wp_bind, wp_read. by apply wp_write. Qed.

Lemma wp_attempt {A} (m : M S A) I (Q : result (result A) -> S -> Prop) s :
  wp m I (fun r s' => Q (Ok r) s') s -> wp (attempt m) I Q s.
Proof.
  intros Hm w Hk. destruct (Hm w Hk) as (Hq & Hh). unfold attempt. by destruct (m w) as [w' r].
Qed.

Section WpMap.
Context {K V : Type} `{Countable K} (L : Lens S (gmap K V)).

Lemma wp_Put cap k v I Q s :
  (forall n e, fault n = Some e -> Q (Err e) s) ->
  (view L s !! k = None -> (cap <= size (view L s))%nat -> Q (Err "E2BIG") s) ->
  (let s' := update L (<[k:=v]> (view L s)) s in I s' /\ Q (Ok tt) s') ->
  wp (Put L cap k v) I Q s.
Proof.
  intros Hf Hb [HI Hq]. apply wp_bind, wp_call; [|done]. apply wp_bind, wp_read.
  case_decide as Hd; [apply wp_fail; apply Hb; tauto|by apply wp_write].
Qed.

Lemma wp_PutArray k v I Q s :
  (forall n e, fault n = Some e -> Q (Err e) s) ->
  (let s' := update L (<[k:=v]> (view L s)) s in I s' /\ Q (Ok tt) s') ->
  wp (PutArray L k v) I Q s.
Proof.
  intros Hf [HI Hq]. apply wp_bind, wp_call; [|done]. apply wp_bind, wp_read. by apply wp_write.
Qed.

Lemma wp_DeleteIfExists k I (Q : result unit -> S -> Prop) s :
  (forall n e, fault n = Some e -> Q (Err e) s) ->
  (view L s !! k = None -> Q (Ok tt) s) ->
  (forall v, view L s !! k = Some v -> let s' := update L (delete k (view L s)) s in I s' /\ Q (Ok tt) s') ->
  wp (DeleteIfExists L k) I Q s.
Proof.
  intros Hf Hn Hs.
  assert (wp (Delete L k) I (fun r s' => match r with
    | Err e => if decide (e = ErrKeyNotExist) then Q (Ok tt) s' else Q (Err e) s' | r => Q r s' end) s) as Hw.
  { apply wp_bind, wp_call.
    - apply wp_bind, wp_read. case_decide as Hd.
      + apply wp_fail. rewrite decide_True by done. auto.
      + destruct (view L s !! k) as [v|] eqn:E; [|done]. destruct (Hs v eq_refl). by apply wp_write.
    - intros n e E. case_decide as He; [subst e; by destruct (fault_io n)|eauto]. }
  intros w Hk. destruct (Hw w Hk) as [Hq Hh]. unfold DeleteIfExists.
  destruct (Delete L k w) as [w' [[]|e]]; cbn in *; [done|]. case_decide; done.
Qed.

Lemma wp_Iterate I (Q : result (list (K * V)) -> S -> Prop) s :
  (forall n e, fault n = Some e -> Q (Err e) s) ->
  (forall l, l ≡ₚ map_to_list (view L s) -> Q (Ok l) s) ->
  wp (Iterate L) I Q s.
Proof. intros Hf Hl. apply wp_bind, wp_call; [|done]. apply wp_bind, wp_read. by apply wp_arrange. Qed.
End WpMap.
End Wp.

(** ** The sync *)

(** Each entry is still the old one or already the desired one. *)
Definition between {K V} `{Countable K} (old want m : gmap K V) : Prop :=
  forall k, m !! k = old !! k \/ m !! k = want !! k.

(** Why a sync can fail: a call failed, or the desired state does not fit. *)
Definition sync_error `{Runtime} {K V} `{Countable K} (cap : nat) (want : gmap K V) (e : string) : Prop :=
  (exists n, fault n = Some e) \/ (cap < size want)%nat.

Section Sync.
Context `{Runtime} {S K V : Type} `{Countable K} `{EqDecision V}.
Context (L : Lens S (gmap K V)) `{!LensLaws L} (cap : nat) (want : gmap K V).

(** The map while stale keys are pruned and while desired ones are put. *)
Definition pruned (old : gmap K V) (done : list K) : gmap K V :=
  filter (fun e => e.1 ∉ done) old.

Definition putting (old : gmap K V) (done : list (K * V)) (m : gmap K V) : Prop :=
  forall k, m !! k = if decide (k ∈ done.*1) then want !! k
                     else if decide (want !! k = None) then None else old !! k.

Lemma pruned_lookup old done k :
  pruned old done !! k = if decide (k ∈ done) then None else old !! k.
Proof.
  unfold pruned. case_decide as Hd.
  - apply map_lookup_filter_None. right. cbn. auto.
  - destruct (old !! k) as [v|] eqn:E.
    + by apply map_lookup_filter_Some.
    + apply map_lookup_filter_None. by left.
Qed.

(** The keys an iteration finds stale and unchanged. *)
Lemma filtered_keys (old : gmap K V) l (P : K * V -> Prop) `{!forall x, Decision (P x)} k :
  l ≡ₚ map_to_list old -> k ∈ (filter P l).*1 <-> exists v, old !! k = Some v /\ P (k, v).
Proof.
  intros Hl. rewrite list_elem_of_fmap. split.
  - intros ([k' v] & -> & Hf). apply list_elem_of_filter in Hf as [HP Hin]. exists v. split; [|done].
    rewrite Hl in Hin. by apply elem_of_map_to_list.
  - intros (v & Hv & HP). exists (k, v). split; [done|]. apply list_elem_of_filter. split; [done|].
    rewrite Hl. by apply elem_of_map_to_list.
Qed.

Lemma putting_between old done m : putting old done m -> between old want m.
Proof. intros Hm k. rewrite (Hm k). repeat case_decide; auto. Qed.

(** A desired entry that is not there yet always fits. *)
Lemma putting_fits old done m k : putting old done m -> is_Some (want !! k) -> m !! k = None ->
  (size want <= cap)%nat -> (size m < cap)%nat.
Proof.
  intros Hm Hk Hn Hc. enough (size m < size want)%nat by lia.
  rewrite <-!size_dom. apply subset_size. split.
  - intros j. rewrite !elem_of_dom. intros [v Hv]. rewrite (Hm j) in Hv.
    repeat case_decide; [by exists v|done|by destruct (want !! j)].
  - intros Hsub. apply elem_of_dom in Hk. apply Hsub in Hk. rewrite elem_of_dom, Hn in Hk. by destruct Hk.
Qed.

Lemma putting_done old l m : l ≡ₚ map_to_list want -> putting old l m -> m = want.
Proof.
  intros Hl Hm. apply map_eq. intros k. rewrite (Hm k). case_decide as Hd; [done|].
  case_decide as Hw; [done|]. contradict Hd. destruct (want !! k) as [v|] eqn:E; [|done].
  rewrite Hl. apply list_elem_of_fmap. exists (k, v). split; [done|]. by apply elem_of_map_to_list.
Qed.

Lemma putting_step old pre k v m : putting old pre m -> want !! k = Some v ->
  putting old (pre ++ [(k, v)]) (<[k:=v]> m).
Proof.
  intros Hm Hk j. rewrite fmap_app. cbn. destruct (decide (j = k)) as [->|Hne].
  - rewrite lookup_insert_eq, decide_True by set_solver. done.
  - rewrite lookup_insert_ne by done. rewrite (Hm j).
    destruct (decide (j ∈ pre.*1)); [rewrite decide_True by set_solver; done|].
    by rewrite (decide_False (P := j ∈ _)) by set_solver.
Qed.

Lemma pruned_nil old : pruned old [] = old.
Proof. clear dependent L. apply map_filter_id. intros k v _. cbn. set_solver. Qed.

Lemma pruned_snoc old pre k : pruned old (pre ++ [k]) = delete k (pruned old pre).
Proof.
  clear dependent L. apply map_eq. intros j. rewrite pruned_lookup. destruct (decide (j = k)) as [->|Hne].
  - rewrite lookup_delete_eq, decide_True by set_solver. done.
  - rewrite lookup_delete_ne, pruned_lookup by done. repeat case_decide; set_solver.
Qed.

Section Phases.
Context (I : S -> Prop) (Q : result unit -> S -> Prop) (s : S).
Let old := view L s.
Hypothesis HI : forall m, between old want m -> m <> old -> I (update L m s).
Hypothesis Herr : forall m n e, between old want m -> fault n = Some e -> Q (Err e) (update L m s).

Lemma wp_prune (stale : list K) :
  (forall k, k ∈ stale <-> is_Some (old !! k) /\ want !! k = None) ->
  Q (Ok tt) (update L (pruned old stale) s) ->
  wp (forM (DeleteIfExists L) stale) I Q s.
Proof.
  intros Hst Hq.
  assert (forall pre post, stale = pre ++ post -> between old want (pruned old pre)) as Hb.
  { intros pre post E j. rewrite pruned_lookup. case_decide as Hj; [right|by left].
    symmetry. apply Hst. rewrite E. set_solver. }
  apply (wp_forM _ _ (fun pre s' => s' = update L (pruned old pre) s)).
  - unfold old. by rewrite pruned_nil, update_view.
  - intros pre k post ? E ->. apply wp_DeleteIfExists; rewrite ?view_update, ?update_update.
    + intros n e He. eapply Herr; [by eapply Hb|done].
    + intros Hk. by rewrite pruned_snoc, delete_id.
    + intros v Hv. cbv zeta. rewrite <-pruned_snoc. split; [|done].
      assert (k ∈ stale) as Hks by (rewrite E; set_solver). apply Hst in Hks as [[v' Ho] _].
      apply HI; [apply (Hb _ post); by rewrite <-app_assoc|].
      intros Eo. rewrite <-Eo, pruned_lookup, decide_True in Ho by set_solver. done.
  - by intros ? ->.
Qed.

Lemma wp_put_all (unch : list K) l m0 :
  (forall k, k ∈ unch <-> exists v, old !! k = Some v /\ want !! k = Some v) ->
  l ≡ₚ map_to_list want -> (size want <= cap)%nat -> putting old [] m0 ->
  Q (Ok tt) (update L want s) ->
  wp (forM (fun '(k, v) => if decide (k ∈ unch) then mret tt else Put L cap k v) l) I Q (update L m0 s).
Proof.
  intros Hun Hl Hc Hp0 Hq. apply (wp_forM _ _ (fun pre s' => exists m, s' = update L m s /\ putting old pre m)).
  - eauto.
  - intros pre [k v] post ? E (m & -> & Hm).
    assert (want !! k = Some v) as Hk by (apply elem_of_map_to_list; rewrite <-Hl, E; set_solver).
    pose proof (putting_step _ _ _ _ _ Hm Hk) as Hm'. case_decide as Hu.
    + apply wp_ret. exists m. split; [done|]. apply Hun in Hu as (v' & Ho & Hw).
      assert (v' = v) as -> by congruence.
      replace m with (<[k:=v]> m); [done|]. apply insert_id.
      rewrite (Hm k), Hk. repeat case_decide; congruence.
    + apply wp_Put; rewrite ?view_update, ?update_update.
      * intros n e He. eapply Herr; [by eapply putting_between|done].
      * intros Hn Hsz. pose proof (putting_fits _ _ _ _ Hm (mk_is_Some _ _ Hk) Hn). lia.
      * cbv zeta. split; [|eauto]. apply HI; [by eapply putting_between|].
        intros Eo. apply Hu, Hun. exists v. split; [|done]. rewrite <-Eo. apply lookup_insert_eq.
  - intros ? (m & -> & Hm). by rewrite (putting_done _ _ _ Hl Hm).
Qed.

(** Puts of the entries that may differ, where the caller did not check that they fit. *)
Lemma wp_put_list l m0 :
  (forall k v, (k, v) ∈ l -> want !! k = Some v) ->
  (forall k v, want !! k = Some v -> old !! k = Some v \/ k ∈ l.*1) ->
  putting old [] m0 -> (forall m, between old want m -> I (update L m s)) ->
  (forall m, between old want m -> (cap < size want)%nat -> Q (Err "E2BIG") (update L m s)) ->
  Q (Ok tt) (update L want s) ->
  wp (forM (fun '(k, v) => Put L cap k v) l) I Q (update L m0 s).
Proof.
  intros Hl Hall Hp0 HI' Hbig Hq. apply (wp_forM _ _ (fun pre s' => exists m, s' = update L m s /\ putting old pre m)).
  - eauto.
  - intros pre [k v] post ? E (m & -> & Hm).
    assert (want !! k = Some v) as Hk by (apply Hl; rewrite E; set_solver).
    pose proof (putting_step _ _ _ _ _ Hm Hk) as Hm'. apply wp_Put; rewrite ?view_update, ?update_update.
    + intros n e He. eapply Herr; [by eapply putting_between|done].
    + intros Hn Hsz. apply Hbig; [by eapply putting_between|].
      destruct (decide (size want <= cap)%nat) as [Hc|]; [|lia].
      pose proof (putting_fits _ _ _ _ Hm (mk_is_Some _ _ Hk) Hn Hc). lia.
    + cbv zeta. split; [|eauto]. apply HI'. by eapply putting_between.
  - intros ? (m & -> & Hm). replace m with want; [done|]. apply map_eq. intros k. rewrite (Hm k).
    case_decide as Hd; [done|]. case_decide as Hw; [done|].
    destruct (want !! k) as [v|] eqn:E; [|done]. destruct (Hall k v E) as [->|?]; done.
Qed.
End Phases.

(** What a sync guarantees: every state on the way, and the final one after an error, has
    each entry old or desired; writes happen only where something differs; success means
    the map is exactly [want] and nothing else changed. *)
Lemma wp_syncMap I (Q : result unit -> S -> Prop) s :
  (forall m, between (view L s) want m -> m <> view L s -> I (update L m s)) ->
  (forall m e, between (view L s) want m -> sync_error cap want e -> Q (Err e) (update L m s)) ->
  ((size want <= cap)%nat -> Q (Ok tt) (update L want s)) ->
  wp (syncMap L cap want) I Q s.
Proof.
  intros HI Herr Hok. unfold syncMap.
  assert (forall m n e, between (view L s) want m -> fault n = Some e -> Q (Err e) (update L m s)) as Hf.
  { intros m n e Hb He. apply Herr; [done|left; eauto]. }
  assert (between (view L s) want (view L s)) as Hb0 by (intros k; auto).
  case_decide as Hcap.
  { apply wp_fail. pose proof (Herr _ "desired state exceeds map capacity"%string Hb0 (or_intror Hcap)) as E.
    by rewrite update_view in E. }
  apply wp_bind, wp_Iterate; [intros n e He; pose proof (Hf _ _ _ Hb0 He) as E; by rewrite update_view in E|].
  intros l Hl. apply wp_bind, wp_prune; [done|done| |].
  - intros k. rewrite (filtered_keys _ _ _ _ Hl). cbn. unfold is_Some. clear. naive_solver.
  - apply wp_bind, wp_arrange. intros d Hd. apply wp_put_all; [done|done| |done|lia| |apply Hok; lia].
    + intros k. by rewrite (filtered_keys _ _ _ _ Hl).
    + intros k. rewrite pruned_lookup. cbn. rewrite (decide_False (P := k ∈ [])) by set_solver.
      case_decide as Hk; rewrite (filtered_keys _ _ _ _ Hl) in Hk; cbn in Hk.
      * destruct Hk as (v & _ & Hw). by rewrite decide_True.
      * case_decide; [|done]. destruct (view L s !! k) eqn:E; [|done]. contradict Hk. eauto.
Qed.
End Sync.

(** A pass over one part of a shared map: the entries of the others stay. *)
Section Partition.
Context `{Runtime} {S K V : Type} `{Countable K} `{EqDecision V}.
Context (L : Lens S (gmap K V)) `{!LensLaws L} (cap : nat).
Context (mine : K * V -> Prop) `{!forall e, Decision (mine e)}.

Definition others (old : gmap K V) : gmap K V := filter (fun e => ~ mine e) old.
Definition merged (old want : gmap K V) : gmap K V := want ∪ others old.

Lemma merged_stale old want l k : l ≡ₚ map_to_list old ->
  k ∈ (filter (fun e => mine e /\ want !! e.1 = None) l).*1 <-> is_Some (old !! k) /\ merged old want !! k = None.
Proof.
  intros Hl. rewrite (filtered_keys _ _ _ _ Hl). unfold merged, others. cbn.
  rewrite lookup_union_None, map_lookup_filter_None. cbn. split.
  - intros (v & Ho & Hm & Hw). split; [by exists v|]. split; [done|]. right. intros v' Hv'. assert (v' = v) as -> by congruence. tauto.
  - intros ([v Ho] & Hw & [Hn|Hx]); [congruence|]. exists v. split_and!; [done| |done].
    destruct (decide (mine (k, v))); [done|]. destruct (Hx v Ho). done.
Qed.

Lemma merged_putting old want l : l ≡ₚ map_to_list old ->
  putting (merged old want) old [] (pruned old (filter (fun e => mine e /\ want !! e.1 = None) l).*1).
Proof.
  intros Hl k. rewrite pruned_lookup. cbn. rewrite (decide_False (P := k ∈ [])) by set_solver.
  case_decide as Hk; rewrite (merged_stale _ _ _ _ Hl) in Hk.
  - destruct Hk as [_ Hk]. by rewrite decide_True.
  - case_decide; [|done]. destruct (old !! k) eqn:E; [|done]. contradict Hk. split; [by eexists|done].
Qed.

(** The entries of the others are untouched. *)
Lemma merged_others old want k v : want ##ₘ others old -> old !! k = Some v -> ~ mine (k, v) ->
  want !! k = None /\ merged old want !! k = Some v.
Proof.
  intros Hd Hk Hm. assert (others old !! k = Some v) as Ho by by apply map_lookup_filter_Some.
  assert (want !! k = None) as Hw by (by eapply map_disjoint_Some_r). split; [done|].
  unfold merged. by rewrite lookup_union_r.
Qed.

(** The pass: the stale entries of the part are deleted, then [puts], the desired entries that
    may differ, are written.  Every state on the way and after an error has each entry old or
    merged. *)
Lemma wp_merge want puts l I (Q : result unit -> S -> Prop) s :
  l ≡ₚ map_to_list (view L s) ->
  (forall k v, puts !! k = Some v -> want !! k = Some v) ->
  (forall k v, want !! k = Some v -> view L s !! k = Some v \/ is_Some (puts !! k)) ->
  (forall m, between (view L s) (merged (view L s) want) m -> I (update L m s) /\ forall e, Q (Err e) (update L m s)) ->
  Q (Ok tt) (update L (merged (view L s) want) s) ->
  wp (_ ← forM (DeleteIfExists L) (filter (fun e => mine e /\ want !! e.1 = None) l).*1;
      entries ← arrange puts;
      forM (fun '(k, v) => Put L cap k v) entries) I Q s.
Proof.
  intros Hl Hp Hw Hb Hq. set (old := view L s) in *. apply wp_bind, (wp_prune L (merged old want)).
  - intros m Hm _. by apply Hb.
  - intros m n e Hm _. by apply Hb.
  - intros k. by apply merged_stale.
  - apply wp_bind, wp_arrange. intros entries He. apply (wp_put_list L cap (merged old want)).
    + intros m Hm _. by apply Hb.
    + intros m n e Hm _. by apply Hb.
    + intros k v Hk. rewrite He in Hk. apply elem_of_map_to_list, Hp in Hk. by apply lookup_union_Some_l.
    + intros k v [Hk|[Hn Hk]]%lookup_union_Some_raw.
      * destruct (Hw k v Hk) as [?|[v' Hv]]; [by left|right]. apply list_elem_of_fmap. exists (k, v').
        split; [done|]. rewrite He. by apply elem_of_map_to_list.
      * left. by apply map_lookup_filter_Some in Hk as [? _].
    + by apply merged_putting.
    + intros m Hm. by apply Hb.
    + intros m Hm _. by apply Hb.
    + done.
Qed.
End Partition.

(** A sync of a state computed first; the computation may fail before any call. *)
Section Step.
Context `{Runtime} {S K V : Type} `{Countable K} `{EqDecision V}.
Context (L : Lens S (gmap K V)) `{!LensLaws L} (cap : nat) (w : result (gmap K V)).

Lemma wp_sync_step I (Q : result unit -> S -> Prop) s :
  (forall m, I (update L m s)) -> (forall m e, Q (Err e) (update L m s)) ->
  (forall want, w = Ok want -> Q (Ok tt) (update L want s)) ->
  wp (want ← lift w; syncMap L cap want) I Q s.
Proof.
  intros HI He Hq. apply wp_bind, wp_lift. destruct w as [want|e].
  - apply (wp_syncMap L); auto.
  - pose proof (He (view L s) e) as E. by rewrite update_view in E.
Qed.

Lemma wp_sync_total want I (Q : result unit -> S -> Prop) s :
  reliable -> w = Ok want -> (size want <= cap)%nat -> (forall m, I (update L m s)) ->
  Q (Ok tt) (update L want s) ->
  wp (want ← lift w; syncMap L cap want) I Q s.
Proof.
  intros Hr -> Hc HI Hq. apply wp_bind, wp_lift. apply (wp_syncMap L); [auto| |auto].
  intros m e _ [[n Hn]|Hn]; [by rewrite Hr in Hn|lia].
Qed.

Lemma sync_step_Ok (wo : world S) :
  ((want ← lift w; syncMap L cap want) wo).2 = Ok tt ->
  w = Ok (view L (kern ((want ← lift w; syncMap L cap want) wo).1)).
Proof.
  assert (wp (want ← lift w; syncMap L cap want) (fun _ => True)
    (fun r s => r = Ok tt -> w = Ok (view L s)) (kern wo)) as Hw.
  { apply wp_sync_step; [done|done|]. intros want -> _. by rewrite view_update. }
  by destruct (Hw wo eq_refl).
Qed.
End Step.

Lemma wp_PutArray_total `{Runtime} {S K V} `{Countable K} (L : Lens S (gmap K V)) k v I Q s :
  reliable -> (let s' := update L (<[k:=v]> (view L s)) s in I s' /\ Q (Ok tt) s') ->
  wp (PutArray L k v) I Q s.
Proof. intros Hr Hq. apply wp_PutArray; [|done]. intros n e Hn. by rewrite Hr in Hn. Qed.

(** [putDesired] never grows a state beyond the capacity. *)
Lemma putDesired_size {K V} `{Countable K} cap (want want' : gmap K V) k v :
  putDesired cap want k v = Ok want' -> (size want <= cap)%nat -> (size want' <= cap)%nat.
Proof.
  unfold putDesired. case_decide as Hd; [done|]. intros [= <-] Hs.
  destruct (want !! k) eqn:E.
  - rewrite map_size_insert_Some by eauto. done.
  - rewrite map_size_insert_None by done. apply not_and_l in Hd as [Hd|Hd]; [done|lia].
Qed.

Lemma desired_size {A K V} `{Countable K} cap (f : gmap K V -> A -> result (gmap K V)) l want :
  (forall m x m', f m x = Ok m' -> (size m <= cap)%nat -> (size m' <= cap)%nat) ->
  foldM f ∅ l = Ok want -> (size want <= cap)%nat.
Proof.
  intros Hf. apply (foldM_invariant f (fun _ m => size m <= cap)%nat); [rewrite map_size_empty; lia|eauto].
Qed.

(** A runtime in which nothing fails and maps are visited in key order. *)
Definition quiet_runtime : Runtime.
Proof.
  refine {| fault := fun _ => None; order := fun K V _ _ _ m => map_to_list m |}; done.
Defined.

(** A runtime in which the [n]th call fails. *)
Definition faulty_runtime (n : nat) : Runtime.
Proof.
  refine {| fault := fun i => if decide (i = n) then Some "EPERM" else None;
            order := fun K V _ _ _ m => map_to_list m |}; [|done].
  intros i. case_decide; done.
Defined.

Section SyncTheorems.
Context {S K V : Type} `{Countable K} `{EqDecision V} (L : Lens S (gmap K V)).


(** When no call fails and the desired state fits the map, the sync succeeds: stale entries
    are pruned before new ones are put, so a full map never refuses an entry. *)
Theorem syncMap_total `{Runtime} `{!LensLaws L} cap (want : gmap K V) (w : world S) :
  reliable -> (size want <= cap)%nat ->
  (syncMap L cap want w).2 = Ok tt /\ kern (syncMap L cap want w).1 = update L want (kern w).
Proof.
  intros Hr Hc.
  assert (wp (syncMap L cap want) (fun _ => True)
    (fun r s => r = Ok tt /\ s = update L want (kern w)) (kern w)) as Hw.
  { apply (wp_syncMap L); [done| |done]. intros m e _ [[n Hn]|Hn]; [by rewrite Hr in Hn|lia]. }
  by destruct (Hw w eq_refl).
Qed.
End SyncTheorems.


Lemma syncMap_total_witness :
  let w := MkWorld 0 ({[1%Z := 10%Z; 2%Z := 20%Z]} : gmap Z Z) [] in
  (syncMap (H := quiet_runtime) (lens_id _) 2 {[2%Z := 21%Z; 3%Z := 30%Z]} w).2 = Ok tt /\
  kern (syncMap (H := quiet_runtime) (lens_id _) 2 {[2%Z := 21%Z; 3%Z := 30%Z]} w).1 = {[2%Z := 21%Z; 3%Z := 30%Z]}.
Proof.
  apply (syncMap_total (lens_id (gmap Z Z)) (H0 := quiet_runtime) 2).
  - intros n. reflexivity.
  - vm_compute. lia.
Defined.
