(* ===== verification/Lpm.v ===== *)
(** * Longest-prefix-match maps

    The lookup of the kernel's LPM trie, over the bytes of a key: an entry covers a query if
    their first [prefixlen] bits agree, most significant bit of each byte first, and the
    lookup returns a covering entry of the greatest length. *)

From S2P Require Import Prelude GoNet AddrMap.
Local Open Scope Z_scope.

Class LpmKey (K : Type) := { plen : K -> Z; data : K -> list Z }.

(** The first [n] bits of two byte strings of the same length agree. *)
Definition bits_agree (n : Z) (a b : list Z) : Prop :=
  Z.shiftr (be a) (8 * Z.of_nat (length a) - n) = Z.shiftr (be b) (8 * Z.of_nat (length a) - n).

Definition covers `{LpmKey K} (k : K) (q : list Z) : Prop :=
  length (data k) = length q /\ bits_agree (plen k) (data k) q.

(** [v] is what a lookup of the bytes [q] finds. *)
Definition lpm_lookup `{Countable K} `{!LpmKey K} {V} (m : gmap K V) (q : list Z) (v : V) : Prop :=
  exists k, m !! k = Some v /\ covers k q /\
    forall k' v', m !! k' = Some v' -> covers k' q -> plen k' <= plen k.

(** A field of a key, in the memory order of a little-endian host. *)
Definition le_bytes (n : nat) (v : Z) : list Z := reverse (be_bytes n v).

Lemma le_bytes_length n v : length (le_bytes n v) = n.
Proof. unfold le_bytes. by rewrite length_reverse, be_bytes_length. Qed.

Lemma le_bytes_byte n v : Forall byte (le_bytes n v).
Proof. apply Forall_reverse, be_bytes_byte. Qed.

Lemma le_bytes_inj n a b : 0 <= a < 256 ^ Z.of_nat n -> 0 <= b < 256 ^ Z.of_nat n ->
  le_bytes n a = le_bytes n b -> a = b.
Proof.
  intros Ha Hb E. apply (f_equal reverse) in E. unfold le_bytes in E. rewrite !reverse_involutive in E.
  apply (f_equal be) in E. by rewrite !be_be_bytes in E.
Qed.

(** A prefix that spans the head compares the head exactly and the tail by its leading bits. *)
Lemma bits_agree_app h1 h2 t1 t2 n :
  Forall byte (h1 ++ t1) -> Forall byte (h2 ++ t2) -> length h1 = length h2 -> length t1 = length t2 ->
  8 * Z.of_nat (length h1) <= n <= 8 * Z.of_nat (length (h1 ++ t1)) ->
  bits_agree n (h1 ++ t1) (h2 ++ t2) <->
  h1 = h2 /\ bits_agree (n - 8 * Z.of_nat (length h1)) t1 t2.
Proof.
  rewrite !Forall_app, length_app. intros [B1 C1] [B2 C2] Lh Lt Hn. unfold bits_agree.
  rewrite length_app, Nat2Z.inj_add. set (hn := Z.of_nat (length h1)) in *.
  assert (Z.of_nat (length t1) = Z.of_nat (length t2)) as Lt' by lia.
  set (tn := Z.of_nat (length t1)) in *. replace (8 * (hn + tn) - n) with (8 * tn - (n - 8 * hn)) by lia.
  set (k := 8 * tn - (n - 8 * hn)). assert (0 <= k <= 8 * tn) as Hk by lia.
  rewrite !be_app, <-Lt'. fold tn.
  assert (256 ^ tn = 2 ^ (8 * tn - k) * 2 ^ k) as Ep.
  { rewrite <-Z.pow_add_r by lia. replace (8 * tn - k + k) with (8 * tn) by lia. by rewrite Z.pow_mul_r by lia. }
  assert (forall h t, Z.shiftr (h * 256 ^ tn + t) k = h * 2 ^ (8 * tn - k) + Z.shiftr t k) as Es.
  { intros h t. rewrite Ep, Z.mul_assoc, !Z.shiftr_div_pow2 by lia.
    rewrite Z.add_comm, Z.div_add by lia. lia. }
  assert (forall t, Forall byte t -> length t = length t1 -> 0 <= Z.shiftr (be t) k < 2 ^ (8 * tn - k)) as Hs.
  { intros t Bt El. pose proof (be_bound t Bt) as Hb. rewrite El in Hb. fold tn in Hb. rewrite Ep in Hb.
    rewrite Z.shiftr_div_pow2 by lia. split; [apply Z.div_pos; lia|]. apply Z.div_lt_upper_bound; lia. }
  rewrite !Es. pose proof (Hs t1 C1 eq_refl). pose proof (Hs t2 C2 (eq_sym Lt)).
  split.
  - intros E. assert (be h1 = be h2) as Eh by nia.
    split; [by apply be_inj|]. rewrite Eh in E. lia.
  - intros [-> ->]. done.
Qed.

Lemma bits_agree_16 n a b : length a = 16%nat -> bits_agree n a b <-> leading_match n a b.
Proof. intros E. unfold bits_agree, leading_match. by rewrite E. Qed.

(** ** A covered query has an answer *)

#[export] Instance bits_agree_dec n a b : Decision (bits_agree n a b).
Proof. unfold bits_agree. apply _. Defined.
#[export] Instance covers_dec `{LpmKey K} (k : K) q : Decision (covers k q).
Proof. unfold covers. apply _. Defined.

Lemma max_elem {A} (f : A -> Z) (l : list A) x : x ∈ l -> exists y, y ∈ l /\ forall z, z ∈ l -> f z <= f y.
Proof.
  revert x. induction l as [|a l IH]; intros x Hx; [by apply not_elem_of_nil in Hx|].
  destruct l as [|b l].
  - exists a. split; [set_solver|]. intros z Hz. apply list_elem_of_singleton in Hz as ->. lia.
  - destruct (IH b ltac:(set_solver)) as (y & Hy & Hm). destruct (Z_le_dec (f a) (f y)).
    + exists y. split; [set_solver|]. intros z Hz. apply elem_of_cons in Hz as [->|Hz]; auto.
    + exists a. split; [set_solver|]. intros z Hz. apply elem_of_cons in Hz as [->|Hz]; [lia|].
      apply Hm in Hz. lia.
Qed.

Lemma lpm_lookup_exists `{Countable K} `{!LpmKey K} {V} (m : gmap K V) q k v :
  m !! k = Some v -> covers k q -> exists v', lpm_lookup m q v'.
Proof.
  intros Hk Hc. destruct (max_elem (fun e => plen e.1) (filter (fun e => covers e.1 q) (map_to_list m)) (k, v))
    as ([k' v'] & Hin & Hmax).
  { apply list_elem_of_filter. split; [done|]. by apply elem_of_map_to_list. }
  apply list_elem_of_filter in Hin as [Hc' Hin]. apply elem_of_map_to_list in Hin. exists v', k'.
  split; [done|]. split; [done|]. intros j u Hj Hcj. apply (Hmax (j, u)).
  apply list_elem_of_filter. split; [done|]. by apply elem_of_map_to_list.
Qed.

(** ** The lookup as a function *)

(** Keep the longer of two candidate entries. *)
Definition longer `{LpmKey K} {V} (best : option (K * V)) (e : K * V) : option (K * V) :=
  match best with
  | Some b => if plen b.1 <? plen e.1 then Some e else best
  | None => Some e
  end.

Definition lpm_find `{Countable K} `{!LpmKey K} {V} (m : gmap K V) (q : list Z) : option V :=
  snd <$> fold_left longer (filter (fun e => covers e.1 q) (map_to_list m)) None.

Lemma fold_longer `{LpmKey K} {V} (l : list (K * V)) best :
  match fold_left longer l best with
  | Some e => (e ∈ l \/ best = Some e) /\ (forall e', e' ∈ l -> plen e'.1 <= plen e.1) /\
              (forall b, best = Some b -> plen b.1 <= plen e.1)
  | None => l = [] /\ best = None
  end.
Proof.
  revert best. induction l as [|a l IH]; intros best; cbn.
  { destruct best as [b|]; [|done]. split; [by right|]. split; [set_solver|]. intros ? [= ->]. lia. }
  specialize (IH (longer best a)). destruct (fold_left longer l (longer best a)) as [e|].
  2: { destruct IH as [_ IH]. unfold longer in IH. destruct best; [case_if; done|done]. }
  destruct IH as (Hin & Hl & Hb). unfold longer in *. setoid_rewrite elem_of_cons. destruct best as [b|].
  - case_if; to_prop; specialize (Hb _ eq_refl).
    + split; [naive_solver|]. split; [intros e' [->|?]; auto|intros ? [= <-]; lia].
    + split; [naive_solver|]. split; [intros e' [->|?]; [lia|auto]|intros ? [= <-]; lia].
  - specialize (Hb _ eq_refl). split; [naive_solver|]. split; [intros e' [->|?]; auto|done].
Qed.

(** What the function finds is a longest covering entry, and it finds one if there is any. *)
Lemma lpm_find_spec `{Countable K} `{!LpmKey K} {V} (m : gmap K V) q :
  match lpm_find m q with
  | Some v => lpm_lookup m q v
  | None => forall v, ~ lpm_lookup m q v
  end.
Proof.
  unfold lpm_find. set (l := filter _ _).
  assert (forall k v, (k, v) ∈ l <-> covers k q /\ m !! k = Some v) as Hl.
  { intros k v. unfold l. rewrite list_elem_of_filter. by rewrite elem_of_map_to_list. }
  pose proof (fold_longer l None) as Hf. destruct (fold_left longer l None) as [[k v]|]; cbn.
  - destruct Hf as ([Hin|?] & Hmax & _); [|done]. apply Hl in Hin as [Hc Hk]. exists k. split; [done|]. split; [done|].
    intros k' v' Hk' Hc'. apply (Hmax (k', v')). by apply Hl.
  - destruct Hf as [-> _]. intros v (k & Hk & Hc & _).
    assert ((k, v) ∈ (@nil (K * V))) as Hin by (by apply Hl). by apply not_elem_of_nil in Hin.
Qed.

(** The scoped address key most maps share. *)
#[export] Instance overlayLpmKey_lpm : LpmKey overlayLpmKey := {|
  plen := lk_Prefixlen;
  data k := le_bytes 4 (lk_ScopeNet k) ++ lk_Addr k
|}.
