(* ===== verification/Packet.v ===== *)
(** * Frames as the BPF programs see them

    [bpf/overlay.c] parses Ethernet frames with direct loads from the linear area of an
    [sk_buff] and with [bpf_skb_load_bytes] on the whole frame, always at fixed offsets.  A
    frame is its list of bytes with the length of its linear area; a 16- or 32-bit field read
    into a C integer is little endian, so a port read from the wire is the [htons] of the
    number.  The theorems say that a frame the programs accept has its transport header where
    they look for it, and that the MSS clamp changes the MSS and nothing else. *)
From Stdlib Require Import ZArith Lia.
From stdpp Require Import base list numbers.
From S2P Require Import Prelude GoNet AddrMap Lpm.
Open Scope Z_scope.

(** ** Frames *)

Record sk_buff := MkSkb { frame : list Z; linear : Z }.
Definition skb_len (skb : sk_buff) : Z := Z.of_nat (length (frame skb)).

(** The linear area is a prefix of the frame, made of bytes. *)
Definition skb_ok (skb : sk_buff) : Prop := Forall byte (frame skb) /\ 0 <= linear skb <= skb_len skb.

Definition bytes_at (f : list Z) (off : Z) (n : nat) : list Z := take n (drop (Z.to_nat off) f).
(** A field of [n] bytes as a C integer of a little-endian target. *)
Definition le (l : list Z) : Z := be (reverse l).
Definition field (f : list Z) (off : Z) (n : nat) : Z := le (bytes_at f off n).

(** [bpf_skb_load_bytes], [bpf_skb_store_bytes]: whole ranges of the frame or nothing. *)
Definition load_bytes (f : list Z) (off : Z) (n : nat) : option (list Z) :=
  if (0 <=? off) && (off + Z.of_nat n <=? Z.of_nat (length f)) then Some (bytes_at f off n) else None.
Definition load_field (f : list Z) (off : Z) (n : nat) : option Z := le <$> load_bytes f off n.
Definition patch (f : list Z) (off : Z) (v : list Z) : list Z :=
  take (Z.to_nat off) f ++ v ++ drop (Z.to_nat off + length v) f.
Definition store_bytes (f : list Z) (off : Z) (v : list Z) : option (list Z) :=
  if (0 <=? off) && (off + Z.of_nat (length v) <=? Z.of_nat (length f)) then Some (patch f off v) else None.

(** ** Offsets and numbers, bpf/overlay.c *)

(** [ETH_P_IP], bpf/overlay.c:29-29. *)
Definition ETH_P_IP : Z := 0x0800.
(** [ETH_P_IPV6], bpf/overlay.c:30-30. *)
Definition ETH_P_IPV6 : Z := 0x86DD.
(** [IPPROTO_ICMP], bpf/overlay.c:69-69. *)
Definition IPPROTO_ICMP : Z := 1.
(** [IPPROTO_TCP], bpf/overlay.c:70-70. *)
Definition IPPROTO_TCP : Z := 6.
(** [IPPROTO_UDP], bpf/overlay.c:71-71. *)
Definition IPPROTO_UDP : Z := 17.
(** [IPPROTO_ICMPV6], bpf/overlay.c:72-72. *)
Definition IPPROTO_ICMPV6 : Z := 58.
(** [IPPROTO_SCTP] of the kernel headers. *)
Definition IPPROTO_SCTP : Z := 132.
(** [ETH_HLEN], bpf/overlay.c:77-77. *)
Definition ETH_HLEN : Z := 14.
(** [L4_OFF], bpf/overlay.c:82-82. *)
Definition L4_OFF : Z := ETH_HLEN + 20.
(** [L4_OFF6], bpf/overlay.c:126-126. *)
Definition L4_OFF6 : Z := ETH_HLEN + 40.
(** [PULL_HEADERS_LEN], bpf/overlay.c:2591-2591. *)
Definition PULL_HEADERS_LEN : Z := 128.

(** ** Parsing *)

(** [v4_to_128], bpf/address128.h:19-24. *)
Definition v4_to_128 (v4 : list Z) : list Z := nat64_head ++ v4.
(** [v4_of_128], bpf/overlay.c:230-235. *)
Definition v4_of_128 (a : list Z) : Z := le (bytes_at a 12 4).

(** [v6_link_scoped], bpf/overlay.c:245-252. *)
Definition v6_link_scoped (a : list Z) : bool :=
  let b0 := field a 0 1 in let b1 := field a 1 1 in
  (b0 =? 0xff) || ((b0 =? 0xfe) && (Z.land b1 0xc0 =? 0x80)).

(** [addr128_eq], bpf/overlay.c:2939-2947. *)
Definition addr128_eq (a b : list Z) : bool :=
  let a0 := field a 0 8 in let a1 := field a 8 8 in
  let b0 := field b 0 8 in let b1 := field b 8 8 in
  Z.lor (Z.lxor a0 b0) (Z.lxor a1 b1) =? 0.

(** [addr128_zero], bpf/overlay.c:5508-5514. *)
Definition addr128_zero (a : list Z) : bool := Z.lor (field a 0 8) (field a 8 8) =? 0.

(** [pull_headers], bpf/overlay.c:2592-2603; [pulled] is the outcome of [bpf_skb_pull_data]. *)
Definition pull_headers (pulled : bool) (skb : sk_buff) : sk_buff :=
  let want := if skb_len skb <? PULL_HEADERS_LEN then skb_len skb else PULL_HEADERS_LEN in
  if (linear skb <? want) && pulled then MkSkb (frame skb) want else skb.

(** [unsupported_ip_header], bpf/overlay.c:2608-2631. *)
Definition unsupported_ip_header (skb : sk_buff) : bool :=
  let f := frame skb in let data_end := linear skb in
  if data_end <? ETH_HLEN then true
  else if field f 12 2 =? htons ETH_P_IP then
    if data_end <? ETH_HLEN + 20 then true
    else negb (Z.shiftr (field f 14 1) 4 =? 4) || negb (Z.land (field f 14 1) 15 =? 5) ||
         negb (Z.land (field f 20 2) (htons 0x3fff) =? 0)
  else if field f 12 2 =? htons ETH_P_IPV6 then
    if (data_end <? ETH_HLEN + 40) || negb (Z.shiftr (field f 14 1) 4 =? 6) then true
    else bool_decide (field f 20 1 ∈ [0; 43; 44; 51; 60; 135])
  else false.

(** [pkt], bpf/overlay.c:2639-2644. *)
Record pkt := MkPkt { is_v6 : bool; p_proto : Z; p_src : list Z; p_dst : list Z }.

(** [parse_ip], bpf/overlay.c:2650-2679. *)
Definition parse_ip (skb : sk_buff) : option pkt :=
  let f := frame skb in let data_end := linear skb in
  if data_end <? ETH_HLEN then None
  else if field f 12 2 =? htons ETH_P_IP then
    if data_end <? ETH_HLEN + 20 then None
    else Some (MkPkt false (field f 23 1) (v4_to_128 (bytes_at f 26 4)) (v4_to_128 (bytes_at f 30 4)))
  else if field f 12 2 =? htons ETH_P_IPV6 then
    if data_end <? ETH_HLEN + 40 then None
    else Some (MkPkt true (field f 20 1) (bytes_at f 22 16) (bytes_at f 38 16))
  else None.

(** [parse_ipv4], bpf/overlay.c:2568-2582: the IPv4 header is there. *)
Definition parse_ipv4 (skb : sk_buff) : bool :=
  (ETH_HLEN <=? linear skb) && (field (frame skb) 12 2 =? htons ETH_P_IP) && (ETH_HLEN + 20 <=? linear skb).

Definition l4_off (v6 : bool) : Z := if v6 then L4_OFF6 else L4_OFF.

(** [l4_ports], bpf/overlay.c:2860-2870, and [l4_ports6], 2950-2960. *)
Definition l4_ports (v6 : bool) (skb : sk_buff) : option (Z * Z) :=
  let off := l4_off v6 in
  if linear skb <? off + 4 then None else Some (field (frame skb) off 2, field (frame skb) (off + 2) 2).

(** [icmp_echo], bpf/overlay.c:2906-2917, and [icmp6_echo], 2963-2974. *)
Definition icmp_echo (v6 : bool) (skb : sk_buff) : option (Z * Z) :=
  let off := l4_off v6 in
  if linear skb <? off + 8 then None else Some (field (frame skb) off 1, field (frame skb) (off + 4) 2).

(** A SYN that is not an answer. *)
Definition bare_syn (flags : Z) : bool := negb (Z.land flags 0x02 =? 0) && (Z.land flags 0x10 =? 0).

(** [tcp_bare_syn], bpf/overlay.c:4122-4128. *)
Definition tcp_bare_syn (skb : sk_buff) (l4off : Z) : bool :=
  match load_field (frame skb) (l4off + 13) 1 with None => false | Some fl => bare_syn fl end.

(** [sg_l4], bpf/overlay.c:1781-1800: the destination port of a packet policy gates. *)
Definition sg_l4 (skb : sk_buff) (proto l4off : Z) : option Z :=
  if proto =? IPPROTO_TCP then
    dport ← load_field (frame skb) (l4off + 2) 2;
    flags ← load_field (frame skb) (l4off + 13) 1;
    if bare_syn flags then Some dport else None
  else if (proto =? IPPROTO_UDP) || (proto =? IPPROTO_SCTP) then
    load_field (frame skb) (l4off + 2) 2
  else None.

(** [icmp_v4_err], bpf/overlay.c:3023-3026. *)
Definition icmp_v4_err (type : Z) : bool := (type =? 3) || (type =? 11) || (type =? 12).
(** [icmp6_err], bpf/overlay.c:3131-3134. *)
Definition icmp6_err (type : Z) : bool := type <? 128.

(** ** Checksum helpers *)

(** [BPF_F_MARK_MANGLED_0]: a zero checksum means none, and none is produced. *)
Definition MANGLED_0 : Z := 0x20.
(** [BPF_F_PSEUDO_HDR]. *)
Definition PSEUDO_HDR : Z := 0x10.

(** What [bpf_l4_csum_replace] and [bpf_l3_csum_replace] document of the new checksum: the ones' complement sum accounts
    for the replaced value, an absent UDP checksum stays absent. *)
Definition csum_replaced (flags c from to c' : Z) : Prop :=
  if negb (Z.land flags MANGLED_0 =? 0) && (c =? 0) then c' = 0
  else (c' + to) mod 65535 = (c + from) mod 65535 /\ 0 <= c' < 65536 /\ (Z.land flags MANGLED_0 <> 0 -> c' <> 0).

(** The kernel's checksum helpers: they rewrite the two bytes of the checksum and nothing else,
    and may refuse. *)
Class ChecksumHelpers := {
  l4_csum_replace : list Z -> Z -> Z -> Z -> Z -> option (list Z);
  l4_csum_replace_spec f off from to flags f' : l4_csum_replace f off from to flags = Some f' ->
    0 <= off /\ off + 2 <= Z.of_nat (length f) /\
    exists c', csum_replaced flags (field f off 2) from to c' /\ f' = patch f off (le_bytes 2 c');
  l3_csum_replace : list Z -> Z -> Z -> Z -> Z -> option (list Z);
  l3_csum_replace_spec f off from to size f' : l3_csum_replace f off from to size = Some f' ->
    0 <= off /\ off + 2 <= Z.of_nat (length f) /\
    exists c', csum_replaced 0 (field f off 2) from to c' /\ f' = patch f off (le_bytes 2 c')
}.

(** ** The MSS clamp *)

(** [TCP_MSS_CLAMP], bpf/overlay.c:96-96. *)
Definition TCP_MSS_CLAMP : Z := 1200.

Section MssClamp.
Context `{ChecksumHelpers}.

(** [tcp_mss_clamp_packet], the option loop, bpf/overlay.c:2762-2791; [n] iterations are left. *)
Fixpoint mss_loop (n : nat) (f : list Z) (l4off off stop : Z) : list Z :=
  match n with
  | O => f
  | S n =>
      if stop <=? off then f
      else match load_field f off 4 with
      | None => f
      | Some option =>
          let kind := Z.land option 0xff in
          if kind =? 0 then f
          else if kind =? 1 then mss_loop n f l4off (off + 1) stop
          else
            let len := Z.land (Z.shiftr option 8) 0xff in
            if (len <? 2) || (stop <? off + len) then f
            else if (kind =? 2) && (len =? 4) then
              let old_host := Z.lor (Z.shiftl (Z.land (Z.shiftr option 16) 0xff) 8) (Z.shiftr option 24) in
              if old_host <=? TCP_MSS_CLAMP then f
              else match l4_csum_replace f (l4off + 16) (htons old_host) (htons TCP_MSS_CLAMP) 2 with
                   | None => f
                   | Some f' => default f' (store_bytes f' (off + 2) (le_bytes 2 (htons TCP_MSS_CLAMP)))
                   end
            else mss_loop n f l4off (off + len) stop
      end
  end.

(** [tcp_mss_clamp_packet], where the TCP header is, bpf/overlay.c:2725-2748. *)
Definition mss_l4off (skb : sk_buff) : option Z :=
  let f := frame skb in let data_end := linear skb in
  if data_end <? ETH_HLEN then None
  else if field f 12 2 =? htons ETH_P_IP then
    if (data_end <? ETH_HLEN + 20) || negb (Z.shiftr (field f 14 1) 4 =? 4) ||
       (Z.land (field f 14 1) 15 <? 5) || negb (field f 23 1 =? IPPROTO_TCP) then None
    else Some (ETH_HLEN + Z.shiftl (Z.land (field f 14 1) 15) 2)
  else if field f 12 2 =? htons ETH_P_IPV6 then
    if (data_end <? ETH_HLEN + 40) || negb (field f 20 1 =? IPPROTO_TCP) then None else Some L4_OFF6
  else None.

(** [tcp_mss_clamp_packet], bpf/overlay.c:2723-2793. *)
Definition tcp_mss_clamp_packet (skb : sk_buff) : sk_buff :=
  match mss_l4off skb with
  | None => skb
  | Some l4off =>
      let f := frame skb in
      if linear skb <? l4off + 20 then skb
      else
        let doff := Z.shiftr (field f (l4off + 12) 1) 4 in
        let flags := field f (l4off + 13) 1 in
        if (doff <? 5) || negb (bare_syn flags) then skb
        else
          let stop := l4off + Z.shiftl doff 2 in
          if linear skb <? stop then skb
          else MkSkb (mss_loop 40 f l4off (l4off + 20) stop) (linear skb)
  end.
End MssClamp.

(** ** Reading and writing ranges *)

Lemma le_app a b : le (a ++ b) = le a + 256 ^ Z.of_nat (length a) * le b.
Proof. unfold le. rewrite reverse_app, be_app, length_reverse. lia. Qed.

Lemma le_cons b l : le (b :: l) = b + 256 * le l.
Proof. change (b :: l) with ([b] ++ l). rewrite le_app. cbn. lia. Qed.

Lemma le_bound l : Forall byte l -> 0 <= le l < 256 ^ Z.of_nat (length l).
Proof. intros Hl. unfold le. rewrite <-(length_reverse l). apply be_bound. by apply Forall_reverse. Qed.

Lemma le_le_bytes n v : 0 <= v < 256 ^ Z.of_nat n -> le (le_bytes n v) = v.
Proof. intros. unfold le, le_bytes. rewrite reverse_involutive. by apply be_be_bytes. Qed.

Section Patch.
Context (f : list Z) (off : Z) (v : list Z).
Hypothesis Hoff : 0 <= off.
Hypothesis Hfit : off + Z.of_nat (length v) <= Z.of_nat (length f).

Lemma patch_length : length (patch f off v) = length f.
Proof. unfold patch. rewrite !length_app, length_take, length_drop. lia. Qed.

Lemma patch_split : f = take (Z.to_nat off) f ++ bytes_at f off (length v) ++ drop (Z.to_nat off + length v) f.
Proof. unfold bytes_at. by rewrite <-drop_drop, take_drop, take_drop. Qed.

Lemma bytes_at_patch : bytes_at (patch f off v) off (length v) = v.
Proof.
  unfold bytes_at, patch. rewrite drop_app_length', take_app_length'; [done|done|]. rewrite length_take. lia.
Qed.

(** Ranges the patch does not touch. *)
Lemma bytes_at_patch_ne o n : 0 <= o -> o + Z.of_nat n <= off \/ off + Z.of_nat (length v) <= o ->
  bytes_at (patch f off v) o n = bytes_at f o n.
Proof.
  intros Ho Hd. unfold bytes_at. apply list_eq. intros i. destruct (decide (i < n)%nat) as [Hi|Hi].
  - rewrite !lookup_take_lt, !lookup_drop by done. unfold patch. destruct Hd.
    + rewrite lookup_app_l by (rewrite length_take; lia). by rewrite lookup_take_lt by lia.
    + rewrite lookup_app_r by (rewrite length_take; lia). rewrite lookup_app_r by (rewrite length_take; lia).
      rewrite length_take, lookup_drop. f_equal. lia.
  - by rewrite !lookup_take_ge by lia.
Qed.

Lemma field_patch_ne o n : 0 <= o -> o + Z.of_nat n <= off \/ off + Z.of_nat (length v) <= o ->
  field (patch f off v) o n = field f o n.
Proof. intros. unfold field. by rewrite bytes_at_patch_ne. Qed.

(** The frame from [k] on, as one number. *)
Lemma le_drop_patch k : 0 <= k <= off ->
  le (drop (Z.to_nat k) (patch f off v)) =
  le (drop (Z.to_nat k) f) + 256 ^ (off - k) * (le v - field f off (length v)).
Proof.
  intros Hk. rewrite patch_split at 2. unfold patch.
  rewrite !drop_app_le by (rewrite length_take; lia). rewrite !le_app, !length_drop, !length_take.
  unfold field. assert (length (bytes_at f off (length v)) = length v) as ->.
  { unfold bytes_at. rewrite length_take, length_drop. lia. }
  replace (Z.of_nat (Z.to_nat off `min` length f - Z.to_nat k)) with (off - k) by lia. ring.
Qed.
End Patch.

(** The ones' complement sum of RFC 1071 is the number modulo 65535. *)
Fixpoint word_sum (l : list Z) : Z :=
  match l with
  | a :: b :: l => (a + 256 * b) + word_sum l
  | [a] => a
  | [] => 0
  end.

Lemma word_sum_le l : (word_sum l) mod 65535 = le l mod 65535.
Proof.
  revert l. fix IH 1. intros [|a [|b l]].
  - done.
  - cbn [word_sum]. by rewrite le_cons, Z.add_0_r.
  - cbn [word_sum]. rewrite !le_cons, Z.add_mod, IH, <-Z.add_mod by lia.
    replace (a + 256 * (b + 256 * le l)) with (a + 256 * b + le l + le l * 65535) by lia. by rewrite Z.mod_add.
Qed.

Lemma pow256_even n : 0 <= n -> Z.even n = true -> 256 ^ n mod 65535 = 1.
Proof.
  intros Hn [k ->]%Z.even_spec. rewrite Z.pow_mul_r by lia. change (256 ^ 2) with (1 + 1 * 65535).
  rewrite <-Z.mod_pow_l, Z.mod_add, Z.mod_1_l, Z.pow_1_l by lia. done.
Qed.

(** Replacing a field at an even distance and compensating in the checksum leaves the sum. *)
Lemma sum_patch f k off v : 0 <= k <= off -> off + Z.of_nat (length v) <= Z.of_nat (length f) -> Z.even (off - k) = true ->
  (le (drop (Z.to_nat k) (patch f off v)) + field f off (length v)) mod 65535 = (le (drop (Z.to_nat k) f) + le v) mod 65535.
Proof.
  intros Hk Hfit He. rewrite le_drop_patch by lia. set (d := le v - field f off (length v)).
  replace (_ + 256 ^ (off - k) * d + _) with (le (drop (Z.to_nat k) f) + le v + (256 ^ (off - k) - 1) * d) by (unfold d; ring).
  assert ((256 ^ (off - k) - 1) mod 65535 = 0) as Hz.
  { rewrite Zminus_mod, pow256_even by (done || lia). done. }
  apply Z.mod_divide in Hz as [q ->]; [|lia]. replace (q * 65535 * d) with (q * d * 65535) by ring. by rewrite Z.mod_add.
Qed.

(** Congruence of checksums, in the form [lia] solves. *)
Lemma mod_eq a b m : m <> 0 -> a mod m = b mod m <-> exists k, a = b + k * m.
Proof.
  intros Hm. split.
  - intros E. exists (a / m - b / m). pose proof (Z.div_mod a m Hm). pose proof (Z.div_mod b m Hm). lia.
  - intros [k ->]. by rewrite Z.mod_add.
Qed.

(** ** The transport header is where the programs look *)

(** The protocol and offset of the transport header, walking IPv4 options and IPv6 extension
    headers as RFC 791 and RFC 8200 say; a fragment that is not the first has none. *)
Fixpoint ext_walk (fuel : nat) (f : list Z) (nh off : Z) : option (Z * Z) :=
  if bool_decide (nh ∈ [0; 43; 44; 51; 60; 135]) then
    match fuel with
    | O => None
    | S fuel =>
        let next := field f off 1 in
        let len := field f (off + 1) 1 in
        if nh =? 44 then
          if be (bytes_at f (off + 2) 2) <? 8 then ext_walk fuel f next (off + 8) else None
        else ext_walk fuel f next (off + (if nh =? 51 then 4 * (len + 2) else 8 * (len + 1)))
    end
  else Some (nh, off).

Definition rfc_transport (f : list Z) : option (Z * Z) :=
  if be (bytes_at f 12 2) =? ETH_P_IP then
    if be (bytes_at f 20 2) mod 2 ^ 13 =? 0 then Some (field f 23 1, ETH_HLEN + 4 * (field f 14 1 mod 16)) else None
  else if be (bytes_at f 12 2) =? ETH_P_IPV6 then ext_walk (length f) f (field f 20 1) L4_OFF6
  else None.

(** Is the frame an IPv4 fragment? *)
Definition v4_fragment (f : list Z) : bool :=
  (be (bytes_at f 12 2) =? ETH_P_IP) && negb (be (bytes_at f 20 2) mod 2 ^ 14 =? 0).

Lemma bytes_at_byte f off n : Forall byte f -> Forall byte (bytes_at f off n).
Proof. intros. unfold bytes_at. by apply Forall_take, Forall_drop. Qed.

Lemma bytes_at_length f off n : 0 <= off -> off + Z.of_nat n <= Z.of_nat (length f) -> length (bytes_at f off n) = n.
Proof. intros. unfold bytes_at. rewrite length_take, length_drop. lia. Qed.

(** A 16-bit field is the swapped wire value. *)
Lemma field2_be f off : Forall byte f -> 0 <= off -> off + 2 <= Z.of_nat (length f) ->
  field f off 2 = htons (be (bytes_at f off 2)) /\ 0 <= be (bytes_at f off 2) < 65536.
Proof.
  intros Hf Ho Hl. unfold field. pose proof (bytes_at_byte f off 2 Hf) as Hb. pose proof (bytes_at_length f off 2 Ho Hl) as Hn.
  destruct (bytes_at f off 2) as [|a [|b [|]]]; try done. apply Forall_cons in Hb as [Ha Hb]. apply Forall_cons in Hb as [Hb _].
  unfold byte in *. rewrite !le_cons, !be_cons. cbn [length be be_acc fold_left le reverse]. change (le []) with 0. change (be []) with 0.
  change (256 ^ Z.of_nat 1) with 256. change (256 ^ Z.of_nat 0) with 1. rewrite htons_spec by lia.
  replace (a * 256 + (b * 1 + 0)) with (b + a * 256) by lia. rewrite Z.mod_add, Z.div_add by lia.
  rewrite Z.mod_small, Z.div_small by lia. lia.
Qed.

Lemma ethertype f p : Forall byte f -> 14 <= Z.of_nat (length f) -> 0 <= p < 65536 ->
  (field f 12 2 =? htons p) = (be (bytes_at f 12 2) =? p).
Proof.
  intros Hf Hl Hp. destruct (field2_be f 12 Hf) as [-> Hb]; [lia|lia|]. apply Bool.eq_iff_eq_true. rewrite !Z.eqb_eq.
  split; [by intros ?%htons_inj|congruence].
Qed.

Lemma frag_bits : forallb (fun b => Bool.eqb (Z.land (b * 2 ^ 8) 0xff3f =? 0) (b =? 0) &&
  Bool.eqb (Z.land b 0xff3f =? 0) (b mod 64 =? 0)) (seqZ 0 256) = true.
Proof. reflexivity. Qed.

Lemma frag_spec v : 0 <= v < 65536 -> (Z.land (htons v) (htons 0x3fff) =? 0) = (v mod 2 ^ 14 =? 0).
Proof.
  intros Hv. rewrite htons_spec by done. change (htons 0x3fff) with 0xff3f.
  pose proof (Z.div_mod v 256 ltac:(lia)) as Ev. pose proof (Z.mod_pos_bound v 256 ltac:(lia)) as Hlo.
  assert (0 <= v / 256 < 256) as Hhi by (split; [apply Z.div_pos; lia|apply Z.div_lt_upper_bound; lia]).
  assert (v mod 2 ^ 14 = 256 * ((v / 256) mod 64) + v mod 256) as ->.
  { rewrite Z.mod_eq, (Z.mod_eq (v / 256)), Z.div_div by lia. change (2 ^ 14) with (256 * 64). lia. }
  set (hi := v / 256) in *. set (lo := v mod 256) in *. clearbody hi lo. change 256 with (2 ^ 8) at 1. rewrite <-lor_add, Z.land_lor_distr_l by lia.
  pose proof frag_bits as F. rewrite forallb_forall in F.
  pose proof (F lo) as F1. pose proof (F hi) as F2. rewrite <-list_elem_of_In, elem_of_seqZ in F1, F2.
  apply andb_true_iff in F1 as [F1%Bool.eqb_prop _]; [|lia]. apply andb_true_iff in F2 as [_ F2%Bool.eqb_prop]; [|lia].
  pose proof (Z.mod_pos_bound hi 64 ltac:(lia)). apply Bool.eq_iff_eq_true. rewrite !Z.eqb_eq, Z.lor_eq_0_iff.
  rewrite <-(Z.eqb_eq (Z.land (lo * 2 ^ 8) _)), <-(Z.eqb_eq (Z.land hi _)), F1, F2, !Z.eqb_eq. lia.
Qed.

(** The port [sg_l4] reports is the wire port. *)
Lemma sg_l4_bound skb proto off d : Forall byte (frame skb) -> sg_l4 skb proto off = Some d ->
  d = htons (be (bytes_at (frame skb) (off + 2) 2)) /\ 0 <= be (bytes_at (frame skb) (off + 2) 2) < 65536.
Proof.
  intros Hf. assert (forall d, load_field (frame skb) (off + 2) 2 = Some d ->
    d = htons (be (bytes_at (frame skb) (off + 2) 2)) /\ 0 <= be (bytes_at (frame skb) (off + 2) 2) < 65536) as L.
  { unfold load_field, load_bytes. intros d'. destruct (_ && _) eqn:E; [|done]. cbn. intros [= <-]. to_prop.
    apply (field2_be (frame skb) (off + 2) Hf); [done|lia]. }
  unfold sg_l4. destruct (proto =? IPPROTO_TCP).
  - intros (d' & Hd & (fl & _ & E)%bind_Some)%bind_Some. destruct (bare_syn fl); [|done]. injection E as <-. by apply L.
  - destruct (_ || _); [by apply L|done].
Qed.

(** C32. No header can hide a port from policy: when [unsupported_ip_header] lets an IP frame
    through, the frame is no fragment, and the transport header RFC 791 and RFC 8200 find in it,
    past any options and extension headers, is the one of the parsed protocol at the fixed
    offset every policy and NAT program uses; the port [sg_l4] reports is the one on the wire. *)
Theorem transport_where_expected skb p :
  skb_ok skb -> unsupported_ip_header skb = false -> parse_ip skb = Some p ->
  rfc_transport (frame skb) = Some (p_proto p, l4_off (is_v6 p)) /\ v4_fragment (frame skb) = false /\
  forall d, sg_l4 skb (p_proto p) (l4_off (is_v6 p)) = Some d -> d = htons (be (bytes_at (frame skb) (l4_off (is_v6 p) + 2) 2)).
Proof.
  intros [Hf Hl] Hu Hp. unfold unsupported_ip_header, parse_ip, rfc_transport, v4_fragment, skb_len in *.
  set (f := frame skb) in *. destruct (Z.ltb_spec (linear skb) ETH_HLEN) as [|Hlin]; [done|]. unfold ETH_HLEN in *.
  assert (14 <= Z.of_nat (length f)) as Hlen by lia.
  rewrite (ethertype f ETH_P_IP), (ethertype f ETH_P_IPV6) in Hu, Hp by done.
  assert (forall proto off d, 0 <= off -> sg_l4 skb proto off = Some d -> d = htons (be (bytes_at f (off + 2) 2))) as Hport.
  { intros proto off d _ Hd. by apply (sg_l4_bound _ _ _ _ Hf Hd). }
  assert (forall v6, 0 <= l4_off v6) as Hoff by (intros []; done).
  destruct (be (bytes_at f 12 2) =? ETH_P_IP) eqn:E4.
  - destruct (Z.ltb_spec (linear skb) (14 + 20)) as [|Hh]; [done|]. injection Hp as <-. cbn [p_proto is_v6].
    rewrite !orb_false_iff, !negb_false_iff, !Z.eqb_eq in Hu. destruct Hu as [[_ Hihl] Hfrag].
    destruct (field2_be f 20 Hf) as [Ef Hb]; [lia|lia|]. rewrite Ef in Hfrag. apply Z.eqb_eq in Hfrag. rewrite frag_spec in Hfrag by done.
    apply Z.eqb_eq in Hfrag. change 15 with (Z.ones 4) in Hihl. rewrite Z.land_ones in Hihl by lia. change (2 ^ 4) with 16 in Hihl.
    assert (be (bytes_at f 20 2) mod 2 ^ 13 = 0) as Hz.
    { apply Z.mod_divide in Hfrag as [k ->]; [|lia]. change (2 ^ 14) with (2 * 2 ^ 13). rewrite Z.mul_assoc. by apply Z.mod_mul. }
    rewrite Hfrag, Hz, Hihl. repeat split; [by intros d; apply Hport|..].
  - destruct (be (bytes_at f 12 2) =? ETH_P_IPV6) eqn:E6; [|done].
    destruct (linear skb <? 14 + 40) eqn:Eh; [done|]. injection Hp as <-. cbn [p_proto is_v6]. cbn [orb] in Hu.
    destruct (negb _); [done|]. cbn [andb]. split; [|split; [done|by intros d; apply Hport]].
    destruct (length f); cbn [ext_walk]; by rewrite Hu.
Qed.

(** Parsing does not depend on how the kernel laid the frame out: once [pull_headers] has
    succeeded, every parser decides as on the fully linear frame, so a frame whose headers
    arrived in page fragments is judged like any other. *)
Theorem pull_headers_layout skb :
  skb_ok skb ->
  let pulled := pull_headers true skb in
  let whole := MkSkb (frame skb) (skb_len skb) in
  frame pulled = frame skb /\ skb_ok pulled /\
  parse_ip pulled = parse_ip whole /\ unsupported_ip_header pulled = unsupported_ip_header whole /\
  parse_ipv4 pulled = parse_ipv4 whole /\
  forall v6, l4_ports v6 pulled = l4_ports v6 whole /\ icmp_echo v6 pulled = icmp_echo v6 whole.
Proof.
  intros [Hf Hl] pulled whole.
  assert (frame pulled = frame skb) as Ef by (unfold pulled, pull_headers; by destruct (_ && true)).
  assert (linear pulled <= skb_len skb /\ (linear pulled = skb_len skb \/ PULL_HEADERS_LEN <= linear pulled)) as [Hle Hlin].
  { unfold pulled, pull_headers. destruct (Z.ltb_spec (skb_len skb) PULL_HEADERS_LEN); destruct (_ && true) eqn:E; to_prop; cbn [linear].
    - split; [done|by left]. - rewrite andb_true_r, Z.ltb_ge in E. split; [lia|left; lia].
    - split; [done|by right]. - rewrite andb_true_r, Z.ltb_ge in E. split; [lia|by right]. }
  assert (0 <= linear pulled) as H0.
  { unfold pulled, pull_headers, skb_len in *. destruct (_ && true); [|lia]. cbn. destruct (_ <? _); unfold PULL_HEADERS_LEN; lia. }
  assert (forall n, n <= PULL_HEADERS_LEN -> (linear pulled <? n) = (linear whole <? n)) as Hlt.
  { intros n Hn. apply Bool.eq_iff_eq_true. rewrite !Z.ltb_lt. cbn [linear whole]. unfold whole. cbn. lia. }
  assert (forall n, n <= PULL_HEADERS_LEN -> (n <=? linear pulled) = (n <=? linear whole)) as Hge.
  { intros n Hn. rewrite !Z.leb_antisym. by rewrite Hlt. }
  split; [done|]. split; [split; [by rewrite Ef|unfold skb_len in *; rewrite Ef; lia]|].
  unfold parse_ip, unsupported_ip_header, parse_ipv4, l4_ports, icmp_echo. rewrite Ef. rewrite !Hlt, !Hge by done.
  repeat split; rewrite Hlt; try done; by destruct v6.
Qed.

(** ** The MSS clamp *)

Section MssProofs.
Context `{ChecksumHelpers}.

(** The MSS option of value [mss] at [off]. *)
Definition mss_option (f : list Z) (off mss : Z) : Prop :=
  exists hi lo, bytes_at f off 4 = [2; 4; hi; lo] /\ mss = 256 * hi + lo.

(** The option list reaches [m] from [off], before [stop]. *)
Inductive reaches (f : list Z) (stop : Z) : Z -> Z -> Prop :=
  | reaches_here off : reaches f stop off off
  | reaches_nop off m : off < stop -> field f off 1 = 1 -> reaches f stop (off + 1) m -> reaches f stop off m
  | reaches_opt off m len : off < stop -> field f off 1 <> 0 -> field f off 1 <> 1 -> field f (off + 1) 1 = len -> 2 <= len ->
      off + len <= stop -> (field f off 1 <> 2 \/ len <> 4) -> reaches f stop (off + len) m -> reaches f stop off m.

(** The four bytes of an option word. *)
Lemma option_word f off w : Forall byte f -> load_field f off 4 = Some w ->
  exists b0 b1 b2 b3, bytes_at f off 4 = [b0; b1; b2; b3] /\ field f off 1 = b0 /\ field f (off + 1) 1 = b1 /\
    Z.land w 0xff = b0 /\ Z.land (Z.shiftr w 8) 0xff = b1 /\
    Z.lor (Z.shiftl (Z.land (Z.shiftr w 16) 0xff) 8) (Z.shiftr w 24) = 256 * b2 + b3 /\ byte b2 /\ byte b3.
Proof.
  unfold load_field, load_bytes. intros Hf. destruct (_ && _) eqn:E; [|done]. to_prop. intros [= <-].
  pose proof (bytes_at_byte f off 4 Hf) as Hb. pose proof (bytes_at_length f off 4 ltac:(lia) ltac:(lia)) as Hn.
  assert (field f off 1 = le (take 1 (bytes_at f off 4))) as E0 by (unfold field, bytes_at; by rewrite take_take).
  assert (field f (off + 1) 1 = le (take 1 (drop 1 (bytes_at f off 4)))) as E1.
  { unfold field, bytes_at. replace (Z.to_nat (off + 1)) with (Z.to_nat off + 1)%nat by lia. rewrite <-drop_drop. set (l := drop (Z.to_nat off) f). destruct l as [|? [|? ?]]; done. }
  destruct (bytes_at f off 4) as [|b0 [|b1 [|b2 [|b3 [|]]]]]; try done. clear Hn.
  repeat match goal with Hx : Forall byte (_ :: _) |- _ => apply Forall_cons in Hx as [? Hx] end. unfold byte in *.
  exists b0, b1, b2, b3. split; [done|]. rewrite E0, E1. cbn [take drop]. rewrite !le_cons. change (le []) with 0.
  change 255 with (Z.ones 8). rewrite !Z.land_ones, !Z.shiftr_div_pow2 by lia.
  change (2 ^ 8) with 256. change (2 ^ 16) with (256 * 256). change (2 ^ 24) with (256 * 256 * 256).
  set (w := b0 + 256 * (b1 + 256 * (b2 + 256 * (b3 + 256 * 0)))). assert (w / 256 = b1 + 256 * (b2 + 256 * b3)) as W1 by (symmetry; apply (Z.div_unique _ _ _ b0); unfold w; lia).
  assert (w / (256 * 256) = b2 + 256 * b3) as W2 by (rewrite <-Z.div_div, W1 by lia; symmetry; apply (Z.div_unique _ _ _ b1); lia).
  assert (w / (256 * 256 * 256) = b3) as W3 by (rewrite <-Z.div_div, W2 by lia; symmetry; apply (Z.div_unique _ _ _ b2); lia).
  rewrite W1, W2, W3. repeat split; try lia.
  - symmetry. apply (Z.mod_unique _ _ (b1 + 256 * (b2 + 256 * b3))); unfold w; lia.
  - symmetry. apply (Z.mod_unique _ _ (b2 + 256 * b3)); lia.
  - assert ((b2 + 256 * b3) mod 256 = b2) as -> by (symmetry; apply (Z.mod_unique _ _ b3); lia).
    rewrite Z.shiftl_mul_pow2 by lia. change (2 ^ 8) with 256.
    change 256 with (2 ^ 8) at 1. rewrite lor_add; lia.
Qed.

Lemma csum_parts flags c from to c' : csum_replaced flags c from to c' -> Z.land flags MANGLED_0 = 0 ->
  (c' + to) mod 65535 = (c + from) mod 65535 /\ 0 <= c' < 65536.
Proof. unfold csum_replaced. intros Hc Hz. rewrite Hz in Hc. cbn in Hc. tauto. Qed.

(** The clamp happened at [off]: the option now says 1200, the checksum field was updated, no
    other byte changed, and for an option at an even distance from the TCP header the sum the
    receiver verifies is unchanged. *)
Definition clamped_at (f f' : list Z) (l4off off : Z) : Prop :=
  exists mss c, mss_option f off mss /\ TCP_MSS_CLAMP < mss /\
    f' = patch (patch f (l4off + 16) (le_bytes 2 c)) (off + 2) (le_bytes 2 (htons TCP_MSS_CLAMP)) /\
    length f' = length f /\ mss_option f' off TCP_MSS_CLAMP /\
    (Z.even (off - l4off) = true ->
      word_sum (drop (Z.to_nat l4off) f') mod 65535 = word_sum (drop (Z.to_nat l4off) f) mod 65535).

Lemma bytes_split f off n m : 0 <= off -> bytes_at f off (n + m) = bytes_at f off n ++ bytes_at f (off + Z.of_nat n) m.
Proof.
  intros Ho. unfold bytes_at. replace (Z.to_nat (off + Z.of_nat n)) with (Z.to_nat off + n)%nat by lia.
  rewrite <-drop_drop. set (l := drop (Z.to_nat off) f). clearbody l. clear.
  rewrite <-(take_drop n (take (n + m) l)). f_equal; [rewrite take_take; f_equal; lia|]. by rewrite skipn_firstn_comm, Nat.add_comm, Nat.add_sub.
Qed.

Lemma mss_bytes f off b0 b1 b2 b3 : 0 <= off -> bytes_at f off 4 = [b0; b1; b2; b3] ->
  bytes_at f off 2 = [b0; b1] /\ bytes_at f (off + 2) 2 = [b2; b3].
Proof.
  intros Ho E. change 4%nat with (2 + 2)%nat in E. rewrite bytes_split in E by done. change (Z.of_nat 2) with 2 in E.
  assert (length (bytes_at f off 2) = 2%nat) as Hl.
  { apply (f_equal length) in E. unfold bytes_at in *. rewrite length_app, !length_take, !length_drop in E.
    rewrite length_take, length_drop. cbn [length] in E. lia. }
  destruct (bytes_at f off 2) as [|x [|y [|]]]; try done. injection E as -> -> E. auto.
Qed.

Lemma clamp_here f l4off off mss f1 : Forall byte f -> 0 <= l4off -> l4off + 20 <= off -> off + 4 <= Z.of_nat (length f) ->
  mss_option f off mss -> TCP_MSS_CLAMP < mss ->
  l4_csum_replace f (l4off + 16) (htons mss) (htons TCP_MSS_CLAMP) 2 = Some f1 ->
  exists f2, store_bytes f1 (off + 2) (le_bytes 2 (htons TCP_MSS_CLAMP)) = Some f2 /\ clamped_at f f2 l4off off.
Proof.
  intros Hf Hl Ho Hlen (hi & lo & Eb & ->) Hm Hc. destruct (l4_csum_replace_spec _ _ _ _ _ _ Hc) as (_ & Hfit & c & Hcs & ->).
  assert (length (le_bytes 2 c) = 2%nat) as L2 by apply le_bytes_length.
  assert (length (patch f (l4off + 16) (le_bytes 2 c)) = length f) as Lp by (apply patch_length; lia).
  set (new := le_bytes 2 (htons TCP_MSS_CLAMP)). assert (length new = 2%nat) as Ln by done. assert (le new = htons TCP_MSS_CLAMP) as En by done.
  assert (off + 2 + Z.of_nat (length new) <= Z.of_nat (length (patch f (l4off + 16) (le_bytes 2 c)))) as Hfit2 by (rewrite Ln, Lp; lia).
  exists (patch (patch f (l4off + 16) (le_bytes 2 c)) (off + 2) new). unfold store_bytes. rewrite Lp, Ln.
  destruct (_ && _) eqn:E; [|rewrite andb_false_iff, !Z.leb_gt in E; cbn in E; lia]. split; [done|]. clear E.
  assert (bytes_at (patch f (l4off + 16) (le_bytes 2 c)) off 4 = [2; 4; hi; lo]) as Eb1 by (rewrite bytes_at_patch_ne; [done|lia..]).
  destruct (mss_bytes f off _ _ _ _ ltac:(lia) Eb) as [_ E2]. destruct (mss_bytes _ off _ _ _ _ ltac:(lia) Eb1) as [E1 E2'].
  exists (256 * hi + lo), c. split; [by exists hi, lo|]. split; [done|]. split; [done|]. split; [by rewrite patch_length by (rewrite ?Lp, ?Ln; lia)|]. split.
  { exists 4, 176. split; [|done]. change 4%nat with (2 + 2)%nat. rewrite bytes_split by lia.
    rewrite bytes_at_patch_ne, E1 by lia. change (Z.of_nat 2) with 2.
    pose proof (bytes_at_patch (patch f (l4off + 16) (le_bytes 2 c)) (off + 2) new Hfit2) as B.
    rewrite Ln in B. by rewrite B. }
  intros He. rewrite !word_sum_le. apply mod_eq; [lia|].
  pose proof (sum_patch (patch f (l4off + 16) (le_bytes 2 c)) l4off (off + 2) new ltac:(lia) Hfit2) as S2.
  replace (off + 2 - l4off) with (off - l4off + 2) in S2 by lia. rewrite Z.even_add, He in S2. specialize (S2 eq_refl).
  pose proof (sum_patch f l4off (l4off + 16) (le_bytes 2 c) ltac:(lia) ltac:(lia)) as S1.
  replace (l4off + 16 - l4off) with 16 in S1 by lia. specialize (S1 eq_refl).
  rewrite Ln, En in S2. rewrite L2 in S1. unfold field at 1 in S2. rewrite E2' in S2.
  destruct (csum_parts _ _ _ _ _ Hcs eq_refl) as [S3 Hcr]. rewrite le_le_bytes in S1 by done.
  assert (le [hi; lo] = htons (256 * hi + lo)) as Eh.
  { destruct (field2_be f (off + 2) Hf) as [Ef _]; [lia|lia|]. unfold field in Ef. rewrite E2 in Ef. rewrite Ef. f_equal. rewrite !be_cons. cbn. lia. }
  rewrite Eh in S2. apply mod_eq in S1 as [k1 S1], S2 as [k2 S2], S3 as [k3 S3]; [|lia..]. exists (k1 + k2 + k3). lia.
Qed.

Lemma mss_loop_sound n f l4off off stop : Forall byte f -> 0 <= l4off -> l4off + 20 <= off -> stop <= Z.of_nat (length f) ->
  mss_loop n f l4off off stop = f \/
  exists m, reaches f stop off m /\ off <= m /\ m + 4 <= stop /\ clamped_at f (mss_loop n f l4off off stop) l4off m.
Proof.
  intros Hf Hl. revert off. induction n as [|n IH]; intros off Ho Hs; cbn [mss_loop]; [by left|].
  destruct (Z.leb_spec stop off) as [|Hlt]; [by left|].
  destruct (load_field f off 4) as [w|] eqn:Ew; [|by left].
  destruct (option_word f off w Hf Ew) as (b0 & b1 & b2 & b3 & Eb & F0 & F1 & -> & -> & -> & _).
  destruct (Z.eqb_spec b0 0) as [|H0]; [by left|]. destruct (Z.eqb_spec b0 1) as [|H1].
  { destruct (IH (off + 1)) as [|(m & Hr & ? & ? & ?)]; [lia|done|by left|right]. exists m. split; [|split; [lia|done]].
    eapply reaches_nop; [done|congruence|done]. }
  destruct (_ || _) eqn:E; [by left|]. rewrite orb_false_iff, !Z.ltb_ge in E. destruct ((b0 =? 2) && (b1 =? 4)) eqn:Em.
  - apply andb_true_iff in Em as [->%Z.eqb_eq ->%Z.eqb_eq]. destruct (Z.leb_spec (256 * b2 + b3) TCP_MSS_CLAMP) as [|Hm]; [by left|].
    destruct (l4_csum_replace _ _ _ _ _) as [f1|] eqn:Ec; [|by left].
    destruct (clamp_here f l4off off (256 * b2 + b3) f1) as (f2 & -> & Hc); [done..|lia|by exists b2, b3|done|done|].
    right. exists off. split; [constructor|]. split; [lia|]. split; [lia|done].
  - destruct (IH (off + b1)) as [|(m & Hr & ? & ? & ?)]; [lia|done|by left|right]. exists m. split; [|split; [lia|done]].
    rewrite andb_false_iff, !Z.eqb_neq in Em. rewrite <-F0 in *. eapply reaches_opt; [done..|lia|lia|done|done].
Qed.

Lemma reaches_le f stop off m : reaches f stop off m -> off <= m.
Proof. induction 1; lia. Qed.

(** Forty iterations are enough for the forty bytes of options a header can have. *)
Lemma mss_loop_complete n f l4off off stop m mss : Forall byte f -> 0 <= l4off -> l4off + 20 <= off -> stop <= Z.of_nat (length f) ->
  reaches f stop off m -> m + 4 <= stop -> mss_option f m mss -> TCP_MSS_CLAMP < mss -> m - off < Z.of_nat n ->
  (forall from to, l4_csum_replace f (l4off + 16) from to 2 <> None) ->
  clamped_at f (mss_loop n f l4off off stop) l4off m.
Proof.
  intros Hf Hl Ho Hs Hr Hm Hopt Hbig Hn Hok. revert n Ho Hn.
  assert (forall off, 0 <= off <= m -> is_Some (load_field f off 4)) as Hload.
  { intros o Hle. unfold load_field, load_bytes. destruct (_ && _) eqn:E; [by eexists|]. rewrite andb_false_iff, !Z.leb_gt in E. lia. }
  induction Hr as [off|off m Hlt Hnop Hr IH|off m len Hlt H0 H1 Hlen H2 Hle Hne Hr IH]; intros [|n] Ho Hn;
    try (apply reaches_le in Hr; lia); try lia; cbn [mss_loop].
  - destruct Hopt as (hi & lo & Eb & ->). destruct (Z.leb_spec stop off); [lia|].
    destruct (Hload off) as [w Ew]; [lia|]. rewrite Ew. destruct (option_word f off w Hf Ew) as (b0 & b1 & b2 & b3 & Eb' & _ & _ & -> & -> & -> & _).
    rewrite Eb in Eb'. injection Eb' as <- <- <- <-. destruct (_ || _) eqn:E; [rewrite orb_true_iff, !Z.ltb_lt in E; lia|]. cbn [Z.eqb Pos.eqb andb].
    destruct (Z.leb_spec (256 * hi + lo) TCP_MSS_CLAMP); [lia|].
    destruct (l4_csum_replace _ _ _ _ _) as [f1|] eqn:Ec; [|by apply Hok in Ec].
    destruct (clamp_here f l4off off (256 * hi + lo) f1) as (f2 & -> & Hc); [done..|lia|by exists hi, lo|done|done|done].
  - pose proof (reaches_le _ _ _ _ Hr). destruct (Z.leb_spec stop off); [lia|]. destruct (Hload off) as [w Ew]; [lia|]. rewrite Ew.
    destruct (option_word f off w Hf Ew) as (b0 & b1 & b2 & b3 & _ & F0 & _ & -> & _). assert (b0 = 1) as -> by congruence.
    cbn [Z.eqb Pos.eqb]. apply IH; [done..|lia|lia].
  - pose proof (reaches_le _ _ _ _ Hr). destruct (Z.leb_spec stop off); [lia|]. destruct (Hload off) as [w Ew]; [lia|]. rewrite Ew.
    destruct (option_word f off w Hf Ew) as (b0 & b1 & b2 & b3 & _ & F0 & F1 & -> & -> & -> & _).
    assert (b1 = len) as -> by congruence. rewrite F0 in *. destruct (Z.eqb_spec b0 0); [done|]. destruct (Z.eqb_spec b0 1); [done|].
    destruct (_ || _) eqn:E; [rewrite orb_true_iff, !Z.ltb_lt in E; lia|]. destruct (_ && _) eqn:Em; [to_prop; lia|].
    apply IH; [done..|lia|lia].
Qed.

(** The MSS clamp is safe: whatever frame it gets, it either leaves it alone or rewrites one
    MSS option of a bare SYN, one the option list reaches, whose value exceeded 1200, to 1200;
    the only other bytes it changes are the TCP checksum, and for an option at an even offset
    the sum the receiver verifies does not change. *)
Theorem tcp_mss_clamp_sound skb :
  skb_ok skb ->
  tcp_mss_clamp_packet skb = skb \/
  exists l4off m, mss_l4off skb = Some l4off /\ bare_syn (field (frame skb) (l4off + 13) 1) = true /\
    reaches (frame skb) (l4off + 4 * Z.shiftr (field (frame skb) (l4off + 12) 1) 4) (l4off + 20) m /\
    linear (tcp_mss_clamp_packet skb) = linear skb /\
    clamped_at (frame skb) (frame (tcp_mss_clamp_packet skb)) l4off m.
Proof.
  intros [Hf Hl]. unfold tcp_mss_clamp_packet. destruct (mss_l4off skb) as [l4off|] eqn:El; [|by left].
  assert (0 <= l4off) as Hpos.
  { revert El. unfold mss_l4off, L4_OFF6, ETH_HLEN. repeat case_if; intros [= <-]; [|lia].
    rewrite Z.shiftl_mul_pow2 by lia. pose proof (Z.land_nonneg (field (frame skb) 14 1) 15). lia. }
  destruct (Z.ltb_spec (linear skb) (l4off + 20)); [by left|]. destruct (_ || _) eqn:E; [by left|].
  rewrite orb_false_iff, negb_false_iff in E. destruct E as [_ Hsyn].
  destruct (Z.ltb_spec (linear skb) (l4off + Z.shiftl (Z.shiftr (field (frame skb) (l4off + 12) 1) 4) 2)); [by left|].
  rewrite Z.shiftl_mul_pow2 in * by lia. set (doff := Z.shiftr _ 4) in *. replace (l4off + doff * 2 ^ 2) with (l4off + 4 * doff) in * by lia.
  unfold skb_len in Hl. destruct (mss_loop_sound 40 (frame skb) l4off (l4off + 20) (l4off + 4 * doff) Hf Hpos) as [Eq|(m & Hr & _ & _ & Hc)]; [lia|lia| |].
  - left. rewrite Eq. by destruct skb.
  - right. exists l4off, m. auto.
Qed.

(** C34. The MSS clamp works: on a bare SYN whose linear area holds the TCP header, when the
    checksum helper does not refuse, an MSS option above 1200 that the option list reaches is
    rewritten to 1200; the forty iterations are enough for every header. *)
Theorem tcp_mss_clamp_complete skb l4off m mss :
  skb_ok skb -> mss_l4off skb = Some l4off -> 0 <= l4off ->
  let stop := l4off + 4 * Z.shiftr (field (frame skb) (l4off + 12) 1) 4 in
  l4off + 20 <= stop -> stop <= linear skb ->
  bare_syn (field (frame skb) (l4off + 13) 1) = true ->
  reaches (frame skb) stop (l4off + 20) m -> m + 4 <= stop -> mss_option (frame skb) m mss -> TCP_MSS_CLAMP < mss ->
  (forall from to, l4_csum_replace (frame skb) (l4off + 16) from to 2 <> None) ->
  mss_option (frame (tcp_mss_clamp_packet skb)) m TCP_MSS_CLAMP.
Proof.
  intros [Hf Hl] El Hpos stop Hdoff Hlin Hsyn Hr Hm Hopt Hbig Hok. unfold tcp_mss_clamp_packet. rewrite El.
  set (doff := Z.shiftr (field (frame skb) (l4off + 12) 1) 4) in *. unfold skb_len in Hl.
  assert (0 <= field (frame skb) (l4off + 12) 1 < 256) as Hb.
  { unfold field. pose proof (le_bound _ (bytes_at_byte (frame skb) (l4off + 12) 1 Hf)) as B.
    rewrite bytes_at_length in B by lia. exact B. }
  assert (doff < 16) as Hd by (unfold doff; rewrite Z.shiftr_div_pow2 by lia; apply Z.div_lt_upper_bound; lia).
  destruct (Z.ltb_spec (linear skb) (l4off + 20)); [lia|]. rewrite Hsyn. cbn [negb]. rewrite orb_false_r.
  destruct (Z.ltb_spec doff 5); [lia|]. rewrite Z.shiftl_mul_pow2 by lia. replace (l4off + doff * 2 ^ 2) with stop by (unfold stop; lia).
  destruct (Z.ltb_spec (linear skb) stop); [lia|]. cbn [frame].
  destruct (mss_loop_complete 40 (frame skb) l4off (l4off + 20) stop m mss Hf Hpos) as (? & ? & _ & _ & _ & _ & Hdone & _); [lia|lia|done..|lia|done|done].
Qed.
End MssProofs.

(** ** Concrete frames *)

(** Checksum helpers that compute the incremental update of RFC 1624. *)
Definition rfc1624_step (flags c from to : Z) : Z :=
  if negb (Z.land flags MANGLED_0 =? 0) && (c =? 0) then 0
  else let c' := (c + from - to) mod 65535 in
       if negb (Z.land flags MANGLED_0 =? 0) && (c' =? 0) then 65535 else c'.

Lemma rfc1624_step_spec flags c from to : csum_replaced flags c from to (rfc1624_step flags c from to).
Proof.
  unfold csum_replaced, rfc1624_step. pose proof (Z.mod_pos_bound (c + from - to) 65535 ltac:(lia)) as Hb.
  destruct (_ && (c =? 0)); [done|].
  assert (((c + from - to) mod 65535 + to) mod 65535 = (c + from) mod 65535) as Em.
  { rewrite Zplus_mod_idemp_l. f_equal. lia. }
  destruct (Z.eqb_spec (Z.land flags MANGLED_0) 0) as [Hz|Hz]; cbn [negb andb].
  - split; [done|]. split; [lia|done].
  - destruct (Z.eqb_spec ((c + from - to) mod 65535) 0) as [E0|]; [|split; [done|split; [lia|done]]].
    rewrite E0 in Em. split; [|split; [lia|done]]. rewrite <-Em. by rewrite <-(Z.mod_add (0 + to) 1 65535), Z.mul_1_l, Z.add_comm by lia.
Qed.

Definition rfc1624_replace (f : list Z) (off from to flags : Z) : option (list Z) :=
  if (0 <=? off) && (off + 2 <=? Z.of_nat (length f))
  then Some (patch f off (le_bytes 2 (rfc1624_step flags (field f off 2) from to))) else None.

Lemma rfc1624_replace_spec f off from to flags f' : rfc1624_replace f off from to flags = Some f' ->
  0 <= off /\ off + 2 <= Z.of_nat (length f) /\
  exists c', csum_replaced flags (field f off 2) from to c' /\ f' = patch f off (le_bytes 2 c').
Proof.
  unfold rfc1624_replace. destruct (_ && _) eqn:E; [|done]. intros [= <-]. to_prop. split; [done|]. split; [done|].
  eexists. split; [apply rfc1624_step_spec|done].
Qed.

Definition rfc1624_helpers : ChecksumHelpers := {|
  l4_csum_replace := rfc1624_replace; l4_csum_replace_spec := rfc1624_replace_spec;
  l3_csum_replace f off from to _ := rfc1624_replace f off from to 0;
  l3_csum_replace_spec f off from to _ f' := rfc1624_replace_spec f off from to 0 f' |}.

(** A SYN over IPv4 with the given TCP options. *)
Definition syn_frame (doff : Z) (options : list Z) : list Z :=
  replicate 12 0 ++ [8; 0] ++
  [0x45; 0; 0; 44; 0; 0; 0x40; 0; 64; 6; 0; 0; 10; 0; 0; 1; 10; 0; 0; 2] ++
  [0x30; 0x39; 0; 80; 0; 0; 0; 1; 0; 0; 0; 0; doff * 16; 2; 0xff; 0xff; 0x12; 0x34; 0; 0] ++ options.

Definition syn_1460 : sk_buff := MkSkb (syn_frame 6 [2; 4; 5; 180]) 58.
Definition syn_odd : sk_buff := MkSkb (syn_frame 7 [1; 2; 4; 5; 180; 0; 0; 0]) 62.

Lemma syn_1460_ok : skb_ok syn_1460.
Proof. split; [apply bytes_lit; vm_compute; reflexivity|vm_compute; split; discriminate]. Qed.

Lemma transport_where_expected_witness :
  rfc_transport (frame syn_1460) = Some (6, 34) /\
  sg_l4 syn_1460 6 34 = Some (htons 80) /\ htons 80 = htons (be (bytes_at (frame syn_1460) 36 2)).
Proof.
  destruct (transport_where_expected syn_1460 (MkPkt false 6 (v4_to_128 [10; 0; 0; 1]) (v4_to_128 [10; 0; 0; 2])) syn_1460_ok eq_refl eq_refl)
    as (H & _ & Hp).
  split; [exact H|]. split; [reflexivity|]. exact (Hp (htons 80) eq_refl).
Defined.

Definition scattered : sk_buff := MkSkb (frame syn_1460) 14.

Lemma pull_headers_layout_witness :
  parse_ip scattered = None /\ parse_ip (pull_headers true scattered) = parse_ip syn_1460.
Proof.
  split; [reflexivity|].
  assert (skb_ok scattered) as Hok by (split; [exact (proj1 syn_1460_ok)|vm_compute; split; discriminate]).
  destruct (pull_headers_layout scattered Hok) as (_ & _ & H & _). exact H.
Defined.

Lemma tcp_mss_clamp_sound_witness :
  tcp_mss_clamp_packet (H := rfc1624_helpers) syn_1460 = syn_1460 \/
  exists l4off m, mss_l4off syn_1460 = Some l4off /\
    clamped_at (frame syn_1460) (frame (tcp_mss_clamp_packet (H := rfc1624_helpers) syn_1460)) l4off m.
Proof.
  destruct (tcp_mss_clamp_sound (H := rfc1624_helpers) syn_1460 syn_1460_ok) as [H|(l4off & m & H & _ & _ & _ & Hc)]; [left; exact H|].
  right. exists l4off, m. split; [exact H|exact Hc].
Defined.

Lemma syn_1460_helper from to : l4_csum_replace (ChecksumHelpers := rfc1624_helpers) (frame syn_1460) (34 + 16) from to 2 <> None.
Proof. cbn [l4_csum_replace rfc1624_helpers]. unfold rfc1624_replace. by replace (_ && _) with true by reflexivity. Qed.

Lemma tcp_mss_clamp_complete_witness :
  mss_option (frame (tcp_mss_clamp_packet (H := rfc1624_helpers) syn_1460)) 54 TCP_MSS_CLAMP.
Proof.
  refine (tcp_mss_clamp_complete (H := rfc1624_helpers) syn_1460 34 54 1460 syn_1460_ok eq_refl _ _ _ eq_refl (reaches_here _ _ _) _ _ eq_refl syn_1460_helper);
    [discriminate|discriminate|discriminate|discriminate|exists 5, 180; split; reflexivity].
Defined.

(** At an odd offset the clamp leaves a checksum the receiver rejects: the helper takes the
    value as an aligned word, but the option's bytes straddle two words. *)
Lemma odd_mss_breaks_checksum :
  let f := frame syn_odd in
  let f' := frame (tcp_mss_clamp_packet (H := rfc1624_helpers) syn_odd) in
  mss_option f' 55 TCP_MSS_CLAMP /\ word_sum (drop 34 f') mod 65535 <> word_sum (drop 34 f) mod 65535.
Proof. split; [exists 4, 176; split; vm_compute; reflexivity|vm_compute; discriminate]. Qed.
