(* ===== verification/Embedded.v ===== *)
(** * ICMP errors and the packets inside them

    An ICMP error carries the head of the packet it is about, and NAT must translate that too:
    [emb_rewrite] and [emb6_rewrite] of [bpf/overlay.c] change addresses and a port inside the
    payload, keep the embedded checksums right with a plain-C incremental update, and fold
    every changed byte into the outer ICMP checksum.  The theorems say that the sums a receiver
    verifies do not change. *)
From Stdlib Require Import ZArith Lia.
From stdpp Require Import base list numbers.
From S2P Require Import Prelude GoNet AddrMap Lpm Packet.
Open Scope Z_scope.

(** ** Incremental checksums in C *)

(** [csum_upd16], bpf/overlay.c:3032-3040. *)
Definition csum_upd16 (c old new : Z) : Z :=
  let sum := (65535 - c) + (65535 - old) + new in
  let sum := Z.land sum 0xffff + Z.shiftr sum 16 in
  let sum := Z.land sum 0xffff + Z.shiftr sum 16 in
  u16 (Z.lnot sum).

(** [csum_upd32], bpf/overlay.c:3042-3046. *)
Definition csum_upd32 (c old new : Z) : Z :=
  let c := csum_upd16 c (Z.land old 0xffff) (Z.land new 0xffff) in
  csum_upd16 c (u16 (Z.shiftr old 16)) (u16 (Z.shiftr new 16)).

(** [csum_upd128], bpf/overlay.c:3138-3147. *)
Definition csum_upd128 (c : Z) (o n : list Z) : Z :=
  fold_left (fun c i => csum_upd32 c (field o (4 * i) 4) (field n (4 * i) 4)) [0; 1; 2; 3] c.

(** ** The embedded packet *)

(** [ICMP_CSUM_OFF], bpf/overlay.c:98-98. *)
Definition ICMP_CSUM_OFF : Z := L4_OFF + 2.
(** [EMB_IP_OFF], bpf/overlay.c:109-109. *)
Definition EMB_IP_OFF : Z := L4_OFF + 8.
(** [EMB_IP_PROTO_OFF], bpf/overlay.c:110-110. *)
Definition EMB_IP_PROTO_OFF : Z := EMB_IP_OFF + 9.
(** [EMB_IP_CSUM_OFF], bpf/overlay.c:111-111. *)
Definition EMB_IP_CSUM_OFF : Z := EMB_IP_OFF + 10.
(** [EMB_SADDR_OFF], bpf/overlay.c:112-112. *)
Definition EMB_SADDR_OFF : Z := EMB_IP_OFF + 12.
(** [EMB_DADDR_OFF], bpf/overlay.c:113-113. *)
Definition EMB_DADDR_OFF : Z := EMB_IP_OFF + 16.
(** [EMB_SPORT_OFF], bpf/overlay.c:114-115. *)
Definition EMB_SPORT_OFF : Z := EMB_IP_OFF + 20.
(** [EMB_DPORT_OFF], bpf/overlay.c:116-116. *)
Definition EMB_DPORT_OFF : Z := EMB_IP_OFF + 22.
(** [EMB_UDP_CSUM_OFF], bpf/overlay.c:117-117. *)
Definition EMB_UDP_CSUM_OFF : Z := EMB_IP_OFF + 26.

(** [emb], bpf/overlay.c:3050-3056. *)
Record emb := MkEmb { e_proto : Z; e_saddr : Z; e_daddr : Z; e_sport : Z; e_dport : Z; e_ip_csum : Z; e_udp_csum : Z }.

(** [emb_load], bpf/overlay.c:3058-3075. *)
Definition emb_load (f : list Z) : option emb :=
  vihl ← load_field f EMB_IP_OFF 1;
  if negb (vihl =? 0x45) then None
  else
    proto ← load_field f EMB_IP_PROTO_OFF 1;
    ip_csum ← load_field f EMB_IP_CSUM_OFF 2;
    saddr ← load_field f EMB_SADDR_OFF 4;
    daddr ← load_field f EMB_DADDR_OFF 4;
    sport ← load_field f EMB_SPORT_OFF 2;
    dport ← load_field f EMB_DPORT_OFF 2;
    udp_csum ← (if proto =? IPPROTO_UDP then load_field f EMB_UDP_CSUM_OFF 2 else Some 0);
    Some (MkEmb proto saddr daddr sport dport ip_csum udp_csum).

Section Rewrite.
Context `{ChecksumHelpers}.

(** The results of the helpers are not looked at. *)
Definition csum_fix (f : list Z) (off old new flags : Z) : list Z := default f (l4_csum_replace f off old new flags).
Definition put_bytes (f : list Z) (off : Z) (v : list Z) : list Z := default f (store_bytes f off v).

(** [emb_store16], bpf/overlay.c:3082-3086. *)
Definition emb_store16 (f : list Z) (off old new : Z) : list Z :=
  put_bytes (csum_fix f ICMP_CSUM_OFF old new 2) off (le_bytes 2 new).

(** [emb_store32], bpf/overlay.c:3088-3092. *)
Definition emb_store32 (f : list Z) (off old new : Z) : list Z :=
  put_bytes (csum_fix f ICMP_CSUM_OFF old new 4) off (le_bytes 4 new).

(** [emb_rewrite], the new embedded UDP checksum, bpf/overlay.c:3116-3126. *)
Definition emb_udp_csum (e : emb) (nsaddr ndaddr oport nport : Z) : Z :=
  let udp := csum_upd32 (e_udp_csum e) (e_saddr e) nsaddr in
  let udp := csum_upd32 udp (e_daddr e) ndaddr in
  let udp := if nport =? 0 then udp else csum_upd16 udp oport nport in
  if udp =? 0 then 0xffff else udp.

(** [emb_rewrite], the embedded IP header, bpf/overlay.c:3103-3112. *)
Definition emb_rewrite_ip (f : list Z) (e : emb) (nsaddr ndaddr : Z) : list Z :=
  let ip_csum := csum_upd32 (csum_upd32 (e_ip_csum e) (e_saddr e) nsaddr) (e_daddr e) ndaddr in
  let f := if e_saddr e =? nsaddr then f else emb_store32 f EMB_SADDR_OFF (e_saddr e) nsaddr in
  let f := if e_daddr e =? ndaddr then f else emb_store32 f EMB_DADDR_OFF (e_daddr e) ndaddr in
  if e_ip_csum e =? ip_csum then f else emb_store16 f EMB_IP_CSUM_OFF (e_ip_csum e) ip_csum.

(** [emb_rewrite], the port, bpf/overlay.c:3113-3114. *)
Definition emb_rewrite_port (f : list Z) (port_off oport nport : Z) : list Z :=
  if (nport =? 0) || (oport =? nport) then f else emb_store16 f port_off oport nport.

(** [emb_rewrite], bpf/overlay.c:3099-3127. *)
Definition emb_rewrite (f : list Z) (e : emb) (nsaddr ndaddr port_off oport nport : Z) : list Z :=
  let f := emb_rewrite_ip f e nsaddr ndaddr in
  let f := emb_rewrite_port f port_off oport nport in
  if (e_proto e =? IPPROTO_UDP) && negb (e_udp_csum e =? 0) then
    let udp := emb_udp_csum e nsaddr ndaddr oport nport in
    if e_udp_csum e =? udp then f else emb_store16 f EMB_UDP_CSUM_OFF (e_udp_csum e) udp
  else f.

(** [EMB6_IP_OFF], bpf/overlay.c:149-149. *)
Definition EMB6_IP_OFF : Z := L4_OFF6 + 8.
(** [ICMP6_CSUM_OFF], bpf/overlay.c:131-131. *)
Definition ICMP6_CSUM_OFF : Z := L4_OFF6 + 2.
(** [EMB6_NEXTHDR_OFF], bpf/overlay.c:150-150. *)
Definition EMB6_NEXTHDR_OFF : Z := EMB6_IP_OFF + 6.
(** [EMB6_SADDR_OFF], bpf/overlay.c:151-151. *)
Definition EMB6_SADDR_OFF : Z := EMB6_IP_OFF + 8.
(** [EMB6_DADDR_OFF], bpf/overlay.c:152-152. *)
Definition EMB6_DADDR_OFF : Z := EMB6_IP_OFF + 24.
(** [EMB6_SPORT_OFF], bpf/overlay.c:153-154. *)
Definition EMB6_SPORT_OFF : Z := EMB6_IP_OFF + 40.
(** [EMB6_DPORT_OFF], bpf/overlay.c:155-155. *)
Definition EMB6_DPORT_OFF : Z := EMB6_IP_OFF + 42.
(** [EMB6_UDP_CSUM_OFF], bpf/overlay.c:156-156. *)
Definition EMB6_UDP_CSUM_OFF : Z := EMB6_IP_OFF + 46.

(** [emb6], bpf/overlay.c:3152-3157. *)
Record emb6 := MkEmb6 { e6_proto : Z; e6_saddr : list Z; e6_daddr : list Z; e6_sport : Z; e6_dport : Z; e6_udp_csum : Z }.

(** [emb6_load], bpf/overlay.c:3159-3175. *)
Definition emb6_load (f : list Z) : option emb6 :=
  ver ← load_field f EMB6_IP_OFF 1;
  if negb (Z.shiftr ver 4 =? 6) then None
  else
    proto ← load_field f EMB6_NEXTHDR_OFF 1;
    saddr ← load_bytes f EMB6_SADDR_OFF 16;
    daddr ← load_bytes f EMB6_DADDR_OFF 16;
    sport ← load_field f EMB6_SPORT_OFF 2;
    dport ← load_field f EMB6_DPORT_OFF 2;
    udp_csum ← (if proto =? IPPROTO_UDP then load_field f EMB6_UDP_CSUM_OFF 2 else Some 0);
    Some (MkEmb6 proto saddr daddr sport dport udp_csum).

(** [emb6_store16], bpf/overlay.c:3180-3184. *)
Definition emb6_store16 (f : list Z) (off old new : Z) : list Z :=
  put_bytes (csum_fix f ICMP6_CSUM_OFF old new 2) off (le_bytes 2 new).

(** [emb6_store_addr], bpf/overlay.c:3186-3197. *)
Definition emb6_store_addr (f : list Z) (off : Z) (o n : list Z) : list Z :=
  put_bytes (fold_left (fun f i =>
    let ow := field o (4 * i) 4 in
    let nw := field n (4 * i) 4 in
    if ow =? nw then f else csum_fix f ICMP6_CSUM_OFF ow nw 4) [0; 1; 2; 3] f) off n.

(** [emb6_rewrite], the new embedded UDP checksum, bpf/overlay.c:3210-3220. *)
Definition emb6_udp_csum (e : emb6) (nsaddr ndaddr : list Z) (oport nport : Z) : Z :=
  let udp := csum_upd128 (e6_udp_csum e) (e6_saddr e) nsaddr in
  let udp := csum_upd128 udp (e6_daddr e) ndaddr in
  let udp := if nport =? 0 then udp else csum_upd16 udp oport nport in
  if udp =? 0 then 0xffff else udp.

(** [emb6_rewrite], bpf/overlay.c:3202-3221. *)
Definition emb6_rewrite (f : list Z) (e : emb6) (nsaddr ndaddr : list Z) (port_off oport nport : Z) : list Z :=
  let f := emb6_store_addr f EMB6_SADDR_OFF (e6_saddr e) nsaddr in
  let f := emb6_store_addr f EMB6_DADDR_OFF (e6_daddr e) ndaddr in
  let f := if (nport =? 0) || (oport =? nport) then f else emb6_store16 f port_off oport nport in
  if (e6_proto e =? IPPROTO_UDP) && negb (e6_udp_csum e =? 0) then
    let udp := emb6_udp_csum e nsaddr ndaddr oport nport in
    if e6_udp_csum e =? udp then f else emb6_store16 f EMB6_UDP_CSUM_OFF (e6_udp_csum e) udp
  else f.
End Rewrite.

(** ** Sums *)

Lemma land_ffff x : Z.land x 0xffff = x mod 65536.
Proof. change 0xffff with (Z.ones 16). by rewrite Z.land_ones. Qed.

Lemma csum_upd16_spec c old new : 0 <= c < 65536 -> 0 <= old < 65536 -> 0 <= new < 65536 ->
  (csum_upd16 c old new + new) mod 65535 = (c + old) mod 65535 /\ 0 <= csum_upd16 c old new < 65536.
Proof.
  intros Hc Ho Hn. unfold csum_upd16, u16. rewrite !land_ffff, !Z.shiftr_div_pow2 by lia. change (2 ^ 16) with 65536.
  set (s := 65535 - c + (65535 - old) + new). set (s1 := s mod 65536 + s / 65536). set (s2 := s1 mod 65536 + s1 / 65536).
  pose proof (Z.div_mod s 65536 ltac:(lia)). pose proof (Z.mod_pos_bound s 65536 ltac:(lia)).
  pose proof (Z.div_mod s1 65536 ltac:(lia)). pose proof (Z.mod_pos_bound s1 65536 ltac:(lia)).
  assert (0 <= s / 65536 <= 2) by lia. assert (0 <= s1 / 65536 <= 1) by lia. assert (0 <= s2 <= 65535) by lia.
  assert (Z.lnot s2 mod 65536 = 65535 - s2) as ->.
  { unfold Z.lnot. symmetry. apply (Z.mod_unique _ _ (-1)); lia. }
  split; [|lia]. apply mod_eq; [lia|]. exists (s / 65536 + s1 / 65536 - 1). lia.
Qed.

Lemma csum_upd32_spec c old new : 0 <= c < 65536 -> 0 <= old < 2 ^ 32 -> 0 <= new < 2 ^ 32 ->
  (csum_upd32 c old new + new) mod 65535 = (c + old) mod 65535 /\ 0 <= csum_upd32 c old new < 65536.
Proof.
  intros Hc Ho Hn. unfold csum_upd32, u16. rewrite !land_ffff, !Z.shiftr_div_pow2 by lia.
  change (2 ^ 16) with 65536 in *. change (2 ^ 32) with (65536 * 65536) in *.
  assert (forall x, 0 <= x < 65536 * 65536 -> x = 65536 * (x / 65536) + x mod 65536 /\ 0 <= x mod 65536 < 65536 /\
    (x / 65536) mod 65536 = x / 65536 /\ 0 <= x / 65536 < 65536) as W.
  { intros x Hx. pose proof (Z.div_mod x 65536 ltac:(lia)). pose proof (Z.mod_pos_bound x 65536 ltac:(lia)).
    assert (0 <= x / 65536 < 65536) by lia. split; [lia|]. split; [lia|]. split; [apply Z.mod_small; lia|lia]. }
  destruct (W old Ho) as (Eo & ? & -> & ?), (W new Hn) as (En & ? & -> & ?).
  destruct (csum_upd16_spec c (old mod 65536) (new mod 65536)) as [E1 R1]; [done..|].
  destruct (csum_upd16_spec (csum_upd16 c (old mod 65536) (new mod 65536)) (old / 65536) (new / 65536)) as [E2 R2]; [done..|].
  split; [|done]. apply mod_eq in E1 as [k1 E1], E2 as [k2 E2]; [|lia..]. apply mod_eq; [lia|].
  exists (k1 + k2 + new / 65536 - old / 65536). lia.
Qed.

(** ** Edits that keep the outer sum *)

(** The checksum helper never refuses a checksum inside the frame. *)
Definition csum_total `{ChecksumHelpers} : Prop := forall f off from to flags,
  0 <= off -> off + 2 <= Z.of_nat (length f) -> l4_csum_replace f off from to flags <> None.

(** Congruence of sums. *)
Notation "a ≡ₛ b" := (a mod 65535 = b mod 65535) (at level 70, format "a  ≡ₛ  b").

Definition apart (o : Z) (m : nat) (off : Z) (n : nat) : Prop := o + Z.of_nat m <= off \/ off + Z.of_nat n <= o.

Lemma patch_byte f off v : Forall byte f -> Forall byte v -> Forall byte (patch f off v).
Proof. intros. unfold patch. rewrite !Forall_app. split; [by apply Forall_take|]. split; [done|by apply Forall_drop]. Qed.

Section Edits.
Context `{ChecksumHelpers} (k : Z).
Hypothesis Hk : 0 <= k.
Hypothesis Htotal : csum_total.

Definition rsum (f : list Z) : Z := le (drop (Z.to_nat k) f).

(** [f'] differs from [f] in [off .. off+n) and the checksum at [k+2] only. *)
Definition same_but (f f' : list Z) (off : Z) (n : nat) : Prop :=
  length f' = length f /\ Forall byte f' /\
  forall o m, 0 <= o -> apart o m off n -> apart o m (k + 2) 2 -> bytes_at f' o m = bytes_at f o m.

Definition edited (f f' : list Z) (off : Z) (n : nat) (new : Z) : Prop :=
  same_but f f' off n /\ rsum f' ≡ₛ rsum f /\ field f' off n = new.

Lemma csum_fix_spec f old new flags : Forall byte f -> k + 4 <= Z.of_nat (length f) -> Z.land flags MANGLED_0 = 0 ->
  same_but f (csum_fix f (k + 2) old new flags) (k + 2) 2 /\ (rsum (csum_fix f (k + 2) old new flags) + new) ≡ₛ (rsum f + old).
Proof.
  intros Hf Hl Hfl. unfold csum_fix. destruct (l4_csum_replace f (k + 2) old new flags) as [f1|] eqn:E; [|apply Htotal in E; [done|lia|lia]].
  destruct (l4_csum_replace_spec _ _ _ _ _ _ E) as (_ & Hfit & c & Hc & ->). cbn [default from_option id].
  destruct (csum_parts _ _ _ _ _ Hc Hfl) as [Hs Hr]. pose proof (le_bytes_length 2 c) as L2. split.
  - split; [by apply patch_length; lia|]. split; [apply patch_byte; [done|apply le_bytes_byte]|].
    intros o m Ho Ha _. apply bytes_at_patch_ne; [lia..|]. rewrite L2. done.
  - pose proof (sum_patch f k (k + 2) (le_bytes 2 c) ltac:(lia) ltac:(lia)) as S1.
    replace (k + 2 - k) with 2 in S1 by lia. specialize (S1 eq_refl). rewrite L2, le_le_bytes in S1 by done. unfold rsum.
    apply mod_eq in S1 as [k1 S1], Hs as [k2 Hs]; [|lia..]. apply mod_eq; [lia|]. exists (k1 + k2). lia.
Qed.

Lemma put_bytes_spec f off v : Forall byte f -> Forall byte v -> k + 4 <= off -> off + Z.of_nat (length v) <= Z.of_nat (length f) ->
  Z.even (off - k) = true ->
  same_but f (put_bytes f off v) off (length v) /\ (rsum (put_bytes f off v) + field f off (length v)) ≡ₛ (rsum f + le v) /\
  field (put_bytes f off v) off (length v) = le v.
Proof.
  intros Hf Hv Ho Hl He. unfold put_bytes, store_bytes.
  destruct (_ && _) eqn:E; [|rewrite andb_false_iff, !Z.leb_gt in E; lia]. cbn [default from_option id]. split; [|split].
  - split; [apply patch_length; lia|]. split; [by apply patch_byte|]. intros o m Ho' Ha _. by apply bytes_at_patch_ne; [lia..|].
  - apply sum_patch; [lia|done|done].
  - unfold field. by rewrite bytes_at_patch.
Qed.

Lemma same_but_field f f' off n o m : same_but f f' off n -> 0 <= o -> apart o m off n -> apart o m (k + 2) 2 -> field f' o m = field f o m.
Proof. intros (_ & _ & Hs) ? ? ?. unfold field. by rewrite Hs. Qed.

(** A 16- or 32-bit store with its compensation, or none when the value stays. *)
Lemma store_edited f off n old new flags : Forall byte f -> k + 4 <= off -> off + Z.of_nat n <= Z.of_nat (length f) ->
  Z.even (off - k) = true -> Z.land flags MANGLED_0 = 0 -> 0 <= new < 256 ^ Z.of_nat n -> field f off n = old ->
  edited f (if old =? new then f else put_bytes (csum_fix f (k + 2) old new flags) off (le_bytes n new)) off n new.
Proof.
  intros Hf Ho Hl He Hfl Hn Hold. destruct (Z.eqb_spec old new) as [<- |_]; [by split; [split|split]|].
  pose proof (le_bytes_length n new) as Ln.
  destruct (csum_fix_spec f old new flags Hf ltac:(lia) Hfl) as [(L1 & B1 & S1) E1]. set (f1 := csum_fix _ _ _ _ _) in *.
  destruct (put_bytes_spec f1 off (le_bytes n new) B1 (le_bytes_byte _ _) Ho ltac:(lia) He) as [(L2 & B2 & S2) [E2 F2]].
  rewrite Ln, le_le_bytes in * by done. split; [|split; [|done]].
  - split; [congruence|]. split; [done|]. intros o m Ho' Ha Hb. by rewrite S2, S1.
  - assert (field f1 off n = old) as F1 by (rewrite <-Hold; unfold field; rewrite S1; [done|lia|unfold apart; lia..]).
    rewrite F1 in E2. apply mod_eq in E1 as [k1 E1], E2 as [k2 E2]; [|lia..]. apply mod_eq; [lia|]. exists (k1 + k2). lia.
Qed.
End Edits.

(** ** Rewriting an embedded IPv4 packet *)

Lemma load_field_inv f off n v : load_field f off n = Some v ->
  0 <= off /\ off + Z.of_nat n <= Z.of_nat (length f) /\ field f off n = v.
Proof. unfold load_field, load_bytes. destruct (_ && _) eqn:E; [|done]. intros [= <-]. to_prop. auto. Qed.

Lemma field_bound f off n : Forall byte f -> 0 <= off -> off + Z.of_nat n <= Z.of_nat (length f) -> 0 <= field f off n < 256 ^ Z.of_nat n.
Proof. intros Hf Ho Hl. unfold field. pose proof (le_bound _ (bytes_at_byte f off n Hf)) as B. by rewrite bytes_at_length in B. Qed.

(** The sum of an IPv4 header: its first ten bytes, checksum and addresses. *)
Lemma header_sum f off : 0 <= off -> off + 20 <= Z.of_nat (length f) ->
  word_sum (bytes_at f off 20) ≡ₛ field f off 10 + field f (off + 10) 2 + field f (off + 12) 4 + field f (off + 16) 4.
Proof.
  intros Ho Hl. rewrite word_sum_le. change 20%nat with (10 + (2 + (4 + 4)))%nat. rewrite !bytes_split by lia.
  rewrite !le_app, !bytes_at_length by lia. unfold field. change (Z.of_nat 10) with 10. change (Z.of_nat 2) with 2. change (Z.of_nat 4) with 4.
  replace (off + 10 + 2) with (off + 12) by lia. replace (off + 12 + 4) with (off + 16) by lia.
  set (a := le (bytes_at f off 10)). set (b := le (bytes_at f (off + 10) 2)). set (c := le (bytes_at f (off + 12) 4)). set (d := le (bytes_at f (off + 16) 4)).
  apply mod_eq; [lia|]. exists (b * (256 ^ 10 / 65535) + c * (256 ^ 12 / 65535) + d * (256 ^ 16 / 65535)).
  change (256 ^ 10 / 65535) with ((256 ^ 10 - 1) / 65535). change (256 ^ 12 / 65535) with ((256 ^ 12 - 1) / 65535).
  change (256 ^ 16 / 65535) with ((256 ^ 16 - 1) / 65535).
  assert (256 ^ 10 = 1 + ((256 ^ 10 - 1) / 65535) * 65535) as P10 by reflexivity.
  assert (256 ^ 12 = 1 + ((256 ^ 12 - 1) / 65535) * 65535) as P12 by reflexivity.
  assert (256 ^ 16 = 1 + ((256 ^ 16 - 1) / 65535) * 65535) as P16 by reflexivity.
  replace (a + 256 ^ 10 * (b + 256 ^ 2 * (c + 256 ^ 4 * d))) with (a + 256 ^ 10 * b + 256 ^ 12 * c + 256 ^ 16 * d) by ring.
  rewrite P10, P12, P16 at 1. ring.
Qed.

Lemma emb_load_inv f e : emb_load f = Some e ->
  66 <= Z.of_nat (length f) /\ field f EMB_IP_CSUM_OFF 2 = e_ip_csum e /\ field f EMB_SADDR_OFF 4 = e_saddr e /\
  field f EMB_DADDR_OFF 4 = e_daddr e /\ field f EMB_SPORT_OFF 2 = e_sport e /\ field f EMB_DPORT_OFF 2 = e_dport e /\
  (e_proto e = IPPROTO_UDP -> 70 <= Z.of_nat (length f) /\ field f EMB_UDP_CSUM_OFF 2 = e_udp_csum e).
Proof.
  unfold emb_load. intros (v & _ & E)%bind_Some. destruct (negb _); [done|].
  apply bind_Some in E as (proto & _ & E). apply bind_Some in E as (ck & H1%load_field_inv & E).
  apply bind_Some in E as (sa & H2%load_field_inv & E). apply bind_Some in E as (da & H3%load_field_inv & E).
  apply bind_Some in E as (sp & H4%load_field_inv & E). apply bind_Some in E as (dp & H5%load_field_inv & E).
  apply bind_Some in E as (uc & Hu & E). injection E as <-. cbn [e_ip_csum e_saddr e_daddr e_sport e_dport e_proto e_udp_csum].
  split; [unfold EMB_DPORT_OFF, EMB_IP_OFF, L4_OFF, ETH_HLEN in H5; lia|]. repeat (split; [tauto|]). intros ->. cbn in Hu.
  apply load_field_inv in Hu. unfold EMB_UDP_CSUM_OFF, EMB_IP_OFF, L4_OFF, ETH_HLEN in *. lia.
Qed.

Lemma edited_keep `{ChecksumHelpers} k f f' off n new o m : edited k f f' off n new -> 0 <= o -> apart o m off n -> apart o m (k + 2) 2 ->
  field f' o m = field f o m.
Proof. intros [Hs _]. by apply same_but_field. Qed.

(** What a receiver checks after the rewrite. *)
Definition emb_rewritten (f f' : list Z) (e : emb) (nsaddr ndaddr port_off oport nport : Z) : Prop :=
  let port' := if nport =? 0 then oport else nport in
  length f' = length f /\ Forall byte f' /\
  field f' EMB_SADDR_OFF 4 = nsaddr /\ field f' EMB_DADDR_OFF 4 = ndaddr /\ field f' port_off 2 = port' /\
  word_sum (drop (Z.to_nat L4_OFF) f') ≡ₛ word_sum (drop (Z.to_nat L4_OFF) f) /\
  word_sum (bytes_at f' EMB_IP_OFF 20) ≡ₛ word_sum (bytes_at f EMB_IP_OFF 20) /\
  (e_proto e = IPPROTO_UDP -> e_udp_csum e <> 0 ->
    field f' EMB_UDP_CSUM_OFF 2 <> 0 /\
    field f' EMB_UDP_CSUM_OFF 2 + nsaddr + ndaddr + port' ≡ₛ e_udp_csum e + e_saddr e + e_daddr e + oport).

Lemma emb_udp_csum_spec e nsaddr ndaddr oport nport :
  0 <= e_udp_csum e < 65536 -> 0 <= e_saddr e < 2 ^ 32 -> 0 <= e_daddr e < 2 ^ 32 -> 0 <= nsaddr < 2 ^ 32 -> 0 <= ndaddr < 2 ^ 32 ->
  0 <= oport < 65536 -> 0 <= nport < 65536 ->
  let udp := emb_udp_csum e nsaddr ndaddr oport nport in
  0 < udp < 65536 /\ udp + nsaddr + ndaddr + (if nport =? 0 then oport else nport) ≡ₛ e_udp_csum e + e_saddr e + e_daddr e + oport.
Proof.
  intros Hc Hs Hd Hns Hnd Ho Hn. unfold emb_udp_csum.
  destruct (csum_upd32_spec (e_udp_csum e) (e_saddr e) nsaddr) as [E1 R1]; [done..|]. set (u1 := csum_upd32 _ (e_saddr e) _) in *.
  destruct (csum_upd32_spec u1 (e_daddr e) ndaddr) as [E2 R2]; [done..|]. set (u2 := csum_upd32 u1 _ _) in *.
  destruct (csum_upd16_spec u2 oport nport) as [E3 R3]; [done..|].
  set (u3 := if nport =? 0 then u2 else csum_upd16 u2 oport nport).
  assert (0 <= u3 < 65536 /\ u3 + (if nport =? 0 then oport else nport) ≡ₛ u2 + oport) as [R E] by (unfold u3; by destruct (nport =? 0)).
  apply mod_eq in E1 as [k1 E1], E2 as [k2 E2], E as [k3 E]; [|lia..].
  destruct (Z.eqb_spec u3 0) as [Z3|Z3]; (split; [lia|]); apply mod_eq; try lia; [exists (k1 + k2 + k3 + 1)|exists (k1 + k2 + k3)]; lia.
Qed.

Ltac offsets := unfold apart, EMB_IP_PROTO_OFF, EMB_IP_CSUM_OFF, EMB_SADDR_OFF, EMB_DADDR_OFF, EMB_SPORT_OFF, EMB_DPORT_OFF, EMB_UDP_CSUM_OFF,
  EMB_IP_OFF, ICMP_CSUM_OFF, L4_OFF, ETH_HLEN, EMB6_NEXTHDR_OFF, EMB6_SADDR_OFF, EMB6_DADDR_OFF, EMB6_SPORT_OFF, EMB6_DPORT_OFF, EMB6_UDP_CSUM_OFF,
  EMB6_IP_OFF, ICMP6_CSUM_OFF, L4_OFF6, ETH_HLEN in *.

(** A field kept by an edit elsewhere. *)
Ltac kept E := rewrite (edited_keep _ _ _ _ _ _ _ _ E); [|offsets; lia..].

Section EmbRewrite.
Context `{ChecksumHelpers}.
Hypothesis Htotal : csum_total.

Lemma emb_edit f off n old new flags : Forall byte f -> 38 <= off -> off + Z.of_nat n <= Z.of_nat (length f) -> Z.even off = true ->
  Z.land flags MANGLED_0 = 0 -> 0 <= new < 256 ^ Z.of_nat n -> field f off n = old ->
  edited L4_OFF f (if old =? new then f else put_bytes (csum_fix f ICMP_CSUM_OFF old new flags) off (le_bytes n new)) off n new.
Proof.
  intros Hf Ho Hl He Hfl Hn Hold. apply (store_edited L4_OFF ltac:(done) Htotal); try done.
  change (off - L4_OFF) with (off - 2 * 17). by rewrite Z.even_sub, He.
Qed.

Lemma edited_length k f f' off n new : edited k f f' off n new -> length f' = length f /\ Forall byte f'.
Proof. intros [(? & ? & _) _]. done. Qed.

Lemma edited_rsum k f f' off n new : edited k f f' off n new -> rsum k f' ≡ₛ rsum k f.
Proof. by intros [_ [? _]]. Qed.
Lemma edited_field k f f' off n new : edited k f f' off n new -> field f' off n = new.
Proof. by intros [_ [_ ?]]. Qed.

(** The embedded IP header after its three stores. *)
Lemma emb_rewrite_ip_spec f e nsaddr ndaddr :
  Forall byte f -> emb_load f = Some e -> 0 <= nsaddr < 2 ^ 32 -> 0 <= ndaddr < 2 ^ 32 ->
  let f' := emb_rewrite_ip f e nsaddr ndaddr in
  length f' = length f /\ Forall byte f' /\ rsum L4_OFF f' ≡ₛ rsum L4_OFF f /\
  field f' EMB_SADDR_OFF 4 = nsaddr /\ field f' EMB_DADDR_OFF 4 = ndaddr /\
  word_sum (bytes_at f' EMB_IP_OFF 20) ≡ₛ word_sum (bytes_at f EMB_IP_OFF 20) /\
  (forall o m, EMB_SPORT_OFF <= o -> field f' o m = field f o m).
Proof.
  intros Hf He Hns Hnd. destruct (emb_load_inv f e He) as (Hl & Fc & Fs & Fd & _).
  assert (0 <= e_ip_csum e < 65536 /\ 0 <= e_saddr e < 2 ^ 32 /\ 0 <= e_daddr e < 2 ^ 32) as (Rc & Rs & Rd).
  { rewrite <-Fc, <-Fs, <-Fd. refine (conj _ (conj _ _)); [apply (field_bound f _ 2 Hf)|apply (field_bound f _ 4 Hf)..]; offsets; lia. }
  unfold emb_rewrite_ip. set (f1 := if e_saddr e =? nsaddr then f else _). set (f2 := if e_daddr e =? ndaddr then f1 else _).
  destruct (csum_upd32_spec (e_ip_csum e) (e_saddr e) nsaddr) as [C1 R1]; [done..|]. set (c1 := csum_upd32 _ (e_saddr e) _) in *.
  destruct (csum_upd32_spec c1 (e_daddr e) ndaddr) as [C2 R2]; [done..|]. set (c2 := csum_upd32 c1 _ _) in *.
  set (f3 := if e_ip_csum e =? c2 then f2 else _).
  assert (edited L4_OFF f f1 EMB_SADDR_OFF 4 nsaddr) as E1 by (apply emb_edit; try done; offsets; lia).
  destruct (edited_length _ _ _ _ _ _ E1) as [L1 B1].
  assert (edited L4_OFF f1 f2 EMB_DADDR_OFF 4 ndaddr) as E2 by (apply emb_edit; try done; [offsets; lia|by kept E1]).
  destruct (edited_length _ _ _ _ _ _ E2) as [L2 B2].
  assert (edited L4_OFF f2 f3 EMB_IP_CSUM_OFF 2 c2) as E3 by (apply emb_edit; try done; [offsets; lia|by kept E2; kept E1]).
  destruct (edited_length _ _ _ _ _ _ E3) as [L3 B3]. clearbody f1 f2 f3.
  assert (field f3 EMB_SADDR_OFF 4 = nsaddr) as G1 by (kept E3; kept E2; exact (edited_field _ _ _ _ _ _ E1)).
  assert (field f3 EMB_DADDR_OFF 4 = ndaddr) as G2 by (kept E3; exact (edited_field _ _ _ _ _ _ E2)).
  split; [congruence|]. split; [done|]. split; [by rewrite (edited_rsum _ _ _ _ _ _ E3), (edited_rsum _ _ _ _ _ _ E2), (edited_rsum _ _ _ _ _ _ E1)|].
  split; [done|]. split; [done|]. split; [|intros o m Ho; kept E3; kept E2; by kept E1].
  rewrite !header_sum by (rewrite ?L3, ?L2, ?L1; offsets; lia).
  change (EMB_IP_OFF + 10) with EMB_IP_CSUM_OFF. change (EMB_IP_OFF + 12) with EMB_SADDR_OFF. change (EMB_IP_OFF + 16) with EMB_DADDR_OFF.
  rewrite G1, G2, (edited_field _ _ _ _ _ _ E3), Fc, Fs, Fd. kept E3. kept E2. kept E1.
  apply mod_eq in C1 as [k1 C1], C2 as [k2 C2]; [|lia..]. apply mod_eq; [lia|]. exists (k1 + k2). lia.
Qed.

(** The embedded UDP checksum. *)
Lemma emb_udp_edit f e nsaddr ndaddr oport nport :
  Forall byte f -> 0 <= nsaddr < 2 ^ 32 -> 0 <= ndaddr < 2 ^ 32 -> 0 <= oport < 65536 -> 0 <= nport < 65536 ->
  0 <= e_saddr e < 2 ^ 32 -> 0 <= e_daddr e < 2 ^ 32 ->
  (e_proto e = IPPROTO_UDP -> 70 <= Z.of_nat (length f) /\ field f EMB_UDP_CSUM_OFF 2 = e_udp_csum e) ->
  let udp := emb_udp_csum e nsaddr ndaddr oport nport in
  exists new,
    edited L4_OFF f (if (e_proto e =? IPPROTO_UDP) && negb (e_udp_csum e =? 0) then
      if e_udp_csum e =? udp then f else emb_store16 f EMB_UDP_CSUM_OFF (e_udp_csum e) udp else f) EMB_UDP_CSUM_OFF 2 new /\
    (e_proto e = IPPROTO_UDP -> e_udp_csum e <> 0 -> new <> 0 /\
      new + nsaddr + ndaddr + (if nport =? 0 then oport else nport) ≡ₛ e_udp_csum e + e_saddr e + e_daddr e + oport).
Proof.
  intros Hf Hns Hnd Rp Hnp Rs Rd Fu udp. destruct ((e_proto e =? IPPROTO_UDP) && negb (e_udp_csum e =? 0)) eqn:Eu.
  - apply andb_true_iff in Eu as [Hu%Z.eqb_eq _]. destruct (Fu Hu) as [Hl Fuc].
    destruct (emb_udp_csum_spec e nsaddr ndaddr oport nport) as [Ru Eq]; [rewrite <-Fuc; apply (field_bound f _ 2 Hf); offsets; lia|done..|].
    exists udp. split; [|intros _ _; split; [unfold udp; lia|done]]. apply emb_edit; try done; [offsets; lia..|unfold udp; cbn; lia].
  - exists (field f EMB_UDP_CSUM_OFF 2). split; [by split; [split; [|split]|split]|]. intros Hu Hz.
    rewrite Hu, Z.eqb_refl in Eu. cbn in Eu. apply negb_false_iff, Z.eqb_eq in Eu. done.
Qed.

(** Translating the packet inside an ICMP error leaves every checksum a receiver verifies
    intact: the embedded addresses and port become the new ones, the sum of the outer ICMP
    message and the sum of the embedded IPv4 header do not change, and a present embedded UDP
    checksum accounts for the new addresses and port without ever becoming the zero that
    means none. *)
Theorem emb_rewrite_sums f e nsaddr ndaddr port_off oport nport :
  Forall byte f -> emb_load f = Some e -> port_off = EMB_SPORT_OFF \/ port_off = EMB_DPORT_OFF -> field f port_off 2 = oport ->
  0 <= nsaddr < 2 ^ 32 -> 0 <= ndaddr < 2 ^ 32 -> 0 <= nport < 65536 ->
  emb_rewritten f (emb_rewrite f e nsaddr ndaddr port_off oport nport) e nsaddr ndaddr port_off oport nport.
Proof.
  intros Hf He Hpo Hop Hns Hnd Hnp. destruct (emb_load_inv f e He) as (Hl & Fc & Fs & Fd & _ & _ & Fu).
  assert (0 <= oport < 65536) as Rp by (rewrite <-Hop; apply (field_bound f _ 2 Hf); destruct Hpo; subst port_off; offsets; lia).
  destruct (emb_rewrite_ip_spec f e nsaddr ndaddr Hf He Hns Hnd) as (L3 & B3 & S3 & G1 & G2 & W3 & K3).
  unfold emb_rewrite, emb_rewrite_port. set (f3 := emb_rewrite_ip f e nsaddr ndaddr) in *. clearbody f3. set (f4 := if _ || _ then f3 else _).
  assert (edited L4_OFF f3 f4 port_off 2 (if nport =? 0 then oport else nport)) as E4.
  { assert (field f3 port_off 2 = oport) as Fp by (rewrite K3; [done|destruct Hpo; subst port_off; offsets; lia]).
    unfold f4. destruct (Z.eqb_spec nport 0) as [-> |]; cbn [orb]; [by split; [split; [|split]|split]|].
    apply emb_edit; try done; destruct Hpo; subst port_off; offsets; lia || done. }
  destruct (edited_length _ _ _ _ _ _ E4) as [L4 B4]. clearbody f4. set (udp := emb_udp_csum e nsaddr ndaddr oport nport).
  destruct (emb_udp_edit f4 e nsaddr ndaddr oport nport B4 Hns Hnd Rp Hnp) as (new & E5 & Hudp).
  { rewrite <-Fs. apply (field_bound f _ 4 Hf); offsets; lia. }
  { rewrite <-Fd. apply (field_bound f _ 4 Hf); offsets; lia. }
  { intros Hu. destruct (Fu Hu) as [Hl' Fuc]. split; [lia|]. rewrite <-Fuc, <-K3 by (offsets; lia). destruct Hpo; subst port_off; by kept E4. }
  set (f5 := if _ && _ then _ else f4) in *. clearbody f5. destruct (edited_length _ _ _ _ _ _ E5) as [L5 B5].
  unfold emb_rewritten. rewrite !word_sum_le. split; [congruence|]. split; [done|].
  split; [kept E5; destruct Hpo; subst port_off; by kept E4|]. split; [kept E5; destruct Hpo; subst port_off; by kept E4|].
  split; [rewrite <-(edited_field _ _ _ _ _ _ E4); destruct Hpo; subst port_off; by kept E5|].
  split; [exact (eq_trans (edited_rsum _ _ _ _ _ _ E5) (eq_trans (edited_rsum _ _ _ _ _ _ E4) S3))|]. split.
  - rewrite <-!word_sum_le, <-W3. f_equal. f_equal. destruct E5 as [(_ & _ & ->) _]; [|offsets; lia..].
    destruct E4 as [(_ & _ & ->) _]; [done|offsets; destruct Hpo; subst port_off; lia..].
  - by rewrite (edited_field _ _ _ _ _ _ E5).
Qed.
End EmbRewrite.

(** ** Rewriting an embedded IPv6 packet *)

Lemma words_sum o : length o = 16%nat -> le o ≡ₛ field o 0 4 + field o 4 4 + field o 8 4 + field o 12 4.
Proof.
  intros Ho. assert (o = bytes_at o 0 16) as Eo by (unfold bytes_at; cbn [Z.to_nat]; rewrite drop_0, take_ge; [done|lia]).
  rewrite Eo at 1. change 16%nat with (4 + (4 + (4 + 4)))%nat. rewrite !bytes_split by lia. rewrite !le_app, !bytes_at_length by lia.
  unfold field. change (Z.of_nat 4) with 4. change (0 + 4) with 4. change (4 + 4) with 8. change (8 + 4) with 12.
  set (a := le (bytes_at o 0 4)). set (b := le (bytes_at o 4 4)). set (c := le (bytes_at o 8 4)). set (d := le (bytes_at o 12 4)).
  apply mod_eq; [lia|]. set (q := (256 ^ 4 - 1) / 65535). assert (256 ^ 4 = 1 + q * 65535) as -> by reflexivity.
  exists (q * (b + (1 + q * 65535) * (c + (1 + q * 65535) * d) + (c + (1 + q * 65535) * d) + d)). ring.
Qed.

Lemma csum_upd128_spec c o n : 0 <= c < 65536 -> length o = 16%nat -> length n = 16%nat -> Forall byte o -> Forall byte n ->
  csum_upd128 c o n + le n ≡ₛ c + le o /\ 0 <= csum_upd128 c o n < 65536.
Proof.
  intros Hc Lo Ln Ho Hn. pose proof (words_sum o Lo) as So. pose proof (words_sum n Ln) as Sn.
  assert (forall l i, Forall byte l -> length l = 16%nat -> 0 <= i <= 3 -> 0 <= field l (4 * i) 4 < 2 ^ 32) as R.
  { intros l i Hl Ll Hi. apply (field_bound l _ 4 Hl); lia. }
  unfold csum_upd128. cbn [fold_left].
  destruct (csum_upd32_spec c (field o (4 * 0) 4) (field n (4 * 0) 4)) as [E0 R0]; [done|by apply R..|]. set (c0 := csum_upd32 c _ _) in *.
  destruct (csum_upd32_spec c0 (field o (4 * 1) 4) (field n (4 * 1) 4)) as [E1 R1]; [done|by apply R..|]. set (c1 := csum_upd32 c0 _ _) in *.
  destruct (csum_upd32_spec c1 (field o (4 * 2) 4) (field n (4 * 2) 4)) as [E2 R2]; [done|by apply R..|]. set (c2 := csum_upd32 c1 _ _) in *.
  destruct (csum_upd32_spec c2 (field o (4 * 3) 4) (field n (4 * 3) 4)) as [E3 R3]; [done|by apply R..|]. set (c3 := csum_upd32 c2 _ _) in *.
  split; [|done]. clearbody c0 c1 c2 c3. clear R. change (4 * 0) with 0 in *. change (4 * 1) with 4 in *. change (4 * 2) with 8 in *. change (4 * 3) with 12 in *.
  apply mod_eq in So as [ko So], Sn as [kn Sn], E0 as [k0 E0], E1 as [k1 E1], E2 as [k2 E2], E3 as [k3 E3]; [|lia..].
  apply mod_eq; [lia|]. exists (k0 + k1 + k2 + k3 + kn - ko). lia.
Qed.

Section Emb6Rewrite.
Context `{ChecksumHelpers}.
Hypothesis Htotal : csum_total.

Lemma emb6_edit f off n old new flags : Forall byte f -> 58 <= off -> off + Z.of_nat n <= Z.of_nat (length f) -> Z.even off = true ->
  Z.land flags MANGLED_0 = 0 -> 0 <= new < 256 ^ Z.of_nat n -> field f off n = old ->
  edited L4_OFF6 f (if old =? new then f else put_bytes (csum_fix f ICMP6_CSUM_OFF old new flags) off (le_bytes n new)) off n new.
Proof.
  intros Hf Ho Hl He Hfl Hn Hold. apply (store_edited L4_OFF6 ltac:(done) Htotal); try done.
  change (off - L4_OFF6) with (off - 2 * 27). by rewrite Z.even_sub, He.
Qed.

(** One word of an address change in the outer checksum. *)
Lemma word_fix f ow nw : Forall byte f -> 58 <= Z.of_nat (length f) ->
  let f' := if ow =? nw then f else csum_fix f ICMP6_CSUM_OFF ow nw 4 in
  same_but L4_OFF6 f f' ICMP6_CSUM_OFF 2 /\ rsum L4_OFF6 f' + nw ≡ₛ rsum L4_OFF6 f + ow.
Proof.
  intros Hf Hl. cbv zeta. destruct (Z.eqb_spec ow nw) as [-> |]; [by split; [split|]|].
  by apply (csum_fix_spec L4_OFF6 ltac:(done) Htotal).
Qed.

Lemma same_but_trans f f1 f2 : same_but L4_OFF6 f f1 ICMP6_CSUM_OFF 2 -> same_but L4_OFF6 f1 f2 ICMP6_CSUM_OFF 2 -> same_but L4_OFF6 f f2 ICMP6_CSUM_OFF 2.
Proof. intros (L1 & B1 & S1) (L2 & B2 & S2). split; [congruence|]. split; [done|]. intros. by rewrite S2, S1. Qed.

Lemma words_fix f o n (l : list Z) : Forall byte f -> 58 <= Z.of_nat (length f) ->
  let f' := fold_left (fun f i => if field o (4 * i) 4 =? field n (4 * i) 4 then f
    else csum_fix f ICMP6_CSUM_OFF (field o (4 * i) 4) (field n (4 * i) 4) 4) l f in
  same_but L4_OFF6 f f' ICMP6_CSUM_OFF 2 /\
  rsum L4_OFF6 f' + foldr (fun i s => field n (4 * i) 4 + s) 0 l ≡ₛ rsum L4_OFF6 f + foldr (fun i s => field o (4 * i) 4 + s) 0 l.
Proof.
  revert f. induction l as [|i l IH]; intros f Hf Hl; cbn [fold_left foldr]; [by split; [split|]|].
  destruct (word_fix f (field o (4 * i) 4) (field n (4 * i) 4) Hf Hl) as [S1 E1]. set (f1 := if _ =? _ then f else _) in *.
  destruct (IH f1) as [S2 E2]; [apply S1|destruct S1 as (-> & _); done|]. split; [by eapply same_but_trans|].
  apply mod_eq in E1 as [k1 E1], E2 as [k2 E2]; [|lia..]. apply mod_eq; [lia|]. exists (k1 + k2). cbn [foldr]. lia.
Qed.

Lemma emb6_store_addr_edited f off o n : Forall byte f -> Forall byte n -> length n = 16%nat -> 58 <= off -> off + 16 <= Z.of_nat (length f) ->
  Z.even off = true -> bytes_at f off 16 = o -> edited L4_OFF6 f (emb6_store_addr f off o n) off 16 (le n).
Proof.
  intros Hf Hn Ln Ho Hl He Eo. unfold emb6_store_addr.
  destruct (words_fix f o n [0; 1; 2; 3] Hf ltac:(lia)) as [(L1 & B1 & S1) E1]. set (f1 := fold_left _ _ f) in *.
  assert (Z.even (off - L4_OFF6) = true) as He' by (change (off - L4_OFF6) with (off - 2 * 27); by rewrite Z.even_sub, He).
  destruct (put_bytes_spec L4_OFF6 ltac:(done) f1 off n B1 Hn ltac:(offsets; lia) ltac:(lia) He') as [(L2 & B2 & S2) [E2 F2]]. rewrite Ln in *.
  split; [|split; [|done]].
  - split; [congruence|]. split; [done|]. intros p m Hp Ha Hb. by rewrite S2, S1.
  - unfold field in E2. rewrite S1, Eo in E2; [|offsets; lia..]. cbn [foldr] in E1. assert (length o = 16%nat) as Lo by (rewrite <-Eo; apply bytes_at_length; lia).
    pose proof (words_sum o Lo) as So. pose proof (words_sum n Ln) as Sn. change (4 * 0) with 0 in *. change (4 * 1) with 4 in *. change (4 * 2) with 8 in *. change (4 * 3) with 12 in *.
    apply mod_eq in So as [ko So], Sn as [kn Sn], E1 as [k1 E1], E2 as [k2 E2]; [|lia..]. apply mod_eq; [lia|]. exists (k1 + k2 + kn - ko). lia.
Qed.

Lemma load_bytes_inv f off n v : load_bytes f off n = Some v -> off + Z.of_nat n <= Z.of_nat (length f) /\ bytes_at f off n = v.
Proof. unfold load_bytes. destruct (_ && _) eqn:E; [|done]. intros [= <-]. to_prop. auto. Qed.

Lemma emb6_load_inv f e : emb6_load f = Some e ->
  106 <= Z.of_nat (length f) /\ bytes_at f EMB6_SADDR_OFF 16 = e6_saddr e /\ bytes_at f EMB6_DADDR_OFF 16 = e6_daddr e /\
  (e6_proto e = IPPROTO_UDP -> 110 <= Z.of_nat (length f) /\ field f EMB6_UDP_CSUM_OFF 2 = e6_udp_csum e).
Proof.
  unfold emb6_load. intros (v & _ & E)%bind_Some. destruct (negb _); [done|].
  apply bind_Some in E as (proto & _ & E). apply bind_Some in E as (sa & H2%load_bytes_inv & E). apply bind_Some in E as (da & H3%load_bytes_inv & E).
  apply bind_Some in E as (sp & _ & E). apply bind_Some in E as (dp & H5%load_field_inv & E).
  apply bind_Some in E as (uc & Hu & E). injection E as <-. cbn [e6_saddr e6_daddr e6_proto e6_udp_csum].
  split; [offsets; lia|]. repeat (split; [tauto|]). intros ->. cbn in Hu. apply load_field_inv in Hu. offsets. lia.
Qed.

Lemma emb6_udp_csum_spec e nsaddr ndaddr oport nport :
  0 <= e6_udp_csum e < 65536 -> Forall (fun a => Forall byte a /\ length a = 16%nat) [e6_saddr e; e6_daddr e; nsaddr; ndaddr] ->
  0 <= oport < 65536 -> 0 <= nport < 65536 ->
  let udp := emb6_udp_csum e nsaddr ndaddr oport nport in
  0 < udp < 65536 /\ udp + le nsaddr + le ndaddr + (if nport =? 0 then oport else nport) ≡ₛ e6_udp_csum e + le (e6_saddr e) + le (e6_daddr e) + oport.
Proof.
  intros Hc Ha Ho Hn. rewrite !Forall_cons in Ha. destruct Ha as ([? ?] & [? ?] & [? ?] & [? ?] & _). unfold emb6_udp_csum.
  destruct (csum_upd128_spec (e6_udp_csum e) (e6_saddr e) nsaddr) as [E1 R1]; [done..|]. set (u1 := csum_upd128 _ (e6_saddr e) _) in *.
  destruct (csum_upd128_spec u1 (e6_daddr e) ndaddr) as [E2 R2]; [done..|]. set (u2 := csum_upd128 u1 _ _) in *.
  destruct (csum_upd16_spec u2 oport nport) as [E3 R3]; [done..|].
  set (u3 := if nport =? 0 then u2 else csum_upd16 u2 oport nport).
  assert (0 <= u3 < 65536 /\ u3 + (if nport =? 0 then oport else nport) ≡ₛ u2 + oport) as [R E] by (unfold u3; by destruct (nport =? 0)).
  apply mod_eq in E1 as [k1 E1], E2 as [k2 E2], E as [k3 E]; [|lia..].
  destruct (Z.eqb_spec u3 0) as [Z3|Z3]; (split; [lia|]); apply mod_eq; try lia; [exists (k1 + k2 + k3 + 1)|exists (k1 + k2 + k3)]; lia.
Qed.

Lemma emb6_udp_edit f e nsaddr ndaddr oport nport :
  Forall byte f -> Forall (fun a => Forall byte a /\ length a = 16%nat) [e6_saddr e; e6_daddr e; nsaddr; ndaddr] ->
  0 <= oport < 65536 -> 0 <= nport < 65536 ->
  (e6_proto e = IPPROTO_UDP -> 110 <= Z.of_nat (length f) /\ field f EMB6_UDP_CSUM_OFF 2 = e6_udp_csum e) ->
  let udp := emb6_udp_csum e nsaddr ndaddr oport nport in
  exists new,
    edited L4_OFF6 f (if (e6_proto e =? IPPROTO_UDP) && negb (e6_udp_csum e =? 0) then
      if e6_udp_csum e =? udp then f else emb6_store16 f EMB6_UDP_CSUM_OFF (e6_udp_csum e) udp else f) EMB6_UDP_CSUM_OFF 2 new /\
    (e6_proto e = IPPROTO_UDP -> e6_udp_csum e <> 0 -> new <> 0 /\
      new + le nsaddr + le ndaddr + (if nport =? 0 then oport else nport) ≡ₛ e6_udp_csum e + le (e6_saddr e) + le (e6_daddr e) + oport).
Proof.
  intros Hf Ha Rp Hnp Fu udp. destruct ((e6_proto e =? IPPROTO_UDP) && negb (e6_udp_csum e =? 0)) eqn:Eu.
  - apply andb_true_iff in Eu as [Hu%Z.eqb_eq _]. destruct (Fu Hu) as [Hl Fuc].
    destruct (emb6_udp_csum_spec e nsaddr ndaddr oport nport) as [Ru Eq]; [rewrite <-Fuc; apply (field_bound f _ 2 Hf); offsets; lia|done..|].
    exists udp. split; [|intros _ _; split; [unfold udp; lia|done]]. apply emb6_edit; try done; [offsets; lia..|unfold udp; cbn; lia].
  - exists (field f EMB6_UDP_CSUM_OFF 2). split; [by split; [split; [|split]|split]|]. intros Hu Hz.
    rewrite Hu, Z.eqb_refl in Eu. cbn in Eu. apply negb_false_iff, Z.eqb_eq in Eu. done.
Qed.

(** What a receiver checks after the IPv6 rewrite. *)
Definition emb6_rewritten (f f' : list Z) (e : emb6) (nsaddr ndaddr : list Z) (port_off oport nport : Z) : Prop :=
  let port' := if nport =? 0 then oport else nport in
  length f' = length f /\ Forall byte f' /\
  field f' EMB6_SADDR_OFF 16 = le nsaddr /\ field f' EMB6_DADDR_OFF 16 = le ndaddr /\ field f' port_off 2 = port' /\
  word_sum (drop (Z.to_nat L4_OFF6) f') ≡ₛ word_sum (drop (Z.to_nat L4_OFF6) f) /\
  (e6_proto e = IPPROTO_UDP -> e6_udp_csum e <> 0 ->
    field f' EMB6_UDP_CSUM_OFF 2 <> 0 /\
    field f' EMB6_UDP_CSUM_OFF 2 + le nsaddr + le ndaddr + port' ≡ₛ e6_udp_csum e + le (e6_saddr e) + le (e6_daddr e) + oport).

(** The IPv6 twin: the embedded addresses and port become the new ones, the sum of the outer
    ICMPv6 message does not change, and the embedded UDP checksum accounts for the new
    addresses and port without becoming zero. *)
Theorem emb6_rewrite_sums f e nsaddr ndaddr port_off oport nport :
  Forall byte f -> emb6_load f = Some e -> port_off = EMB6_SPORT_OFF \/ port_off = EMB6_DPORT_OFF -> field f port_off 2 = oport ->
  Forall byte nsaddr -> length nsaddr = 16%nat -> Forall byte ndaddr -> length ndaddr = 16%nat -> 0 <= nport < 65536 ->
  emb6_rewritten f (emb6_rewrite f e nsaddr ndaddr port_off oport nport) e nsaddr ndaddr port_off oport nport.
Proof.
  intros Hf He Hpo Hop Bs Ls Bd Ld Hnp. destruct (emb6_load_inv f e He) as (Hl & Fs & Fd & Fu).
  assert (0 <= oport < 65536) as Rp by (rewrite <-Hop; apply (field_bound f _ 2 Hf); destruct Hpo; subst port_off; offsets; lia).
  unfold emb6_rewrite. set (f1 := emb6_store_addr f _ _ _). set (f2 := emb6_store_addr f1 _ _ _). set (f3 := if _ || _ then f2 else _).
  assert (edited L4_OFF6 f f1 EMB6_SADDR_OFF 16 (le nsaddr)) as E1 by (apply emb6_store_addr_edited; try done; offsets; lia).
  destruct (edited_length _ _ _ _ _ _ E1) as [L1 B1].
  assert (edited L4_OFF6 f1 f2 EMB6_DADDR_OFF 16 (le ndaddr)) as E2.
  { apply emb6_store_addr_edited; try done; [offsets; lia|]. destruct E1 as [(_ & _ & ->) _]; [done|offsets; lia..]. }
  destruct (edited_length _ _ _ _ _ _ E2) as [L2 B2]. clearbody f1 f2.
  assert (edited L4_OFF6 f2 f3 port_off 2 (if nport =? 0 then oport else nport)) as E3.
  { assert (field f2 port_off 2 = oport) as Fp by (destruct Hpo; subst port_off; kept E2; by kept E1).
    unfold f3. destruct (Z.eqb_spec nport 0) as [-> |]; cbn [orb]; [by split; [split; [|split]|split]|].
    apply emb6_edit; try done; destruct Hpo; subst port_off; offsets; lia || done. }
  destruct (edited_length _ _ _ _ _ _ E3) as [L3 B3]. clearbody f3.
  destruct (emb6_udp_edit f3 e nsaddr ndaddr oport nport B3) as (new & E4 & Hudp); [|done|done| |].
  { rewrite !Forall_cons. refine (conj _ (conj _ (conj _ (conj _ (Forall_nil_2 _))))); [| |done|done]; (split; [rewrite <-?Fs, <-?Fd; by apply bytes_at_byte|]);
      rewrite <-?Fs, <-?Fd; apply bytes_at_length; offsets; lia. }
  { intros Hu. destruct (Fu Hu) as [Hl' <-]. split; [lia|]. destruct Hpo; subst port_off; kept E3; kept E2; by kept E1. }
  set (f4 := if _ && _ then _ else f3) in *. clearbody f4. destruct (edited_length _ _ _ _ _ _ E4) as [L4 B4].
  unfold emb6_rewritten. rewrite !word_sum_le. split; [congruence|]. split; [done|].
  split; [rewrite <-(edited_field _ _ _ _ _ _ E1); kept E4; destruct Hpo; subst port_off; kept E3; by kept E2|].
  split; [rewrite <-(edited_field _ _ _ _ _ _ E2); kept E4; destruct Hpo; subst port_off; by kept E3|].
  split; [rewrite <-(edited_field _ _ _ _ _ _ E3); destruct Hpo; subst port_off; by kept E4|].
  split; [|by rewrite (edited_field _ _ _ _ _ _ E4)].
  exact (eq_trans (edited_rsum _ _ _ _ _ _ E4) (eq_trans (edited_rsum _ _ _ _ _ _ E3) (eq_trans (edited_rsum _ _ _ _ _ _ E2) (edited_rsum _ _ _ _ _ _ E1)))).
Qed.
End Emb6Rewrite.

(** ** Concrete errors *)

Lemma rfc1624_total : csum_total (H := rfc1624_helpers).
Proof. intros f off from to flags Ho Hl. cbn. unfold rfc1624_replace. destruct (_ && _) eqn:E; [done|]. rewrite andb_false_iff, !Z.leb_gt in E. lia. Qed.

(** An ICMP frag-needed about a UDP reply of 10.0.0.9:53. *)
Definition frag_needed : list Z :=
  replicate 12 0 ++ [8; 0] ++ [0x45; 0; 0; 56; 0; 0; 0; 0; 64; 1; 0; 0; 192; 0; 2; 1; 10; 0; 0; 9] ++
  [3; 4; 0x11; 0x22; 0; 0; 5; 0] ++ [0x45; 0; 5; 220; 0; 0; 0x40; 0; 64; 17; 0x33; 0x44; 10; 0; 0; 9; 10; 0; 0; 8] ++
  [0; 53; 0x9c; 0x40; 5; 200; 0x55; 0x66].

Definition frag_needed_emb : emb := MkEmb 17 (le [10; 0; 0; 9]) (le [10; 0; 0; 8]) (le [0; 53]) (le [0x9c; 0x40]) (le [0x33; 0x44]) (le [0x55; 0x66]).

Lemma emb_rewrite_sums_witness :
  emb_rewritten frag_needed
    (emb_rewrite (H := rfc1624_helpers) frag_needed frag_needed_emb (le [172; 16; 0; 5]) (le [169; 254; 1; 1]) EMB_DPORT_OFF (le [0x9c; 0x40]) (le [8; 1]))
    frag_needed_emb (le [172; 16; 0; 5]) (le [169; 254; 1; 1]) EMB_DPORT_OFF (le [0x9c; 0x40]) (le [8; 1]).
Proof.
  apply (emb_rewrite_sums (H := rfc1624_helpers) rfc1624_total).
  - apply bytes_lit. vm_compute. reflexivity.
  - vm_compute. reflexivity.
  - right. reflexivity.
  - vm_compute. reflexivity.
  - vm_compute. split; [discriminate|reflexivity].
  - vm_compute. split; [discriminate|reflexivity].
  - vm_compute. split; [discriminate|reflexivity].
Defined.

Definition v6_of (last : Z) : list Z := [0x20; 1; 0xd; 0xb8] ++ replicate 11 0 ++ [last].
Definition too_big : list Z :=
  replicate 12 0 ++ [0x86; 0xdd] ++ [0x60; 0; 0; 0; 0; 56; 58; 64] ++ v6_of 1 ++ v6_of 9 ++
  [2; 0; 0x11; 0x22; 0; 0; 5; 0] ++ [0x60; 0; 0; 0; 5; 180; 17; 64] ++ v6_of 9 ++ v6_of 8 ++ [0; 53; 0x9c; 0x40; 5; 200; 0x55; 0x66].
Definition too_big_emb : emb6 := MkEmb6 17 (v6_of 9) (v6_of 8) (le [0; 53]) (le [0x9c; 0x40]) (le [0x55; 0x66]).

Lemma emb6_rewrite_sums_witness :
  emb6_rewritten too_big
    (emb6_rewrite (H := rfc1624_helpers) too_big too_big_emb (v6_of 77) (v6_of 78) EMB6_DPORT_OFF (le [0x9c; 0x40]) (le [8; 1]))
    too_big_emb (v6_of 77) (v6_of 78) EMB6_DPORT_OFF (le [0x9c; 0x40]) (le [8; 1]).
Proof.
  apply (emb6_rewrite_sums (H := rfc1624_helpers) rfc1624_total).
  - apply bytes_lit. vm_compute. reflexivity.
  - vm_compute. reflexivity.
  - right. reflexivity.
  - vm_compute. reflexivity.
  - apply bytes_lit. vm_compute. reflexivity.
  - reflexivity.
  - apply bytes_lit. vm_compute. reflexivity.
  - reflexivity.
  - vm_compute. split; [discriminate|reflexivity].
Defined.
