(* ===== verification/SecurityGroups.v ===== *)
(** * SecurityGroup projection (datapath/securitygroup.go)

    The agent compiles SecurityGroups into five kernel maps: group membership of endpoints,
    group-to-group rules in both directions, and CIDR rules in both directions.  A guard word
    in the params array makes the datapath deny while the maps are being replaced. *)

From S2P Require Import Prelude GoText GoNet AddrMap KernelMap Lpm.
Local Open Scope Z_scope.

(** [SGWorldGroup], datapath/securitygroup.go:38-38. *)
Definition SGWorldGroup : Z := 63.
(** [cfgSGUpdating], datapath/paths.go:86-86. *)
Definition cfgSGUpdating : Z := 13.
(** [cfgSGInitialized], datapath/paths.go:89-89. *)
Definition cfgSGInitialized : Z := 15.

(** [SGMembershipBitmap], datapath/securitygroup.go:43-53. *)
Definition SGMembershipBitmap (ids : list Z) : Z :=
  fold_left (fun bitmap id =>
    if (0 <? id) && (id <? SGWorldGroup) then Z.lor bitmap (Z.shiftl 1 id) else Z.lor bitmap 1) ids 0.

(** ** Map entries *)

(** [overlayLocalKey], datapath/overlay_bpfel.go:230-234. *)
Record overlayLocalKey := MkLocalKey { lo_Net : Z; lo_Ip : list Z }.
(** [overlaySgMember], datapath/overlay_bpfel.go:370-374. *)
Record overlaySgMember := MkSgMember { sm_Groups : Z; sm_Owner : list Z }.
(** [overlaySgRuleKey], datapath/overlay_bpfel.go:376-384. *)
Record overlaySgRuleKey := MkSgRuleKey { sr_Net : Z; sr_SrcNet : Z; sr_Group : Z; sr_Port : Z; sr_Proto : Z }.
(** [overlaySgEgressKey], datapath/overlay_bpfel.go:360-368. *)
Record overlaySgEgressKey := MkSgEgressKey { se_SrcNet : Z; se_DstNet : Z; se_Group : Z; se_Port : Z; se_Proto : Z }.
(** [overlaySgCidrKey], datapath/overlay_bpfel.go:342-349. *)
Record overlaySgCidrKey := MkSgCidrKey { sc_Prefixlen : Z; sc_Net : Z; sc_Port : Z; sc_Proto : Z; sc_Client : list Z }.
(** [overlaySgEgressCidrKey], datapath/overlay_bpfel.go:351-358. *)
Record overlaySgEgressCidrKey := MkSgEgressCidrKey { ec_Prefixlen : Z; ec_SrcNet : Z; ec_Port : Z; ec_Proto : Z; ec_Dest : list Z }.

#[export] Instance overlayLocalKey_eq_dec : EqDecision overlayLocalKey.
Proof. solve_decision. Defined.
#[export] Instance overlaySgMember_eq_dec : EqDecision overlaySgMember.
Proof. solve_decision. Defined.
#[export] Instance overlaySgRuleKey_eq_dec : EqDecision overlaySgRuleKey.
Proof. solve_decision. Defined.
#[export] Instance overlaySgEgressKey_eq_dec : EqDecision overlaySgEgressKey.
Proof. solve_decision. Defined.
#[export] Instance overlaySgCidrKey_eq_dec : EqDecision overlaySgCidrKey.
Proof. solve_decision. Defined.
#[export] Instance overlaySgEgressCidrKey_eq_dec : EqDecision overlaySgEgressCidrKey.
Proof. solve_decision. Defined.

#[export] Program Instance overlayLocalKey_countable : Countable overlayLocalKey :=
  inj_countable' (fun k => (lo_Net k, lo_Ip k)) (fun '(a, b) => MkLocalKey a b) _.
Next Obligation. by intros []. Qed.
#[export] Program Instance overlaySgRuleKey_countable : Countable overlaySgRuleKey :=
  inj_countable' (fun k => (sr_Net k, sr_SrcNet k, sr_Group k, sr_Port k, sr_Proto k))
    (fun '(a, b, c, d, e) => MkSgRuleKey a b c d e) _.
Next Obligation. by intros []. Qed.
#[export] Program Instance overlaySgEgressKey_countable : Countable overlaySgEgressKey :=
  inj_countable' (fun k => (se_SrcNet k, se_DstNet k, se_Group k, se_Port k, se_Proto k))
    (fun '(a, b, c, d, e) => MkSgEgressKey a b c d e) _.
Next Obligation. by intros []. Qed.
#[export] Program Instance overlaySgCidrKey_countable : Countable overlaySgCidrKey :=
  inj_countable' (fun k => (sc_Prefixlen k, sc_Net k, sc_Port k, sc_Proto k, sc_Client k))
    (fun '(a, b, c, d, e) => MkSgCidrKey a b c d e) _.
Next Obligation. by intros []. Qed.
#[export] Program Instance overlaySgEgressCidrKey_countable : Countable overlaySgEgressCidrKey :=
  inj_countable' (fun k => (ec_Prefixlen k, ec_SrcNet k, ec_Port k, ec_Proto k, ec_Dest k))
    (fun '(a, b, c, d, e) => MkSgEgressCidrKey a b c d e) _.
Next Obligation. by intros []. Qed.

(** ** The compiled policy *)

(** [SGMember], datapath/securitygroup.go:56-61. *)
Record SGMember := MkSGMember { m_Net : Z; m_IP : IP; m_Groups : Z; m_Owner : list Z }.
(** [SGRule], datapath/securitygroup.go:89-96. *)
Record SGRule := MkSGRule { r_Net : Z; r_SrcNet : Z; r_Group : Z; r_Proto : Z; r_Port : Z; r_Allowed : Z }.
(** [SGCidr], datapath/securitygroup.go:154-160. *)
Record SGCidr := MkSGCidr { c_Net : Z; c_Proto : Z; c_Port : Z; c_CIDR : option IPNet; c_AllowedGroups : Z }.
(** [SGEgress], datapath/securitygroup.go:318-325. *)
Record SGEgress := MkSGEgress { e_SrcNet : Z; e_DstNet : Z; e_Group : Z; e_Proto : Z; e_Port : Z; e_Allowed : Z }.
(** [SGEgressCidr], datapath/securitygroup.go:258-264. *)
Record SGEgressCidr := MkSGEgressCidr { x_SrcNet : Z; x_Proto : Z; x_Port : Z; x_CIDR : option IPNet; x_AllowedGroups : Z }.

(** [cidrGroup], datapath/securitygroup.go:169-175. *)
Record cidrGroup := MkCidrGroup { scope : Z; proto : Z; port : Z; cidr : option IPNet; groups : Z }.

(** [prefixKey] of [unionContaining], datapath/securitygroup.go:186-191. *)
Definition prefixKey : Type := Z * Z * Z * Prefix.

(** [keys], the key an item is indexed under; [None] for a missing or unusable CIDR,
    datapath/securitygroup.go:193-203. *)
Definition item_key (item : cidrGroup) : option prefixKey :=
  match normalizedCIDR (cidr item) with
  | Ok prefix => Some (scope item, proto item, port item, prefix)
  | Err _ => None
  end.

(** [index], the groups of each prefix key, datapath/securitygroup.go:192-205. *)
Definition union_index (items : list cidrGroup) : gmap prefixKey Z :=
  fold_left (fun index item =>
    match item_key item with
    | None => index
    | Some key => <[key := Z.lor (default 0 (index !! key)) (groups item)]> index
    end) items ∅.

(** [unionContaining], its second loop for one item: the groups of every ancestor, shortest
    first, datapath/securitygroup.go:207-217. *)
Definition union_ancestors (index : gmap prefixKey Z) (key : option prefixKey) : Z :=
  match key with
  | None => 0
  | Some (tier, prefix) =>
      fold_left (fun out bits =>
        Z.lor out (default 0 (index !! (tier, Masked (MkPrefix (paddr prefix) bits)))))
        (Z.of_nat <$> seq 0 (S (Z.to_nat (pbits prefix)))) 0
  end.

(** [unionContaining], datapath/securitygroup.go:185-219. *)
Definition unionContaining (items : list cidrGroup) : list Z :=
  union_ancestors (union_index items) <$> (item_key <$> items).

(** ** The kernel side: the five maps and the params array *)

Record SgKern := MkSgKern {
  params : gmap Z Z;
  SgMembers : gmap overlayLocalKey overlaySgMember;
  SgRules : gmap overlaySgRuleKey Z;
  SgCidr : gmap overlaySgCidrKey Z;
  SgEgress : gmap overlaySgEgressKey Z;
  SgEgressCidr : gmap overlaySgEgressCidrKey Z
}.

Definition L_params : Lens SgKern (gmap Z Z) :=
  MkLens params (fun t s => MkSgKern t (SgMembers s) (SgRules s) (SgCidr s) (SgEgress s) (SgEgressCidr s)).
Definition L_members : Lens SgKern (gmap overlayLocalKey overlaySgMember) :=
  MkLens SgMembers (fun t s => MkSgKern (params s) t (SgRules s) (SgCidr s) (SgEgress s) (SgEgressCidr s)).
Definition L_rules : Lens SgKern (gmap overlaySgRuleKey Z) :=
  MkLens SgRules (fun t s => MkSgKern (params s) (SgMembers s) t (SgCidr s) (SgEgress s) (SgEgressCidr s)).
Definition L_cidr : Lens SgKern (gmap overlaySgCidrKey Z) :=
  MkLens SgCidr (fun t s => MkSgKern (params s) (SgMembers s) (SgRules s) t (SgEgress s) (SgEgressCidr s)).
Definition L_egress : Lens SgKern (gmap overlaySgEgressKey Z) :=
  MkLens SgEgress (fun t s => MkSgKern (params s) (SgMembers s) (SgRules s) (SgCidr s) t (SgEgressCidr s)).
Definition L_egress_cidr : Lens SgKern (gmap overlaySgEgressCidrKey Z) :=
  MkLens SgEgressCidr (fun t s => MkSgKern (params s) (SgMembers s) (SgRules s) (SgCidr s) (SgEgress s) t).

#[export] Instance L_params_laws : LensLaws L_params.
Proof. split; [done|by intros []|done]. Qed.
#[export] Instance L_members_laws : LensLaws L_members.
Proof. split; [done|by intros []|done]. Qed.
#[export] Instance L_rules_laws : LensLaws L_rules.
Proof. split; [done|by intros []|done]. Qed.
#[export] Instance L_cidr_laws : LensLaws L_cidr.
Proof. split; [done|by intros []|done]. Qed.
#[export] Instance L_egress_laws : LensLaws L_egress.
Proof. split; [done|by intros []|done]. Qed.
#[export] Instance L_egress_cidr_laws : LensLaws L_egress_cidr.
Proof. split; [done|by intros []|done]. Qed.

(** [want[key] | bits] put back under the capacity bound. *)
Definition union_desired {K} `{Countable K} (cap : nat) (want : gmap K Z) (key : K) (bits : Z) : result (gmap K Z) :=
  putDesired cap want key (Z.lor (default 0 (want !! key)) bits).

(** The [MaxEntries] of the loaded maps. *)
Record SgCaps := MkSgCaps { cap_members : nat; cap_rules : nat; cap_cidr : nat; cap_egress : nat; cap_egress_cidr : nat }.

Section Manager.
Context `{Runtime} (caps : SgCaps).

(** [want], the desired members, datapath/securitygroup.go:137-146. *)
Definition members_want (members : list SGMember) : result (gmap overlayLocalKey overlaySgMember) :=
  foldM (fun want mem =>
    ip ← addr128 (m_IP mem);
    putDesired (cap_members caps) want (MkLocalKey (m_Net mem) ip) (MkSgMember (m_Groups mem) (m_Owner mem))) ∅ members.

(** [Manager.SyncSGMembers], datapath/securitygroup.go:136-148. *)
Definition SyncSGMembers (members : list SGMember) : M SgKern unit :=
  want ← lift (members_want members);
  syncMap L_members (cap_members caps) want.

(** The containment items of CIDR rules: every present CIDR must be encodable. *)
Definition cidr_items (items : list cidrGroup) : result unit :=
  foldM (fun _ item =>
    match cidr item with
    | None => Ok tt
    | Some _ => _ ← cidrAddressPrefix (cidr item); mret tt
    end) tt items.

(** [cidrGroup], of an ingress entry, datapath/securitygroup.go:229-229. *)
Definition cidr_item (e : SGCidr) : cidrGroup := MkCidrGroup (c_Net e) (c_Proto e) (c_Port e) (c_CIDR e) (c_AllowedGroups e).
(** [cidrGroup], of an egress entry, datapath/securitygroup.go:276-276. *)
Definition egress_item (e : SGEgressCidr) : cidrGroup := MkCidrGroup (x_SrcNet e) (x_Proto e) (x_Port e) (x_CIDR e) (x_AllowedGroups e).

(** The protocol field of a CIDR key also carries the family. *)
Definition proto_family (proto family : Z) : Z := Z.lor proto (u16 (Z.shiftl family 8)).

(** The desired entries shared by both directions; [mk] is the key of the direction's map. *)
Definition cidr_want {K} `{Countable K} (cap : nat) (mk : Z -> Z -> Z -> Z -> list Z -> K)
    (items : list cidrGroup) : result (gmap K Z) :=
  _ ← cidr_items items;
  foldM (fun want '(item, bitmap) =>
    match cidr item with
    | None => Ok want
    | Some _ =>
        '(a, prefix, family) ← cidrPolicyPrefix (cidr item);
        let key := mk (u32 (64 + prefix)) (scope item) (htons (port item)) (proto_family (proto item) family) a in
        union_desired cap want key bitmap
    end) ∅ (zip items (unionContaining items)).

(** [Manager.SyncSGCidr], datapath/securitygroup.go:221-253. *)
Definition SyncSGCidr (entries : list SGCidr) : M SgKern unit :=
  want ← lift (cidr_want (cap_cidr caps) MkSgCidrKey (cidr_item <$> entries));
  syncMap L_cidr (cap_cidr caps) want.

(** [Manager.SyncSGEgressCidr], datapath/securitygroup.go:268-300. *)
Definition SyncSGEgressCidr (entries : list SGEgressCidr) : M SgKern unit :=
  want ← lift (cidr_want (cap_egress_cidr caps) MkSgEgressCidrKey (egress_item <$> entries));
  syncMap L_egress_cidr (cap_egress_cidr caps) want.

(** [want], the desired rules, datapath/securitygroup.go:304-310. *)
Definition rules_want (rules : list SGRule) : result (gmap overlaySgRuleKey Z) :=
  foldM (fun want r => union_desired (cap_rules caps) want
    (MkSgRuleKey (r_Net r) (r_SrcNet r) (r_Group r) (htons (r_Port r)) (r_Proto r)) (r_Allowed r)) ∅ rules.

(** [Manager.SyncSGRules], datapath/securitygroup.go:303-312. *)
Definition SyncSGRules (rules : list SGRule) : M SgKern unit :=
  want ← lift (rules_want rules);
  syncMap L_rules (cap_rules caps) want.

(** [want], the desired egress rules, datapath/securitygroup.go:330-336. *)
Definition egress_want (rules : list SGEgress) : result (gmap overlaySgEgressKey Z) :=
  foldM (fun want r => union_desired (cap_egress caps) want
    (MkSgEgressKey (e_SrcNet r) (e_DstNet r) (e_Group r) (htons (e_Port r)) (e_Proto r)) (e_Allowed r)) ∅ rules.

(** [Manager.SyncSGEgress], datapath/securitygroup.go:329-338. *)
Definition SyncSGEgress (rules : list SGEgress) : M SgKern unit :=
  want ← lift (egress_want rules);
  syncMap L_egress (cap_egress caps) want.

(** [Manager.BlockSecurityGroups], datapath/securitygroup.go:99-103. *)
Definition BlockSecurityGroups : M SgKern unit := PutArray L_params cfgSGUpdating 1.

(** [Manager.ApplySecurityGroups], datapath/securitygroup.go:107-132. *)
Definition ApplySecurityGroups (members : list SGMember) (rules : list SGRule) (cidrs : list SGCidr)
    (egress : list SGEgress) (egressCIDRs : list SGEgressCidr) : M SgKern unit :=
  _ ← PutArray L_params cfgSGUpdating 1;
  _ ← SyncSGMembers members;
  _ ← SyncSGRules rules;
  _ ← SyncSGCidr cidrs;
  _ ← SyncSGEgress egress;
  _ ← SyncSGEgressCidr egressCIDRs;
  _ ← PutArray L_params cfgSGInitialized 1;
  PutArray L_params cfgSGUpdating 0.
End Manager.

#[export] Instance SgCidr_lpm : LpmKey overlaySgCidrKey := {|
  plen := sc_Prefixlen;
  data k := le_bytes 4 (sc_Net k) ++ le_bytes 2 (sc_Port k) ++ le_bytes 2 (sc_Proto k) ++ sc_Client k
|}.
#[export] Instance SgEgressCidr_lpm : LpmKey overlaySgEgressCidrKey := {|
  plen := ec_Prefixlen;
  data k := le_bytes 4 (ec_SrcNet k) ++ le_bytes 2 (ec_Port k) ++ le_bytes 2 (ec_Proto k) ++ ec_Dest k
|}.

(** ** The update guard *)

(** The datapath denies gated flows while the guard word is nonzero. *)
Definition armed (s : SgKern) : Prop := params s !! cfgSGUpdating = Some 1.

Section Guard.
Context `{Runtime} (caps : SgCaps).
Context (members : list SGMember) (rules : list SGRule) (cidrs : list SGCidr)
  (egress : list SGEgress) (egressCIDRs : list SGEgressCidr).

(** The kernel holds exactly the compiled policy and says so. *)
Definition complete (s : SgKern) : Prop :=
  members_want caps members = Ok (SgMembers s) /\
  rules_want caps rules = Ok (SgRules s) /\
  cidr_want (cap_cidr caps) MkSgCidrKey (cidr_item <$> cidrs) = Ok (SgCidr s) /\
  egress_want caps egress = Ok (SgEgress s) /\
  cidr_want (cap_egress_cidr caps) MkSgEgressCidrKey (egress_item <$> egressCIDRs) = Ok (SgEgressCidr s) /\
  params s !! cfgSGUpdating = Some 0 /\ params s !! cfgSGInitialized = Some 1.

(** What can be said after any run from [s0]. *)
Definition apply_post (s0 : SgKern) (r : result unit) (s : SgKern) : Prop :=
  match r with Ok _ => complete s | Err _ => armed s \/ s = s0 end.

Ltac sync_step :=
  apply wp_bind, wp_sync_step; [apply _|intros; by left|intros; by left|];
  let W := fresh "W" in let E := fresh "E" in intros W E.

Lemma wp_ApplySecurityGroups s :
  wp (ApplySecurityGroups caps members rules cidrs egress egressCIDRs)
    (fun s => armed s \/ complete s) (apply_post s) s.
Proof.
  apply wp_bind, wp_PutArray; [intros; by right|]. cbv zeta.
  set (s1 := update L_params _ s).
  assert (armed s1) as Ha by apply lookup_insert_eq. clearbody s1. split; [by left|].
  do 5 sync_step. apply wp_bind, wp_PutArray; [intros; by left|]. cbn. split.
  { left. unfold armed. cbn. by rewrite lookup_insert_ne. }
  apply wp_PutArray; [intros n e _; left; unfold armed; cbn; by rewrite lookup_insert_ne|].
  assert (forall s', complete s' -> (armed s' \/ complete s') /\ complete s') as K by auto.
  apply K. repeat (split; [done|]). cbn. split; [by rewrite lookup_insert_eq|].
  by rewrite lookup_insert_ne, lookup_insert_eq.
Qed.

Lemma members_size want : members_want caps members = Ok want -> (size want <= cap_members caps)%nat.
Proof.
  apply desired_size. intros m x m'. rewrite bind_ok. intros (ip & _ & E) Hs. by eapply putDesired_size.
Qed.

Lemma rules_size want : rules_want caps rules = Ok want -> (size want <= cap_rules caps)%nat.
Proof. apply desired_size. intros m x m'. apply putDesired_size. Qed.

Lemma egress_size want : egress_want caps egress = Ok want -> (size want <= cap_egress caps)%nat.
Proof. apply desired_size. intros m x m'. apply putDesired_size. Qed.
End Guard.

Lemma cidr_want_size {K} `{Countable K} cap mk items (want : gmap K Z) :
  cidr_want cap mk items = Ok want -> (size want <= cap)%nat.
Proof.
  unfold cidr_want. rewrite bind_ok. intros ([] & _ & E). revert E. apply desired_size.
  intros m [item g] m'. destruct (cidr item); [|intros [= <-]; done].
  rewrite bind_ok. intros ([[a p] f] & _ & E) Hs. by eapply putDesired_size.
Qed.

(** C15. The guard never leaves a half-written policy in force: whatever call fails, every
    kernel state of [ApplySecurityGroups] that a packet can meet either has the guard
    raised or is the complete new policy; an error leaves the guard raised (or, if even
    raising it failed, nothing changed); success leaves exactly the compiled membership,
    rules and CIDR maps in force, initialized, with the guard down. *)
Theorem ApplySecurityGroups_guarded `{Runtime} caps members rules cidrs egress egressCIDRs (w : world SgKern) :
  let '(w', r) := ApplySecurityGroups caps members rules cidrs egress egressCIDRs w in
  apply_post caps members rules cidrs egress egressCIDRs (kern w) r (kern w') /\
  exists new, hist w' = new ++ hist w /\
    Forall (fun s => armed s \/ complete caps members rules cidrs egress egressCIDRs s) new.
Proof.
  pose proof (wp_ApplySecurityGroups caps members rules cidrs egress egressCIDRs (kern w) w eq_refl) as Hw.
  by destruct (ApplySecurityGroups caps members rules cidrs egress egressCIDRs w).
Qed.

(** When no call fails and every desired map can be computed, the pass succeeds; a policy
    that compiled within capacity is never refused by a map that holds an older one. *)
Theorem ApplySecurityGroups_total `{Runtime} caps members rules cidrs egress egressCIDRs (w : world SgKern) :
  reliable ->
  is_ok (members_want caps members) -> is_ok (rules_want caps rules) ->
  is_ok (cidr_want (cap_cidr caps) MkSgCidrKey (cidr_item <$> cidrs)) ->
  is_ok (egress_want caps egress) ->
  is_ok (cidr_want (cap_egress_cidr caps) MkSgEgressCidrKey (egress_item <$> egressCIDRs)) ->
  (ApplySecurityGroups caps members rules cidrs egress egressCIDRs w).2 = Ok tt.
Proof.
  intros Hr H1 H2 H3 H4 H5.
  destruct (members_want caps members) as [wm|] eqn:E1; [|done].
  destruct (rules_want caps rules) as [wr|] eqn:E2; [|done].
  destruct (cidr_want (cap_cidr caps) MkSgCidrKey _) as [wc|] eqn:E3; [|done].
  destruct (egress_want caps egress) as [we|] eqn:E4; [|done].
  destruct (cidr_want (cap_egress_cidr caps) MkSgEgressCidrKey _) as [wx|] eqn:E5; [|done].
  assert (wp (ApplySecurityGroups caps members rules cidrs egress egressCIDRs)
    (fun _ => True) (fun r _ => r = Ok tt) (kern w)) as Hw; [|by destruct (Hw w eq_refl)].
  apply wp_bind, wp_PutArray_total; [done|]. split; [done|].
  apply wp_bind. eapply wp_sync_total; [apply _|done|done|by eapply members_size|done|].
  apply wp_bind. eapply wp_sync_total; [apply _|done|done|by eapply rules_size|done|].
  apply wp_bind. eapply wp_sync_total; [apply _|done|done|by eapply cidr_want_size|done|].
  apply wp_bind. eapply wp_sync_total; [apply _|done|done|by eapply egress_size|done|].
  apply wp_bind. eapply wp_sync_total; [apply _|done|done|by eapply cidr_want_size|done|].
  apply wp_bind, wp_PutArray_total; [done|]. split; [done|]. by apply wp_PutArray_total.
Qed.

(** ** Containment unions *)

(** [p'] contains all of [p]. *)
Definition prefix_covers (p' p : Prefix) : Prop := pbits p' <= pbits p /\ Contains p' (paddr p) = true.

(** The bit of a bitmap the index holds for a key. *)
Lemma index_bit items (key : prefixKey) n :
  Z.testbit (default 0 (union_index items !! key)) n = true <->
  exists it, it ∈ items /\ item_key it = Some key /\ Z.testbit (groups it) n = true.
Proof.
  unfold union_index. induction items as [|it items IH] using rev_ind.
  - cbn. rewrite lookup_empty. cbn. rewrite Z.bits_0. set_solver.
  - rewrite fold_left_app. cbn. set (index := fold_left _ _ _) in *. clearbody index.
    setoid_rewrite elem_of_app. setoid_rewrite list_elem_of_singleton.
    destruct (item_key it) as [k|] eqn:E; [|naive_solver].
    destruct (decide (k = key)) as [->|Hne].
    + rewrite lookup_insert_eq. cbn. rewrite Z.lor_spec, orb_true_iff, IH. clear -E. naive_solver.
    + rewrite lookup_insert_ne by done. rewrite IH. naive_solver.
Qed.

(** The ancestors the loop visits are the masked prefixes that contain [p]. *)
Lemma ancestor_iff p p' : prefix_wf p -> prefix_wf p' -> masked p' ->
  (exists bits, 0 <= bits <= pbits p /\ p' = Masked (MkPrefix (paddr p) bits)) <-> prefix_covers p' p.
Proof.
  intros [Hw Hb] [Hw' Hb'] Hm. unfold prefix_covers. rewrite Contains_spec. split.
  - intros (bits & Hbits & ->). split; [cbn; lia|]. split; [done|].
    unfold Masked. cbn. apply mask_val_shiftr. lia.
  - intros (Hle & H4 & Hs). exists (pbits p'). split; [lia|].
    assert (BitLen (paddr p') = BitLen (paddr p)) as Hl by (unfold BitLen; by rewrite H4).
    rewrite <-Hm. unfold Masked. cbn. unfold mask_val. rewrite Hl, Hs, H4. done.
Qed.

Lemma normalized_bytes item key : Forall byte (default [] (inIP <$> cidr item)) -> item_key item = Some key ->
  prefix_wf key.2 /\ masked key.2 /\ plain (paddr key.2) /\ normalizedCIDR (cidr item) = Ok key.2 /\
  key.1 = (scope item, proto item, port item).
Proof.
  unfold item_key. destruct (cidr item) as [c|] eqn:Ec; [|done]. cbn [fmap option_fmap option_map default].
  destruct (normalizedCIDR (Some c)) as [p|] eqn:Ep; [|done]. intros Hb [= <-].
  pose proof (normalizedCIDR_spec _ _ Hb Ep) as (?&?&?). by do 4 (split; [done|]).
Qed.

Definition items_ok (items : list cidrGroup) : Prop :=
  Forall (fun it => Forall byte (default [] (inIP <$> cidr it))) items.

(** The union an item's entry carries. *)
Lemma union_bit items it key out i n :
  items_ok items -> items !! i = Some it -> item_key it = Some key -> unionContaining items !! i = Some out ->
  Z.testbit out n = true <->
  exists it' p', it' ∈ items /\ item_key it' = Some (key.1, p') /\ prefix_covers p' key.2 /\
    Z.testbit (groups it') n = true.
Proof.
  intros Hok Hi Hk Ho. unfold unionContaining in Ho. rewrite !list_lookup_fmap, Hi in Ho.
  apply (inj Some) in Ho. rewrite Hk in Ho. destruct key as [tier p]. rewrite <-Ho. unfold union_ancestors.
  assert (it ∈ items) as Hin by (by apply list_elem_of_lookup_2 in Hi).
  assert (forall it' k', it' ∈ items -> item_key it' = Some k' -> prefix_wf k'.2 /\ masked k'.2) as Hnorm.
  { intros it' k' Hin' Hk'. unfold items_ok in Hok. rewrite Forall_forall in Hok.
    destruct (normalized_bytes _ _ (Hok _ Hin') Hk') as (?&?&_). done. }
  destruct (Hnorm _ _ Hin Hk) as [Hw _]. cbn in Hw. pose proof (proj2 Hw).
  rewrite fold_left_lor, Z.lor_0_l, lor_all_bit. setoid_rewrite index_bit. cbn [fst snd].
  setoid_rewrite list_elem_of_fmap. setoid_rewrite elem_of_seq. split.
  - intros (b & (j & -> & Hj) & it' & Hin' & Hk' & Hg). exists it', (Masked (MkPrefix (paddr p) (Z.of_nat j))).
    repeat (split; [done|]). split; [|done]. destruct (Hnorm _ _ Hin' Hk').
    apply ancestor_iff; [done|done|done|]. exists (Z.of_nat j). split; [lia|done].
  - intros (it' & p' & Hin' & Hk' & Hc & Hg). destruct (Hnorm _ _ Hin' Hk').
    apply ancestor_iff in Hc as (b & Hb & ->); [|done|done|done]. exists b. split; [|by eauto].
    exists (Z.to_nat b). lia.
Qed.

(** ** What a lookup of the CIDR maps finds *)

(** The fields of an item are machine integers and its address is a byte string. *)
Definition item_ok (it : cidrGroup) : Prop :=
  0 <= scope it < 2 ^ 32 /\ 0 <= proto it < 2 ^ 8 /\ 0 <= port it < 2 ^ 16 /\
  Forall byte (default [] (inIP <$> cidr it)).

Lemma proto_family_spec pr f : 0 <= pr < 2 ^ 8 -> f = 4 \/ f = 6 -> proto_family pr f = pr + f * 256.
Proof.
  intros Hp Hf. unfold proto_family. assert (u16 (Z.shiftl f 8) = f * 256) as -> by (by destruct Hf as [-> | ->]).
  rewrite Z.lor_comm, Z.add_comm. change 256 with (2 ^ 8). by apply lor_add.
Qed.

Section CidrLookup.
Context {K : Type} `{Countable K} `{!LpmKey K} (mk : Z -> Z -> Z -> Z -> list Z -> K).
Hypothesis mk_plen : forall pl n po pr a, plen (mk pl n po pr a) = pl.
Hypothesis mk_data : forall pl n po pr a, data (mk pl n po pr a) = le_bytes 4 n ++ le_bytes 2 po ++ le_bytes 2 pr ++ a.

(** The entry of an item with normalized prefix [p]. *)
Definition entry_key (it : cidrGroup) (p : Prefix) : K :=
  mk (64 + map_bits p) (scope it) (htons (port it)) (proto_family (proto it) (family_of (paddr p)))
    (be_bytes 16 (enc (paddr p))).

(** The key bytes the datapath looks up for a packet of address [x]. *)
Definition query (sc pr po : Z) (x : Addr) : list Z :=
  le_bytes 4 sc ++ le_bytes 2 (htons po) ++ le_bytes 2 (proto_family pr (family_of x)) ++ be_bytes 16 (enc x).

Lemma entry_covers it p sc pr po x : item_ok it -> prefix_wf p -> plain x ->
  0 <= sc < 2 ^ 32 -> 0 <= pr < 2 ^ 8 -> 0 <= po < 2 ^ 16 ->
  covers (entry_key it p) (query sc pr po x) <->
  scope it = sc /\ proto it = pr /\ port it = po /\ Contains p x = true.
Proof.
  intros (Hs & Hpr & Hpo & _) Hw Hx Hs' Hpr' Hpo'. unfold covers, entry_key, query. rewrite mk_plen, mk_data.
  rewrite !length_app, !le_bytes_length, !be_bytes_length. rewrite !app_assoc.
  pose proof (map_bits_range p Hw). rewrite <-(map_prefix_contains p x Hw Hx).
  rewrite bits_agree_app; rewrite ?Forall_app, ?length_app, ?le_bytes_length, ?be_bytes_length;
    auto 10 using le_bytes_byte, be_bytes_byte; [|lia].
  replace (64 + map_bits p - 8 * Z.of_nat (4 + 2 + 2)) with (map_bits p) by lia.
  rewrite bits_agree_16 by apply be_bytes_length.
  assert (forall f f', f = 4 \/ f = 6 -> f' = 4 \/ f' = 6 ->
    le_bytes 2 (proto_family (proto it) f) = le_bytes 2 (proto_family pr f') -> proto it = pr /\ f = f') as Kp.
  { intros f f' Hf Hf' E. rewrite !proto_family_spec in E by done.
    apply le_bytes_inj in E; lia. }
  split.
  - intros (_ & E & Hm). apply app_inj_2 in E as [E E3]; [|by rewrite !le_bytes_length].
    apply app_inj_2 in E as [E1 E2]; [|by rewrite !le_bytes_length].
    apply Kp in E3 as [E3 E4]; [|apply family_cases|apply family_cases].
    apply le_bytes_inj in E1; [|done|done].
    apply le_bytes_inj in E2; [|by apply htons_range|by apply htons_range]. apply htons_inj in E2; [|done|done].
    done.
  - intros (-> & -> & -> & Hf & Hm). rewrite Hf. done.
Qed.

(** The desired entries of the first items, with their bitmaps. *)
Definition want_spec (pre : list (cidrGroup * Z)) (want : gmap K Z) : Prop := forall k,
  (is_Some (want !! k) <-> exists it b p, (it, b) ∈ pre /\ normalizedCIDR (cidr it) = Ok p /\ entry_key it p = k) /\
  forall n, Z.testbit (default 0 (want !! k)) n = true <->
    exists it b p, (it, b) ∈ pre /\ normalizedCIDR (cidr it) = Ok p /\ entry_key it p = k /\ Z.testbit b n = true.

Lemma want_spec_step pre want it b p v :
  want_spec pre want -> normalizedCIDR (cidr it) = Ok p ->
  v = Z.lor (default 0 (want !! entry_key it p)) b ->
  want_spec (pre ++ [(it, b)]) (<[entry_key it p := v]> want).
Proof.
  intros Hw Hp -> k. destruct (Hw k) as [Hk Hn]. setoid_rewrite elem_of_app. setoid_rewrite list_elem_of_singleton.
  destruct (decide (entry_key it p = k)) as [<-|Hne].
  - rewrite lookup_insert_eq. split; [split; [|by eauto]; intros _; exists it, b, p; auto|].
    intros n. cbn. rewrite Z.lor_spec, orb_true_iff, Hn. split.
    + intros [(i & b' & q & ? & ?)|?]; [exists i, b', q; tauto|exists it, b, p; tauto].
    + intros (i & b' & q & [?|[= -> ->]] & Hq & He & Hb); [left; by exists i, b', q|right; done].
  - rewrite lookup_insert_ne by done. rewrite Hk. split; [|intros n; rewrite Hn].
    + split; [intros (i & b' & q & ? & ?); exists i, b', q; tauto|].
      intros (i & b' & q & [?|[= -> ->]] & Hq & He); [by exists i, b', q|congruence].
    + split; [intros (i & b' & q & ? & ?); exists i, b', q; tauto|].
      intros (i & b' & q & [?|[= -> ->]] & Hq & He & Hb); [by exists i, b', q|congruence].
Qed.

Lemma cidr_want_spec cap items want : Forall item_ok items -> cidr_want cap mk items = Ok want ->
  want_spec (zip items (unionContaining items)) want.
Proof.
  intros Hok. unfold cidr_want. rewrite bind_ok. intros ([] & _ & Hf). revert Hf.
  set (l := zip items (unionContaining items)).
  assert (forall it b, (it, b) ∈ l -> item_ok it) as Hl.
  { intros it b Hin. unfold l in Hin. apply elem_of_zip_l in Hin. by eapply Forall_forall in Hin. }
  clearbody l. apply foldM_invariant.
  - intros k. rewrite lookup_empty. cbn. setoid_rewrite Z.bits_0.
    split; [split; [by intros []|set_solver]|set_solver].
  - intros pre [it b] post want0 want1 E Hpre Hstep.
    assert (item_ok it) as (_ & _ & _ & Hb) by (apply (Hl it b); rewrite E; set_solver).
    destruct (cidr it) as [c|] eqn:Ec.
    + cbn in Hb. apply bind_ok in Hstep as ([[a bits] f] & Ep & Hput).
      destruct (normalizedCIDR (Some c)) as [p|] eqn:En; [|unfold cidrPolicyPrefix in Ep; by rewrite En in Ep].
      pose proof (normalizedCIDR_spec _ _ Hb En) as (Hw & _ & Hp).
      rewrite (cidrPolicyPrefix_spec _ _ En Hw Hp) in Ep. injection Ep as <- <- <-.
      pose proof (map_bits_range p Hw). rewrite <-Ec in En.
      assert (u32 (64 + map_bits p) = 64 + map_bits p) as Hu by (unfold u32; apply Z.mod_small; lia).
      rewrite Hu in Hput. unfold union_desired, putDesired in Hput. case_decide; [done|].
      injection Hput as <-. by apply want_spec_step.
    + injection Hstep as <-. intros k. destruct (Hpre k) as [Hk Hn].
      setoid_rewrite elem_of_app. setoid_rewrite list_elem_of_singleton.
      assert (forall i b' p, (i, b') = (it, b) -> normalizedCIDR (cidr i) <> Ok p) as Hno
        by (intros i b' p [= -> ->]; by rewrite Ec).
      split; [rewrite Hk|intros n; rewrite Hn]; split.
      * intros (i & b' & p & ? & ?). exists i, b', p. tauto.
      * intros (i & b' & p & [?|E'] & Hq & ?); [by exists i, b', p|by destruct (Hno _ _ _ E' Hq)].
      * intros (i & b' & p & ? & ?). exists i, b', p. tauto.
      * intros (i & b' & p & [?|E'] & Hq & ?); [by exists i, b', p|by destruct (Hno _ _ _ E' Hq)].
Qed.
(** Does some rule of the tier whose CIDR contains [x] admit group [g]? *)
Definition admits (items : list cidrGroup) (sc pr po : Z) (x : Addr) (g : Z) : Prop :=
  exists it p, it ∈ items /\ scope it = sc /\ proto it = pr /\ port it = po /\
    normalizedCIDR (cidr it) = Ok p /\ Contains p x = true /\ Z.testbit (groups it) g = true.

Lemma item_key_Ok it p : normalizedCIDR (cidr it) = Ok p ->
  item_key it = Some (scope it, proto it, port it, p).
Proof. unfold item_key. by intros ->. Qed.

(** Two prefixes of the same address are nested. *)
Lemma covers_nested p p' x : prefix_wf p -> prefix_wf p' -> Contains p x = true -> Contains p' x = true ->
  pbits p' <= pbits p -> prefix_covers p' p.
Proof.
  intros [_ Hb] [_ Hb'] H1 H2 Hle. split; [done|]. apply Contains_spec in H1 as [H4 Hs], H2 as [H4' Hs'].
  apply Contains_spec. split; [congruence|].
  assert (BitLen (paddr p) = BitLen x) as Hl by (unfold BitLen; by rewrite H4). rewrite Hl in *.
  rewrite Hs'. replace (BitLen x - pbits p') with (BitLen x - pbits p + (pbits p - pbits p')) by lia.
  rewrite <-!Z.shiftr_shiftr by lia. by rewrite Hs.
Qed.

Lemma covers_trans p p' x : prefix_wf p -> prefix_covers p' p -> Contains p x = true -> Contains p' x = true.
Proof.
  intros [_ Hb] [Hle Hc] H1. apply Contains_spec in Hc as [H4 Hs], H1 as [H4' Hs'].
  apply Contains_spec. split; [congruence|].
  assert (BitLen (paddr p) = BitLen x) as Hl by (unfold BitLen; by rewrite H4'). rewrite Hl in *.
  rewrite Hs. replace (BitLen x - pbits p') with (BitLen x - pbits p + (pbits p - pbits p')) by lia.
  rewrite <-!Z.shiftr_shiftr by lia. by rewrite Hs'.
Qed.

Context (cap : nat) (items : list cidrGroup) (want : gmap K Z).
Hypothesis Hok : Forall item_ok items.
Hypothesis Hwant : cidr_want cap mk items = Ok want.

Lemma union_zip it : it ∈ items -> exists b, (it, b) ∈ zip items (unionContaining items).
Proof.
  intros Hin. apply list_elem_of_lookup in Hin as [i Hi].
  destruct (unionContaining items !! i) as [b|] eqn:Hu.
  - exists b. apply list_elem_of_lookup. exists i. apply lookup_zip_with_Some. eauto.
  - apply lookup_ge_None in Hu. apply lookup_lt_Some in Hi. unfold unionContaining in Hu.
    rewrite !length_fmap in Hu. lia.
Qed.

Lemma items_ok_of : items_ok items.
Proof. eapply Forall_impl; [exact Hok|]. by intros it (_&_&_&?). Qed.

Lemma item_norm it p : it ∈ items -> normalizedCIDR (cidr it) = Ok p -> item_ok it /\ prefix_wf p.
Proof.
  intros Hin Hp. assert (item_ok it) as Hi by (by eapply Forall_forall in Hok). split; [done|].
  destruct (normalized_bytes it _ (proj2 (proj2 (proj2 Hi))) (item_key_Ok it p Hp)) as [? _]. done.
Qed.

(** The items behind the entries of the map. *)
Lemma want_entry k v : want !! k = Some v ->
  (exists it p, it ∈ items /\ normalizedCIDR (cidr it) = Ok p /\ entry_key it p = k) /\
  forall n, Z.testbit v n = true <-> exists it p it' p', it ∈ items /\ normalizedCIDR (cidr it) = Ok p /\
    entry_key it p = k /\ it' ∈ items /\ item_key it' = Some (scope it, proto it, port it, p') /\
    prefix_covers p' p /\ Z.testbit (groups it') n = true.
Proof.
  intros Hk. destruct (cidr_want_spec cap items want Hok Hwant k) as [Hs Hn]. rewrite Hk in Hs, Hn. split.
  - destruct Hs as [Hs _]. destruct Hs as (it & b & p & Hin & ?); [by eauto|]. apply elem_of_zip_l in Hin. eauto.
  - intros n. specialize (Hn n). cbn in Hn. rewrite Hn. split.
    + intros (it & b & p & Hin & Hp & He & Hb). apply list_elem_of_lookup in Hin as [i Hi].
      apply lookup_zip_with_Some in Hi as (it0 & b0 & [= <- <-] & Hi & Hu).
      apply (union_bit items it _ _ i n items_ok_of Hi (item_key_Ok it p Hp) Hu) in Hb as (it' & p' & ? & ? & ? & ?).
      exists it, p, it', p'. apply list_elem_of_lookup_2 in Hi. done.
    + intros (it & p & it' & p' & Hin & Hp & He & Hin' & Hk' & Hc & Hg).
      destruct (union_zip it Hin) as [b Hb]. exists it, b, p. split; [done|]. do 2 (split; [done|]).
      apply list_elem_of_lookup in Hb as [i Hi]. apply lookup_zip_with_Some in Hi as (? & ? & [= <- <-] & Hi & Hu).
      apply (union_bit items it _ _ i n items_ok_of Hi (item_key_Ok it p Hp) Hu). eauto 10.
Qed.

(** Every usable item has its entry. *)
Lemma want_has it p : it ∈ items -> normalizedCIDR (cidr it) = Ok p -> is_Some (want !! entry_key it p).
Proof.
  intros Hin Hp. destruct (cidr_want_spec cap items want Hok Hwant (entry_key it p)) as [[_ Hsome] _].
  apply Hsome. destruct (union_zip it Hin) as [b Hb]. by exists it, b, p.
Qed.

Lemma cidr_lookup_union sc pr po x v : plain x -> 0 <= sc < 2 ^ 32 -> 0 <= pr < 2 ^ 8 -> 0 <= po < 2 ^ 16 ->
  lpm_lookup want (query sc pr po x) v -> forall g, Z.testbit v g = true <-> admits items sc pr po x g.
Proof.
  intros Hx Hsc Hpr Hpo (k & Hk & Hc & Hmax) g. destruct (want_entry k v Hk) as [(it & p & Hin & Hp & He) Hbits].
  assert (forall it p, it ∈ items -> normalizedCIDR (cidr it) = Ok p -> entry_key it p = k ->
    scope it = sc /\ proto it = pr /\ port it = po /\ Contains p x = true) as Hcov.
  { intros it0 p0 Hin0 Hp0 He0. destruct (item_norm _ _ Hin0 Hp0). apply entry_covers; [done..|]. by rewrite He0. }
  rewrite Hbits. split.
  - intros (i & q & it' & p' & Hi & Hq & Hki & Hin' & Hk' & Hcp & Hg).
    destruct (Hcov i q Hi Hq Hki) as (<- & <- & <- & Hcx). destruct (item_norm _ _ Hi Hq).
    destruct (item_norm it' p' Hin') as [_ _].
    { unfold item_key in Hk'. destruct (normalizedCIDR (cidr it')); by simplify_eq. }
    unfold item_key in Hk'. destruct (normalizedCIDR (cidr it')) as [p0|] eqn:En; [|done]. injection Hk' as ? ? ? ->.
    exists it', p'. split_and!; try done. by eapply covers_trans.
  - intros (it' & p' & Hin' & Hs' & Hpr' & Hpo' & Hp' & Hc' & Hg).
    destruct (Hcov it p Hin Hp He) as (Es & Epr & Epo & Hcx).
    destruct (item_norm _ _ Hin Hp) as [Hi Hw]. destruct (item_norm _ _ Hin' Hp') as [Hi' Hw'].
    exists it, p, it', p'. rewrite (item_key_Ok it' p' Hp'). split_and!; try congruence.
    assert (covers (entry_key it' p') (query sc pr po x)) as Hcv by (by apply entry_covers).
    destruct (want_has it' p' Hin' Hp') as [v' Hv'].
    pose proof (Hmax _ _ Hv' Hcv) as Hle. rewrite <-He in Hle. unfold entry_key in Hle. rewrite !mk_plen in Hle.
    apply (covers_nested _ _ x); [done..|]. unfold map_bits in Hle.
    apply Contains_spec in Hcx as [H4 _], Hc' as [H4' _]. rewrite H4, H4' in Hle. destruct (Is4 x); lia.
Qed.

Lemma cidr_lookup_found sc pr po x it p : plain x -> 0 <= sc < 2 ^ 32 -> 0 <= pr < 2 ^ 8 -> 0 <= po < 2 ^ 16 ->
  it ∈ items -> scope it = sc -> proto it = pr -> port it = po ->
  normalizedCIDR (cidr it) = Ok p -> Contains p x = true ->
  exists v, lpm_lookup want (query sc pr po x) v.
Proof.
  intros Hx Hsc Hpr Hpo Hin <- <- <- Hp Hc. destruct (item_norm _ _ Hin Hp).
  destruct (want_has it p Hin Hp) as [v Hv]. eapply lpm_lookup_exists; [done|]. by apply entry_covers.
Qed.
End CidrLookup.

(** What the lookup of one CIDR map must mean for the rules it was compiled from. *)
Definition lookup_is_union `{Countable K} `{!LpmKey K} (table : gmap K Z) (items : list cidrGroup) : Prop :=
  forall sc pr po x, plain x -> 0 <= sc < 2 ^ 32 -> 0 <= pr < 2 ^ 8 -> 0 <= po < 2 ^ 16 ->
    ((exists it p, it ∈ items /\ scope it = sc /\ proto it = pr /\ port it = po /\
        normalizedCIDR (cidr it) = Ok p /\ Contains p x = true) ->
      exists v, lpm_lookup table (query sc pr po x) v) /\
    (forall v, lpm_lookup table (query sc pr po x) v ->
      forall g, Z.testbit v g = true <-> admits items sc pr po x g).

Lemma cidr_want_lookup `{Countable K} `{!LpmKey K} cap mk items (want : gmap K Z) :
  (forall pl n po pr a, plen (mk pl n po pr a) = pl) ->
  (forall pl n po pr a, data (mk pl n po pr a) = le_bytes 4 n ++ le_bytes 2 po ++ le_bytes 2 pr ++ a) ->
  Forall item_ok items -> cidr_want cap mk items = Ok want -> lookup_is_union want items.
Proof.
  intros Hp Hd Hok Hw sc pr po x Hx Hsc Hpr Hpo. split.
  - intros (it & p & Hin & Es & Ep & Eo & Hn & Hc). by eapply cidr_lookup_found.
  - intros v Hv. by eapply cidr_lookup_union.
Qed.

(** After a successful sync the longest match of the ingress CIDR map carries exactly the
    union of the destination groups of every rule of the same network, protocol and port
    whose CIDR contains the client: a narrower rule never shadows a broader one, families
    and tiers never mix, and a covered client always finds an entry. *)
Theorem SyncSGCidr_union `{Runtime} caps entries (w : world SgKern) :
  Forall item_ok (cidr_item <$> entries) -> (SyncSGCidr caps entries w).2 = Ok tt ->
  lookup_is_union (SgCidr (kern (SyncSGCidr caps entries w).1)) (cidr_item <$> entries).
Proof.
  intros Hok Hr. apply (sync_step_Ok L_cidr) in Hr as E.
  by apply (cidr_want_lookup _ MkSgCidrKey _ _ ltac:(done) ltac:(done) Hok E).
Qed.

(** The egress twin: the longest match of the destination carries the union of the source
    groups of every egress CIDR rule of its tier that contains it. *)
Theorem SyncSGEgressCidr_union `{Runtime} caps entries (w : world SgKern) :
  Forall item_ok (egress_item <$> entries) -> (SyncSGEgressCidr caps entries w).2 = Ok tt ->
  lookup_is_union (SgEgressCidr (kern (SyncSGEgressCidr caps entries w).1)) (egress_item <$> entries).
Proof.
  intros Hok Hr. apply (sync_step_Ok L_egress_cidr) in Hr as E.
  by apply (cidr_want_lookup _ MkSgEgressCidrKey _ _ ltac:(done) ltac:(done) Hok E).
Qed.


(** ** Concrete runs *)

Definition small_caps : SgCaps := MkSgCaps 8 8 8 8 8.
Definition empty_kern : SgKern := MkSgKern ∅ ∅ ∅ ∅ ∅ ∅.
Definition start : world SgKern := MkWorld 0 empty_kern [].

(** 10.0.0.0/8 admits group 1, 10.1.0.0/16 group 2, both on TCP 443 of network 100. *)
Definition nested_entries : list SGCidr :=
  [MkSGCidr 100 6 443 (Some (MkIPNet [10;0;0;0] [255;0;0;0])) 2;
   MkSGCidr 100 6 443 (Some (MkIPNet [10;1;0;0] [255;255;0;0])) 4].
Definition nested_egress : list SGEgressCidr :=
  [MkSGEgressCidr 100 6 443 (Some (MkIPNet [10;0;0;0] [255;0;0;0])) 2;
   MkSGEgressCidr 100 6 443 (Some (MkIPNet [10;1;0;0] [255;255;0;0])) 4].

Lemma item_ok_lit it :
  (0 <=? scope it) && (scope it <? 2 ^ 32) && ((0 <=? proto it) && (proto it <? 2 ^ 8)) &&
  ((0 <=? port it) && (port it <? 2 ^ 16)) &&
  forallb (fun b => (0 <=? b) && (b <? 256)) (default [] (inIP <$> cidr it)) = true -> item_ok it.
Proof. intros E. to_prop. split; [lia|]. split; [lia|]. split; [lia|]. by apply bytes_lit. Qed.

Lemma nested_ok : Forall item_ok (cidr_item <$> nested_entries).
Proof. apply Forall_forall. intros it [->|[->|[]%not_elem_of_nil]%elem_of_cons]%elem_of_cons; by apply item_ok_lit. Qed.

(** The narrower entry carries both groups. *)
Example nested_bitmaps : unionContaining (cidr_item <$> nested_entries) = [2; 6].
Proof. by vm_compute. Qed.

Lemma SyncSGCidr_union_witness :
  lookup_is_union (SgCidr (kern (SyncSGCidr (H := quiet_runtime) small_caps nested_entries start).1))
    (cidr_item <$> nested_entries).
Proof.
  apply SyncSGCidr_union.
  - exact nested_ok.
  - vm_compute. reflexivity.
Defined.

Lemma SyncSGEgressCidr_union_witness :
  lookup_is_union (SgEgressCidr (kern (SyncSGEgressCidr (H := quiet_runtime) small_caps nested_egress start).1))
    (egress_item <$> nested_egress).
Proof.
  apply SyncSGEgressCidr_union.
  - exact nested_ok.
  - vm_compute. reflexivity.
Defined.

Lemma ApplySecurityGroups_total_witness :
  (ApplySecurityGroups (H := quiet_runtime) small_caps
    [MkSGMember 100 [10;1;0;5] 2 [1;2;3;4]] [MkSGRule 100 100 1 6 443 2] nested_entries
    [MkSGEgress 100 100 1 6 443 2] nested_egress start).2 = Ok tt.
Proof.
  apply (ApplySecurityGroups_total (H := quiet_runtime)).
  - intros n. reflexivity.
  - vm_compute. exact I.
  - vm_compute. exact I.
  - vm_compute. exact I.
  - vm_compute. exact I.
  - vm_compute. exact I.
Defined.

(** A pass whose sixth call fails stops with the guard raised. *)
Example faulted_run_armed :
  let '(w', r) := ApplySecurityGroups (H := faulty_runtime 5) small_caps
    [MkSGMember 100 [10;1;0;5] 2 [1;2;3;4]] [MkSGRule 100 100 1 6 443 2] nested_entries [] [] start in
  r = Err "EPERM" /\ params (kern w') !! cfgSGUpdating = Some 1 /\ size (SgMembers (kern w')) = 1%nat.
Proof. by vm_compute. Qed.
