(* ===== verification/SgDatapath.v ===== *)
(** * Security groups in the datapath

    The gates of [bpf/overlay.c] that read the maps [SecurityGroups] writes: membership of an
    endpoint, east-west admission in both directions, and the north-south gates for clients and
    destinations outside the VPC.  The theorems say that with a complete snapshot in the kernel
    the gates enforce the rules the snapshot was compiled from, and that an endpoint whose
    identity is not proved, and any endpoint while an update is under way, is closed. *)
From Stdlib Require Import ZArith Lia String.
From stdpp Require Import base gmap list numbers strings.
From S2P Require Import Prelude GoNet AddrMap KernelMap Lpm Packet SecurityGroups.
Open Scope Z_scope.

(** ** Gates *)

(** [SG_WORLD], bpf/overlay.c:1004-1004. *)
Definition SG_WORLD : Z := 63.

(** [endpoint], bpf/overlay.c:271-276. *)
Record endpoint := MkEndpoint { ep_ifindex : Z; ep_mac : list Z; ep_sg_owner : list Z }.

(** What the gates read: the maps of the snapshot and the endpoints of the node. *)
Record SgView := MkSgView { sg_kern : SgKern; locals : gmap overlayLocalKey endpoint }.

(** An update of the maps is under way. *)
Definition sg_updating (s : SgView) : bool :=
  match params (sg_kern s) !! cfgSGUpdating with Some u => negb (u =? 0) | None => false end.

Definition owner_word (o : list Z) (i : nat) : Z := default 0 (o !! i).

(** [sg_membership], the witness of the Port and sandbox, bpf/overlay.c:1678-1681. *)
Definition owner_proved (ep : endpoint) (m : overlaySgMember) : bool :=
  let o := ep_sg_owner ep in
  negb (Z.lor (Z.lor (Z.lor (owner_word o 0) (owner_word o 1)) (owner_word o 2)) (owner_word o 3) =? 0) &&
  forallb (fun i => owner_word o i =? owner_word (sm_Owner m) i) [0; 1; 2; 3]%nat.

(** [sg_membership], bpf/overlay.c:1670-1685. *)
Definition sg_membership (s : SgView) (key : overlayLocalKey) : Z :=
  let member := SgMembers (sg_kern s) !! key in
  let published := match member with Some m => sm_Groups m | None => 0 end in
  if lo_Net key =? 0 then published
  else match locals s !! key with
       | None => published
       | Some ep =>
           match member with
           | None => 1
           | Some m => if owner_proved ep m then published else 1
           end
       end.

(** The groups a packet may belong to in the rule loops. *)
Definition real_groups : list Z := seqZ 1 (SG_WORLD - 1).

(** The two lookups of one group: the exact port and any port. *)
Definition rule_bits {K} `{Countable K} (table : gmap K Z) (exact any : K) : Z :=
  Z.lor (default 0 (table !! exact)) (default 0 (table !! any)).

(** [sg_query], bpf/overlay.c:1656-1663. *)
Record sg_query := MkSgQuery { sq_dst : overlayLocalKey; sq_src_net : Z; sq_srcmap : Z; sq_dport : Z; sq_proto : Z }.

(** [sg_admit], bpf/overlay.c:1687-1713. *)
Definition sg_admit (s : SgView) (q : sg_query) : bool :=
  if sg_updating s then false
  else
    let dstmap := sg_membership s (sq_dst q) in
    if dstmap =? 0 then true
    else
      let allowed := fold_left (fun allowed g =>
        if Z.land dstmap (Z.shiftl 1 g) =? 0 then allowed
        else Z.lor allowed (rule_bits (SgRules (sg_kern s))
          (MkSgRuleKey (lo_Net (sq_dst q)) (sq_src_net q) g (sq_dport q) (sq_proto q))
          (MkSgRuleKey (lo_Net (sq_dst q)) (sq_src_net q) g 0 (sq_proto q)))) real_groups 0 in
      negb (Z.land allowed (sq_srcmap q) =? 0).

(** [sg_egress_query], bpf/overlay.c:1717-1725. *)
Record sg_egress_query := MkSgEgressQuery { eq_src_net : Z; eq_dst_net : Z; eq_srcmap : Z; eq_dstmap : Z; eq_dport : Z; eq_proto : Z }.

(** [sg_egress_admit], bpf/overlay.c:1745-1770. *)
Definition sg_egress_admit (s : SgView) (q : sg_egress_query) : bool :=
  if sg_updating s then false
  else if eq_srcmap q =? 0 then true
  else
    let allowed := fold_left (fun allowed g =>
      if Z.land (eq_srcmap q) (Z.shiftl 1 g) =? 0 then allowed
      else Z.lor allowed (rule_bits (SgEgress (sg_kern s))
        (MkSgEgressKey (eq_src_net q) (eq_dst_net q) g (eq_dport q) (eq_proto q))
        (MkSgEgressKey (eq_src_net q) (eq_dst_net q) g 0 (eq_proto q)))) real_groups 0 in
    negb (Z.land allowed (eq_dstmap q) =? 0).

(** [cidr_proto], bpf/overlay.c:1802-1805. *)
Definition cidr_proto (proto : Z) (v6 : bool) : Z := u16 (Z.lor proto (Z.shiftl (if v6 then 6 else 4) 8)).

(** The two LPM lookups of the north-south gates: does one of them hit a group of [groups]? *)
Definition cidr_bits {K} `{Countable K} `{!LpmKey K} (table : gmap K Z) (net proto : Z) (addr : list Z) (port groups : Z) : bool :=
  match lpm_find table (le_bytes 4 net ++ le_bytes 2 port ++ le_bytes 2 proto ++ addr) with
  | Some b => negb (Z.land b groups =? 0)
  | None => false
  end.

(** [ns_sg_check], bpf/overlay.c:1816-1841. *)
Definition ns_sg_check (s : SgView) (q : sg_query) (net port proto : Z) (client : list Z) : bool :=
  if sg_updating s then false
  else if sg_admit s q then true
  else
    let dstmap := sg_membership s (sq_dst q) in
    cidr_bits (SgCidr (sg_kern s)) net proto client port dstmap || cidr_bits (SgCidr (sg_kern s)) net proto client 0 dstmap.

(** [ns_sg_admit], bpf/overlay.c:1843-1863. *)
Definition ns_sg_admit (s : SgView) (net : Z) (vpc_ip client : list Z) (proto dport : Z) : bool :=
  ns_sg_check s (MkSgQuery (MkLocalKey net vpc_ip) net (Z.shiftl 1 SG_WORLD) dport (proto mod 256)) net dport proto client.

(** [ns_egress_ok], bpf/overlay.c:1871-1898. *)
Definition ns_egress_ok (s : SgView) (skb : sk_buff) (srcnet : Z) (v6 : bool) (proto : Z) (src dst : list Z) : bool :=
  let gated := sg_l4 skb proto (l4_off v6) in
  if sg_updating s then negb (bool_decide (is_Some gated))
  else
    let srcmap := sg_membership s (MkLocalKey srcnet src) in
    if srcmap =? 0 then true
    else match gated with
         | None => true
         | Some dport =>
             cidr_bits (SgEgressCidr (sg_kern s)) srcnet (cidr_proto proto v6) dst dport srcmap ||
             cidr_bits (SgEgressCidr (sg_kern s)) srcnet (cidr_proto proto v6) dst 0 srcmap
         end.

(** [cozyplane_to_pod_continue], the east-west gate, bpf/overlay.c:6843-6877: what happens to a
    packet of [p] from network [srcnet] that reaches a pod of [dstnet]. *)
Definition to_pod_sg (s : SgView) (skb : sk_buff) (p : pkt) (srcnet dstnet : Z) : bool :=
  match sg_l4 skb (p_proto p) (l4_off (is_v6 p)) with
  | None => true
  | Some dport =>
      let srcmap := sg_membership s (MkLocalKey srcnet (p_src p)) in
      let q := MkSgQuery (MkLocalKey dstnet (p_dst p)) srcnet srcmap dport (p_proto p) in
      let dstmap := sg_membership s (sq_dst q) in
      sg_admit s q && sg_egress_admit s (MkSgEgressQuery srcnet dstnet srcmap dstmap dport (p_proto p))
  end.

(** [sg_geneve_opt], the identity a sending node stamps on the tunnel, bpf/overlay.c:209-215. *)
Record sg_geneve_opt := MkSgOpt { opt_src_net : Z; opt_srcmap : Z }.

(** [cozyplane_from_overlay], the same gate for a packet that carries its identity,
    bpf/overlay.c:7034-7062. *)
Definition from_overlay_sg (s : SgView) (skb : sk_buff) (p : pkt) (opt : sg_geneve_opt) (vni : Z) : bool :=
  match sg_l4 skb (p_proto p) (l4_off (is_v6 p)) with
  | None => true
  | Some dport =>
      let dstmap := sg_membership s (MkLocalKey vni (p_dst p)) in
      sg_admit s (MkSgQuery (MkLocalKey vni (p_dst p)) (opt_src_net opt) (opt_srcmap opt) dport (p_proto p)) &&
      sg_egress_admit s (MkSgEgressQuery (opt_src_net opt) vni (opt_srcmap opt) dstmap dport (p_proto p))
  end.

(** ** Bits *)

Lemma land_bits a b : negb (Z.land a b =? 0) = true <-> exists n, 0 <= n /\ Z.testbit a n = true /\ Z.testbit b n = true.
Proof.
  rewrite negb_true_iff, Z.eqb_neq. split.
  - intros Hne. assert (exists n, 0 <= n /\ Z.testbit (Z.land a b) n = true) as (n & Hn & Hb).
    { destruct (Z_lt_dec 0 (Z.land a b)) as [Hp|Hp].
      - exists (Z.log2 (Z.land a b)). split; [apply Z.log2_nonneg|by apply Z.bit_log2].
      - exists (Z.succ (Z.log2 (Z.pred (- Z.land a b)))). pose proof (Z.log2_nonneg (Z.pred (- Z.land a b))).
        split; [lia|]. apply Z.bits_above_log2_neg; lia. }
    rewrite Z.land_spec in Hb. apply andb_true_iff in Hb. eauto.
  - intros (n & Hn & Ha' & Hb') E. apply (f_equal (fun z => Z.testbit z n)) in E. rewrite Z.land_spec, Ha', Hb', Z.bits_0 in E. done.
Qed.

(** A map built by unions holds, under a key, the union of the items with that key. *)
Lemma union_fold {A K} `{Countable K} cap (key : A -> K) (bits : A -> Z) l (want : gmap K Z) :
  foldM (fun want r => union_desired cap want (key r) (bits r)) ∅ l = Ok want ->
  forall k n, Z.testbit (default 0 (want !! k)) n = true <-> exists r, r ∈ l /\ key r = k /\ Z.testbit (bits r) n = true.
Proof.
  intros Hw. refine (foldM_invariant _ (fun pre want => forall k n, Z.testbit (default 0 (want !! k)) n = true <->
    exists r, r ∈ pre /\ key r = k /\ Z.testbit (bits r) n = true) ∅ l want _ _ Hw).
  - intros k n. rewrite lookup_empty, Z.bits_0. split; [done|]. intros (? & []%not_elem_of_nil & _).
  - intros pre r post w w' _ IH Hu k n. unfold union_desired, putDesired in Hu.
    assert (w' = <[key r := Z.lor (default 0 (w !! key r)) (bits r)]> w) as -> by (by repeat case_match; simplify_eq).
    setoid_rewrite elem_of_app. setoid_rewrite list_elem_of_singleton. destruct (decide (key r = k)) as [<- |Hne].
    + rewrite lookup_insert_eq. cbn [default from_option id]. rewrite Z.lor_spec, orb_true_iff, IH. split.
      * intros [(x & ? & ? & ?)|?]; eauto 6.
      * intros (x & [? | ->] & ? & ?); eauto 6.
    + rewrite lookup_insert_ne, IH by done. split; [naive_solver|]. intros (x & [? | ->] & ? & ?); naive_solver.
Qed.

(** The rule loops: the union over the groups of a bitmap. *)
Lemma group_fold (bitmap : Z) (f : Z -> Z) n :
  Z.testbit (fold_left (fun allowed g => if Z.land bitmap (Z.shiftl 1 g) =? 0 then allowed else Z.lor allowed (f g)) real_groups 0) n = true <->
  exists g, 1 <= g < SG_WORLD /\ Z.testbit bitmap g = true /\ Z.testbit (f g) n = true.
Proof.
  assert (forall l acc, (forall g, g ∈ l -> 0 <= g) -> Z.testbit (fold_left (fun allowed g =>
      if Z.land bitmap (Z.shiftl 1 g) =? 0 then allowed else Z.lor allowed (f g)) l acc) n = true <->
    Z.testbit acc n = true \/ exists g, g ∈ l /\ Z.testbit bitmap g = true /\ Z.testbit (f g) n = true) as L.
  { induction l as [|g l IH]; intros acc Hl; cbn [fold_left].
    - split; [by left|]. intros [?|(? & []%not_elem_of_nil & _)]; done.
    - rewrite IH by (intros; apply Hl; by right). pose proof (bit_test bitmap g (Hl g (list_elem_of_here _ _))) as Eb.
      setoid_rewrite elem_of_cons. destruct (Z.land bitmap (Z.shiftl 1 g) =? 0); cbn in Eb.
      + split; [intros [?|(x & ? & ?)]; eauto 6|]. intros [?|(x & [-> |?] & Hx & ?)]; [by left|congruence|eauto 6].
      + rewrite Z.lor_spec, orb_true_iff. split; [intros [[?|?]|(x & ? & ? & ?)]; eauto 8|]. intros [?|(x & [-> |?] & Hx & ?)]; eauto 8. }
  unfold real_groups. rewrite L by (intros g Hg%elem_of_seqZ; lia). rewrite Z.bits_0. split.
  - intros [?|(g & Hg%elem_of_seqZ & ? & ?)]; [done|]. exists g. unfold SG_WORLD in *. split; [lia|done].
  - intros (g & Hg & ? & ?). right. exists g. split; [|done]. apply elem_of_seqZ. unfold SG_WORLD in *. lia.
Qed.

(** ** What the rules say *)

Section Meaning.
Context (caps : SgCaps) (members : list SGMember) (rules : list SGRule) (cidrs : list SGCidr)
  (egress : list SGEgress) (egressCIDRs : list SGEgressCidr).
Context (s : SgView).
Hypothesis Hcomplete : complete caps members rules cidrs egress egressCIDRs (sg_kern s).

(** The compiled rules are machine integers. *)
Definition rule_ok (r : SGRule) : Prop := 0 <= r_Port r < 65536.
Definition egress_ok (r : SGEgress) : Prop := 0 <= e_Port r < 65536.
Hypothesis Hrules : Forall rule_ok rules.
Hypothesis Hegress : Forall egress_ok egress.

(** A rule of one of the destination's groups admits one of the source's groups. *)
Definition ingress_rule (dstnet srcnet dstmap srcmap proto port : Z) : Prop :=
  exists r g, r ∈ rules /\ r_Net r = dstnet /\ r_SrcNet r = srcnet /\ r_Proto r = proto /\ (r_Port r = port \/ r_Port r = 0) /\
    1 <= r_Group r < SG_WORLD /\ Z.testbit dstmap (r_Group r) = true /\
    0 <= g /\ Z.testbit (r_Allowed r) g = true /\ Z.testbit srcmap g = true.

(** A rule of one of the source's groups admits one of the destination's groups. *)
Definition egress_rule (srcnet dstnet srcmap dstmap proto port : Z) : Prop :=
  exists r g, r ∈ egress /\ e_SrcNet r = srcnet /\ e_DstNet r = dstnet /\ e_Proto r = proto /\ (e_Port r = port \/ e_Port r = 0) /\
    1 <= e_Group r < SG_WORLD /\ Z.testbit srcmap (e_Group r) = true /\
    0 <= g /\ Z.testbit (e_Allowed r) g = true /\ Z.testbit dstmap g = true.

Lemma not_updating : sg_updating s = false.
Proof. destruct Hcomplete as (_ & _ & _ & _ & _ & Hu & _). unfold sg_updating. by rewrite Hu. Qed.

Lemma htons_0 : htons 0 = 0.
Proof. done. Qed.

(** What the two lookups of a group find in the rules. *)
Lemma ingress_bits net srcnet g proto port n : 0 <= port < 65536 ->
  Z.testbit (rule_bits (SgRules (sg_kern s)) (MkSgRuleKey net srcnet g (htons port) proto) (MkSgRuleKey net srcnet g 0 proto)) n = true <->
  exists r, r ∈ rules /\ r_Net r = net /\ r_SrcNet r = srcnet /\ r_Group r = g /\ r_Proto r = proto /\ (r_Port r = port \/ r_Port r = 0) /\
    Z.testbit (r_Allowed r) n = true.
Proof.
  intros Hp. destruct Hcomplete as (_ & Hw & _). pose proof (union_fold _ _ _ _ _ Hw) as U. unfold rule_bits.
  rewrite Z.lor_spec, orb_true_iff, !U. rewrite Forall_forall in Hrules. split.
  - intros [(r & Hr & E & Hb)|(r & Hr & E & Hb)]; injection E as E1 E2 E3 E4 E5; exists r; pose proof (Hrules r Hr : rule_ok r) as Hpr; red in Hpr;
      repeat (split; [done|]); (split; [|done]); [left; by apply htons_inj|right; rewrite <-htons_0 in E4; by apply htons_inj].
  - intros (r & Hr & <- & <- & <- & <- & [<- |E] & Hb); [left|right]; exists r; [done|]. by rewrite E.
Qed.

Lemma egress_bits srcnet dstnet g proto port n : 0 <= port < 65536 ->
  Z.testbit (rule_bits (SgEgress (sg_kern s)) (MkSgEgressKey srcnet dstnet g (htons port) proto) (MkSgEgressKey srcnet dstnet g 0 proto)) n = true <->
  exists r, r ∈ egress /\ e_SrcNet r = srcnet /\ e_DstNet r = dstnet /\ e_Group r = g /\ e_Proto r = proto /\ (e_Port r = port \/ e_Port r = 0) /\
    Z.testbit (e_Allowed r) n = true.
Proof.
  intros Hp. destruct Hcomplete as (_ & _ & _ & Hw & _). pose proof (union_fold _ _ _ _ _ Hw) as U. unfold rule_bits.
  rewrite Z.lor_spec, orb_true_iff, !U. rewrite Forall_forall in Hegress. split.
  - intros [(r & Hr & E & Hb)|(r & Hr & E & Hb)]; injection E as E1 E2 E3 E4 E5; exists r; pose proof (Hegress r Hr : egress_ok r) as Hpr; red in Hpr;
      repeat (split; [done|]); (split; [|done]); [left; by apply htons_inj|right; rewrite <-htons_0 in E4; by apply htons_inj].
  - intros (r & Hr & <- & <- & <- & <- & [<- |E] & Hb); [left|right]; exists r; [done|]. by rewrite E.
Qed.

Lemma sg_admit_spec q port : 0 <= port < 65536 -> sq_dport q = htons port ->
  let dstmap := sg_membership s (sq_dst q) in
  sg_admit s q = true <->
  dstmap = 0 \/ ingress_rule (lo_Net (sq_dst q)) (sq_src_net q) dstmap (sq_srcmap q) (sq_proto q) port.
Proof.
  intros Hp Ed dstmap. unfold sg_admit. rewrite not_updating. fold dstmap. destruct (Z.eqb_spec dstmap 0) as [E0|Hne]; [tauto|].
  rewrite Ed, land_bits.
  setoid_rewrite group_fold. setoid_rewrite ingress_bits; [|done]. unfold ingress_rule. split.
  - intros (n & Hn & (g & Hg & Hb & r & Hr & E1 & E2 & <- & E3 & E4 & Hb') & Hs). right. exists r, n. auto 12.
  - intros [?|(r & n & Hr & E1 & E2 & E3 & E4 & Hg & Hb & Hn & Hb' & Hs)]; [done|]. exists n. split; [done|]. split; [|done].
    exists (r_Group r). split; [done|]. split; [done|]. exists r. auto 12.
Qed.

Lemma sg_egress_admit_spec q port : 0 <= port < 65536 -> eq_dport q = htons port ->
  sg_egress_admit s q = true <->
  eq_srcmap q = 0 \/ egress_rule (eq_src_net q) (eq_dst_net q) (eq_srcmap q) (eq_dstmap q) (eq_proto q) port.
Proof.
  intros Hp Ed. unfold sg_egress_admit. rewrite not_updating. destruct (Z.eqb_spec (eq_srcmap q) 0) as [E0|Hne]; [tauto|].
  rewrite Ed, land_bits.
  setoid_rewrite group_fold. setoid_rewrite egress_bits; [|done]. unfold egress_rule. split.
  - intros (n & Hn & (g & Hg & Hb & r & Hr & E1 & E2 & <- & E3 & E4 & Hb') & Hs). right. exists r, n. auto 12.
  - intros [?|(r & n & Hr & E1 & E2 & E3 & E4 & Hg & Hb & Hn & Hb' & Hs)]; [done|]. exists n. split; [done|]. split; [|done].
    exists (e_Group r). split; [done|]. split; [done|]. exists r. auto 12.
Qed.

(** C9. Enforcement means the groups: with a complete snapshot in the kernel, a packet to a pod
    of a VPC passes the east-west gate exactly when it is not gated (a TCP reply, or neither
    TCP, UDP nor SCTP), or the destination is ungrouped or a rule of one of its groups admits a
    group of the source on that protocol and port, and likewise the source is ungrouped or an
    egress rule of one of its groups admits a group of the destination. *)
Theorem to_pod_sg_correct skb p srcnet dstnet :
  skb_ok skb ->
  let srcmap := sg_membership s (MkLocalKey srcnet (p_src p)) in
  let dstmap := sg_membership s (MkLocalKey dstnet (p_dst p)) in
  let off := l4_off (is_v6 p) in
  let port := be (bytes_at (frame skb) (off + 2) 2) in
  to_pod_sg s skb p srcnet dstnet = true <->
  sg_l4 skb (p_proto p) off = None \/
  ((dstmap = 0 \/ ingress_rule dstnet srcnet dstmap srcmap (p_proto p) port) /\
   (srcmap = 0 \/ egress_rule srcnet dstnet srcmap dstmap (p_proto p) port)).
Proof.
  intros [Hf _] srcmap dstmap off port. unfold to_pod_sg. fold off. destruct (sg_l4 skb (p_proto p) off) as [d|] eqn:El; [|tauto].
  destruct (sg_l4_bound _ _ _ _ Hf El) as [Ed Hp]. fold port in Ed, Hp.
  rewrite andb_true_iff, (sg_admit_spec _ port Hp) by done. rewrite (sg_egress_admit_spec _ port Hp) by done.
  split; [tauto|]. by intros [?|?].
Qed.

(** ** North-south *)

Hypothesis Hcidrs : Forall item_ok (cidr_item <$> cidrs).
Hypothesis Hecidrs : Forall item_ok (egress_item <$> egressCIDRs).

(** A CIDR rule of the tier that contains [x] names one of the groups. *)
Definition cidr_rule (items : list cidrGroup) (net proto port : Z) (x : Addr) (groups : Z) : Prop :=
  exists g, 0 <= g /\ Z.testbit groups g = true /\ (admits items net proto port x g \/ admits items net proto 0 x g).

Lemma cidr_proto_family proto x : 0 <= proto < 256 -> cidr_proto proto (negb (Is4 x)) = proto_family proto (family_of x).
Proof.
  intros Hp. rewrite proto_family_spec by (done || apply family_cases). unfold cidr_proto, u16, family_of.
  rewrite Z.lor_comm, Z.shiftl_mul_pow2, lor_add by lia. change (2 ^ 8) with 256.
  destruct (Is4 x); cbn [negb]; rewrite Z.mod_small by lia; lia.
Qed.

Lemma cidr_bits_spec `{Countable K} `{!LpmKey K} (table : gmap K Z) items net proto x port groups :
  lookup_is_union table items -> plain x -> 0 <= net < 2 ^ 32 -> 0 <= proto < 2 ^ 8 -> 0 <= port < 2 ^ 16 ->
  cidr_bits table net (proto_family proto (family_of x)) (be_bytes 16 (enc x)) (htons port) groups = true <->
  exists g, 0 <= g /\ Z.testbit groups g = true /\ admits items net proto port x g.
Proof.
  intros Hu Hx Hn Hpr Hpo. destruct (Hu net proto port x Hx Hn Hpr Hpo) as [Hfound Hval]. unfold cidr_bits. fold (query net proto port x).
  pose proof (lpm_find_spec table (query net proto port x)) as F. destruct (lpm_find table _) as [b|].
  - rewrite land_bits. setoid_rewrite (Hval b F). split; intros (g & ? & ? & ?); eauto.
  - split; [done|]. intros (g & _ & _ & it & p & Hin & E1 & E2 & E3 & Hp & Hc & _).
    destruct Hfound as [v Hv]; [by exists it, p|]. by destruct (F v).
Qed.

Lemma two_cidr_bits `{Countable K} `{!LpmKey K} (table : gmap K Z) items net proto x port groups :
  lookup_is_union table items -> plain x -> 0 <= net < 2 ^ 32 -> 0 <= proto < 2 ^ 8 -> 0 <= port < 2 ^ 16 ->
  cidr_bits table net (cidr_proto proto (negb (Is4 x))) (be_bytes 16 (enc x)) (htons port) groups ||
  cidr_bits table net (cidr_proto proto (negb (Is4 x))) (be_bytes 16 (enc x)) 0 groups = true <->
  cidr_rule items net proto port x groups.
Proof.
  intros Hu Hx Hn Hpr Hpo. rewrite cidr_proto_family by done.
  pose proof (cidr_bits_spec table items net proto x 0 groups Hu Hx Hn Hpr ltac:(lia)) as E0. rewrite htons_0 in E0.
  rewrite orb_true_iff, E0, (cidr_bits_spec table items) by done. unfold cidr_rule. split.
  - intros [(g & ? & ? & ?)|(g & ? & ? & ?)]; eauto 6.
  - intros (g & ? & ? & [?|?]); eauto 6.
Qed.

(** C30. The north-south gate means the rules: a client outside the VPC reaches a pod exactly when
    the pod is ungrouped, a rule of one of its groups admits the world on that protocol and
    port, or a CIDR rule of one of its groups contains the client, in its own address family
    and on that port or any port. *)
Theorem ns_sg_admit_correct net vpc_ip x proto port :
  plain x -> 0 <= net < 2 ^ 32 -> 0 <= proto < 2 ^ 8 -> 0 <= port < 2 ^ 16 ->
  let dstmap := sg_membership s (MkLocalKey net vpc_ip) in
  ns_sg_admit s net vpc_ip (be_bytes 16 (enc x)) (cidr_proto proto (negb (Is4 x))) (htons port) = true <->
  dstmap = 0 \/ ingress_rule net net dstmap (Z.shiftl 1 SG_WORLD) proto port \/ cidr_rule (cidr_item <$> cidrs) net proto port x dstmap.
Proof.
  intros Hx Hn Hpr Hpo dstmap. unfold ns_sg_admit, ns_sg_check. rewrite not_updating.
  assert (cidr_proto proto (negb (Is4 x)) mod 256 = proto) as Em.
  { rewrite cidr_proto_family, proto_family_spec by (done || apply family_cases). rewrite Z.mod_add by lia. by apply Z.mod_small. }
  rewrite Em. pose proof (sg_admit_spec (MkSgQuery (MkLocalKey net vpc_ip) net (Z.shiftl 1 SG_WORLD) (htons port) proto) port Hpo eq_refl) as A.
  cbn [sq_dst sq_src_net sq_srcmap sq_proto lo_Net] in A. fold dstmap in A. cbn [sq_dst]. fold dstmap.
  destruct Hcomplete as (_ & _ & Hw & _). pose proof (cidr_want_lookup _ MkSgCidrKey _ _ ltac:(done) ltac:(done) Hcidrs Hw) as U.
  destruct (sg_admit s _); [tauto|]. rewrite (two_cidr_bits _ _ _ _ _ _ _ U) by done. split; [tauto|].
  intros [?|[?|?]]; [..|done]; discriminate (proj2 A); auto.
Qed.

(** The egress twin: a packet of a VPC pod leaves the VPC exactly when the pod is ungrouped,
    the packet is not gated, or a CIDR egress rule of one of the pod's groups contains the
    destination on that port or any port. *)
Theorem ns_egress_ok_correct skb srcnet src x proto :
  skb_ok skb -> plain x -> 0 <= srcnet < 2 ^ 32 -> 0 <= proto < 2 ^ 8 ->
  let v6 := negb (Is4 x) in
  let srcmap := sg_membership s (MkLocalKey srcnet src) in
  ns_egress_ok s skb srcnet v6 proto src (be_bytes 16 (enc x)) = true <->
  srcmap = 0 \/ sg_l4 skb proto (l4_off v6) = None \/
  cidr_rule (egress_item <$> egressCIDRs) srcnet proto (be (bytes_at (frame skb) (l4_off v6 + 2) 2)) x srcmap.
Proof.
  intros [Hf _] Hx Hn Hpr v6 srcmap. subst v6. unfold ns_egress_ok. rewrite not_updating. fold srcmap.
  destruct (Z.eqb_spec srcmap 0) as [|Hne]; [tauto|]. destruct (sg_l4 skb proto _) as [d|] eqn:El; [|tauto].
  destruct (sg_l4_bound _ _ _ _ Hf El) as [-> Hp]. destruct Hcomplete as (_ & _ & _ & _ & Hw & _).
  pose proof (cidr_want_lookup _ MkSgEgressCidrKey _ _ ltac:(done) ltac:(done) Hecidrs Hw) as U.
  rewrite (two_cidr_bits _ _ _ _ _ _ _ U) by done. split; [tauto|]. by intros [?|[?|?]].
Qed.
End Meaning.

(** ** Failing closed *)

(** The endpoint at [key] has no membership proved for it. *)
Definition unproved (s : SgView) (key : overlayLocalKey) : Prop :=
  lo_Net key <> 0 /\ exists ep, locals s !! key = Some ep /\
    match SgMembers (sg_kern s) !! key with Some m => owner_proved ep m = false | None => True end.

(** The CIDR maps never name group 0, which no group has. *)
Definition no_group_zero (s : SgView) : Prop :=
  map_Forall (fun _ v => Z.testbit v 0 = false) (SgCidr (sg_kern s)) /\ map_Forall (fun _ v => Z.testbit v 0 = false) (SgEgressCidr (sg_kern s)).

Lemma unproved_membership s key : unproved s key -> sg_membership s key = 1.
Proof.
  intros (Hn & ep & Hl & Hm). unfold sg_membership. destruct (Z.eqb_spec (lo_Net key) 0); [done|]. rewrite Hl.
  destruct (SgMembers (sg_kern s) !! key); [by rewrite Hm|done].
Qed.

Lemma no_real_group (f : Z -> Z) x :
  negb (Z.land (fold_left (fun allowed g => if Z.land 1 (Z.shiftl 1 g) =? 0 then allowed else Z.lor allowed (f g)) real_groups 0) x =? 0) = false.
Proof.
  destruct (negb _) eqn:E; [|done]. apply land_bits in E as (n & _ & Hb & _). apply group_fold in Hb as (g & Hg & Hb & _).
  change 1 with (Z.shiftl 1 0) in Hb. rewrite bit_shift_ne in Hb by lia. done.
Qed.

Lemma sg_admit_unproved s q : unproved s (sq_dst q) -> sg_admit s q = false.
Proof. intros Hu. unfold sg_admit. destruct (sg_updating s); [done|]. rewrite unproved_membership by done. apply no_real_group. Qed.

Lemma sg_egress_unproved s q : eq_srcmap q = 1 -> sg_egress_admit s q = false.
Proof. intros Hu. unfold sg_egress_admit. destruct (sg_updating s); [done|]. rewrite Hu. apply no_real_group. Qed.

Lemma cidr_bits_zero `{Countable K} `{!LpmKey K} (table : gmap K Z) net proto addr port :
  map_Forall (fun _ v => Z.testbit v 0 = false) table -> cidr_bits table net proto addr port 1 = false.
Proof.
  intros Hz. unfold cidr_bits. pose proof (lpm_find_spec table (le_bytes 4 net ++ le_bytes 2 port ++ le_bytes 2 proto ++ addr)) as F.
  destruct (lpm_find table _) as [b|]; [|done]. destruct F as (k & Hk & _). destruct (negb _) eqn:E; [|done].
  apply land_bits in E as (n & Hn & Hb & H1). change 1 with (Z.shiftl 1 0) in H1. destruct (decide (n = 0)) as [-> |Hne].
  - by rewrite (Hz k b Hk) in Hb.
  - by rewrite bit_shift_ne in H1 by lia.
Qed.


(** ** A small VPC *)

Definition ok_or {A} (d : A) (r : result A) : A := match r with Ok a => a | Err _ => d end.
Lemma ok_or_spec {A} (d : A) r : is_ok r = true -> r = Ok (ok_or d r).
Proof. by destruct r. Qed.

Definition web_key : overlayLocalKey := MkLocalKey 100 (v4_to_128 [10; 0; 0; 2]).
Definition app_key : overlayLocalKey := MkLocalKey 100 (v4_to_128 [10; 0; 0; 1]).
Definition vpc_members : list SGMember := [MkSGMember 100 [10; 0; 0; 2] 2 [7; 0; 0; 0]; MkSGMember 100 [10; 0; 0; 1] 4 [9; 0; 0; 0]].
Definition vpc_rules : list SGRule := [MkSGRule 100 100 1 6 80 4].
Definition vpc_egress : list SGEgress := [MkSGEgress 100 100 2 6 80 2].
Definition office : IPNet := MkIPNet [192; 0; 2; 0] [255; 255; 255; 0].
Definition vpc_cidrs : list SGCidr := [MkSGCidr 100 6 80 (Some office) 2].
Definition vpc_ecidrs : list SGEgressCidr := [MkSGEgressCidr 100 6 80 (Some office) 4].

Definition vpc_view : SgView :=
  MkSgView (MkSgKern (<[cfgSGInitialized := 1]> (<[cfgSGUpdating := 0]> ∅))
    (ok_or ∅ (members_want small_caps vpc_members)) (ok_or ∅ (rules_want small_caps vpc_rules))
    (ok_or ∅ (cidr_want (cap_cidr small_caps) MkSgCidrKey (cidr_item <$> vpc_cidrs)))
    (ok_or ∅ (egress_want small_caps vpc_egress))
    (ok_or ∅ (cidr_want (cap_egress_cidr small_caps) MkSgEgressCidrKey (egress_item <$> vpc_ecidrs))))
  {[web_key := MkEndpoint 11 [2; 0; 0; 0; 0; 1] [7; 0; 0; 0]]}.

Lemma vpc_complete : complete small_caps vpc_members vpc_rules vpc_cidrs vpc_egress vpc_ecidrs (sg_kern vpc_view).
Proof.
  unfold complete, vpc_view. cbn [sg_kern SgMembers SgRules SgCidr SgEgress SgEgressCidr params].
  do 5 (split; [apply ok_or_spec; vm_compute; reflexivity|]). split; vm_compute; reflexivity.
Qed.

Lemma web_groups : sg_membership vpc_view web_key = 2.
Proof. vm_compute. reflexivity. Qed.
Lemma app_groups : sg_membership vpc_view app_key = 4.
Proof. vm_compute. reflexivity. Qed.

Lemma vpc_rules_ok : Forall rule_ok vpc_rules.
Proof. apply Forall_singleton. unfold rule_ok. cbn. lia. Qed.
Lemma vpc_egress_ok : Forall egress_ok vpc_egress.
Proof. apply Forall_singleton. unfold egress_ok. cbn. lia. Qed.
Lemma vpc_cidrs_ok : Forall item_ok (cidr_item <$> vpc_cidrs).
Proof. apply Forall_singleton, item_ok_lit. vm_compute. reflexivity. Qed.
Lemma vpc_ecidrs_ok : Forall item_ok (egress_item <$> vpc_ecidrs).
Proof. apply Forall_singleton, item_ok_lit. vm_compute. reflexivity. Qed.

Definition web_pkt : pkt := MkPkt false 6 (v4_to_128 [10; 0; 0; 1]) (v4_to_128 [10; 0; 0; 2]).

Lemma to_pod_sg_correct_witness : to_pod_sg vpc_view syn_1460 web_pkt 100 100 = true.
Proof.
  apply (to_pod_sg_correct small_caps vpc_members vpc_rules vpc_cidrs vpc_egress vpc_ecidrs vpc_view vpc_complete
    vpc_rules_ok vpc_egress_ok syn_1460 web_pkt 100 100 syn_1460_ok).
  right. change (MkLocalKey 100 (p_src web_pkt)) with app_key. change (MkLocalKey 100 (p_dst web_pkt)) with web_key.
  rewrite web_groups, app_groups. split; right.
  - exists (MkSGRule 100 100 1 6 80 4), 2. repeat split; try reflexivity; try discriminate; [apply list_elem_of_here|left; reflexivity].
  - exists (MkSGEgress 100 100 2 6 80 2), 1. repeat split; try reflexivity; try discriminate; [apply list_elem_of_here|left; reflexivity].
Defined.

Definition office_client : Addr := MkAddr true (192 * 2 ^ 24 + 2 * 2 ^ 8 + 7).
Lemma office_plain : plain office_client.
Proof. split; [split; vm_compute; [discriminate|reflexivity]|reflexivity]. Qed.

Lemma office_contains : exists p, normalizedCIDR (Some office) = Ok p /\ Contains p office_client = true.
Proof. eexists. split; vm_compute; reflexivity. Qed.

Lemma ns_sg_admit_correct_witness :
  ns_sg_admit vpc_view 100 (v4_to_128 [10; 0; 0; 2]) (be_bytes 16 (enc office_client)) (cidr_proto 6 false) (htons 80) = true.
Proof.
  apply (ns_sg_admit_correct small_caps vpc_members vpc_rules vpc_cidrs vpc_egress vpc_ecidrs vpc_view vpc_complete
    vpc_rules_ok vpc_cidrs_ok 100 (v4_to_128 [10; 0; 0; 2]) office_client 6 80 office_plain); [lia..|].
  right. right. change (MkLocalKey 100 (v4_to_128 [10; 0; 0; 2])) with web_key. rewrite web_groups. exists 1. split; [lia|]. split; [reflexivity|].
  left. destruct office_contains as (p & Hp & Hc). exists (cidr_item (MkSGCidr 100 6 80 (Some office) 2)), p.
  repeat split; try reflexivity; [apply list_elem_of_here|exact Hp|exact Hc].
Defined.

Lemma ns_egress_ok_correct_witness :
  ns_egress_ok vpc_view syn_1460 100 false 6 (v4_to_128 [10; 0; 0; 1]) (be_bytes 16 (enc office_client)) = true.
Proof.
  apply (ns_egress_ok_correct small_caps vpc_members vpc_rules vpc_cidrs vpc_egress vpc_ecidrs vpc_view vpc_complete
    vpc_ecidrs_ok syn_1460 100 (v4_to_128 [10; 0; 0; 1]) office_client 6 syn_1460_ok office_plain); [lia..|].
  right. right. change (MkLocalKey 100 (v4_to_128 [10; 0; 0; 1])) with app_key. rewrite app_groups. exists 2. split; [lia|]. split; [reflexivity|].
  left. destruct office_contains as (p & Hp & Hc). exists (egress_item (MkSGEgressCidr 100 6 80 (Some office) 4)), p.
  repeat split; try reflexivity; [apply list_elem_of_here|exact Hp|exact Hc].
Defined.

(** A sandbox the published membership does not name. *)
Definition imposter_view : SgView := MkSgView (sg_kern vpc_view) {[web_key := MkEndpoint 12 [2; 0; 0; 0; 0; 2] [8; 0; 0; 0]]}.

Lemma imposter_unproved : unproved imposter_view web_key.
Proof. split; [discriminate|]. eexists. split; [apply lookup_insert_eq|]. vm_compute. reflexivity. Qed.

Lemma imposter_no_zero : no_group_zero imposter_view.
Proof. split; apply map_Forall_to_list; vm_compute; repeat constructor. Qed.

