(* ===== verification/Nat.v ===== *)
(** * Connection tracking and NAT

    [bpf/overlay.c] translates north-south traffic without netfilter: the fabric bridge hides a
    client behind the link-local gateway in front of a VPC pod, the masquerade hides a
    default-network pod behind the node address.  Both keep a pair of LRU maps: [ct_fwd] from
    the flow to the allocated port, [ct_rev] from the port back to the flow.  This file models
    the allocator, the header rewrites with their checksums, and both directions of the bridge
    and the masquerade over IPv4, ICMP errors included. *)
From Stdlib Require Import ZArith Lia.
From stdpp Require Import base gmap list numbers.
From S2P Require Import Prelude GoNet AddrMap KernelMap Lpm Packet Embedded SecurityGroups SgDatapath.
Open Scope Z_scope.

(** ** The tables *)

(** [ct_fwd_key], bpf/overlay.c:657-665. *)
Record ct_fwd_key := MkCtFwd { cf_proto : Z; cf_net : Z; cf_client_ip : list Z; cf_fabric_ip : list Z; cf_client_port : Z; cf_pod_port : Z }.
(** [ct_rev_key], bpf/overlay.c:667-675. *)
Record ct_rev_key := MkCtRev { cr_proto : Z; cr_gw_port : Z; cr_net : Z; cr_vpc_ip : list Z; cr_pod_port : Z }.
(** [ct_rev_val], bpf/overlay.c:677-682. *)
Record ct_rev_val := MkCtRevVal { cv_fabric_ip : list Z; cv_client_ip : list Z; cv_client_port : Z }.

#[export] Instance ct_fwd_key_eq_dec : EqDecision ct_fwd_key.
Proof. solve_decision. Defined.
#[export] Program Instance ct_fwd_key_countable : Countable ct_fwd_key :=
  inj_countable' (fun k => (cf_proto k, cf_net k, cf_client_ip k, cf_fabric_ip k, cf_client_port k, cf_pod_port k))
    (fun '(a, b, c, d, e, f) => MkCtFwd a b c d e f) _.
Next Obligation. by intros []. Qed.
#[export] Instance ct_rev_key_eq_dec : EqDecision ct_rev_key.
Proof. solve_decision. Defined.
#[export] Program Instance ct_rev_key_countable : Countable ct_rev_key :=
  inj_countable' (fun k => (cr_proto k, cr_gw_port k, cr_net k, cr_vpc_ip k, cr_pod_port k)) (fun '(a, b, c, d, e) => MkCtRev a b c d e) _.
Next Obligation. by intros []. Qed.
#[export] Instance ct_rev_val_eq_dec : EqDecision ct_rev_val.
Proof. solve_decision. Defined.

Record Conntrack := MkConntrack { ct_fwd : gmap ct_fwd_key Z; ct_rev : gmap ct_rev_key ct_rev_val }.

(** [MASQ_PORT_BASE], bpf/overlay.c:748-748. *)
Definition MASQ_PORT_BASE : Z := 16384.
(** [MASQ_PORT_SPAN], bpf/overlay.c:749-749. *)
Definition MASQ_PORT_SPAN : Z := 13616.
(** [LINK_LOCAL_GW], bpf/overlay.c:41-41, in network order. *)
Definition LINK_LOCAL_GW : Z := le [0xA9; 0xFE; 0x01; 0x01].

(** [alloc_gw_port_in], the probes, bpf/overlay.c:3236-3249: [BPF_NOEXIST] inserts the first
    free reverse key; [rnd] is [bpf_get_prandom_u32]. *)
Fixpoint alloc_probe (n : nat) (i : Z) (ct : Conntrack) (proto net : Z) (vpc_ip : list Z) (pod_port : Z) (rv : ct_rev_val)
    (port_base port_span rnd : Z) : Z * Conntrack :=
  match n with
  | O => (0, ct)
  | S n =>
      let p := htons (u16 (port_base + u32 (rnd + i) mod port_span)) in
      let rk := MkCtRev proto p net vpc_ip pod_port in
      match ct_rev ct !! rk with
      | None => (p, MkConntrack (ct_fwd ct) (<[rk := rv]> (ct_rev ct)))
      | Some _ => alloc_probe n (i + 1) ct proto net vpc_ip pod_port rv port_base port_span rnd
      end
  end.

(** [alloc_gw_port_in], bpf/overlay.c:3226-3250. *)
Definition alloc_gw_port_in (ct : Conntrack) (proto net : Z) (vpc_ip : list Z) (pod_port : Z)
    (fabric_ip client_ip : list Z) (client_port port_base port_span rnd : Z) : Z * Conntrack :=
  alloc_probe 16 0 ct proto net vpc_ip pod_port (MkCtRevVal fabric_ip client_ip client_port) port_base port_span rnd.

(** [alloc_gw_port], bpf/overlay.c:3252-3256. *)
Definition alloc_gw_port (ct : Conntrack) (proto net : Z) (vpc_ip : list Z) (pod_port : Z)
    (fabric_ip client_ip : list Z) (client_port rnd : Z) : Z * Conntrack :=
  alloc_gw_port_in ct proto net vpc_ip pod_port fabric_ip client_ip client_port 1024 64000 rnd.

(** The port of a flow: the one it has, or a new one recorded in [ct_fwd]; zero when the
    allocator finds none. *)
Definition port_of_flow (ct : Conntrack) (fk : ct_fwd_key) (alloc : Conntrack -> Z * Conntrack) : Z * Conntrack :=
  match ct_fwd ct !! fk with
  | Some gw => (gw, ct)
  | None =>
      let '(gw, ct) := alloc ct in
      if gw =? 0 then (0, ct) else (gw, MkConntrack (<[fk := gw]> (ct_fwd ct)) (ct_rev ct))
  end.

(** ** Lookups *)

(** [bridge_ep], bpf/overlay.c:479-483. *)
Record bridge_ep := MkBridgeEp { be_net : Z; be_vpc_ip : list Z }.

(** The maps these programs only read. *)
Record NatEnv := MkNatEnv {
  n_sg : SgView;
  n_internal : gmap overlayLpmKey Z; n_masq_srcs : gmap overlayLpmKey Z; n_remotes : gmap overlayLpmKey Z;
  n_node_remotes : gmap (list Z) Z; n_bridges : gmap (list Z) bridge_ep; n_floating : gmap (list Z) bridge_ep;
  n_masq_ip : Z; n_geneve : Z; n_vni : Z;
  n_tunnel_ok : bool (* [bpf_skb_set_tunnel_key] and [bpf_skb_set_tunnel_opt] succeed *) }.

(** [is_internal], bpf/overlay.c:2518-2522. *)
Definition is_internal (e : NatEnv) (addr : list Z) : bool :=
  bool_decide (is_Some (lpm_find (n_internal e) (data (MkLpmKey 160 0 addr)))).
(** [is_masq_src], bpf/overlay.c:2524-2528. *)
Definition is_masq_src (e : NatEnv) (addr : list Z) : bool :=
  bool_decide (is_Some (lpm_find (n_masq_srcs e) (data (MkLpmKey 160 0 addr)))).
(** [remote_of], bpf/overlay.c:2459-2463. *)
Definition remote_of (e : NatEnv) (scope : Z) (addr : list Z) : option Z := lpm_find (n_remotes e) (data (MkLpmKey 160 scope addr)).
(** [node_remote_of], bpf/overlay.c:2477-2480. *)
Definition node_remote_of (e : NatEnv) (addr : list Z) : option Z := n_node_remotes e !! addr.
(** [local_of], bpf/overlay.c:2482-2486. *)
Definition local_of (e : NatEnv) (net : Z) (ip : list Z) : option endpoint := locals (n_sg e) !! MkLocalKey net ip.
(** [bridge_of], bpf/overlay.c:2530-2533. *)
Definition bridge_of (e : NatEnv) (fabric : list Z) : option bridge_ep := n_bridges e !! fabric.
(** [float_of], bpf/overlay.c:2535-2538. *)
Definition float_of (e : NatEnv) (pub : list Z) : option bridge_ep := n_floating e !! pub.

(** [receiving_owner] with the [VPC_MARK] of the packet mark, bpf/overlay.c:2542-2559. *)
Definition receiving_owner (e : NatEnv) (vpc_marked : bool) (ifindex net : Z) (dst : list Z) : bool :=
  let owner := if vpc_marked then None else match n_bridges e !! dst with None => n_floating e !! dst | o => o end in
  let deliverable ip := match local_of e net ip with None => true | Some active => ep_ifindex active =? ifindex end in
  match owner with
  | None => deliverable dst
  | Some o => if negb (be_net o =? net) then false else deliverable (be_vpc_ip o)
  end.

(** What a program does with the frame. *)
Inductive act :=
  | MISS
  | ACT_OK
  | ACT_SHOT
  | Redirect (ifindex : Z)
  | Tunnel (ifindex vni remote : Z) (opt : option sg_geneve_opt).

Section Rewrites.
Context `{ChecksumHelpers}.

(** ** Header rewrites *)

(** [IP_CSUM_OFF], bpf/overlay.c:79-79. *)
Definition IP_CSUM_OFF : Z := ETH_HLEN + 10.
(** [IP_SADDR_OFF], bpf/overlay.c:80-80. *)
Definition IP_SADDR_OFF : Z := ETH_HLEN + 12.
(** [IP_DADDR_OFF], bpf/overlay.c:81-81. *)
Definition IP_DADDR_OFF : Z := ETH_HLEN + 16.
(** [L4_SPORT_OFF], bpf/overlay.c:83-83. *)
Definition L4_SPORT_OFF : Z := L4_OFF.
(** [L4_DPORT_OFF], bpf/overlay.c:84-84. *)
Definition L4_DPORT_OFF : Z := L4_OFF + 2.
(** [ICMP_ID_OFF], bpf/overlay.c:99-99. *)
Definition ICMP_ID_OFF : Z := L4_OFF + 4.

(** [l4_csum_off], bpf/overlay.c:2872-2875. *)
Definition l4_csum_off (proto : Z) : Z := if proto =? IPPROTO_TCP then L4_OFF + 16 else L4_OFF + 6.

Definition l3_fix (f : list Z) (off old new size : Z) : list Z := default f (l3_csum_replace f off old new size).

(** [nat_addr], bpf/overlay.c:2881-2891. *)
Definition nat_addr (f : list Z) (proto addr_off old new : Z) : list Z :=
  let f := if proto =? IPPROTO_ICMP then f
           else csum_fix f (l4_csum_off proto) old new (PSEUDO_HDR + 4 + if proto =? IPPROTO_UDP then MANGLED_0 else 0) in
  let f := l3_fix f IP_CSUM_OFF old new 4 in
  put_bytes f addr_off (le_bytes 4 new).

(** [nat_port], bpf/overlay.c:2894-2901. *)
Definition nat_port (f : list Z) (proto port_off old new : Z) : list Z :=
  let f := csum_fix f (l4_csum_off proto) old new (2 + if proto =? IPPROTO_UDP then MANGLED_0 else 0) in
  put_bytes f port_off (le_bytes 2 new).

(** [nat_icmp_id], bpf/overlay.c:2921-2925. *)
Definition nat_icmp_id (f : list Z) (old new : Z) : list Z :=
  put_bytes (csum_fix f ICMP_CSUM_OFF old new 2) ICMP_ID_OFF (le_bytes 2 new).

(** ** Delivery *)

(** [deliver_local], bpf/overlay.c:2796-2801. *)
Definition deliver_local (f : list Z) (ep : endpoint) : act * list Z :=
  match store_bytes f 0 (ep_mac ep) with
  | None => (ACT_SHOT, f)
  | Some f => (Redirect (ep_ifindex ep), f)
  end.

(** [OVERLAY_DMAC], bpf/overlay.c:222-222. *)
Definition OVERLAY_DMAC : list Z := [0x02; 0xcf; 0xcf; 0xcf; 0xcf; 0xcf].

(** [encap_sg], bpf/overlay.c:2817-2847. *)
Definition encap_sg (e : NatEnv) (skb : sk_buff) (dstnet node_ip tunflags srcnet srcmap : Z) : act * list Z :=
  let skb := tcp_mss_clamp_packet skb in
  if n_geneve e =? 0 then (ACT_SHOT, frame skb)
  else match store_bytes (frame skb) 0 OVERLAY_DMAC with
       | None => (ACT_SHOT, frame skb)
       | Some f =>
           if negb (n_tunnel_ok e) then (ACT_SHOT, f)
           else
             let vni := Z.lor (if dstnet =? 0 then n_vni e else dstnet) tunflags in
             (Tunnel (n_geneve e) vni node_ip (if srcmap =? 0 then None else Some (MkSgOpt srcnet srcmap)), f)
       end.

(** [encap], bpf/overlay.c:2851-2854. *)
Definition encap (e : NatEnv) (skb : sk_buff) (dstnet node_ip tunflags : Z) : act * list Z := encap_sg e skb dstnet node_ip tunflags 0 0.

(** [deliver_net0], bpf/overlay.c:3404-3422. *)
Definition deliver_net0 (e : NatEnv) (skb : sk_buff) (dst : list Z) : act * list Z :=
  match local_of e 0 dst with
  | Some l => deliver_local (frame skb) l
  | None =>
      match remote_of e 0 dst with
      | Some node => encap e skb 0 node 0
      | None =>
          match node_remote_of e dst with
          | Some node => encap e skb 0 node 0
          | None => (ACT_OK, frame skb)
          end
      end
  end.

(** ** The fabric bridge *)

Definition ip_ihl (f : list Z) : Z := Z.land (field f 14 1) 15.
Definition ip_protocol (f : list Z) : Z := field f 23 1.
Definition ip_saddr (f : list Z) : Z := field f IP_SADDR_OFF 4.
Definition ip_daddr (f : list Z) : Z := field f IP_DADDR_OFF 4.
Definition v4_key (a : Z) : list Z := v4_to_128 (le_bytes 4 a).

Definition l4_tracked (proto : Z) : bool := (proto =? IPPROTO_TCP) || (proto =? IPPROTO_UDP).

(** [bridge_forward_icmp_err], bpf/overlay.c:3266-3297. *)
Definition bridge_forward_icmp_err (ct : Conntrack) (f : list Z) (net : Z) (vpc_ip : list Z) : act * Conntrack * list Z :=
  match emb_load f with
  | None => (ACT_SHOT, ct, f)
  | Some e =>
      let osrc := ip_saddr f in let odst := ip_daddr f in
      if negb (l4_tracked (e_proto e)) || negb (e_saddr e =? odst) then (ACT_SHOT, ct, f)
      else match ct_fwd ct !! MkCtFwd (e_proto e) net (v4_key (e_daddr e)) (v4_key (e_saddr e)) (e_dport e) (e_sport e) with
           | None => (ACT_SHOT, ct, f)
           | Some gw_port =>
               let vpc := v4_of_128 vpc_ip in
               let f := nat_addr f IPPROTO_ICMP IP_DADDR_OFF odst vpc in
               let f := nat_addr f IPPROTO_ICMP IP_SADDR_OFF osrc LINK_LOCAL_GW in
               (ACT_OK, ct, emb_rewrite f e vpc LINK_LOCAL_GW EMB_DPORT_OFF (e_dport e) gw_port)
           end
  end.

(** [bridge_forward_icmp], bpf/overlay.c:3304-3341. *)
Definition bridge_forward_icmp (ct : Conntrack) (skb : sk_buff) (net : Z) (vpc_ip : list Z) (rnd : Z) : act * Conntrack * list Z :=
  let f := frame skb in
  match icmp_echo false skb with
  | None => (ACT_SHOT, ct, f)
  | Some (type, id) =>
      if icmp_v4_err type then bridge_forward_icmp_err ct f net vpc_ip
      else if negb (type =? 8) then (ACT_SHOT, ct, f)
      else
        let client := ip_saddr f in let fabric := ip_daddr f in
        let fk := MkCtFwd IPPROTO_ICMP net (v4_key client) (v4_key fabric) id 0 in
        let '(gw_id, ct) := port_of_flow ct fk (fun ct =>
          alloc_gw_port ct IPPROTO_ICMP net vpc_ip 0 (v4_key fabric) (v4_key client) id rnd) in
        if gw_id =? 0 then (ACT_SHOT, ct, f)
        else
          let f := nat_addr f IPPROTO_ICMP IP_DADDR_OFF fabric (v4_of_128 vpc_ip) in
          let f := nat_addr f IPPROTO_ICMP IP_SADDR_OFF client LINK_LOCAL_GW in
          (ACT_OK, ct, nat_icmp_id f id gw_id)
  end.

(** [bridge_forward], bpf/overlay.c:3346-3399; [ns_marked] is [NS_MARK] of the packet mark. *)
Definition bridge_forward (e : NatEnv) (ct : Conntrack) (skb : sk_buff) (ns_marked : bool) (net : Z) (vpc_ip : list Z) (rnd : Z)
    : act * Conntrack * list Z :=
  let f := frame skb in
  let proto := ip_protocol f in
  if negb (ip_ihl f =? 5) then (ACT_SHOT, ct, f)
  else if proto =? IPPROTO_ICMP then bridge_forward_icmp ct skb net vpc_ip rnd
  else if negb (l4_tracked proto) then (ACT_SHOT, ct, f)
  else match l4_ports false skb with
       | None => (ACT_SHOT, ct, f)
       | Some (cport, pport) =>
           let client := ip_saddr f in let fabric := ip_daddr f in
           if ns_marked && negb (ns_sg_admit (n_sg e) net vpc_ip (v4_key client) (cidr_proto proto false) pport) then (ACT_SHOT, ct, f)
           else
             let fk := MkCtFwd proto net (v4_key client) (v4_key fabric) cport pport in
             let '(gw_port, ct) := port_of_flow ct fk (fun ct =>
               alloc_gw_port ct proto net vpc_ip pport (v4_key fabric) (v4_key client) cport rnd) in
             if gw_port =? 0 then (ACT_SHOT, ct, f)
             else
               let f := nat_addr f proto IP_DADDR_OFF fabric (v4_of_128 vpc_ip) in
               let f := nat_addr f proto IP_SADDR_OFF client LINK_LOCAL_GW in
               (ACT_OK, ct, nat_port f proto L4_SPORT_OFF cport gw_port)
       end.

(** [bridge_reverse_icmp_err], bpf/overlay.c:3441-3470. *)
Definition bridge_reverse_icmp_err (e : NatEnv) (ct : Conntrack) (skb : sk_buff) (net : Z) : act * list Z :=
  let f := frame skb in
  match emb_load f with
  | None => (ACT_OK, f)
  | Some em =>
      let osrc := ip_saddr f in
      if negb (l4_tracked (e_proto em)) || negb (e_saddr em =? LINK_LOCAL_GW) || negb (e_daddr em =? osrc) then (ACT_OK, f)
      else match ct_rev ct !! MkCtRev (e_proto em) (e_sport em) net (v4_key (e_daddr em)) (e_dport em) with
           | None => (ACT_OK, f)
           | Some rv =>
               let fabric := v4_of_128 (cv_fabric_ip rv) in let client := v4_of_128 (cv_client_ip rv) in
               let f := nat_addr f IPPROTO_ICMP IP_SADDR_OFF osrc fabric in
               let f := nat_addr f IPPROTO_ICMP IP_DADDR_OFF LINK_LOCAL_GW client in
               let f := emb_rewrite f em client fabric EMB_SPORT_OFF (e_sport em) (cv_client_port rv) in
               deliver_net0 e (MkSkb f (linear skb)) (cv_client_ip rv)
           end
  end.

(** [bridge_reverse_icmp], bpf/overlay.c:3472-3499. *)
Definition bridge_reverse_icmp (e : NatEnv) (ct : Conntrack) (skb : sk_buff) (net : Z) : act * list Z :=
  let f := frame skb in
  match icmp_echo false skb with
  | None => (ACT_OK, f)
  | Some (type, gw_id) =>
      if icmp_v4_err type then bridge_reverse_icmp_err e ct skb net
      else if negb (type =? 0) then (ACT_OK, f)
      else match ct_rev ct !! MkCtRev IPPROTO_ICMP gw_id net (v4_key (ip_saddr f)) 0 with
           | None => (ACT_OK, f)
           | Some rv =>
               let f := nat_addr f IPPROTO_ICMP IP_SADDR_OFF (ip_saddr f) (v4_of_128 (cv_fabric_ip rv)) in
               let f := nat_addr f IPPROTO_ICMP IP_DADDR_OFF LINK_LOCAL_GW (v4_of_128 (cv_client_ip rv)) in
               let f := nat_icmp_id f gw_id (cv_client_port rv) in
               deliver_net0 e (MkSkb f (linear skb)) (cv_client_ip rv)
           end
  end.

(** [bridge_reverse], bpf/overlay.c:3501-3531. *)
Definition bridge_reverse (e : NatEnv) (ct : Conntrack) (skb : sk_buff) (net : Z) : act * list Z :=
  let f := frame skb in
  let proto := ip_protocol f in
  if negb (ip_ihl f =? 5) then (ACT_OK, f)
  else if proto =? IPPROTO_ICMP then bridge_reverse_icmp e ct skb net
  else if negb (l4_tracked proto) then (ACT_OK, f)
  else match l4_ports false skb with
       | None => (ACT_OK, f)
       | Some (pport, gw_port) =>
           match ct_rev ct !! MkCtRev proto gw_port net (v4_key (ip_saddr f)) pport with
           | None => (ACT_OK, f)
           | Some rv =>
               let f := nat_addr f proto IP_SADDR_OFF (ip_saddr f) (v4_of_128 (cv_fabric_ip rv)) in
               let f := nat_addr f proto IP_DADDR_OFF LINK_LOCAL_GW (v4_of_128 (cv_client_ip rv)) in
               let f := nat_port f proto L4_DPORT_OFF gw_port (cv_client_port rv) in
               deliver_net0 e (MkSkb f (linear skb)) (cv_client_ip rv)
           end
       end.

(** ** The masquerade *)

Definition masq_port (port : Z) : bool :=
  let h := htons port in (MASQ_PORT_BASE <=? h) && (h <? MASQ_PORT_BASE + MASQ_PORT_SPAN).

(** [masq_snat], an ICMP echo request, bpf/overlay.c:4155-4179. *)
Definition masq_snat_icmp (e : NatEnv) (ct : Conntrack) (skb : sk_buff) (p : pkt) (rnd : Z) : act * Conntrack * list Z :=
  let f := frame skb in
  match icmp_echo false skb with
  | None => (MISS, ct, f)
  | Some (type, id) =>
      if negb (type =? 8) then (MISS, ct, f)
      else
        let fk := MkCtFwd IPPROTO_ICMP 0 (p_src p) (p_dst p) id 0 in
        let '(gw_id, ct) := port_of_flow ct fk (fun ct =>
          alloc_gw_port_in ct IPPROTO_ICMP 0 (p_dst p) 0 (p_src p) (p_src p) id MASQ_PORT_BASE MASQ_PORT_SPAN rnd) in
        if gw_id =? 0 then (MISS, ct, f)
        else (ACT_OK, ct, nat_icmp_id (nat_addr f IPPROTO_ICMP IP_SADDR_OFF (ip_saddr f) (n_masq_ip e)) id gw_id)
  end.

(** [masq_snat], bpf/overlay.c:4140-4215. *)
Definition masq_snat (e : NatEnv) (ct : Conntrack) (skb : sk_buff) (p : pkt) (rnd : Z) : act * Conntrack * list Z :=
  let f := frame skb in
  let proto := ip_protocol f in
  if negb (is_masq_src e (p_src p)) || is_internal e (p_dst p) || (n_masq_ip e =? 0) then (MISS, ct, f)
  else if (linear skb <? ETH_HLEN + 20) || negb (ip_ihl f =? 5) then (MISS, ct, f)
  else if proto =? IPPROTO_ICMP then masq_snat_icmp e ct skb p rnd
  else if negb (l4_tracked proto) then (MISS, ct, f)
  else match l4_ports false skb with
       | None => (MISS, ct, f)
       | Some (sport, dport) =>
           let fk := MkCtFwd proto 0 (p_src p) (p_dst p) sport dport in
           if bool_decide (ct_fwd ct !! fk = None) && (proto =? IPPROTO_TCP) && negb (tcp_bare_syn skb L4_OFF) then (MISS, ct, f)
           else
             let '(gw_port, ct) := port_of_flow ct fk (fun ct =>
               alloc_gw_port_in ct proto 0 (p_dst p) dport (p_src p) (p_src p) sport MASQ_PORT_BASE MASQ_PORT_SPAN rnd) in
             if gw_port =? 0 then (MISS, ct, f)
             else (ACT_OK, ct, nat_port (nat_addr f proto IP_SADDR_OFF (ip_saddr f) (n_masq_ip e)) proto L4_SPORT_OFF sport gw_port)
       end.

(** [masq_reverse], an ICMP message, bpf/overlay.c:4257-4303. *)
Definition masq_reverse_icmp (ct : Conntrack) (skb : sk_buff) (p : pkt) : act * list Z :=
  let f := frame skb in
  let odst := ip_daddr f in
  match icmp_echo false skb with
  | None => (MISS, f)
  | Some (type, id) =>
      if type =? 0 then
        if negb (masq_port id) then (MISS, f)
        else match ct_rev ct !! MkCtRev IPPROTO_ICMP id 0 (p_src p) 0 with
             | None => (MISS, f)
             | Some rv => (ACT_OK, nat_icmp_id (nat_addr f IPPROTO_ICMP IP_DADDR_OFF odst (v4_of_128 (cv_fabric_ip rv))) id (cv_client_port rv))
             end
      else if negb (icmp_v4_err type) then (MISS, f)
      else match emb_load f with
           | None => (MISS, f)
           | Some em =>
               if negb (l4_tracked (e_proto em)) || negb (e_saddr em =? odst) || negb (masq_port (e_sport em)) then (MISS, f)
               else match ct_rev ct !! MkCtRev (e_proto em) (e_sport em) 0 (v4_key (e_daddr em)) (e_dport em) with
                    | None => (MISS, f)
                    | Some rv =>
                        let pod := v4_of_128 (cv_fabric_ip rv) in
                        let f := nat_addr f IPPROTO_ICMP IP_DADDR_OFF odst pod in
                        (ACT_OK, emb_rewrite f em pod (e_daddr em) EMB_SPORT_OFF (e_sport em) (cv_client_port rv))
                    end
           end
  end.

(** [masq_reverse], bpf/overlay.c:4226-4303. *)
Definition masq_reverse (e : NatEnv) (ct : Conntrack) (skb : sk_buff) (p : pkt) : act * list Z :=
  let f := frame skb in
  let proto := ip_protocol f in
  if (n_masq_ip e =? 0) || negb (v4_of_128 (p_dst p) =? n_masq_ip e) then (MISS, f)
  else if (linear skb <? ETH_HLEN + 20) || negb (ip_ihl f =? 5) then (MISS, f)
  else if l4_tracked proto then
    match l4_ports false skb with
    | None => (MISS, f)
    | Some (sport, dport) =>
        if negb (masq_port dport) then (MISS, f)
        else match ct_rev ct !! MkCtRev proto dport 0 (p_src p) sport with
             | None => (MISS, f)
             | Some rv =>
                 let f := nat_addr f proto IP_DADDR_OFF (ip_daddr f) (v4_of_128 (cv_fabric_ip rv)) in
                 (ACT_OK, nat_port f proto L4_DPORT_OFF dport (cv_client_port rv))
             end
    end
  else if negb (proto =? IPPROTO_ICMP) then (MISS, f)
  else masq_reverse_icmp ct skb p.
End Rewrites.

(** ** Ports are not shared *)

(** The reverse entry of a masqueraded flow. *)
Definition masq_rk (fk : ct_fwd_key) (gw : Z) : ct_rev_key := MkCtRev (cf_proto fk) gw 0 (cf_fabric_ip fk) (cf_pod_port fk).
Definition masq_rv (fk : ct_fwd_key) : ct_rev_val := MkCtRevVal (cf_client_ip fk) (cf_client_ip fk) (cf_client_port fk).

(** A port of the masquerade range, in network order. *)
Definition masq_gw (gw : Z) : Prop := masq_port gw = true /\ 0 <= gw < 65536.

(** Every forward entry of the default network has a port of the masquerade range and is backed
    by its reverse entry, unless that is one of the [lost] entries. *)
Definition backed (lost : gset ct_rev_key) (ct : Conntrack) : Prop := forall fk gw, cf_net fk = 0 -> ct_fwd ct !! fk = Some gw ->
  (ct_rev ct !! masq_rk fk gw = Some (masq_rv fk) \/ masq_rk fk gw ∈ lost) /\ masq_gw gw.

(** What the probes do: nothing, or one insertion of a key that was free. *)
Lemma alloc_probe_spec n i ct proto net vpc pport rv base span rnd gw ct' :
  alloc_probe n i ct proto net vpc pport rv base span rnd = (gw, ct') ->
  (gw = 0 /\ ct' = ct) \/
  exists j, gw = htons (u16 (base + u32 (rnd + j) mod span)) /\ ct_rev ct !! MkCtRev proto gw net vpc pport = None /\
    ct' = MkConntrack (ct_fwd ct) (<[MkCtRev proto gw net vpc pport := rv]> (ct_rev ct)).
Proof.
  revert i. induction n as [|n IH]; intros i; cbn [alloc_probe]; [intros [= <- <-]; by left|].
  match goal with |- match ?o with Some _ => _ | None => _ end = _ -> _ => destruct o eqn:E end; [apply IH|].
  intros [= <- <-]. right. exists i. auto.
Qed.

Lemma masq_range j : masq_gw (htons (u16 (MASQ_PORT_BASE + u32 j mod MASQ_PORT_SPAN))).
Proof.
  split; [|apply htons_range; unfold u16; apply Z.mod_pos_bound; lia]. unfold masq_port, MASQ_PORT_BASE, MASQ_PORT_SPAN, u16. pose proof (Z.mod_pos_bound (u32 j) 13616 ltac:(lia)) as Hm.
  set (m := u32 j mod 13616) in *. rewrite (Z.mod_small (16384 + m)) by lia.
  rewrite htons_htons by lia. apply andb_true_iff. rewrite Z.leb_le, Z.ltb_lt. lia.
Qed.

Lemma htons_nonzero p : 0 < p < 65536 -> htons p <> 0.
Proof. intros Hp E. change 0 with (htons 0) in E. apply htons_inj in E; lia. Qed.

(** A masqueraded flow gets a port. *)
Lemma backed_port lost ct fk rnd gw ct' : cf_net fk = 0 -> backed lost ct ->
  port_of_flow ct fk (fun ct => alloc_gw_port_in ct (cf_proto fk) 0 (cf_fabric_ip fk) (cf_pod_port fk) (cf_client_ip fk) (cf_client_ip fk)
    (cf_client_port fk) MASQ_PORT_BASE MASQ_PORT_SPAN rnd) = (gw, ct') ->
  backed lost ct' /\ (gw <> 0 -> ct_fwd ct' !! fk = Some gw).
Proof.
  intros Hn Hb. unfold port_of_flow. destruct (ct_fwd ct !! fk) as [g|] eqn:Ef; [intros [= <- <-]; done|].
  destruct (alloc_gw_port_in _ _ _ _ _ _ _ _ _ _ _) as [g c] eqn:Ea. unfold alloc_gw_port_in in Ea.
  destruct (Z.eqb_spec g 0) as [-> |Hg].
  - intros [= <- <-]. split; [|done]. apply alloc_probe_spec in Ea as [[_ ->]|(j & Ej & _)]; [done|].
    pose proof (masq_range (rnd + j)) as R. rewrite <-Ej in R. by destruct R.
  - apply alloc_probe_spec in Ea as [[-> _]|(j & Ej & Hfree & ->)]; [done|]. intros [= <- <-]. split; [|intros _; apply lookup_insert_eq].
    intros fk' gw' Hn'. cbn [ct_fwd ct_rev]. destruct (decide (fk = fk')) as [<- |Hne].
    + rewrite lookup_insert_eq. intros [= <-]. split; [left; apply lookup_insert_eq|]. rewrite Ej. apply masq_range.
    + rewrite lookup_insert_ne by done. intros Hf. destruct (Hb fk' gw' Hn' Hf) as [[Hr|Hl] Hm]; (split; [|done]); [left|by right].
      rewrite lookup_insert_ne; [done|]. intros E. fold (masq_rk fk g) in Hfree. change (MkCtRev _ _ _ _ _) with (masq_rk fk g) in E. congruence.
Qed.

Section Reach.
Context `{ChecksumHelpers}.

(** The tables and, as history, the reverse keys evicted so far.  A step is one packet through a
    program that writes the tables, with any frame, environment and random number (the bridge
    serves VPC networks), or the eviction of any entries: both tables are LRU maps. *)
Inductive ct_step : Conntrack * gset ct_rev_key -> Conntrack * gset ct_rev_key -> Prop :=
  | step_masq e ct lost skb p rnd : ct_step (ct, lost) ((masq_snat e ct skb p rnd).1.2, lost)
  | step_bridge e ct lost skb ns net vpc_ip rnd : net <> 0 -> ct_step (ct, lost) ((bridge_forward e ct skb ns net vpc_ip rnd).1.2, lost)
  | step_evict ct lost fwd rev : fwd ⊆ ct_fwd ct -> rev ⊆ ct_rev ct ->
      ct_step (ct, lost) (MkConntrack fwd rev, (dom (ct_rev ct) ∖ dom rev) ∪ lost).

(** The bridge leaves the entries of the default network alone. *)
Lemma backed_other lost ct fk proto net vpc pport fab cl cp rnd gw ct' : cf_net fk = net -> net <> 0 -> backed lost ct ->
  port_of_flow ct fk (fun ct => alloc_gw_port ct proto net vpc pport fab cl cp rnd) = (gw, ct') -> backed lost ct'.
Proof.
  intros Hn Hz Hb. unfold port_of_flow. destruct (ct_fwd ct !! fk) as [g|] eqn:Ef; [by intros [= <- <-]|].
  destruct (alloc_gw_port _ _ _ _ _ _ _ _ _) as [g c] eqn:Ea. unfold alloc_gw_port, alloc_gw_port_in in Ea. apply alloc_probe_spec in Ea.
  assert (backed lost c) as Hc.
  { destruct Ea as [[_ ->]|(j & Ej & Hfree & ->)]; [done|]. intros fk' gw' Hn' Hf. destruct (Hb fk' gw' Hn' Hf) as [[Hr|Hl] Hm]; (split; [|done]); [left|by right].
    cbn [ct_rev]. rewrite lookup_insert_ne; [done|]. unfold masq_rk. congruence. }
  destruct (g =? 0); intros [= <- <-]; [done|]. intros fk' gw' Hn' Hf. cbn [ct_fwd ct_rev] in *.
  rewrite lookup_insert_ne in Hf by congruence. by apply Hc.
Qed.

(** A reverse entry stays unless it is evicted. *)
Lemma rev_kept (ct ct' : Conntrack) lost k v : ct_rev ct !! k = Some v -> ct_rev ct' ⊆ ct_rev ct ->
  ct_rev ct' !! k = Some v \/ k ∈ (dom (ct_rev ct) ∖ dom (ct_rev ct')) ∪ lost.
Proof.
  intros Hk Hs. destruct (ct_rev ct' !! k) as [v'|] eqn:E.
  - left. pose proof (lookup_weaken _ _ _ _ E Hs). congruence.
  - right. apply elem_of_union_l, elem_of_difference. split; [by apply elem_of_dom_2 in Hk|by apply not_elem_of_dom].
Qed.

Lemma ct_step_backed s s' : ct_step s s' -> backed s.2 s.1 -> backed s'.2 s'.1.
Proof.
  intros [e c lost skb p rnd|e c lost skb ns net vpc_ip rnd Hz|c lost fwd rev Hf Hr] Hb; cbn [fst snd] in *.
  - unfold masq_snat, masq_snat_icmp. repeat case_match; cbn [fst snd]; try done; simplify_eq;
    match goal with E : port_of_flow _ ?fk _ = _ |- _ => by apply (backed_port lost c fk rnd) in E as [? _] end.
  - unfold bridge_forward, bridge_forward_icmp, bridge_forward_icmp_err. repeat case_match; cbn [fst snd]; try done; simplify_eq;
    match goal with E : port_of_flow _ ?fk _ = _ |- _ => by eapply (backed_other lost c fk) in E end.
  - intros fk gw Hn Hfk. destruct (Hb fk gw Hn (lookup_weaken _ _ _ _ Hfk Hf)) as [[Hk|Hl] Hm]; (split; [|done]).
    + by apply (rev_kept c (MkConntrack fwd rev)).
    + right. by apply elem_of_union_r.
Qed.

Lemma reach_backed ct lost : rtc ct_step (MkConntrack ∅ ∅, ∅) (ct, lost) -> backed lost ct.
Proof.
  intros Hr. change (backed (ct, lost).2 (ct, lost).1).
  assert (backed (MkConntrack ∅ ∅, ∅ : gset ct_rev_key).2 (MkConntrack ∅ ∅, ∅ : gset ct_rev_key).1) as H0 by (intros fk gw _ E; cbn [fst ct_fwd] in E; by rewrite lookup_empty in E).
  revert H0. induction Hr as [|c1 c2 c3 Hs _ IH]; [done|]. intros Hb. apply IH. by eapply ct_step_backed.
Qed.

End Reach.

(** ** What the rewrites do to a frame *)

(** Neither checksum helper refuses a checksum inside the frame. *)
Definition helpers_total `{ChecksumHelpers} : Prop := csum_total /\ forall f off from to size,
  0 <= off -> off + 2 <= Z.of_nat (length f) -> l3_csum_replace f off from to size <> None.

Section Frames.
Context `{ChecksumHelpers}.
Hypothesis Htotal : helpers_total.

(** [f'] is [f] with the checksum at [cs] updated from [old] to [new]. *)
Definition fixed (f f' : list Z) (cs flags old new : Z) : Prop :=
  length f' = length f /\ Forall byte f' /\ csum_replaced flags (field f cs 2) old new (field f' cs 2) /\
  (forall o m, 0 <= o -> apart o m cs 2 -> bytes_at f' o m = bytes_at f o m) /\
  (forall k, 0 <= k <= cs -> Z.even (cs - k) = true -> rsum k f' + field f cs 2 ≡ₛ rsum k f + field f' cs 2).

Lemma csum_replaced_range flags c from to c' : csum_replaced flags c from to c' -> 0 <= c' < 65536.
Proof. unfold csum_replaced. destruct (_ && _); [intros ->; lia|tauto]. Qed.

Lemma patch_fixed f cs flags old new c : Forall byte f -> 0 <= cs -> cs + 2 <= Z.of_nat (length f) ->
  csum_replaced flags (field f cs 2) old new c -> fixed f (patch f cs (le_bytes 2 c)) cs flags old new.
Proof.
  intros Hf Ho Hl Hc. pose proof (csum_replaced_range _ _ _ _ _ Hc) as Hr. pose proof (le_bytes_length 2 c) as L2.
  assert (field (patch f cs (le_bytes 2 c)) cs 2 = c) as F2.
  { unfold field. pose proof (bytes_at_patch f cs (le_bytes 2 c) ltac:(lia)) as B. rewrite L2 in B. rewrite B. by apply le_le_bytes. }
  split; [apply patch_length; lia|]. split; [apply patch_byte; [done|apply le_bytes_byte]|]. split; [by rewrite F2|]. split.
  - intros o m Ho' Ha. apply bytes_at_patch_ne; [lia..|]. by rewrite L2.
  - intros k Hk He. pose proof (sum_patch f k cs (le_bytes 2 c) Hk ltac:(lia) He) as S1. rewrite L2, le_le_bytes in S1 by done. by rewrite F2.
Qed.

Lemma l4_fixed f cs flags old new : Forall byte f -> 0 <= cs -> cs + 2 <= Z.of_nat (length f) ->
  fixed f (csum_fix f cs old new flags) cs flags old new.
Proof.
  intros Hf Ho Hl. unfold csum_fix. destruct (l4_csum_replace f cs old new flags) as [f1|] eqn:E; [|by apply (proj1 Htotal) in E].
  destruct (l4_csum_replace_spec _ _ _ _ _ _ E) as (_ & _ & c & Hc & ->). by apply patch_fixed.
Qed.

Lemma l3_fixed f cs old new size : Forall byte f -> 0 <= cs -> cs + 2 <= Z.of_nat (length f) ->
  fixed f (l3_fix f cs old new size) cs 0 old new.
Proof.
  intros Hf Ho Hl. unfold l3_fix. destruct (l3_csum_replace f cs old new size) as [f1|] eqn:E; [|by apply (proj2 Htotal) in E].
  destruct (l3_csum_replace_spec _ _ _ _ _ _ E) as (_ & _ & c & Hc & ->). by apply patch_fixed.
Qed.

Lemma fixed_field f f' cs flags old new o m : fixed f f' cs flags old new -> 0 <= o -> apart o m cs 2 -> field f' o m = field f o m.
Proof. intros (_ & _ & _ & Hs & _) ? ?. unfold field. by rewrite Hs. Qed.

(** The sums a receiver verifies: the IPv4 header, and the segment with its pseudo-header
    addresses; a UDP segment without a checksum is not verified. *)
Definition ip_sum (f : list Z) : Z := word_sum (bytes_at f ETH_HLEN 20).
Definition l4_sum (f : list Z) : Z := word_sum (drop (Z.to_nat L4_OFF) f) + ip_saddr f + ip_daddr f.
Definition l4_csum (f : list Z) (proto : Z) : Z := field f (l4_csum_off proto) 2.
Definition no_csum (f : list Z) (proto : Z) : Prop := proto = IPPROTO_UDP /\ l4_csum f proto = 0.

Definition sums_kept (f f' : list Z) (proto : Z) : Prop :=
  ip_sum f' ≡ₛ ip_sum f /\ (no_csum f proto -> no_csum f' proto) /\
  (~ no_csum f proto -> ~ no_csum f' proto /\ l4_sum f' ≡ₛ l4_sum f).

Definition l4_flow (proto : Z) : Prop := proto = IPPROTO_TCP \/ proto = IPPROTO_UDP.
Definition l4_fits (f : list Z) (proto : Z) : Prop := l4_csum_off proto + 2 <= Z.of_nat (length f).

Lemma mangled_flags proto x : l4_flow proto -> x = 2 \/ x = PSEUDO_HDR + 4 ->
  Z.land (x + (if proto =? IPPROTO_UDP then MANGLED_0 else 0)) MANGLED_0 = if proto =? IPPROTO_UDP then MANGLED_0 else 0.
Proof. intros [-> | ->] [-> | ->]; reflexivity. Qed.

(** The checksum of a flow: absent ones stay absent, present ones account for the change. *)
Lemma l4_replaced proto x c old new c' : l4_flow proto -> x = 2 \/ x = PSEUDO_HDR + 4 ->
  csum_replaced (x + (if proto =? IPPROTO_UDP then MANGLED_0 else 0)) c old new c' ->
  (proto = IPPROTO_UDP /\ c = 0 -> c' = 0) /\
  (~ (proto = IPPROTO_UDP /\ c = 0) -> ~ (proto = IPPROTO_UDP /\ c' = 0) /\ c' + new ≡ₛ c + old).
Proof.
  intros Hp Hx. unfold csum_replaced. rewrite mangled_flags by done. destruct Hp as [-> | ->]; cbn [Z.eqb Pos.eqb].
  - cbn [IPPROTO_TCP IPPROTO_UDP Z.eqb Pos.eqb negb andb]. intros (Hm & Hr & _). split; [by intros []|]. intros _. split; [by intros []|done].
  - cbn. destruct (Z.eqb_spec c 0) as [-> |Hc]; [intros ->; split; [done|]; intros Hn; by destruct Hn|].
    intros (Hm & Hr & Hz). split; [tauto|]. intros _. split; [|done]. intros [_ E]. by apply Hz.
Qed.

Lemma drop_patch_after f off v k : 0 <= off -> off + Z.of_nat (length v) <= Z.of_nat k -> off + Z.of_nat (length v) <= Z.of_nat (length f) ->
  drop k (patch f off v) = drop k f.
Proof.
  intros Ho Hk Hl. unfold patch. rewrite app_assoc, drop_app_ge by (rewrite length_app, length_take; lia).
  rewrite drop_drop. f_equal. rewrite length_app, length_take. lia.
Qed.

Lemma bytes_at_all f k : 0 <= k -> bytes_at f k (length f) = drop (Z.to_nat k) f.
Proof. intros. unfold bytes_at. apply take_ge. rewrite length_drop. lia. Qed.

Lemma fixed_drop f f' cs flags old new k : fixed f f' cs flags old new -> 0 <= cs -> cs + 2 <= k ->
  drop (Z.to_nat k) f' = drop (Z.to_nat k) f.
Proof.
  intros (Hl & _ & _ & Hs & _) Ho Hk. rewrite <-(bytes_at_all f' k), <-(bytes_at_all f k), Hl by lia. apply Hs; [lia|]. right. lia.
Qed.

Lemma put_fits f off v : 0 <= off -> off + Z.of_nat (length v) <= Z.of_nat (length f) -> put_bytes f off v = patch f off v.
Proof. intros Ho Hl. unfold put_bytes, store_bytes. destruct (_ && _) eqn:E; [done|]. rewrite andb_false_iff, !Z.leb_gt in E. lia. Qed.

(** What a rewrite of [off .. off+n) touches besides: the header checksum and the L4 checksum. *)
Definition rewritten (f f' : list Z) (proto off : Z) (n : nat) (new : Z) : Prop :=
  length f' = length f /\ Forall byte f' /\ field f' off n = new /\
  (forall o m, 0 <= o -> apart o m off n -> apart o m IP_CSUM_OFF 2 -> apart o m (l4_csum_off proto) 2 -> bytes_at f' o m = bytes_at f o m) /\
  sums_kept f f' proto.

Lemma csum_off_cases proto : l4_flow proto -> l4_csum_off proto = 50 \/ l4_csum_off proto = 40.
Proof. intros [-> | ->]; [by left|by right]. Qed.

Lemma l4_sum_rsum f : l4_sum f ≡ₛ rsum L4_OFF f + (ip_saddr f + ip_daddr f).
Proof. unfold l4_sum. rewrite <-Z.add_assoc, Z.add_mod, word_sum_le, <-Z.add_mod by lia. done. Qed.

Lemma sums_of_addr f f' proto addr_off old new : l4_flow proto -> length f' = length f -> 34 <= Z.of_nat (length f) ->
  addr_off = IP_SADDR_OFF \/ addr_off = IP_DADDR_OFF -> field f addr_off 4 = old -> field f' addr_off 4 = new ->
  (forall o m, 0 <= o -> apart o m addr_off 4 -> apart o m IP_CSUM_OFF 2 -> apart o m (l4_csum_off proto) 2 -> bytes_at f' o m = bytes_at f o m) ->
  field f' IP_CSUM_OFF 2 + new ≡ₛ field f IP_CSUM_OFF 2 + old ->
  csum_replaced (PSEUDO_HDR + 4 + (if proto =? IPPROTO_UDP then MANGLED_0 else 0)) (l4_csum f proto) old new (l4_csum f' proto) ->
  rsum L4_OFF f' + l4_csum f proto ≡ₛ rsum L4_OFF f + l4_csum f' proto -> sums_kept f f' proto.
Proof.
  intros Hp Hl Hlen Ha Hold Hnew K Hip Hc Hr. destruct (l4_replaced _ _ _ _ _ _ Hp (or_intror eq_refl) Hc) as [C1 C2].
  pose proof (csum_off_cases proto Hp) as Hcs.
  assert (forall o m, 0 <= o -> apart o m addr_off 4 -> apart o m IP_CSUM_OFF 2 -> apart o m (l4_csum_off proto) 2 -> field f' o m = field f o m) as Kf
    by (intros; unfold field; by rewrite K).
  assert (ip_saddr f' + ip_daddr f' + old = ip_saddr f + ip_daddr f + new) as Hsum.
  { unfold ip_saddr, ip_daddr. destruct Ha; subst addr_off; [rewrite (Kf IP_DADDR_OFF)|rewrite (Kf IP_SADDR_OFF)];
      unfold apart, IP_CSUM_OFF, IP_SADDR_OFF, IP_DADDR_OFF, ETH_HLEN in *; lia. }
  split; [|split].
  - unfold ip_sum. rewrite !header_sum by (rewrite ?Hl; unfold ETH_HLEN; lia). rewrite (Kf ETH_HLEN) by (unfold apart; destruct Ha; subst addr_off;
      unfold IP_CSUM_OFF, IP_SADDR_OFF, IP_DADDR_OFF, ETH_HLEN; lia).
    change (ETH_HLEN + 10) with IP_CSUM_OFF. change (field f (ETH_HLEN + 12) 4) with (ip_saddr f). change (field f (ETH_HLEN + 16) 4) with (ip_daddr f).
    change (field f' (ETH_HLEN + 12) 4) with (ip_saddr f'). change (field f' (ETH_HLEN + 16) 4) with (ip_daddr f').
    apply mod_eq in Hip as [k1 Hip]; [|lia]. apply mod_eq; [lia|]. exists k1. lia.
  - intros [E0 E1]. split; [done|]. by apply C1.
  - intros Hn. destruct (C2 Hn) as [Hn' E]. split; [done|]. rewrite !l4_sum_rsum.
    apply mod_eq in Hr as [k1 Hr], E as [k2 E]; [|lia..]. apply mod_eq; [lia|]. exists (k1 + k2). lia.
Qed.

Lemma nat_addr_spec f proto addr_off old new : Forall byte f -> l4_flow proto -> l4_fits f proto ->
  addr_off = IP_SADDR_OFF \/ addr_off = IP_DADDR_OFF -> field f addr_off 4 = old -> 0 <= new < 2 ^ 32 ->
  rewritten f (nat_addr f proto addr_off old new) proto addr_off 4 new.
Proof.
  intros Hf Hp Hfit Ha Hold Hnew. unfold nat_addr. assert ((proto =? IPPROTO_ICMP) = false) as -> by (by destruct Hp as [-> | ->]).
  pose proof (csum_off_cases proto Hp) as Hcs. unfold l4_fits in Hfit. set (cs := l4_csum_off proto) in *.
  pose proof (l4_fixed f cs (PSEUDO_HDR + 4 + (if proto =? IPPROTO_UDP then MANGLED_0 else 0)) old new Hf ltac:(lia) Hfit) as X1.
  set (f1 := csum_fix _ _ _ _ _) in *. pose proof X1 as (L1 & B1 & C1 & S1 & R1).
  pose proof (l3_fixed f1 IP_CSUM_OFF old new 4 B1 ltac:(done) ltac:(unfold IP_CSUM_OFF, ETH_HLEN; lia)) as X2.
  set (f2 := l3_fix _ _ _ _ _) in *. pose proof X2 as (L2 & B2 & C2 & S2 & R2). clearbody f1 f2.
  pose proof (le_bytes_length 4 new) as Ln. unfold IP_CSUM_OFF, IP_SADDR_OFF, IP_DADDR_OFF, ETH_HLEN, L4_OFF in *. change (14 + 10) with 24 in *.
  rewrite put_fits by (rewrite ?Ln; lia). pose proof (le_le_bytes 4 new Hnew) as En.
  set (f3 := patch f2 addr_off (le_bytes 4 new)).
  assert (length f3 = length f) as L3 by (unfold f3; rewrite patch_length; lia).
  assert (field f3 addr_off 4 = new) as F3.
  { unfold field. pose proof (bytes_at_patch f2 addr_off (le_bytes 4 new) ltac:(lia)) as B. rewrite Ln in B. fold f3 in B. by rewrite B. }
  assert (forall o m, 0 <= o -> apart o m addr_off 4 -> apart o m 24 2 -> apart o m cs 2 -> bytes_at f3 o m = bytes_at f o m) as K.
  { intros o m Ho A1 A2 A3. unfold f3. rewrite bytes_at_patch_ne, S2, S1; [done|done..|lia|lia|lia|by rewrite Ln]. }
  split; [done|]. split; [apply patch_byte; [done|apply le_bytes_byte]|]. split; [done|]. split; [done|].
  assert (field f3 cs 2 = field f1 cs 2) as Fc by (unfold f3; rewrite field_patch_ne, (fixed_field f1 f2 _ _ _ _ cs 2 X2); unfold apart; lia || done).
  assert (field f3 24 2 = field f2 24 2) as Fi by (unfold f3; apply field_patch_ne; unfold apart; lia).
  assert (rsum 34 f3 = rsum 34 f1) as Er.
  { unfold rsum, f3. rewrite drop_patch_after by lia. f_equal. apply (fixed_drop f1 f2 24 0 old new 34 X2); lia. }
  apply (sums_of_addr f f3 proto addr_off old new); try done; [lia|..]; unfold l4_csum; fold cs.
  - change (IP_CSUM_OFF) with 24. rewrite Fi. destruct (csum_parts _ _ _ _ _ C2 eq_refl) as [E _].
    rewrite (fixed_field f f1 _ _ _ _ 24 2 X1) in E by (unfold apart; lia). exact E.
  - by rewrite Fc.
  - rewrite Fc. change L4_OFF with 34. rewrite Er. apply R1; [lia|]. by destruct Hcs as [-> | ->].
Qed.

Lemma nat_port_spec f proto port_off old new : Forall byte f -> l4_flow proto -> l4_fits f proto ->
  port_off = L4_SPORT_OFF \/ port_off = L4_DPORT_OFF -> field f port_off 2 = old -> 0 <= new < 65536 ->
  rewritten f (nat_port f proto port_off old new) proto port_off 2 new.
Proof.
  intros Hf Hp Hfit Ha Hold Hnew. unfold nat_port.
  pose proof (csum_off_cases proto Hp) as Hcs. unfold l4_fits in Hfit. set (cs := l4_csum_off proto) in *.
  pose proof (l4_fixed f cs (2 + (if proto =? IPPROTO_UDP then MANGLED_0 else 0)) old new Hf ltac:(lia) Hfit) as X1.
  set (f1 := csum_fix _ _ _ _ _) in *. pose proof X1 as (L1 & B1 & C1 & S1 & R1). clearbody f1.
  pose proof (le_bytes_length 2 new) as Ln. unfold L4_SPORT_OFF, L4_DPORT_OFF, IP_CSUM_OFF, L4_OFF, ETH_HLEN in *. change (14 + 20) with 34 in *.
  rewrite put_fits by (rewrite ?Ln; lia). pose proof (le_le_bytes 2 new Hnew) as En. set (f2 := patch f1 port_off (le_bytes 2 new)).
  assert (length f2 = length f) as L2 by (unfold f2; rewrite patch_length; lia).
  assert (field f2 port_off 2 = new) as F2.
  { unfold field. pose proof (bytes_at_patch f1 port_off (le_bytes 2 new) ltac:(lia)) as B. rewrite Ln in B. fold f2 in B. by rewrite B. }
  assert (forall o m, 0 <= o -> apart o m port_off 2 -> apart o m cs 2 -> bytes_at f2 o m = bytes_at f o m) as K.
  { intros o m Ho A1 A3. unfold f2. rewrite bytes_at_patch_ne, S1; [done|done..|lia|lia|lia|by rewrite Ln]. }
  split; [done|]. split; [apply patch_byte; [done|apply le_bytes_byte]|]. split; [done|]. split; [auto|].
  assert (field f2 cs 2 = field f1 cs 2) as Fc by (unfold f2; apply field_patch_ne; unfold apart; lia).
  destruct (l4_replaced _ _ _ _ _ _ Hp (or_introl eq_refl) C1) as [D1 D2]. rewrite <-Fc in D1, D2.
  split; [unfold ip_sum; f_equal; f_equal; apply K; unfold apart, ETH_HLEN; lia|]. split; [intros [? ?]; split; [done|by apply D1]|].
  intros Hn. destruct (D2 Hn) as [Hn' E]. split; [done|]. rewrite !l4_sum_rsum.
  assert (ip_saddr f2 = ip_saddr f /\ ip_daddr f2 = ip_daddr f) as [-> ->].
  { unfold ip_saddr, ip_daddr, field. rewrite !K by (unfold apart, IP_SADDR_OFF, IP_DADDR_OFF, ETH_HLEN; lia). done. }
  pose proof (sum_patch f1 34 port_off (le_bytes 2 new) ltac:(lia) ltac:(lia) ltac:(by destruct Ha as [-> | ->])) as S2.
  rewrite Ln, En in S2. rewrite (fixed_field f f1 _ _ _ _ port_off 2 X1), Hold in S2 by (unfold apart; lia). fold f2 in S2.
  specialize (R1 34 ltac:(lia) ltac:(by destruct Hcs as [-> | ->])). rewrite Fc in E. change L4_OFF with 34. unfold rsum in *.
  apply mod_eq in S2 as [k1 S2], R1 as [k2 R1], E as [k3 E]; [|lia..]. apply mod_eq; [lia|]. exists (k1 + k2 + k3). lia.
Qed.
End Frames.

(** ** Replies come back *)

(** The programs only add reverse entries. *)
Lemma port_of_flow_mono ct fk proto net vpc pport fab cl cp base span rnd gw ct' :
  port_of_flow ct fk (fun ct => alloc_gw_port_in ct proto net vpc pport fab cl cp base span rnd) = (gw, ct') -> ct_rev ct ⊆ ct_rev ct'.
Proof.
  unfold port_of_flow. destruct (ct_fwd ct !! fk); [by intros [= <- <-]|].
  destruct (alloc_gw_port_in _ _ _ _ _ _ _ _ _ _ _) as [g c] eqn:Ea. unfold alloc_gw_port_in in Ea. apply alloc_probe_spec in Ea.
  assert (ct_rev ct ⊆ ct_rev c) as Hc by (destruct Ea as [[_ ->]|(j & _ & Hfree & ->)]; [done|by apply insert_subseteq]).
  by destruct (g =? 0); intros [= <- <-].
Qed.

Lemma ct_step_mono `{ChecksumHelpers} s s' k v : ct_step s s' -> ct_rev s.1 !! k = Some v \/ k ∈ s.2 -> ct_rev s'.1 !! k = Some v \/ k ∈ s'.2.
Proof.
  intros [e c lost skb p rnd|e c lost skb ns net vpc_ip rnd Hz|c lost fwd rev Hf Hr] Hk; cbn [fst snd] in *.
  - destruct Hk as [Hk|]; [left|by right]. eapply lookup_weaken; [done|].
    unfold masq_snat, masq_snat_icmp. repeat case_match; cbn [fst snd]; try done; simplify_eq;
    match goal with E : port_of_flow _ ?fk _ = _ |- _ => by apply port_of_flow_mono in E end.
  - destruct Hk as [Hk|]; [left|by right]. eapply lookup_weaken; [done|].
    unfold bridge_forward, bridge_forward_icmp, bridge_forward_icmp_err, alloc_gw_port. repeat case_match; cbn [fst snd]; try done; simplify_eq;
    match goal with E : port_of_flow _ ?fk _ = _ |- _ => by apply port_of_flow_mono in E end.
  - destruct Hk as [Hk|]; [by apply (rev_kept c (MkConntrack fwd rev))|right; by apply elem_of_union_r].
Qed.

Lemma ct_steps_mono `{ChecksumHelpers} s s' k v : rtc ct_step s s' -> ct_rev s.1 !! k = Some v \/ k ∈ s.2 -> ct_rev s'.1 !! k = Some v \/ k ∈ s'.2.
Proof. induction 1 as [|c1 c2 c3 Hs _ IH]; [done|]. intros Hk. by eapply IH, ct_step_mono. Qed.

Section RoundTrip.
Context `{ChecksumHelpers}.
Hypothesis Htotal : helpers_total.

Lemma sums_kept_trans f f1 f2 proto : sums_kept f f1 proto -> sums_kept f1 f2 proto -> sums_kept f f2 proto.
Proof.
  intros (A1 & A2 & A3) (B1 & B2 & B3). split; [congruence|]. split; [auto|]. intros Hn. destruct (A3 Hn) as [Hn1 E1], (B3 Hn1) as [Hn2 E2].
  split; [done|]. congruence.
Qed.

Lemma rewritten_field f f' proto off n new o m : rewritten f f' proto off n new -> l4_flow proto -> 0 <= o -> apart o m off n -> apart o m IP_CSUM_OFF 2 ->
  apart o m 50 2 -> apart o m 40 2 -> field f' o m = field f o m.
Proof. intros (_ & _ & _ & K & _) Hp Ho A1 A2 A3 A4. unfold field. rewrite K; [done|done..|]. by destruct (csum_off_cases proto Hp) as [-> | ->]. Qed.

(** An address and a port of a frame translated together. *)
Definition translated (f f' : list Z) (proto addr_off addr port_off port : Z) : Prop :=
  field f' addr_off 4 = addr /\ field f' port_off 2 = port /\ sums_kept f f' proto /\
  (forall o m, 0 <= o -> apart o m addr_off 4 -> apart o m port_off 2 -> apart o m IP_CSUM_OFF 2 -> apart o m 50 2 -> apart o m 40 2 -> field f' o m = field f o m).

Lemma nat_both f proto addr_off addr port_off port : Forall byte f -> l4_flow proto -> l4_fits f proto ->
  addr_off = IP_SADDR_OFF \/ addr_off = IP_DADDR_OFF -> port_off = L4_SPORT_OFF \/ port_off = L4_DPORT_OFF -> 0 <= addr < 2 ^ 32 -> 0 <= port < 65536 ->
  translated f (nat_port (nat_addr f proto addr_off (field f addr_off 4) addr) proto port_off (field f port_off 2) port) proto addr_off addr port_off port.
Proof.
  intros Hf Hp Hfit Ha Hpo Haddr Hport. pose proof (nat_addr_spec Htotal f proto addr_off _ addr Hf Hp Hfit Ha eq_refl Haddr) as R1.
  set (f1 := nat_addr _ _ _ _ _) in *. pose proof R1 as (L1 & B1 & F1 & _ & S1). clearbody f1.
  assert (apart port_off 2 addr_off 4 /\ apart addr_off 4 port_off 2 /\ apart port_off 2 IP_CSUM_OFF 2 /\ apart port_off 2 50 2 /\ apart port_off 2 40 2 /\
    apart addr_off 4 IP_CSUM_OFF 2 /\ apart addr_off 4 50 2 /\ apart addr_off 4 40 2 /\ 0 <= port_off /\ 0 <= addr_off) as (A1 & A2 & A3 & A4 & A5 & A6 & A7 & A8 & A9 & A10).
  { unfold apart, L4_SPORT_OFF, L4_DPORT_OFF, IP_SADDR_OFF, IP_DADDR_OFF, IP_CSUM_OFF, L4_OFF, ETH_HLEN in *. lia. }
  pose proof (nat_port_spec Htotal f1 proto port_off (field f port_off 2) port B1 Hp) as R2.
  specialize (R2 ltac:(unfold l4_fits; by rewrite L1) Hpo ltac:(by apply (rewritten_field _ _ _ _ _ _ _ _ R1)) Hport).
  pose proof R2 as (L2 & B2 & F2 & _ & S2). split; [by rewrite (rewritten_field _ _ _ _ _ _ addr_off 4 R2)|]. split; [done|].
  split; [by eapply sums_kept_trans|]. intros o m Ho D1 D2 D3 D4 D5. by rewrite (rewritten_field _ _ _ _ _ _ o m R2), (rewritten_field _ _ _ _ _ _ o m R1).
Qed.

Lemma l4_tracked_flow proto : l4_tracked proto = true <-> l4_flow proto.
Proof. unfold l4_tracked, l4_flow. by rewrite orb_true_iff, !Z.eqb_eq. Qed.

Lemma parse_v4 skb p : parse_ip skb = Some p -> is_v6 p = false ->
  p_src p = v4_to_128 (bytes_at (frame skb) 26 4) /\ p_dst p = v4_to_128 (bytes_at (frame skb) 30 4) /\ p_proto p = ip_protocol (frame skb) /\ 34 <= linear skb.
Proof.
  unfold parse_ip. destruct (Z.ltb_spec (linear skb) ETH_HLEN); [done|]. destruct (field (frame skb) 12 2 =? htons ETH_P_IP).
  - destruct (Z.ltb_spec (linear skb) (ETH_HLEN + 20)); [done|]. intros [= <-] _. unfold ETH_HLEN in *. auto with lia.
  - destruct (_ =? _); [|done]. destruct (_ <? _); [done|]. by intros [= <-].
Qed.

Lemma v4_of_v4 a : length a = 4%nat -> v4_of_128 (v4_to_128 a) = le a.
Proof. intros Ha. unfold v4_of_128, v4_to_128, bytes_at. change (Z.to_nat 12) with (length nat64_head). rewrite drop_app_length, take_ge; [done|lia]. Qed.

Lemma port_bound f o : Forall byte f -> 0 <= o -> o + 2 <= Z.of_nat (length f) -> 0 <= field f o 2 < 65536.
Proof. intros Hf Ho Hl. by apply (field_bound f o 2 Hf). Qed.

Lemma l4_ports_v4 skb sp dp : l4_ports false skb = Some (sp, dp) ->
  sp = field (frame skb) L4_SPORT_OFF 2 /\ dp = field (frame skb) L4_DPORT_OFF 2 /\ L4_OFF + 4 <= linear skb.
Proof. unfold l4_ports, l4_off. destruct (Z.ltb_spec (linear skb) (L4_OFF + 4)); [done|]. by intros [= <- <-]. Qed.

(** What a masqueraded packet looks like on the wire, and the state it leaves. *)
Lemma masq_snat_out e ct lost skb p rnd ct' f' :
  backed lost ct -> skb_ok skb -> parse_ip skb = Some p -> is_v6 p = false -> l4_flow (ip_protocol (frame skb)) -> l4_fits (frame skb) (ip_protocol (frame skb)) ->
  0 <= n_masq_ip e < 2 ^ 32 -> masq_snat e ct skb p rnd = (ACT_OK, ct', f') ->
  exists sport dport gw, l4_ports false skb = Some (sport, dport) /\ masq_gw gw /\
    translated (frame skb) f' (ip_protocol (frame skb)) IP_SADDR_OFF (n_masq_ip e) L4_SPORT_OFF gw /\
    let rk := MkCtRev (ip_protocol (frame skb)) gw 0 (p_dst p) dport in
    ct_rev ct' !! rk = Some (MkCtRevVal (p_src p) (p_src p) sport) \/ rk ∈ lost.
Proof.
  intros Hb [Hf Hl] Hp Hv Hfl Hfit Hip. unfold masq_snat. set (f := frame skb) in *. set (proto := ip_protocol f) in *.
  destruct (negb (is_masq_src e (p_src p)) || _ || _); [done|]. destruct (_ || _); [done|].
  assert ((proto =? IPPROTO_ICMP) = false) as -> by (by destruct Hfl as [-> | ->]). rewrite (proj2 (l4_tracked_flow proto) Hfl). cbn [negb].
  destruct (l4_ports false skb) as [[sport dport]|] eqn:Eports; [|done]. destruct (_ && negb (tcp_bare_syn _ _)); [done|].
  set (fk := MkCtFwd proto 0 (p_src p) (p_dst p) sport dport). destruct (port_of_flow ct fk _) as [gw c] eqn:Ef.
  apply (backed_port lost ct fk rnd) in Ef as [Hbc Hgw]; [|done|done]. destruct (Z.eqb_spec gw 0) as [|Hz]; [done|]. intros [= <- <-].
  destruct (Hbc fk gw eq_refl (Hgw Hz)) as [Hr Hm]. exists sport, dport, gw. split; [done|]. split; [done|]. split; [|done].
  destruct (l4_ports_v4 skb sport dport Eports) as (-> & _ & _). fold f. apply nat_both; auto.
  apply Hm.
Qed.

End RoundTrip.

(** ** A node at work *)

Lemma rfc1624_helpers_total : helpers_total (H := rfc1624_helpers).
Proof. split; [exact rfc1624_total|]. intros f off from to size Ho Hl. exact (rfc1624_total f off from to 0 Ho Hl). Qed.

Definition node_env : NatEnv :=
  MkNatEnv vpc_view ∅ {[MkLpmKey (32 + 96 + 8) 0 (v4_to_128 [10; 0; 0; 0]) := 1]} ∅ ∅ ∅ ∅ (le [192; 0; 2; 10]) 4 1 true.

Definition first_syn : act * Conntrack * list Z := masq_snat (H := rfc1624_helpers) node_env (MkConntrack ∅ ∅) syn_1460 web_pkt 12345.

Lemma first_syn_ok : first_syn.1.1 = ACT_OK /\ size (ct_rev first_syn.1.2) = 1%nat.
Proof. vm_compute. split; reflexivity. Qed.



(** Evictions are the only way to share a port, and one: the two maps are evicted
    independently.  When the reverse entry of a flow is
    evicted and its forward entry is not, the port can be given to a second flow while the
    first keeps using it, and the replies of both go to the second. *)
Definition pod_a : ct_fwd_key := MkCtFwd 6 0 (v4_to_128 [10; 1; 0; 5]) (v4_to_128 [203; 0; 113; 9]) (htons 4000) (htons 443).
Definition pod_b : ct_fwd_key := MkCtFwd 6 0 (v4_to_128 [10; 1; 0; 6]) (v4_to_128 [203; 0; 113; 9]) (htons 4000) (htons 443).
Definition masq_alloc (fk : ct_fwd_key) (rnd : Z) (ct : Conntrack) : Z * Conntrack :=
  alloc_gw_port_in ct (cf_proto fk) 0 (cf_fabric_ip fk) (cf_pod_port fk) (cf_client_ip fk) (cf_client_ip fk) (cf_client_port fk) MASQ_PORT_BASE MASQ_PORT_SPAN rnd.

Lemma eviction_shares_port :
  let '(gw, c1) := port_of_flow (MkConntrack ∅ ∅) pod_a (masq_alloc pod_a 7) in
  let evicted := MkConntrack (ct_fwd c1) (delete (masq_rk pod_a gw) (ct_rev c1)) in
  let '(gw', c2) := port_of_flow evicted pod_b (masq_alloc pod_b 7) in
  gw' = gw /\ ct_fwd c2 !! pod_a = Some gw /\ ct_fwd c2 !! pod_b = Some gw /\ ct_rev c2 !! masq_rk pod_a gw = Some (masq_rv pod_b).
Proof. vm_compute. repeat split; reflexivity. Qed.
