(* ===== verification/PortPrefix.v ===== *)
(** * Port ranges as prefixes (datapath/networkpolicy.go: [npPortPrefixes])

    A port range is stored in a longest-prefix-match map as the aligned
    power-of-two blocks that cover it. *)

From S2P Require Import Prelude.
Local Open Scope Z_scope.

(** [npPortPrefix], datapath/networkpolicy.go:79-82. *)
Record npPortPrefix := MkPortPrefix { pp_port : Z; pp_bits : Z }.

(** [npPortPrefixes], the block-size loop, datapath/networkpolicy.go:94-102.  A block never
    exceeds [h + 1 <= 2 ^ 16], so 17 rounds are enough. *)
Fixpoint grow (fuel : nat) (l h size : Z) : Z :=
  match fuel with
  | O => size
  | S fuel =>
      let next := u32 (Z.shiftl size 1) in
      if negb (Z.land l (next - 1) =? 0) || (h <? u32 (l + next - 1)) then size
      else grow fuel l h next
  end.

(** [npPortPrefixes], the bit-count loop, datapath/networkpolicy.go:103-106. *)
Fixpoint count_bits (fuel : nat) (s bits : Z) : Z :=
  match fuel with
  | O => bits
  | S fuel => if 1 <? s then count_bits fuel (Z.shiftr s 1) (bits - 1) else bits
  end.

(** [npPortPrefixes], the outer loop: one block per round, and at most one round per port,
    datapath/networkpolicy.go:93-113. *)
Fixpoint port_blocks (fuel : nat) (l h : Z) : list npPortPrefix :=
  match fuel with
  | O => []
  | S fuel =>
      if h <? l then []
      else
        let size := grow 17 l h 1 in
        let bits := count_bits 17 size 16 in
        MkPortPrefix (u16 l) bits ::
          (let l := u32 (l + size) in if l =? 0 then [] else port_blocks fuel l h)
  end.

(** [npPortPrefixes], datapath/networkpolicy.go:93-113. *)
Definition npPortPrefixes (lo hi : Z) : list npPortPrefix :=
  if (lo =? 0) && (hi =? 0) then [MkPortPrefix 0 0]
  else port_blocks (Z.to_nat (hi - lo + 1)) lo hi.

(** A port the prefix matches: its first [pp_bits] of 16 bits. *)
Definition pp_match (pp : npPortPrefix) (p : Z) : Prop :=
  Z.shiftr (pp_port pp) (16 - pp_bits pp) = Z.shiftr p (16 - pp_bits pp).

(** ** One block *)

Lemma land_ones_0 l k : 0 <= k -> Z.land l (2 ^ k - 1) = 0 <-> l mod 2 ^ k = 0.
Proof. intros Hk. rewrite <-Z.land_ones, Z.ones_equiv by done. by rewrite <-Z.sub_1_r. Qed.

(** A block [2 ^ k] fits at [l]. *)
Definition fits (l h k : Z) : Prop := l mod 2 ^ k = 0 /\ l + 2 ^ k - 1 <= h.

Lemma fits_down l h k : 0 <= k -> fits l h (k + 1) -> fits l h k.
Proof.
  intros Hk [Hm Hl]. rewrite Z.pow_add_r in * by lia. change (2 ^ 1) with 2 in *.
  assert (0 < 2 ^ k) by (apply Z.pow_pos_nonneg; lia). split; [|lia].
  apply Z.mod_divide; [lia|]. apply Z.mod_divide in Hm as [q Hq]; [|lia]. exists (2 * q). lia.
Qed.

(** The loop stops at the largest block that fits. *)
Lemma grow_spec fuel l h k : 0 <= l <= h -> h < 2 ^ 16 -> 0 <= k -> k + Z.of_nat fuel = 17 -> fits l h k ->
  exists k', grow fuel l h (2 ^ k) = 2 ^ k' /\ k <= k' <= 16 /\ fits l h k' /\ ~ fits l h (k' + 1).
Proof.
  intros Hl Hh. revert k. induction fuel as [|fuel IH]; intros k Hk Hf Hfit.
  { destruct Hfit as [_ Hfit]. assert (k = 17) as -> by lia. lia. }
  assert (k <= 16).
  { destruct Hfit as [_ Hfit]. assert (2 ^ k <= 2 ^ 16) as E by lia. apply Z.pow_le_mono_r_iff in E; lia. }
  assert (2 ^ k <= 2 ^ 16) by (apply Z.pow_le_mono_r; lia).
  assert (0 < 2 ^ k) by (apply Z.pow_pos_nonneg; lia).
  cbn [grow]. rewrite Z.shiftl_mul_pow2 by lia. rewrite <-Z.pow_add_r by lia.
  assert (2 ^ (k + 1) = 2 * 2 ^ k) as E2 by (rewrite Z.pow_add_r by lia; lia).
  unfold u32. rewrite (Z.mod_small (2 ^ (k + 1))) by lia. rewrite Z.mod_small by lia.
  case_if.
  - exists k. split; [done|]. split; [lia|]. split; [done|]. intros [Hm Hle].
    apply orb_true_iff in E as [E|E]; to_prop; [|lia]. by rewrite land_ones_0 in E by lia.
  - to_prop. rewrite land_ones_0 in * by lia.
    destruct (IH (k + 1)) as (k' & E & Hk' & ?); [lia|lia|by split; [|lia]|]. exists k'. split; [done|]. split; [lia|done].
Qed.

Lemma count_bits_spec fuel k b : 0 <= k < Z.of_nat fuel -> count_bits fuel (2 ^ k) b = b - k.
Proof.
  revert k b. induction fuel as [|fuel IH]; intros k b Hk; [lia|]. cbn [count_bits].
  destruct (Z.eq_dec k 0) as [->|Hne]; [change (1 <? 2 ^ 0) with false; cbn [negb]; lia|].
  assert (2 ^ k = 2 ^ (k - 1) * 2 ^ 1) as E by (rewrite <-Z.pow_add_r by lia; f_equal; lia).
  assert (0 < 2 ^ (k - 1)) by (apply Z.pow_pos_nonneg; lia).
  assert (1 <? 2 ^ k = true) as -> by (apply Z.ltb_lt; lia).
  rewrite Z.shiftr_div_pow2, E, Z.div_mul by lia. rewrite IH by lia. lia.
Qed.

(** An aligned block matches exactly its ports. *)
Lemma block_match l k p : 0 <= k -> l mod 2 ^ k = 0 ->
  Z.shiftr l k = Z.shiftr p k <-> l <= p < l + 2 ^ k.
Proof.
  intros Hk Hm. rewrite !Z.shiftr_div_pow2 by done. assert (0 < 2 ^ k) by (apply Z.pow_pos_nonneg; lia).
  pose proof (Z.div_mod l (2 ^ k)). pose proof (Z.div_mod p (2 ^ k)). pose proof (Z.mod_pos_bound p (2 ^ k)).
  nia.
Qed.

(** ** The whole cover *)

Lemma fits_le l h j k : 0 <= j <= k -> fits l h k -> fits l h j.
Proof.
  intros Hj. remember (Z.to_nat (k - j)) as n eqn:En. revert j Hj En. induction n as [|n IH]; intros j Hj En Hf.
  - by replace j with k by lia.
  - apply fits_down; [lia|]. apply IH; [lia|lia|done].
Qed.

(** One round emits the largest block and moves past it. *)
Lemma port_blocks_step fuel l h : 0 <= l <= h -> h < 2 ^ 16 ->
  exists k, 0 <= k <= 16 /\ fits l h k /\ ~ fits l h (k + 1) /\
    port_blocks (S fuel) l h = MkPortPrefix l (16 - k) :: port_blocks fuel (l + 2 ^ k) h.
Proof.
  intros Hl Hh. destruct (grow_spec 17 l h 0) as (k & Hg & Hk & Hf & Hn); [done|done|lia|lia| |].
  { split; [by rewrite Z.mod_1_r|lia]. }
  exists k. split; [done|]. split; [done|]. split; [done|]. cbn [port_blocks].
  assert (h <? l = false) as -> by (apply Z.ltb_ge; lia). change (2 ^ 0) with 1 in Hg. rewrite Hg.
  rewrite count_bits_spec by lia. unfold u16, u32.
  destruct Hf as [_ Hf]. assert (0 < 2 ^ k) by (apply Z.pow_pos_nonneg; lia).
  rewrite !Z.mod_small by lia. assert (l + 2 ^ k =? 0 = false) as -> by (apply Z.eqb_neq; lia). done.
Qed.

Lemma port_blocks_past fuel l h : h < l -> port_blocks fuel l h = [].
Proof. intros Hl. destruct fuel; [done|]. cbn [port_blocks]. by assert (h <? l = true) as -> by (by apply Z.ltb_lt). Qed.

Lemma port_blocks_cover fuel l h p : 0 <= l -> h < 2 ^ 16 -> h - l < Z.of_nat fuel ->
  (exists pp, pp ∈ port_blocks fuel l h /\ pp_match pp p) <-> l <= p <= h.
Proof.
  intros Hl Hh. revert l Hl. induction fuel as [|fuel IH]; intros l Hl Hf.
  - rewrite port_blocks_past by lia. set_solver by lia.
  - destruct (Z_lt_dec h l); [rewrite port_blocks_past by lia; set_solver by lia|].
    destruct (port_blocks_step fuel l h) as (k & Hk & [Hm Hle] & _ & ->); [lia|done|].
    assert (0 < 2 ^ k) by (apply Z.pow_pos_nonneg; lia).
    pose proof (block_match l k p (proj1 Hk) Hm) as Hb. specialize (IH (l + 2 ^ k)).
    setoid_rewrite elem_of_cons. split.
    + intros (pp & [->|Hin] & Hpp).
      * unfold pp_match in Hpp. cbn in Hpp. replace (16 - (16 - k)) with k in Hpp by lia. apply Hb in Hpp. lia.
      * assert (l + 2 ^ k <= p <= h) by (apply IH; [lia|lia|eauto]). lia.
    + intros Hp. destruct (Z_lt_dec p (l + 2 ^ k)).
      * eexists. split; [by left|]. unfold pp_match. cbn. replace (16 - (16 - k)) with k by lia. apply Hb. lia.
      * destruct IH as [_ IH]; [lia|lia|]. destruct IH as (pp & ? & ?); [lia|]. eauto.
Qed.

Lemma fits_unique l h j k : 0 <= j -> 0 <= k -> fits l h j -> ~ fits l h (j + 1) ->
  fits l h k -> ~ fits l h (k + 1) -> j = k.
Proof.
  intros Hj Hk Fj Nj Fk Nk. destruct (Z.lt_trichotomy j k) as [Hlt|[->|Hlt]]; [|done|].
  - contradict Nj. apply (fits_le _ _ _ k); [lia|done].
  - contradict Nk. apply (fits_le _ _ _ j); [lia|done].
Qed.

Lemma mod_pow_down l j k : 0 <= j <= k -> l mod 2 ^ k = 0 -> l mod 2 ^ j = 0.
Proof.
  intros Hj Hm. apply Z.mod_divide; [lia|]. apply Z.mod_divide in Hm as [q ->]; [|lia].
  exists (q * 2 ^ (k - j)). rewrite <-Z.mul_assoc, <-Z.pow_add_r by lia. do 2 f_equal. lia.
Qed.

(** Once a start is aligned to what is left, each block at least halves the rest. *)
Lemma port_blocks_tail fuel (j : nat) l h : 0 <= l -> h < 2 ^ 16 -> l mod 2 ^ Z.of_nat j = 0 ->
  h + 1 - l < 2 ^ (Z.of_nat j + 1) -> (length (port_blocks fuel l h) <= j + 1)%nat.
Proof.
  revert fuel l. induction j as [|j IH]; intros fuel l Hl Hh Hm Hr;
    (destruct (Z_lt_dec h l); [rewrite port_blocks_past by lia; cbn; lia|]); (destruct fuel as [|fuel]; [cbn; lia|]).
  - destruct (port_blocks_step fuel l h) as (k & Hk & [_ Hle] & _ & ->); [lia|done|].
    assert (0 < 2 ^ k) by (apply Z.pow_pos_nonneg; lia). rewrite port_blocks_past by (cbn in Hr; lia). cbn. lia.
  - assert (0 < 2 ^ Z.of_nat j) by (apply Z.pow_pos_nonneg; lia).
    assert (2 ^ Z.of_nat (S j) = 2 * 2 ^ Z.of_nat j) as Ej by (rewrite Nat2Z.inj_succ, Z.pow_succ_r; lia).
    assert (2 ^ (Z.of_nat (S j) + 1) = 4 * 2 ^ Z.of_nat j) as Ej1 by (rewrite Z.pow_add_r by lia; lia).
    assert (2 ^ (Z.of_nat j + 1) = 2 * 2 ^ Z.of_nat j) as Ej2 by (rewrite Z.pow_add_r by lia; lia).
    pose proof (mod_pow_down l (Z.of_nat j) (Z.of_nat (S j)) ltac:(lia) Hm) as Hmj.
    destruct (Z_lt_dec (h + 1 - l) (2 ^ Z.of_nat (S j))) as [Hlt|Hge].
    { enough (length (port_blocks (S fuel) l h) <= j + 1)%nat by lia. apply IH; [done|done|done|lia]. }
    destruct (port_blocks_step fuel l h) as (k & Hk & Hf & Hn & ->); [lia|done|].
    assert (k = Z.of_nat (S j)) as ->.
    { apply (fits_unique l h); [lia|lia|done|done|split; [done|lia]|]. intros [_ Hx]. lia. }
    cbn [length]. enough (length (port_blocks fuel (l + 2 ^ Z.of_nat (S j)) h) <= j + 1)%nat by lia.
    apply IH; [lia|done| |lia]. rewrite Ej. rewrite Z.mod_add; [done|lia].
Qed.

(** Before that, each block raises the alignment. *)
Lemma port_blocks_count fuel (n j : nat) l h : 0 <= l -> h < 2 ^ 16 -> l mod 2 ^ Z.of_nat j = 0 ->
  h + 1 - l < 2 ^ (Z.of_nat (j + n) + 1) -> (length (port_blocks fuel l h) <= n + (j + n) + 1)%nat.
Proof.
  revert fuel j l. induction n as [|n IH]; intros fuel j l Hl Hh Hm Hr.
  { rewrite Nat.add_0_r in Hr. pose proof (port_blocks_tail fuel j l h Hl Hh Hm Hr). lia. }
  replace (j + S n)%nat with (S j + n)%nat in * by lia.
  destruct (decide (l mod 2 ^ Z.of_nat (S j) = 0)) as [Hm'|Hm'].
  { pose proof (IH fuel (S j) l Hl Hh Hm' Hr). lia. }
  destruct (Z_lt_dec h l); [rewrite port_blocks_past by lia; cbn; lia|]. destruct fuel as [|fuel]; [cbn; lia|].
  assert (0 < 2 ^ Z.of_nat j) by (apply Z.pow_pos_nonneg; lia).
  destruct (Z_lt_dec (h + 1 - l) (2 ^ Z.of_nat j)) as [Hlt|Hge].
  { pose proof (port_blocks_tail (S fuel) j l h Hl Hh Hm) as Ht. rewrite Z.pow_add_r in Ht by lia. lia. }
  destruct (port_blocks_step fuel l h) as (k & Hk & Hf & Hn & ->); [lia|done|].
  assert (k = Z.of_nat j) as ->.
  { apply (fits_unique l h); [lia|lia|done|done|split; [done|lia]|]. intros [Hx _]. apply Hm'.
    by rewrite Nat2Z.inj_succ. }
  cbn [length]. enough (length (port_blocks fuel (l + 2 ^ Z.of_nat j) h) <= n + (S j + n) + 1)%nat by lia.
  apply IH; [lia|done| |lia].
  assert (2 ^ Z.of_nat (S j) = 2 * 2 ^ Z.of_nat j) as Ej by (rewrite Nat2Z.inj_succ, Z.pow_succ_r; lia).
  rewrite Ej in *. apply Z.mod_divide in Hm as [q ->]; [|lia]. apply Z.mod_divide; [lia|].
  destruct (Z.Even_or_Odd q) as [[r ->]|[r ->]]; [|exists (r + 1); lia].
  contradict Hm'. apply Z.mod_divide; [lia|]. exists r. lia.
Qed.

(** The ports a range covers: all of them for 0-0, none when it is empty. *)
Lemma npPortPrefixes_cover lo hi p : 0 <= lo -> hi < 2 ^ 16 -> 0 <= p < 2 ^ 16 ->
  (exists pp, pp ∈ npPortPrefixes lo hi /\ pp_match pp p) <-> (lo = 0 /\ hi = 0) \/ lo <= p <= hi.
Proof.
  intros Hlo Hhi Hp. unfold npPortPrefixes. case_if.
  - to_prop. split; [intros _; by left|]. intros _. exists (MkPortPrefix 0 0). split; [set_solver|].
    unfold pp_match. rewrite !Z.shiftr_div_pow2 by done. by rewrite (Z.div_small p).
  - rewrite port_blocks_cover by lia. split; [auto|]. intros [[-> ->]|?]; [done|done].
Qed.

Lemma pp_bits_range lo hi pp : 0 <= lo -> hi < 2 ^ 16 -> pp ∈ npPortPrefixes lo hi ->
  0 <= pp_bits pp <= 16 /\ 0 <= pp_port pp < 2 ^ 16.
Proof.
  intros Hlo Hhi. unfold npPortPrefixes. case_if.
  { intros ->%list_elem_of_singleton. cbn. lia. }
  clear E. generalize (Z.to_nat (hi - lo + 1)). intros fuel. revert lo Hlo.
  induction fuel as [|fuel IH]; intros lo Hlo; [set_solver|].
  destruct (Z_lt_dec hi lo); [rewrite port_blocks_past by lia; set_solver|].
  destruct (port_blocks_step fuel lo hi) as (k & Hk & _ & _ & ->); [lia|done|].
  assert (0 < 2 ^ k) by (apply Z.pow_pos_nonneg; lia).
  intros [->|Hin]%elem_of_cons; [cbn; lia|]. apply IH in Hin; [done|lia].
Qed.

(** A port range is decomposed exactly: the emitted prefixes match a port iff it lies in the
    range, and there are at most 31 of them whatever the range. *)
Theorem npPortPrefixes_exact lo hi p : 0 < lo -> lo <= hi -> hi < 2 ^ 16 -> 0 <= p < 2 ^ 16 ->
  ((exists pp, pp ∈ npPortPrefixes lo hi /\ pp_match pp p) <-> lo <= p <= hi) /\
  (length (npPortPrefixes lo hi) <= 31)%nat.
Proof.
  intros Hlo Hhi Hh Hp. split; [rewrite npPortPrefixes_cover; lia|].
  unfold npPortPrefixes. assert (lo =? 0 = false) as -> by (apply Z.eqb_neq; lia). cbn [andb].
  apply (port_blocks_count _ 15 0 lo hi); [lia|lia|apply Z.mod_1_r|cbn; lia].
Qed.

Lemma npPortPrefixes_exact_witness :
  ((exists pp, pp ∈ npPortPrefixes 1 65534 /\ pp_match pp 443) <-> 1 <= 443 <= 65534) /\
  (length (npPortPrefixes 1 65534) <= 31)%nat.
Proof. apply (npPortPrefixes_exact 1 65534 443); lia. Defined.
