(* ===== verification/Verdict.v ===== *)
(** * Allow and deny ranges in a longest-prefix-match map

    [NetworkPolicy] ipBlocks and host-firewall rules share a scheme: an entry allows or masks
    an address range for one tier (direction, protocol, port, ...); an allow wins at an
    identical range and the longest range decides.  [Verdict] states that scheme once;
    both maps instantiate it. *)

From S2P Require Import Prelude GoNet AddrMap KernelMap Lpm.
Local Open Scope Z_scope.

(** [putDesired], the put both loops end in, datapath/networkpolicy.go:229-238 (and
    datapath/hostfirewall.go:108-116): skip over an allow, else put the verdict. *)
Definition put_verdict {K} `{Countable K} (cap : nat) (want : gmap K Z) (key : K) (allow : bool) : result (gmap K Z) :=
  let v := if allow then 1 else 0 in
  if decide (want !! key = Some 1) then Ok want else putDesired cap want key v.

Lemma put_verdict_size {K} `{Countable K} cap (want want' : gmap K Z) k b :
  put_verdict cap want k b = Ok want' -> (size want <= cap)%nat -> (size want' <= cap)%nat.
Proof. unfold put_verdict. case_decide; [by intros [= <-]|apply putDesired_size]. Qed.

(** A masked prefix is determined by its length and a member. *)
Lemma masked_eq p p' x : prefix_wf p -> prefix_wf p' -> masked p -> masked p' -> pbits p = pbits p' ->
  Contains p x = true -> Contains p' x = true -> p = p'.
Proof.
  intros [_ Hb] [_ Hb'] Hm Hm' Eb Hc Hc'. apply Contains_spec in Hc as [H4 Hs], Hc' as [H4' Hs'].
  assert (BitLen (paddr p) = BitLen x) as L by (unfold BitLen; by rewrite H4).
  assert (BitLen (paddr p') = BitLen x) as L' by (unfold BitLen; by rewrite H4').
  rewrite <-Hm, <-Hm'. unfold Masked, mask_val. rewrite L, L', H4, H4', Eb in *. by rewrite Hs, Hs'.
Qed.

Section Verdict.
Context {K T : Type} `{Countable K} `{!LpmKey K}.
Context (mkkey : T -> Prefix -> K).

(** A row: tier, range, allow. *)
Implicit Types (row : T * Prefix * bool) (rows : list (T * Prefix * bool)).

Definition row_key row : K := mkkey row.1.1 row.1.2.

(** The map the rows are compiled to. *)
Definition verdict_map rows (want : gmap K Z) : Prop := forall k v,
  want !! k = Some v <->
  (exists row, row ∈ rows /\ row_key row = k) /\
  v = (if bool_decide (Exists (fun row => row_key row = k /\ row.2 = true) rows) then 1 else 0).

Lemma verdict_map_nil : verdict_map [] ∅.
Proof. intros k v. rewrite lookup_empty. split; [done|]. intros [(r & Hr & _) _]. set_solver. Qed.

Lemma verdict_map_snoc cap rows row want want' :
  verdict_map rows want -> put_verdict cap want (row_key row) row.2 = Ok want' ->
  verdict_map (rows ++ [row]) want'.
Proof.
  intros Hm Hp k v.
  assert ((exists r, r ∈ rows ++ [row] /\ row_key r = k) <->
          (exists r, r ∈ rows /\ row_key r = k) \/ row_key row = k) as Hex.
  { setoid_rewrite elem_of_app. setoid_rewrite list_elem_of_singleton. naive_solver. }
  rewrite Hex. set (P := fun r => row_key r = k /\ r.2 = true).
  assert (Exists P (rows ++ [row]) <-> Exists P rows \/ P row) as HE.
  { rewrite Exists_app, Exists_cons, Exists_nil. tauto. }
  rewrite (bool_decide_ext _ _ HE). specialize (Hm k). fold P in Hm. unfold put_verdict in Hp.
  destruct (decide (row_key row = k)) as [<-|Hne].
  - case_decide as H1.
    + injection Hp as <-. rewrite Hm. apply Hm in H1 as [Hin Hv].
      case_bool_decide as HB; [|done]. rewrite (bool_decide_true (_ \/ _)) by tauto. tauto.
    + unfold putDesired in Hp. case_decide; [done|]. injection Hp as <-. rewrite lookup_insert_eq.
      assert (~ Exists P rows) as HnE.
      { intros HB. apply H1, Hm. split; [|by rewrite bool_decide_true].
        apply Exists_exists in HB as (r & Hr & <- & _). eauto. }
      assert (bool_decide (Exists P rows \/ P row) = row.2) as ->.
      { apply eq_true_iff_eq. rewrite bool_decide_eq_true. split; [by intros [?|[_ ?]]|by right]. }
      split; [intros [= <-]; split; [by right|done]|by intros [_ ->]].
  - assert (want' !! k = want !! k) as ->.
    { case_decide; [by injection Hp as <-|]. unfold putDesired in Hp. case_decide; [done|]. injection Hp as <-.
      by rewrite lookup_insert_ne. }
    rewrite Hm. assert (bool_decide (Exists P rows \/ P row) = bool_decide (Exists P rows)) as ->
      by (apply bool_decide_ext; unfold P; tauto). tauto.
Qed.

(** Keys and lookups of the map: a fixed head of [c] bits for the tier, then the address. *)
Context (query : T -> Addr -> list Z) (tier_ok : T -> Prop) (c : Z).
Hypothesis key_plen : forall t p, prefix_wf p -> plen (mkkey t p) = c + map_bits p.
Hypothesis key_covers : forall t p t' x, tier_ok t -> tier_ok t' -> prefix_wf p -> plain x ->
  covers (mkkey t p) (query t' x) <-> t = t' /\ Contains p x = true.

Definition row_ok row : Prop := tier_ok row.1.1 /\ prefix_wf row.1.2 /\ masked row.1.2.

(** The rows of a tier that contain an address. *)
Definition applies rows t x row : Prop := row ∈ rows /\ row.1.1 = t /\ Contains row.1.2 x = true.

(** What a lookup must answer: some row applies iff something is found, and the verdict is an
    allow iff a longest applicable row allows. *)
Definition longest_decides rows (table : gmap K Z) : Prop :=
  forall t x, tier_ok t -> plain x ->
    ((exists v, lpm_lookup table (query t x) v) <-> exists row, applies rows t x row) /\
    forall v, lpm_lookup table (query t x) v ->
      (v = 1 <-> exists row, applies rows t x row /\ row.2 = true /\
        forall row', applies rows t x row' -> pbits row'.1.2 <= pbits row.1.2).

Lemma map_bits_le p p' x : Contains p x = true -> Contains p' x = true ->
  map_bits p <= map_bits p' <-> pbits p <= pbits p'.
Proof.
  intros [E _]%Contains_spec [E' _]%Contains_spec. unfold map_bits. rewrite E, E'. destruct (Is4 x); lia.
Qed.

Lemma verdict_lookup rows table : Forall row_ok rows -> verdict_map rows table -> longest_decides rows table.
Proof.
  intros Hok Hm t x Ht Hx. rewrite Forall_forall in Hok.
  assert (forall row, row ∈ rows -> covers (row_key row) (query t x) <-> applies rows t x row) as Hcov.
  { intros row Hr. destruct (Hok _ Hr) as (Htr & Hw & _). unfold row_key. rewrite key_covers by done.
    unfold applies. tauto. }
  assert (forall row, row ∈ rows -> exists v, table !! row_key row = Some v) as Hhas.
  { intros row Hr. eexists. apply Hm. split; [eauto|done]. }
  split; [split|].
  - intros (v & k & Hk & Hc & _). apply Hm in Hk as [(row & Hr & <-) _]. exists row. by apply Hcov.
  - intros (row & Ha). destruct (Hhas row (proj1 Ha)) as [v Hv]. eapply lpm_lookup_exists; [done|].
    apply Hcov; [apply Ha|done].
  - intros v (k & Hk & Hc & Hmax). apply Hm in Hk as [(r0 & Hr0 & <-) ->]. apply Hcov in Hc; [|done].
    assert (forall row', applies rows t x row' -> pbits row'.1.2 <= pbits r0.1.2) as Hle.
    { intros row' Ha'. destruct (Hhas row' (proj1 Ha')) as [v' Hv']. apply Hmax in Hv'; [|by apply Hcov; [apply Ha'|]].
      destruct Ha' as (Hin' & _ & Hc'), Hc as (_ & _ & Hc0). destruct (Hok _ Hin') as (_&?&_), (Hok _ Hr0) as (_&?&_).
      unfold row_key in Hv'. rewrite !key_plen in Hv' by done. by apply (map_bits_le _ _ x); [..|lia]. }
    case_bool_decide as HE; (split; [|intros Hex]); [intros _|done|done|exfalso].
    + apply Exists_exists in HE as (row & Hr & Ek & Ea). exists row.
      assert (applies rows t x row) as Ha by (apply Hcov; [done|]; rewrite Ek; by apply Hcov).
      split; [done|]. split; [done|]. intros row' Ha'. etrans; [by apply Hle|].
      destruct Ha as (_ & _ & Hcx), Hc as (_ & _ & Hc0). destruct (Hok _ Hr) as (_&?&_), (Hok _ Hr0) as (_&?&_).
      apply (map_bits_le _ _ x); [done..|]. apply (f_equal plen) in Ek. unfold row_key in Ek.
      rewrite !key_plen in Ek by done. lia.
    + destruct Hex as (row & Ha & Ea & Hmx). apply HE, Exists_exists. exists row. split; [apply Ha|]. split; [|done].
      pose proof (Hmx _ Hc). pose proof (Hle _ Ha). destruct Ha as (Hin & Et & Hcx), Hc as (_ & Et0 & Hc0).
      destruct (Hok _ Hin) as (_&?&?), (Hok _ Hr0) as (_&?&?). unfold row_key.
      rewrite Et, Et0. f_equal. apply (masked_eq _ _ x); auto; lia.
Qed.

(** The probe the datapath makes: the exact tier, and only if nothing is found there, a
    fallback tier. *)
Definition two_probe (table : gmap K Z) (exact any : list Z) : bool :=
  match lpm_find table exact with
  | Some v => negb (v =? 0)
  | None => match lpm_find table any with Some v => negb (v =? 0) | None => false end
  end.

(** A longest applicable row of the tier allows. *)
Definition allowed rows t x : Prop := exists row, applies rows t x row /\ row.2 = true /\
  forall row', applies rows t x row' -> pbits row'.1.2 <= pbits row.1.2.

Lemma find_verdict rows table t x : Forall row_ok rows -> verdict_map rows table -> tier_ok t -> plain x ->
  match lpm_find table (query t x) with
  | Some v => (exists row, applies rows t x row) /\ (negb (v =? 0) = true <-> allowed rows t x)
  | None => forall row, ~ applies rows t x row
  end.
Proof.
  intros Hok Hm Ht Hx. destruct (verdict_lookup rows table Hok Hm t x Ht Hx) as [Hex Hval].
  pose proof (lpm_find_spec table (query t x)) as Hf. destruct (lpm_find _ _) as [v|].
  - split; [apply Hex; eauto|]. unfold allowed. rewrite <-(Hval v Hf). destruct Hf as (k & Hk & _).
    apply Hm in Hk as [_ ->]. case_bool_decide; done.
  - intros row Ha. destruct Hex as [_ Hex]. destruct Hex as [v Hv']; [eauto|]. by apply (Hf v).
Qed.

(** Ranges of the exact tier, if any applies, hide the fallback tier. *)
Definition ranges_allow rows t any x : Prop :=
  allowed rows t x \/ ((forall row, ~ applies rows t x row) /\ allowed rows any x).

Lemma two_probe_spec rows table t any x :
  Forall row_ok rows -> verdict_map rows table -> tier_ok t -> tier_ok any -> plain x ->
  two_probe table (query t x) (query any x) = true <-> ranges_allow rows t any x.
Proof.
  intros Hok Hm Ht Hany Hx. unfold two_probe, ranges_allow.
  pose proof (find_verdict rows table t x Hok Hm Ht Hx) as H1.
  pose proof (find_verdict rows table any x Hok Hm Hany Hx) as H2.
  destruct (lpm_find table (query t x)) as [v|].
  - destruct H1 as [[row Ha] H1]. rewrite H1. split; [by left|]. intros [?|[Hn _]]; [done|]. by destruct (Hn row).
  - destruct (lpm_find table (query any x)) as [v|].
    + destruct H2 as [_ H2]. rewrite H2. split; [by right|]. intros [(row & Ha & _)|[_ ?]]; [by destruct (H1 row)|done].
    + split; [done|]. intros [(row & Ha & _)|[_ (row & Ha & _)]]; [by destruct (H1 row)|by destruct (H2 row)].
Qed.
End Verdict.

(** ** Keys with a fixed head *)

(** A key of exact head bytes followed by an encoded prefix. *)
Lemma covers_head `{LpmKey K} (k : K) h h' p x :
  plen k = 8 * Z.of_nat (length h) + map_bits p -> data k = h ++ be_bytes 16 (enc (paddr p)) ->
  length h = length h' -> Forall byte h -> Forall byte h' -> prefix_wf p ->
  covers k (h' ++ be_bytes 16 (enc x)) <->
  h = h' /\ leading_match (map_bits p) (be_bytes 16 (enc (paddr p))) (be_bytes 16 (enc x)).
Proof.
  intros Hp Hd Hl Hh Hh' Hw. unfold covers. rewrite Hp, Hd, !length_app, !be_bytes_length, Hl.
  pose proof (map_bits_range p Hw). rewrite <-Hl, bits_agree_app; rewrite ?Forall_app, ?length_app, ?be_bytes_length;
    auto using be_bytes_byte; [|lia].
  replace (8 * Z.of_nat (length h) + map_bits p - 8 * Z.of_nat (length h)) with (map_bits p) by lia.
  rewrite bits_agree_16 by apply be_bytes_length. tauto.
Qed.
