(* ===== verification/NetworkPolicy.v ===== *)
(** * NetworkPolicy projection and enforcement
      (datapath/networkpolicy.go; np_ingress, np_egress and np_cidr_check of bpf/overlay.c)

    The agent compiles NetworkPolicies into identities of pod addresses, identity-pair rules
    with port prefixes, and CIDR ranges.  The datapath decides each gated flow by a fixed
    sequence of lookups. *)

From S2P Require Import Prelude GoText GoNet AddrMap KernelMap Lpm PortPrefix Verdict.
Local Open Scope Z_scope.

(** [NPIngIsolated], datapath/networkpolicy.go:32-32. *)
Definition NPIngIsolated : Z := 1.
(** [NPEgIsolated], datapath/networkpolicy.go:33-33. *)
Definition NPEgIsolated : Z := 2.
(** [NPDirIn], datapath/networkpolicy.go:35-35. *)
Definition NPDirIn : Z := 0.
(** [NPDirEg], datapath/networkpolicy.go:36-36. *)
Definition NPDirEg : Z := 1.
(** [NPSrcAny], datapath/networkpolicy.go:38-38. *)
Definition NPSrcAny : Z := 0.
(** [NPSrcAnyPod], datapath/networkpolicy.go:39-39. *)
Definition NPSrcAnyPod : Z := 1.
(** [NPSrcNodes], datapath/networkpolicy.go:44-44. *)
Definition NPSrcNodes : Z := 2.
(** [NPSrcLocalPods], datapath/networkpolicy.go:45-45. *)
Definition NPSrcLocalPods : Z := 3.
(** [NPNodeLocal], datapath/networkpolicy.go:57-57. *)
Definition NPNodeLocal : Z := 1.
(** [cfgNPUpdating], datapath/paths.go:85-85. *)
Definition cfgNPUpdating : Z := 12.
(** [cfgNPInitialized], datapath/paths.go:88-88. *)
Definition cfgNPInitialized : Z := 14.

(** [NPIdent], datapath/networkpolicy.go:60-64. *)
Record NPIdent := MkNPIdent { i_IP : IP; i_ID : Z; i_Flags : Z }.
(** [NPAllow], datapath/networkpolicy.go:69-76. *)
Record NPAllow := MkNPAllow { a_DstID : Z; a_SrcID : Z; a_Dir : Z; a_Proto : Z; a_Port : Z; a_EndPort : Z }.
(** [NPCidr], datapath/networkpolicy.go:199-206. *)
Record NPCidr := MkNPCidr { n_ID : Z; n_Dir : Z; n_Proto : Z; n_Port : Z; n_CIDR : option IPNet; n_Allow : bool }.

(** [overlayNpIdentVal], datapath/overlay_bpfel.go:282-287. *)
Record overlayNpIdentVal := MkIdentVal { iv_Id : Z; iv_Flags : Z }.
(** [overlayNpAllowKey], datapath/overlay_bpfel.go:250-260. *)
Record overlayNpAllowKey := MkNpAllowKey { ak_Prefixlen : Z; ak_Dir : Z; ak_Proto : Z; ak_DstId : Z; ak_SrcId : Z; ak_Port : Z }.
(** [overlayNpCidrKey], datapath/overlay_bpfel.go:262-270. *)
Record overlayNpCidrKey := MkNpCidrKey { ck_Prefixlen : Z; ck_Dir : Z; ck_Proto : Z; ck_Port : Z; ck_Id : Z; ck_Addr : list Z }.

#[export] Instance overlayNpIdentVal_eq_dec : EqDecision overlayNpIdentVal.
Proof. solve_decision. Defined.
#[export] Instance overlayNpAllowKey_eq_dec : EqDecision overlayNpAllowKey.
Proof. solve_decision. Defined.
#[export] Instance overlayNpCidrKey_eq_dec : EqDecision overlayNpCidrKey.
Proof. solve_decision. Defined.
#[export] Program Instance overlayNpAllowKey_countable : Countable overlayNpAllowKey :=
  inj_countable' (fun k => (ak_Prefixlen k, ak_Dir k, ak_Proto k, ak_DstId k, ak_SrcId k, ak_Port k))
    (fun '(a, b, c, d, e, f) => MkNpAllowKey a b c d e f) _.
Next Obligation. by intros []. Qed.
#[export] Program Instance overlayNpCidrKey_countable : Countable overlayNpCidrKey :=
  inj_countable' (fun k => (ck_Prefixlen k, ck_Dir k, ck_Proto k, ck_Port k, ck_Id k, ck_Addr k))
    (fun '(a, b, c, d, e, f) => MkNpCidrKey a b c d e f) _.
Next Obligation. by intros []. Qed.

(** The fixed fields of the keys, in memory. *)
Definition allow_head (dir proto dst src : Z) : list Z :=
  [dir; proto] ++ le_bytes 2 0 ++ le_bytes 8 dst ++ le_bytes 8 src.
Definition cidr_head (dir proto port id : Z) : list Z :=
  [dir; proto] ++ le_bytes 2 port ++ le_bytes 8 id.

(** The memory of a key behind its prefix length; the rule key ends in six pad bytes. *)
#[export] Instance NpAllow_lpm : LpmKey overlayNpAllowKey := {|
  plen := ak_Prefixlen;
  data k := allow_head (ak_Dir k) (ak_Proto k) (ak_DstId k) (ak_SrcId k) ++ (le_bytes 2 (ak_Port k) ++ replicate 6 0)
|}.
#[export] Instance NpCidr_lpm : LpmKey overlayNpCidrKey := {|
  plen := ck_Prefixlen;
  data k := cidr_head (ck_Dir k) (ck_Proto k) (ck_Port k) (ck_Id k) ++ ck_Addr k
|}.

Record NpKern := MkNpKern {
  params : gmap Z Z;
  NpIdent : gmap (list Z) overlayNpIdentVal;
  NpAllow : gmap overlayNpAllowKey Z;
  NpCidr : gmap overlayNpCidrKey Z;
  NpNodes : gmap (list Z) Z
}.

Definition L_params : Lens NpKern (gmap Z Z) :=
  MkLens params (fun t s => MkNpKern t (NpIdent s) (NpAllow s) (NpCidr s) (NpNodes s)).
Definition L_ident : Lens NpKern (gmap (list Z) overlayNpIdentVal) :=
  MkLens NpIdent (fun t s => MkNpKern (params s) t (NpAllow s) (NpCidr s) (NpNodes s)).
Definition L_allow : Lens NpKern (gmap overlayNpAllowKey Z) :=
  MkLens NpAllow (fun t s => MkNpKern (params s) (NpIdent s) t (NpCidr s) (NpNodes s)).
Definition L_cidr : Lens NpKern (gmap overlayNpCidrKey Z) :=
  MkLens NpCidr (fun t s => MkNpKern (params s) (NpIdent s) (NpAllow s) t (NpNodes s)).
Definition L_nodes : Lens NpKern (gmap (list Z) Z) :=
  MkLens NpNodes (fun t s => MkNpKern (params s) (NpIdent s) (NpAllow s) (NpCidr s) t).

#[export] Instance np_params_laws : LensLaws L_params.
Proof. split; [done|by intros []|done]. Qed.
#[export] Instance np_ident_laws : LensLaws L_ident.
Proof. split; [done|by intros []|done]. Qed.
#[export] Instance np_allow_laws : LensLaws L_allow.
Proof. split; [done|by intros []|done]. Qed.
#[export] Instance np_cidr_laws : LensLaws L_cidr.
Proof. split; [done|by intros []|done]. Qed.
#[export] Instance np_nodes_laws : LensLaws L_nodes.
Proof. split; [done|by intros []|done]. Qed.

Record NpCaps := MkNpCaps { cap_ident : nat; cap_allow : nat; cap_cidr : nat; cap_nodes : nat }.

Section Manager.
Context `{Runtime} (caps : NpCaps).

(** [want], the identities, datapath/networkpolicy.go:150-159. *)
Definition idents_want (idents : list NPIdent) : result (gmap (list Z) overlayNpIdentVal) :=
  foldM (fun want id =>
    a ← addr128 (i_IP id);
    putDesired (cap_ident caps) want a (MkIdentVal (i_ID id) (i_Flags id))) ∅ idents.

(** [Manager.SyncNPIdents], datapath/networkpolicy.go:149-161. *)
Definition SyncNPIdents (idents : list NPIdent) : M NpKern unit :=
  want ← lift (idents_want idents);
  syncMap L_ident (cap_ident caps) want.

(** [lo, hi], the port bounds of a rule, datapath/networkpolicy.go:169-175. *)
Definition allow_range (r : NPAllow) : Z * Z :=
  let lo := a_Port r in
  let hi := if negb (a_EndPort r =? 0) then a_EndPort r else a_Port r in
  (lo, if lo =? 0 then 0 else hi).

(** [overlayNpAllowKey], of a rule and a port prefix, datapath/networkpolicy.go:177-184. *)
Definition allow_key (r : NPAllow) (pp : npPortPrefix) : overlayNpAllowKey :=
  MkNpAllowKey (u32 (160 + pp_bits pp)) (a_Dir r) (a_Proto r) (a_DstID r) (a_SrcID r) (htons (pp_port pp)).

(** [want], the rules, datapath/networkpolicy.go:167-189. *)
Definition allows_want (allows : list NPAllow) : result (gmap overlayNpAllowKey Z) :=
  foldM (fun want r =>
    let '(lo, hi) := allow_range r in
    foldM (fun want pp => putDesired (cap_allow caps) want (allow_key r pp) 1) want (npPortPrefixes lo hi)) ∅ allows.

(** [Manager.SyncNPAllows], datapath/networkpolicy.go:166-191. *)
Definition SyncNPAllows (allows : list NPAllow) : M NpKern unit :=
  want ← lift (allows_want allows);
  syncMap L_allow (cap_allow caps) want.

(** [want], the ranges, datapath/networkpolicy.go:212-239. *)
Definition cidrs_want (entries : list NPCidr) : result (gmap overlayNpCidrKey Z) :=
  foldM (fun want e =>
    match n_CIDR e with
    | None => Ok want
    | Some _ =>
        '(a, bits, family) ← cidrPolicyPrefix (n_CIDR e);
        let key := MkNpCidrKey (u32 (96 + bits)) (npCIDRDirection (n_Dir e) family) (n_Proto e)
                     (htons (n_Port e)) (n_ID e) a in
        put_verdict (cap_cidr caps) want key (n_Allow e)
    end) ∅ entries.

(** [Manager.SyncNPCidrs], datapath/networkpolicy.go:211-241. *)
Definition SyncNPCidrs (entries : list NPCidr) : M NpKern unit :=
  want ← lift (cidrs_want entries);
  syncMap L_cidr (cap_cidr caps) want.

(** [Manager.BlockNetworkPolicy], datapath/networkpolicy.go:118-122. *)
Definition BlockNetworkPolicy : M NpKern unit := PutArray L_params cfgNPUpdating 1.

(** [Manager.ApplyNetworkPolicy], datapath/networkpolicy.go:126-145. *)
Definition ApplyNetworkPolicy (idents : list NPIdent) (allows : list NPAllow) (cidrs : list NPCidr) : M NpKern unit :=
  _ ← PutArray L_params cfgNPUpdating 1;
  _ ← SyncNPIdents idents;
  _ ← SyncNPAllows allows;
  _ ← SyncNPCidrs cidrs;
  _ ← PutArray L_params cfgNPInitialized 1;
  PutArray L_params cfgNPUpdating 0.

(** [Manager.SetNPNode], datapath/networkpolicy.go:246-256. *)
Definition SetNPNode (ip : IP) (local : bool) : M NpKern unit :=
  a ← lift (addr128 ip);
  Put L_nodes (cap_nodes caps) a (if local then NPNodeLocal else 0).

(** [Manager.DelNPNode], datapath/networkpolicy.go:258-267. *)
Definition DelNPNode (ip : IP) : M NpKern unit :=
  a ← lift (addr128 ip);
  DeleteIfExists L_nodes a.
End Manager.

(** ** The datapath's decision *)

(** The query [to_pod] leaves in scratch: addresses in map form, ports in network order, the
    packet's IP version; [src_local] and [dst_local] are the hits of the [locals] lookup at net
    0, [pinned] the hit of the UDP reply pin. *)
Record NpQuery := MkNpQuery {
  q_src : list Z; q_dst : list Z; q_dport : Z; q_proto : Z; q_ver : Z;
  src_local : bool; dst_local : bool; pinned : bool
}.

Definition IPPROTO_UDP : Z := 17.

(** [np_pin_check], bpf/overlay.c:1471-1485. *)
Definition np_pin_check (q : NpQuery) : bool := (q_proto q =? IPPROTO_UDP) && pinned q.

(** [np_cidr_check], bpf/overlay.c:1451-1466. *)
Definition np_cidr_check (s : NpKern) (q : NpQuery) (dir self : Z) (addr : list Z) : bool :=
  let key port := MkNpCidrKey (96 + 128) (Z.lor dir (if q_ver q =? 4 then 0x40 else 0x80)) (q_proto q) port self addr in
  match lpm_find (NpCidr s) (data (key (q_dport q))) with
  | Some v => negb (v =? 0)
  | None =>
      match lpm_find (NpCidr s) (data (key 0)) with
      | Some v => negb (v =? 0)
      | None => false
      end
  end.

(** One probe of the rule map. *)
Definition np_probe (s : NpKern) (q : NpQuery) (dir dst src : Z) : bool :=
  bool_decide (is_Some (lpm_find (NpAllow s) (data (MkNpAllowKey (160 + 16) dir (q_proto q) dst src (q_dport q))))).

Definition np_updating (s : NpKern) : bool :=
  match params s !! cfgNPUpdating with Some u => negb (u =? 0) | None => false end.
Definition is_local_node (s : NpKern) (a : list Z) : bool :=
  match NpNodes s !! a with Some n => negb (Z.land n NPNodeLocal =? 0) | None => false end.

(** [np_ingress], bpf/overlay.c:1496-1569. *)
Definition np_ingress (s : NpKern) (q : NpQuery) : bool :=
  if np_updating s then is_local_node s (q_src q) || np_pin_check q
  else match NpIdent s !! q_dst q with
  | None => true
  | Some di =>
      if Z.land (iv_Flags di) NPIngIsolated =? 0 then true
      else if is_local_node s (q_src q) then true
      else
        let probe src := np_probe s q NPDirIn (iv_Id di) src in
        match NpIdent s !! q_src q with
        | Some si => probe (iv_Id si) || probe NPSrcAnyPod || (src_local q && probe NPSrcLocalPods)
        | None => false
        end ||
        (bool_decide (is_Some (NpNodes s !! q_src q)) && probe NPSrcNodes) ||
        probe NPSrcAny ||
        np_cidr_check s q NPDirIn (iv_Id di) (q_src q) ||
        np_pin_check q
  end.

(** [np_egress_impl], bpf/overlay.c:1571-1624. *)
Definition np_egress (s : NpKern) (q : NpQuery) : bool :=
  if np_updating s then is_local_node s (q_src q) || np_pin_check q
  else match NpIdent s !! q_src q with
  | None => true
  | Some si =>
      if Z.land (iv_Flags si) NPEgIsolated =? 0 then true
      else
        let probe dst := np_probe s q NPDirEg dst (iv_Id si) in
        match NpIdent s !! q_dst q with
        | Some di => probe (iv_Id di) || probe NPSrcAnyPod || (dst_local q && probe NPSrcLocalPods)
        | None => false
        end ||
        probe NPSrcAny ||
        np_cidr_check s q NPDirEg (iv_Id si) (q_dst q) ||
        np_pin_check q
  end.

(** ** What the rule map means *)

(** Does the rule's port range contain [p]?  Port 0 is any port. *)
Definition port_in (r : NPAllow) (p : Z) : Prop :=
  a_Port r = 0 \/ a_Port r <= p <= (if a_EndPort r =? 0 then a_Port r else a_EndPort r).

Definition allow_ok (r : NPAllow) : Prop :=
  0 <= a_Dir r < 256 /\ 0 <= a_Proto r < 256 /\ 0 <= a_DstID r < 2 ^ 64 /\ 0 <= a_SrcID r < 2 ^ 64 /\
  0 <= a_Port r < 2 ^ 16 /\ 0 <= a_EndPort r < 2 ^ 16.

Lemma allow_range_cover r p : allow_ok r -> 0 <= p < 2 ^ 16 ->
  (exists pp, pp ∈ npPortPrefixes (allow_range r).1 (allow_range r).2 /\ pp_match pp p) <-> port_in r p.
Proof.
  intros (_&_&_&_&Hp&He) Hpp. unfold allow_range, port_in. cbn [fst snd].
  destruct (Z.eqb_spec (a_Port r) 0) as [E|E].
  - rewrite E, npPortPrefixes_cover by lia. tauto.
  - destruct (Z.eqb_spec (a_EndPort r) 0); cbn [negb]; rewrite npPortPrefixes_cover; lia.
Qed.

Lemma allow_range_bounds r : allow_ok r -> 0 <= (allow_range r).1 /\ (allow_range r).2 < 2 ^ 16.
Proof.
  intros (_&_&_&_&Hp&He). unfold allow_range. cbn [fst snd].
  destruct (a_Port r =? 0), (a_EndPort r =? 0); cbn [negb]; lia.
Qed.

(** Network-order ports are big-endian in memory. *)
Lemma le_bytes_htons p : 0 <= p < 2 ^ 16 -> le_bytes 2 (htons p) = be_bytes 2 p.
Proof.
  intros Hp. rewrite htons_spec by lia. unfold le_bytes. cbn [be_bytes app reverse rev_append].
  assert (0 <= p / 256 < 256) by (split; [apply Z.div_pos; lia|apply Z.div_lt_upper_bound; lia]).
  pose proof (Z.mod_pos_bound p 256).
  rewrite Z.div_add_l, (Z.div_small (p / 256)) by lia. rewrite (Z.add_comm (_ * 256)), Z_mod_plus_full.
  rewrite Z.add_0_r, Z.mod_mod by lia. by rewrite !(Z.mod_small (p / 256)) by lia.
Qed.

(** A rule entry covers a port iff its prefix does. *)
Lemma tail_agree b a p : 0 <= b <= 16 -> 0 <= a < 2 ^ 16 -> 0 <= p < 2 ^ 16 ->
  bits_agree b (be_bytes 2 a ++ replicate 6 0) (be_bytes 2 p ++ replicate 6 0) <->
  Z.shiftr a (16 - b) = Z.shiftr p (16 - b).
Proof.
  intros Hb Ha Hp. unfold bits_agree. rewrite length_app, be_bytes_length, length_replicate, !be_app, length_replicate.
  rewrite !be_be_bytes by done. change (be (replicate 6 0)) with 0. change (256 ^ Z.of_nat 6) with (2 ^ 48).
  rewrite !Z.add_0_r, <-!Z.shiftl_mul_pow2 by lia.
  rewrite !Z.shiftr_shiftl_r by lia. replace (8 * Z.of_nat (2 + 6) - b - 48) with (16 - b) by lia. done.
Qed.

Definition allow_query (dir proto dst src p : Z) : list Z :=
  data (MkNpAllowKey (160 + 16) dir proto dst src (htons p)).

Lemma allow_covers r pp dir proto dst src p :
  allow_ok r -> allow_ok (MkNPAllow dst src dir proto p p) ->
  0 <= pp_bits pp <= 16 -> 0 <= pp_port pp < 2 ^ 16 ->
  covers (allow_key r pp) (allow_query dir proto dst src p) <->
  a_Dir r = dir /\ a_Proto r = proto /\ a_DstID r = dst /\ a_SrcID r = src /\ pp_match pp p.
Proof.
  intros (Hd & Hpr & Hds & Hsr & _) (Hd' & Hpr' & Hds' & Hsr' & Hp' & _) Hb Ha.
  cbn [a_Dir a_Proto a_DstID a_SrcID a_Port] in *. unfold covers, allow_query, allow_key. cbn [plen data NpAllow_lpm ak_Prefixlen ak_Dir ak_Proto ak_DstId ak_SrcId ak_Port].
  assert (u32 (160 + pp_bits pp) = 160 + pp_bits pp) as -> by (unfold u32; apply Z.mod_small; lia).
  rewrite !le_bytes_htons by done.
  set (h := allow_head (a_Dir r) (a_Proto r) (a_DstID r) (a_SrcID r)). set (h' := allow_head dir proto dst src).
  assert (length h = 20%nat /\ length h' = 20%nat) as [L L'] by (unfold h, h', allow_head; by rewrite !length_app, !le_bytes_length).
  assert (Forall byte h /\ Forall byte h') as [B B'].
  { unfold h, h', allow_head. rewrite !Forall_app, !Forall_cons. unfold byte. repeat split; auto using le_bytes_byte; lia. }
  rewrite !length_app, L, L', !be_bytes_length.
  rewrite bits_agree_app; rewrite ?Forall_app, ?length_app, ?be_bytes_length, ?L, ?L';
    auto 10 using be_bytes_byte, bytes_lit; [|cbn; lia].
  replace (160 + pp_bits pp - 8 * Z.of_nat 20) with (pp_bits pp) by lia. rewrite tail_agree by done.
  assert (h = h' <-> a_Dir r = dir /\ a_Proto r = proto /\ a_DstID r = dst /\ a_SrcID r = src) as ->.
  { unfold h, h', allow_head. split; [|by intros (-> & -> & -> & ->)]. intros E.
    apply app_inj_1 in E as [[= -> ->] E]; [|done]. apply app_inj_1 in E as [_ E]; [|done].
    apply app_inj_1 in E as [E1 E2]; [|by rewrite !le_bytes_length].
    apply le_bytes_inj in E1, E2; done. }
  unfold pp_match. tauto.
Qed.

(** The keys the rules compile to. *)
Lemma allows_want_spec caps allows want : allows_want caps allows = Ok want -> forall k v,
  want !! k = Some v <-> v = 1 /\ exists r pp, r ∈ allows /\
    pp ∈ npPortPrefixes (allow_range r).1 (allow_range r).2 /\ allow_key r pp = k.
Proof.
  unfold allows_want. apply (foldM_invariant _ (fun pre m => forall k v, m !! k = Some v <->
    v = 1 /\ exists r pp, r ∈ pre /\ pp ∈ npPortPrefixes (allow_range r).1 (allow_range r).2 /\ allow_key r pp = k)).
  { intros k v. rewrite lookup_empty. split; [done|]. intros (_ & r & pp & Hr & _). by apply not_elem_of_nil in Hr. }
  intros pre r post m m' _ Hpre Hr. destruct (allow_range r) as [lo hi] eqn:Er. revert Hr.
  pose (P := fun (done : list npPortPrefix) (m' : gmap overlayNpAllowKey Z) => forall k v, m' !! k = Some v <->
    m !! k = Some v \/ (v = 1 /\ exists pp, pp ∈ done /\ allow_key r pp = k)).
  intros Hr. assert (P (npPortPrefixes lo hi) m') as HP.
  { revert Hr. apply (foldM_invariant _ P).
    - intros k v. split; [auto|]. intros [?|(_ & pp & Hpp & _)]; [done|by apply not_elem_of_nil in Hpp].
    - intros done pp post' m1 m2 _ H1 H2 k v. unfold putDesired in H2. case_decide; [done|]. injection H2 as <-.
      setoid_rewrite elem_of_app. setoid_rewrite list_elem_of_singleton.
      destruct (decide (allow_key r pp = k)) as [<-|Hne].
      + rewrite lookup_insert_eq. split; [intros [= <-]; right; eauto|].
        intros [Hm|[-> _]]; [|done]. apply Hpre in Hm as [-> _]. done.
      + rewrite lookup_insert_ne, (H1 k v) by done. split; [naive_solver|].
        intros [?|(-> & pp' & Hor & ?)]; [by left|]. destruct Hor as [?| ->]; [right; eauto|done]. }
  intros k v. rewrite (HP k v), Hpre. setoid_rewrite elem_of_app. setoid_rewrite list_elem_of_singleton. split.
  - intros [(-> & r' & pp & ? & ?)|(-> & pp & ? & ?)]; (split; [done|]); [by exists r', pp; auto|].
    exists r, pp. rewrite Er. auto.
  - intros (-> & r' & pp & [?| ->] & Hin & ?); [left; split; [done|]; by exists r', pp|right; split; [done|]].
    rewrite Er in Hin. eauto.
Qed.

(** Some rule of the list admits the identity pair on the port. *)
Definition rule_admits (allows : list NPAllow) (dir proto dst src p : Z) : Prop :=
  exists r, r ∈ allows /\ a_Dir r = dir /\ a_Proto r = proto /\ a_DstID r = dst /\ a_SrcID r = src /\ port_in r p.

Lemma allow_lookup caps allows table dir proto dst src p :
  allows_want caps allows = Ok table -> Forall allow_ok allows -> allow_ok (MkNPAllow dst src dir proto p p) ->
  is_Some (lpm_find table (allow_query dir proto dst src p)) <-> rule_admits allows dir proto dst src p.
Proof.
  intros Hw Hok Hq. pose proof (allows_want_spec _ _ _ Hw) as Hs. rewrite Forall_forall in Hok.
  assert (0 <= p < 2 ^ 16) as Hp by apply Hq.
  pose proof (lpm_find_spec table (allow_query dir proto dst src p)) as Hf. split.
  - intros [v Hv]. rewrite Hv in Hf. destruct Hf as (k & Hk & Hc & _). apply Hs in Hk as (_ & r & pp & Hr & Hpp & <-).
    destruct (allow_range_bounds r (Hok _ Hr)). destruct (pp_bits_range _ _ _ ltac:(done) ltac:(done) Hpp).
    apply allow_covers in Hc as (? & ? & ? & ? & Hm); [|by auto..].
    exists r. repeat (split; [done|]). apply allow_range_cover; eauto.
  - intros (r & Hr & <- & <- & <- & <- & Hin). apply allow_range_cover in Hin as (pp & Hpp & Hm); [|by auto..].
    destruct (allow_range_bounds r (Hok _ Hr)). destruct (pp_bits_range _ _ _ ltac:(done) ltac:(done) Hpp).
    assert (table !! allow_key r pp = Some 1) as Hk by (apply Hs; eauto 10).
    assert (exists v, lpm_lookup table (allow_query (a_Dir r) (a_Proto r) (a_DstID r) (a_SrcID r) p) v) as [v Hv].
    { eapply lpm_lookup_exists; [done|]. apply allow_covers; auto 10. }
    destruct (lpm_find table _) as [v'|]; [eauto|]. by destruct (Hf v).
Qed.

(** ** What the range map means *)

(** Direction, protocol, port and identity of a range. *)
Definition tier : Type := Z * Z * Z * Z.

Definition tier_ok (t : tier) : Prop :=
  let '(dir, proto, port, id) := t in
  (dir = NPDirIn \/ dir = NPDirEg) /\ 0 <= proto < 256 /\ 0 <= port < 2 ^ 16 /\ 0 <= id < 2 ^ 64.

Definition range_key (t : tier) (p : Prefix) : overlayNpCidrKey :=
  let '(dir, proto, port, id) := t in
  MkNpCidrKey (96 + map_bits p) (npCIDRDirection dir (family_of (paddr p))) proto (htons port) id
    (be_bytes 16 (enc (paddr p))).

Definition range_head (t : tier) (family : Z) : list Z :=
  let '(dir, proto, port, id) := t in cidr_head (npCIDRDirection dir family) proto (htons port) id.

Definition range_query (t : tier) (x : Addr) : list Z := range_head t (family_of x) ++ be_bytes 16 (enc x).

Lemma direction_range dir f : dir = NPDirIn \/ dir = NPDirEg -> f = 4 \/ f = 6 -> 0 <= npCIDRDirection dir f < 256.
Proof. intros [-> | ->] [-> | ->]; (split; [by apply Z.leb_le|by apply Z.ltb_lt]). Qed.

Lemma direction_inj d d' f f' : d = NPDirIn \/ d = NPDirEg -> d' = NPDirIn \/ d' = NPDirEg ->
  f = 4 \/ f = 6 -> f' = 4 \/ f' = 6 -> npCIDRDirection d f = npCIDRDirection d' f' -> d = d' /\ f = f'.
Proof. intros [-> | ->] [-> | ->] [-> | ->] [-> | ->]; by vm_compute. Qed.

Lemma range_head_bytes t f : tier_ok t -> f = 4 \/ f = 6 -> Forall byte (range_head t f) /\ length (range_head t f) = 12%nat.
Proof.
  destruct t as [[[dir proto] port] id]. intros (Hd & Hpr & _ & _) Hf. unfold range_head, cidr_head. split.
  - rewrite !Forall_app, !Forall_cons. pose proof (direction_range dir f Hd Hf). unfold byte.
    repeat split; auto using le_bytes_byte; lia.
  - by rewrite !length_app, !le_bytes_length.
Qed.

Lemma range_head_inj t t' f f' : tier_ok t -> tier_ok t' -> f = 4 \/ f = 6 -> f' = 4 \/ f' = 6 ->
  range_head t f = range_head t' f' -> t = t' /\ f = f'.
Proof.
  destruct t as [[[dir proto] port] id], t' as [[[dir' proto'] port'] id'].
  intros (Hd & Hpr & Hpo & Hi) (Hd' & Hpr' & Hpo' & Hi') Hf Hf'. unfold range_head, cidr_head. intros E.
  apply app_inj_1 in E as [E1 E]; [|done]. injection E1 as E1 ->.
  apply app_inj_1 in E as [E2 E3]; [|by rewrite !le_bytes_length].
  apply le_bytes_inj in E3 as ->; [|done..].
  apply le_bytes_inj in E2; [|by apply htons_range..]. apply htons_inj in E2 as ->; [|done..].
  by apply direction_inj in E1 as [-> ->].
Qed.

Lemma range_plen t p : prefix_wf p -> plen (range_key t p) = 96 + map_bits p.
Proof. destruct t as [[[dir proto] port] id]. done. Qed.

Lemma range_covers t p t' x : tier_ok t -> tier_ok t' -> prefix_wf p -> plain x ->
  covers (range_key t p) (range_query t' x) <-> t = t' /\ Contains p x = true.
Proof.
  intros Ht Ht' Hw Hx. pose proof (family_cases (paddr p)) as Fp. pose proof (family_cases x) as Fx.
  destruct (range_head_bytes t _ Ht Fp) as [Hb Hl]. destruct (range_head_bytes t' _ Ht' Fx) as [Hb' Hl'].
  unfold range_query. rewrite (covers_head _ (range_head t (family_of (paddr p))) _ p x); try done.
  - rewrite <-(map_prefix_contains p x Hw Hx). split.
    + intros [E Hm]. apply range_head_inj in E as [-> ?]; done.
    + intros (-> & E & Hm). rewrite E. done.
  - rewrite range_plen, Hl by done. done.
  - destruct t as [[[dir proto] port] id]. done.
  - by rewrite Hl, Hl'.
Qed.

Definition cidr_tier (e : NPCidr) : tier := (n_Dir e, n_Proto e, n_Port e, n_ID e).

Definition cidr_ok (e : NPCidr) : Prop := tier_ok (cidr_tier e) /\ Forall byte (default [] (inIP <$> n_CIDR e)).

(** The usable rows of the compiled ranges. *)
Definition cidr_row (e : NPCidr) : option (tier * Prefix * bool) :=
  match normalizedCIDR (n_CIDR e) with Ok p => Some (cidr_tier e, p, n_Allow e) | Err _ => None end.

Lemma cidr_row_ok e row : cidr_ok e -> cidr_row e = Some row -> row_ok tier_ok row.
Proof.
  intros [Ht Hb]. unfold cidr_row. destruct (n_CIDR e) as [c|]; [|done].
  destruct (normalizedCIDR (Some c)) as [p|] eqn:Ep; [|done]. intros [= <-].
  pose proof (normalizedCIDR_spec _ _ Hb Ep) as (?&?&_). done.
Qed.

Lemma cidrs_want_spec caps entries want : Forall cidr_ok entries -> cidrs_want caps entries = Ok want ->
  verdict_map range_key (omap cidr_row entries) want.
Proof.
  intros Hok. rewrite Forall_forall in Hok. unfold cidrs_want.
  apply (foldM_invariant _ (fun pre m => verdict_map range_key (omap cidr_row pre) m)); [apply verdict_map_nil|].
  intros pre e post m m' E Hpre Hstep. rewrite omap_app. cbn [omap list_omap].
  assert (cidr_ok e) as [Ht Hb] by (apply Hok; rewrite E; set_solver). unfold cidr_row at 2.
  destruct (n_CIDR e) as [c|] eqn:Ec.
  2: { injection Hstep as <-. cbn. by rewrite app_nil_r. }
  apply bind_ok in Hstep as ([[a bits] f] & Ep & Hput).
  destruct (normalizedCIDR (Some c)) as [p|] eqn:En; [|unfold cidrPolicyPrefix in Ep; by rewrite En in Ep].
  pose proof (normalizedCIDR_spec _ _ Hb En) as (Hw & _ & Hp).
  rewrite (cidrPolicyPrefix_spec _ _ En Hw Hp) in Ep. injection Ep as <- <- <-.
  pose proof (map_bits_range p Hw).
  assert (u32 (96 + map_bits p) = 96 + map_bits p) as Hu by (unfold u32; apply Z.mod_small; lia).
  rewrite Hu in Hput. by eapply verdict_map_snoc.
Qed.

(** Does the range policy admit [x]: the longest range at the exact port decides, and only
    when none applies there, the longest one at any port. *)
Definition ranges_admit (rows : list (tier * Prefix * bool)) (dir proto port id : Z) (x : Addr) : Prop :=
  ranges_allow rows (dir, proto, port, id) (dir, proto, 0, id) x.

Lemma cidr_check_spec caps entries s q dir id x port :
  cidrs_want caps entries = Ok (NpCidr s) -> Forall cidr_ok entries ->
  tier_ok (dir, q_proto q, port, id) -> plain x -> q_ver q = family_of x -> q_dport q = htons port ->
  np_cidr_check s q dir id (be_bytes 16 (enc x)) = true <->
  ranges_admit (omap cidr_row entries) dir (q_proto q) port id x.
Proof.
  intros Hw Hok Ht Hx Hv Hd.
  assert (forall po, data (MkNpCidrKey (96 + 128) (Z.lor dir (if q_ver q =? 4 then 0x40 else 0x80)) (q_proto q) (htons po) id
    (be_bytes 16 (enc x))) = range_query (dir, q_proto q, po, id) x) as Hq.
  { intros po. unfold range_query, range_head, npCIDRDirection. cbn [data NpCidr_lpm]. rewrite Hv. by destruct (family_of x =? 4). }
  unfold np_cidr_check, ranges_admit. rewrite Hd, Hq. change 0 with (htons 0) at 2. rewrite Hq.
  apply (two_probe_spec range_key range_query tier_ok 96 range_plen range_covers).
  - apply Forall_forall. intros row Hr. apply list_elem_of_omap in Hr as (e & He & Hrow).
    eapply cidr_row_ok; [|done]. by eapply Forall_forall in Hok.
  - by eapply cidrs_want_spec.
  - done.
  - destruct Ht as (?&?&_&?). split; [done|]. split; [done|]. split; [lia|done].
  - done.
Qed.

(** ** Identities *)

(** The identity of a map address: the last one listed for it. *)
Definition ident_of (idents : list NPIdent) (a : list Z) : option overlayNpIdentVal :=
  last (omap (fun id => if decide (addr128 (i_IP id) = Ok a) then Some (MkIdentVal (i_ID id) (i_Flags id)) else None) idents).

Lemma idents_want_lookup caps idents want a : idents_want caps idents = Ok want -> want !! a = ident_of idents a.
Proof.
  unfold idents_want. apply (foldM_invariant _ (fun pre m => m !! a = ident_of pre a)); [done|].
  intros pre id post m m' _ Hpre Hstep. apply bind_ok in Hstep as (b & Hb & Hp).
  unfold putDesired in Hp. case_decide; [done|]. injection Hp as <-.
  unfold ident_of in *. rewrite omap_app. cbn [omap list_omap]. rewrite Hb. destruct (decide (b = a)) as [->|Hne].
  - rewrite lookup_insert_eq, decide_True by done. by rewrite last_snoc.
  - rewrite lookup_insert_ne, decide_False by congruence. by rewrite app_nil_r.
Qed.

Lemma ident_of_range idents a v : Forall (fun id => 0 <= i_ID id < 2 ^ 64) idents ->
  ident_of idents a = Some v -> 0 <= iv_Id v < 2 ^ 64.
Proof.
  intros Hok Hl. unfold ident_of in Hl. apply last_Some_elem_of in Hl. apply list_elem_of_omap in Hl as (id & Hin & E).
  case_decide; [|done]. injection E as <-. by eapply Forall_forall in Hok.
Qed.

(** ** The policy the maps are meant to enforce *)

Section Policy.
Context (idents : list NPIdent) (allows : list NPAllow) (cidrs : list NPCidr).

Definition map_addr (x : Addr) : list Z := be_bytes 16 (enc x).

(** The peer names a rule for a pod with identity [peer] can use, on a node-local or remote
    pod, from a node or from anywhere. *)
Definition peer_matches (peer : option overlayNpIdentVal) (local node : bool) (id : Z) : Prop :=
  (exists v, peer = Some v /\ (id = iv_Id v \/ id = NPSrcAnyPod \/ (local = true /\ id = NPSrcLocalPods))) \/
  (node = true /\ id = NPSrcNodes) \/ id = NPSrcAny.

Definition policy_admits (dir proto port self : Z) (peers : Z -> Prop) (x : Addr) (pin : bool) : Prop :=
  (exists peer, peers peer /\
    rule_admits allows dir proto (if dir =? NPDirIn then self else peer) (if dir =? NPDirIn then peer else self) port) \/
  ranges_admit (omap cidr_row cidrs) dir proto port self x \/
  (proto = IPPROTO_UDP /\ pin = true).

(** The flow from [xs] to [xd] as destination-side ingress policy sees it. *)
Definition ingress_policy (nodes : gmap (list Z) Z) (xs xd : Addr) (proto port : Z) (local pin : bool) : Prop :=
  match ident_of idents (map_addr xd) with
  | None => True
  | Some di =>
      Z.land (iv_Flags di) NPIngIsolated = 0 \/
      (exists n, nodes !! map_addr xs = Some n /\ Z.land n NPNodeLocal <> 0) \/
      policy_admits NPDirIn proto port (iv_Id di)
        (peer_matches (ident_of idents (map_addr xs)) local (bool_decide (is_Some (nodes !! map_addr xs)))) xs pin
  end.

(** The same flow as source-side egress policy sees it. *)
Definition egress_policy (xs xd : Addr) (proto port : Z) (local pin : bool) : Prop :=
  match ident_of idents (map_addr xs) with
  | None => True
  | Some si =>
      Z.land (iv_Flags si) NPEgIsolated = 0 \/
      policy_admits NPDirEg proto port (iv_Id si)
        (peer_matches (ident_of idents (map_addr xd)) local false) xd pin
  end.

Context (caps : NpCaps).

(** The kernel holds exactly the compiled snapshot, with the guard down. *)
Definition complete (s : NpKern) : Prop :=
  idents_want caps idents = Ok (NpIdent s) /\ allows_want caps allows = Ok (NpAllow s) /\
  cidrs_want caps cidrs = Ok (NpCidr s) /\
  params s !! cfgNPUpdating = Some 0 /\ params s !! cfgNPInitialized = Some 1.

(** The compiled values are machine integers and byte strings. *)
Definition snapshot_ok : Prop :=
  Forall (fun id => 0 <= i_ID id < 2 ^ 64) idents /\ Forall allow_ok allows /\ Forall cidr_ok cidrs.

(** A query for the flow from [xs] to [xd]. *)
Definition query_for (q : NpQuery) (xs xd : Addr) (port : Z) : Prop :=
  plain xs /\ plain xd /\ q_src q = map_addr xs /\ q_dst q = map_addr xd /\
  family_of xs = family_of xd /\ q_ver q = family_of xs /\
  0 <= port < 2 ^ 16 /\ q_dport q = htons port /\ 0 <= q_proto q < 256.

Lemma probe_spec s q xs xd port dir dst src : complete s -> snapshot_ok -> query_for q xs xd port ->
  dir = NPDirIn \/ dir = NPDirEg -> 0 <= dst < 2 ^ 64 -> 0 <= src < 2 ^ 64 ->
  np_probe s q dir dst src = true <-> rule_admits allows dir (q_proto q) dst src port.
Proof.
  intros (_ & Ha & _) (_ & Hok & _) (_&_&_&_&_&_&Hp&Hd&Hpr) Hdir Hdst Hsrc. unfold np_probe.
  rewrite bool_decide_eq_true, Hd. apply (allow_lookup caps); [done|done|].
  destruct Hdir as [-> | ->]; repeat split; cbn; unfold NPDirIn, NPDirEg; lia.
Qed.

(** The probes of the rule map, for the peer names that match. *)
Lemma probes_spec s q xs xd port dir self (probe : Z -> bool) peer local node :
  complete s -> snapshot_ok -> query_for q xs xd port -> dir = NPDirIn \/ dir = NPDirEg ->
  0 <= self < 2 ^ 64 -> (forall v, peer = Some v -> 0 <= iv_Id v < 2 ^ 64) ->
  (forall id, probe id = if dir =? NPDirIn then np_probe s q dir self id else np_probe s q dir id self) ->
  match peer with
  | Some v => probe (iv_Id v) || probe NPSrcAnyPod || (local && probe NPSrcLocalPods)
  | None => false
  end || (node && probe NPSrcNodes) || probe NPSrcAny = true <->
  exists id, peer_matches peer local node id /\
    rule_admits allows dir (q_proto q) (if dir =? NPDirIn then self else id) (if dir =? NPDirIn then id else self) port.
Proof.
  intros Hc Hok Hq Hdir Hself Hpeer Hprobe.
  assert (forall id, 0 <= id < 2 ^ 64 -> probe id = true <->
    rule_admits allows dir (q_proto q) (if dir =? NPDirIn then self else id) (if dir =? NPDirIn then id else self) port) as K.
  { intros id Hid. rewrite Hprobe. destruct (dir =? NPDirIn); by eapply probe_spec. }
  assert (0 <= NPSrcAnyPod < 2 ^ 64 /\ 0 <= NPSrcLocalPods < 2 ^ 64 /\ 0 <= NPSrcNodes < 2 ^ 64 /\ 0 <= NPSrcAny < 2 ^ 64)
    as (R1 & R2 & R3 & R4) by (unfold NPSrcAnyPod, NPSrcLocalPods, NPSrcNodes, NPSrcAny; lia).
  rewrite !orb_true_iff, andb_true_iff, (K _ R3), (K _ R4). split.
  - intros [[Hp|[-> Hp]]|Hp].
    + destruct peer as [v|]; [|done]. rewrite !orb_true_iff, andb_true_iff, (K _ (Hpeer v eq_refl)), (K _ R1), (K _ R2) in Hp.
      destruct Hp as [[Hp|Hp]|[-> Hp]]; eexists; (split; [|exact Hp]); left; exists v; auto.
    + eexists. split; [|exact Hp]. right. by left.
    + eexists. split; [|exact Hp]. by right; right.
  - intros (id & [(v & -> & Hid)|[[-> ->]| ->]] & Hr); [left; left| by left; right|by right].
    rewrite !orb_true_iff, andb_true_iff, (K _ (Hpeer v eq_refl)), (K _ R1), (K _ R2).
    destruct Hid as [->|[->|[-> ->]]]; auto.
Qed.

Lemma complete_not_updating s : complete s -> np_updating s = false.
Proof. intros (_&_&_&E&_). unfold np_updating. by rewrite E. Qed.

Lemma pin_spec q : np_pin_check q = true <-> q_proto q = IPPROTO_UDP /\ pinned q = true.
Proof. unfold np_pin_check. by rewrite andb_true_iff, Z.eqb_eq. Qed.

(** Rules, ranges and reply pins together. *)
Lemma gate_spec s q xs xd port dir self (probe : Z -> bool) pa local node x :
  complete s -> snapshot_ok -> query_for q xs xd port -> dir = NPDirIn \/ dir = NPDirEg ->
  0 <= self < 2 ^ 64 -> plain x -> q_ver q = family_of x ->
  (forall id, probe id = if dir =? NPDirIn then np_probe s q dir self id else np_probe s q dir id self) ->
  match ident_of idents pa with
  | Some v => probe (iv_Id v) || probe NPSrcAnyPod || (local && probe NPSrcLocalPods)
  | None => false
  end || (node && probe NPSrcNodes) || probe NPSrcAny || np_cidr_check s q dir self (map_addr x) || np_pin_check q = true <->
  policy_admits dir (q_proto q) port self (peer_matches (ident_of idents pa) local node) x (pinned q).
Proof.
  intros Hc Hok Hq Hdir Hself Hx Hv Hprobe. rewrite 2!orb_true_iff.
  rewrite (probes_spec s q xs xd port dir self probe _ local node Hc Hok Hq Hdir Hself); [|by intros v; apply ident_of_range, Hok|done].
  pose proof Hq as (_&_&_&_&_&_&Hp&Hdp&Hpr).
  rewrite (cidr_check_spec caps cidrs s q dir self x port); [|apply Hc|apply Hok|exact (conj Hdir (conj Hpr (conj Hp Hself)))|done..].
  rewrite pin_spec. unfold policy_admits. tauto.
Qed.
End Policy.

(** C1. Enforcement means the policy: with a complete snapshot in the kernel, the ingress
    program admits a flow exactly when the destination is not isolated, the source is the local
    node, some rule admits one of the names the source answers to (its identity, any pod,
    local pods, nodes, anyone) on that protocol and port, the longest CIDR range decides to
    allow it, or it is a pinned UDP reply. *)
Theorem np_ingress_correct idents allows cidrs caps s q xs xd port :
  complete idents allows cidrs caps s -> snapshot_ok idents allows cidrs -> query_for q xs xd port ->
  np_ingress s q = true <->
  ingress_policy idents allows cidrs (NpNodes s) xs xd (q_proto q) port (src_local q) (pinned q).
Proof.
  intros Hc Hok Hq. pose proof Hq as (Hxs & Hxd & Es & Ed & _ & Hv & Hp & Hdp & Hpr).
  unfold np_ingress, ingress_policy. rewrite (complete_not_updating _ _ _ _ _ Hc), Es, Ed.
  rewrite !(idents_want_lookup caps idents _ _ (proj1 Hc)).
  destruct (ident_of idents (map_addr xd)) as [di|] eqn:Edi; [|done].
  pose proof (ident_of_range _ _ _ (proj1 Hok) Edi) as Hdi.
  destruct (Z.eqb_spec (Z.land (iv_Flags di) NPIngIsolated) 0) as [|Hiso]; [split; auto|].
  pose proof (gate_spec idents allows cidrs caps s q xs xd port NPDirIn (iv_Id di) (np_probe s q NPDirIn (iv_Id di))
    (map_addr xs) (src_local q) (bool_decide (is_Some (NpNodes s !! map_addr xs))) xs Hc Hok Hq
    (or_introl eq_refl) Hdi Hxs Hv (fun _ => eq_refl)) as G.
  unfold is_local_node. destruct (NpNodes s !! map_addr xs) as [n|]; [|rewrite G; naive_solver].
  destruct (Z.eqb_spec (Z.land n NPNodeLocal) 0) as [El|El]; cbn [negb]; [rewrite G; naive_solver|].
  split; [right; left; eauto|done].
Qed.

(** The egress twin: the source's policy decides, over the names the destination answers to
    and its address. *)
Theorem np_egress_correct idents allows cidrs caps s q xs xd port :
  complete idents allows cidrs caps s -> snapshot_ok idents allows cidrs -> query_for q xs xd port ->
  np_egress s q = true <->
  egress_policy idents allows cidrs xs xd (q_proto q) port (dst_local q) (pinned q).
Proof.
  intros Hc Hok Hq. pose proof Hq as (Hxs & Hxd & Es & Ed & Ef & Hv & Hp & Hdp & Hpr).
  unfold np_egress, egress_policy. rewrite (complete_not_updating _ _ _ _ _ Hc), Es, Ed.
  rewrite !(idents_want_lookup caps idents _ _ (proj1 Hc)).
  destruct (ident_of idents (map_addr xs)) as [si|] eqn:Esi; [|done].
  pose proof (ident_of_range _ _ _ (proj1 Hok) Esi) as Hsi.
  destruct (Z.eqb_spec (Z.land (iv_Flags si) NPEgIsolated) 0) as [|Hiso]; [split; auto|].
  rewrite Ef in Hv.
  pose proof (gate_spec idents allows cidrs caps s q xs xd port NPDirEg (iv_Id si)
    (fun dst => np_probe s q NPDirEg dst (iv_Id si)) (map_addr xd) (dst_local q) false xd Hc Hok Hq
    (or_intror eq_refl) Hsi Hxd Hv (fun _ => eq_refl)) as G.
  cbn [andb] in G. rewrite orb_false_r in G. rewrite G. naive_solver.
Qed.

(** While the guard is up only the local node and pinned replies pass, in both directions. *)
Lemma guard_denies s q : params s !! cfgNPUpdating = Some 1 ->
  np_ingress s q = (is_local_node s (q_src q) || np_pin_check q) /\
  np_egress s q = (is_local_node s (q_src q) || np_pin_check q).
Proof. intros E. unfold np_ingress, np_egress, np_updating. by rewrite E. Qed.

Definition armed (s : NpKern) : Prop := params s !! cfgNPUpdating = Some 1.

Lemma wp_ApplyNetworkPolicy `{Runtime} idents allows cidrs caps s :
  wp (ApplyNetworkPolicy caps idents allows cidrs)
    (fun s => armed s \/ complete idents allows cidrs caps s)
    (fun r s' => match r with Ok _ => complete idents allows cidrs caps s' | Err _ => armed s' \/ s' = s end) s.
Proof.
  apply wp_bind, wp_PutArray; [intros; by right|]. cbv zeta.
  set (s1 := update L_params _ s). assert (armed s1) as Ha by apply lookup_insert_eq.
  clearbody s1. split; [by left|].
  do 3 (apply wp_bind, wp_sync_step; [apply _|intros; by left|intros; by left|];
        let W := fresh "W" in let E := fresh "E" in intros W E).
  apply wp_bind, wp_PutArray; [intros; by left|]. cbn. split.
  { left. unfold armed. cbn. by rewrite lookup_insert_ne. }
  apply wp_PutArray; [intros n e _; left; unfold armed; cbn; by rewrite lookup_insert_ne|].
  assert (forall s', complete idents allows cidrs caps s' ->
    (armed s' \/ complete idents allows cidrs caps s') /\ complete idents allows cidrs caps s') as K by auto.
  apply K. repeat (split; [done|]). cbn. split; [by rewrite lookup_insert_eq|].
  by rewrite lookup_insert_ne, lookup_insert_eq.
Qed.

(** Whatever call fails while a NetworkPolicy snapshot is applied, every kernel state a
    packet can meet on the way admits into an isolated pod only the local node and pinned
    replies, or already is the complete new snapshot; an error leaves the guard up (or
    nothing changed), success leaves exactly the snapshot. *)
Theorem ApplyNetworkPolicy_guarded `{Runtime} idents allows cidrs caps (w : world NpKern) :
  let '(w', r) := ApplyNetworkPolicy caps idents allows cidrs w in
  match r with
  | Ok _ => complete idents allows cidrs caps (kern w')
  | Err _ => armed (kern w') \/ kern w' = kern w
  end /\
  exists new, hist w' = new ++ hist w /\
    Forall (fun s => complete idents allows cidrs caps s \/
      forall q, np_ingress s q = (is_local_node s (q_src q) || np_pin_check q) /\
                np_egress s q = (is_local_node s (q_src q) || np_pin_check q)) new.
Proof.
  destruct (wp_ApplyNetworkPolicy idents allows cidrs caps (kern w) w eq_refl) as (Hr & new & Hn & HF).
  destruct (ApplyNetworkPolicy caps idents allows cidrs w) as [w' r]. split; [done|]. exists new. split; [done|].
  eapply Forall_impl; [exact HF|]. intros s [Ha|Hc]; [right|by left]. intros q. by apply guard_denies.
Qed.

(** ** A concrete snapshot

    Pod 10.0.0.2 (identity 8) is ingress-isolated and admits identity 9 on TCP 8000-8100 and
    10.1.0.0/16 except 10.1.2.0/24 on TCP 443. *)
Definition demo_caps : NpCaps := MkNpCaps 16 64 16 16.
Definition demo_idents : list NPIdent := [MkNPIdent [10;0;0;2] 8 1; MkNPIdent [10;0;0;3] 9 2].
Definition demo_allows : list NPAllow := [MkNPAllow 8 9 NPDirIn 6 8000 8100].
Definition demo_cidrs : list NPCidr :=
  [MkNPCidr 8 NPDirIn 6 443 (Some (MkIPNet [10;1;0;0] [255;255;0;0])) true;
   MkNPCidr 8 NPDirIn 6 443 (Some (MkIPNet [10;1;2;0] [255;255;255;0])) false].
Definition demo_state : NpKern :=
  kern (ApplyNetworkPolicy (H := quiet_runtime) demo_caps demo_idents demo_allows demo_cidrs
    (MkWorld 0 (MkNpKern ∅ ∅ ∅ ∅ ∅) [])).1.
Definition v4 (a b c d : Z) : Addr := MkAddr true (be [a;b;c;d]).
Definition demo_query (xs xd : Addr) (port : Z) : NpQuery :=
  MkNpQuery (map_addr xs) (map_addr xd) (htons port) 6 4 false false false.

Lemma demo_complete : complete demo_idents demo_allows demo_cidrs demo_caps demo_state.
Proof.
  destruct (wp_ApplyNetworkPolicy (H := quiet_runtime) demo_idents demo_allows demo_cidrs demo_caps _
    (MkWorld 0 (MkNpKern ∅ ∅ ∅ ∅ ∅) []) eq_refl) as [Hq _].
  assert ((ApplyNetworkPolicy (H := quiet_runtime) demo_caps demo_idents demo_allows demo_cidrs
    (MkWorld 0 (MkNpKern ∅ ∅ ∅ ∅ ∅) [])).2 = Ok tt) as E by (vm_compute; reflexivity).
  by rewrite E in Hq.
Qed.

Lemma demo_snapshot_ok : snapshot_ok demo_idents demo_allows demo_cidrs.
Proof.
  split; [|split]; apply Forall_forall.
  - intros id [-> |[-> |[]%not_elem_of_nil]%elem_of_cons]%elem_of_cons; by split; [apply Z.leb_le|apply Z.ltb_lt].
  - intros r ->%list_elem_of_singleton. repeat split; first [by apply Z.leb_le|by apply Z.ltb_lt].
  - intros e [-> |[-> |[]%not_elem_of_nil]%elem_of_cons]%elem_of_cons;
      (split; [|by apply bytes_lit]); (split; [by left|]); repeat split; first [by apply Z.leb_le|by apply Z.ltb_lt].
Qed.

Lemma v4_plain a b c d : forallb (fun b => (0 <=? b) && (b <? 256)) [a;b;c;d] = true -> plain (v4 a b c d).
Proof. intros E%bytes_lit. split; [|done]. apply (be_bound [a;b;c;d] E). Qed.

Lemma demo_query_for xs xd port : plain xs -> plain xd -> Is4 xs = true -> Is4 xd = true -> 0 <= port < 2 ^ 16 ->
  query_for (demo_query xs xd port) xs xd port.
Proof.
  intros Hs Hd Es Ed Hp. unfold query_for, family_of. rewrite Es, Ed. by do 8 (split; [done|]).
Qed.

Example demo_decisions :
  np_ingress demo_state (demo_query (v4 10 0 0 3) (v4 10 0 0 2) 8080) = true /\
  np_ingress demo_state (demo_query (v4 10 0 0 3) (v4 10 0 0 2) 8101) = false /\
  np_ingress demo_state (demo_query (v4 10 1 3 1) (v4 10 0 0 2) 443) = true /\
  np_ingress demo_state (demo_query (v4 10 1 2 1) (v4 10 0 0 2) 443) = false.
Proof. by vm_compute. Qed.

Lemma np_ingress_correct_witness :
  np_ingress demo_state (demo_query (v4 10 1 3 1) (v4 10 0 0 2) 443) = true <->
  ingress_policy demo_idents demo_allows demo_cidrs (NpNodes demo_state) (v4 10 1 3 1) (v4 10 0 0 2) 6 443 false false.
Proof.
  apply (np_ingress_correct demo_idents demo_allows demo_cidrs demo_caps demo_state
    (demo_query (v4 10 1 3 1) (v4 10 0 0 2) 443)).
  - exact demo_complete.
  - exact demo_snapshot_ok.
  - apply demo_query_for; [by apply v4_plain|by apply v4_plain|done|done|lia].
Defined.

Lemma np_egress_correct_witness :
  np_egress demo_state (demo_query (v4 10 0 0 3) (v4 10 0 0 2) 8080) = true <->
  egress_policy demo_idents demo_allows demo_cidrs (v4 10 0 0 3) (v4 10 0 0 2) 6 8080 false false.
Proof.
  apply (np_egress_correct demo_idents demo_allows demo_cidrs demo_caps demo_state
    (demo_query (v4 10 0 0 3) (v4 10 0 0 2) 8080)).
  - exact demo_complete.
  - exact demo_snapshot_ok.
  - apply demo_query_for; [by apply v4_plain|by apply v4_plain|done|done|lia].
Defined.
