(* ===== verification/HostFirewall.v ===== *)
(** * Host firewall maps (datapath/hostfirewall.go, datapath/hostfirewall_bootstrap.go,
      datapath/policy_bootstrap.go; hf_gate of bpf/overlay.c)

    Per direction: a map of allow and except ranges by protocol and port, and a mode word:
    0 off, 1 enforcing a complete rule set, 2 default-deny while rules change. *)

From S2P Require Import Prelude GoNet AddrMap KernelMap Lpm Verdict.
Local Open Scope Z_scope.

(** [cfgHFEnabled], datapath/paths.go:76-76. *)
Definition cfgHFEnabled : Z := 9.
(** [cfgHFEgEnabled], datapath/paths.go:79-79. *)
Definition cfgHFEgEnabled : Z := 10.
(** [hfModeInitialized], datapath/hostfirewall_bootstrap.go:14-14. *)
Definition hfModeInitialized : Z := 2.

(** [HFAllow], datapath/hostfirewall.go:38-43. *)
Record HFAllow := MkHFAllow { h_Proto : Z; h_Port : Z; h_CIDR : option IPNet; h_Allow : bool }.

(** [overlayHfAllowKey], datapath/overlay_bpfel.go:202-209. *)
Record overlayHfAllowKey := MkHfAllowKey { hk_Prefixlen : Z; hk_Proto : Z; hk_Pad : Z; hk_Port : Z; hk_Src : list Z }.

#[export] Instance overlayHfAllowKey_eq_dec : EqDecision overlayHfAllowKey.
Proof. solve_decision. Defined.
#[export] Program Instance overlayHfAllowKey_countable : Countable overlayHfAllowKey :=
  inj_countable' (fun k => (hk_Prefixlen k, hk_Proto k, hk_Pad k, hk_Port k, hk_Src k))
    (fun '(a, b, c, d, e) => MkHfAllowKey a b c d e) _.
Next Obligation. by intros []. Qed.

Definition hf_head (proto family port : Z) : list Z := [proto; family] ++ le_bytes 2 port.

#[export] Instance HfAllow_lpm : LpmKey overlayHfAllowKey := {|
  plen := hk_Prefixlen;
  data k := hf_head (hk_Proto k) (hk_Pad k) (hk_Port k) ++ hk_Src k
|}.

Record HfKern := MkHfKern {
  params : gmap Z Z;
  HfModes : gmap Z Z;
  HfAllow : gmap overlayHfAllowKey Z;
  HfEallow : gmap overlayHfAllowKey Z;
  HfSelf : gmap (list Z) Z
}.

Definition L_params : Lens HfKern (gmap Z Z) :=
  MkLens params (fun t s => MkHfKern t (HfModes s) (HfAllow s) (HfEallow s) (HfSelf s)).
Definition L_modes : Lens HfKern (gmap Z Z) :=
  MkLens HfModes (fun t s => MkHfKern (params s) t (HfAllow s) (HfEallow s) (HfSelf s)).
Definition L_hfallow : Lens HfKern (gmap overlayHfAllowKey Z) :=
  MkLens HfAllow (fun t s => MkHfKern (params s) (HfModes s) t (HfEallow s) (HfSelf s)).
Definition L_hfeallow : Lens HfKern (gmap overlayHfAllowKey Z) :=
  MkLens HfEallow (fun t s => MkHfKern (params s) (HfModes s) (HfAllow s) t (HfSelf s)).
Definition L_self : Lens HfKern (gmap (list Z) Z) :=
  MkLens HfSelf (fun t s => MkHfKern (params s) (HfModes s) (HfAllow s) (HfEallow s) t).

#[export] Instance hf_params_laws : LensLaws L_params.
Proof. split; [done|by intros []|done]. Qed.
#[export] Instance hf_modes_laws : LensLaws L_modes.
Proof. split; [done|by intros []|done]. Qed.
#[export] Instance hf_allow_laws : LensLaws L_hfallow.
Proof. split; [done|by intros []|done]. Qed.
#[export] Instance hf_eallow_laws : LensLaws L_hfeallow.
Proof. split; [done|by intros []|done]. Qed.
#[export] Instance hf_self_laws : LensLaws L_self.
Proof. split; [done|by intros []|done]. Qed.

Section Manager.
Context `{Runtime} (cap_rules cap_self : nat).

(** [Manager.setHFMode], datapath/hostfirewall_bootstrap.go:81-86. *)
Definition setHFMode (index mode : Z) : M HfKern unit :=
  _ ← PutArray L_modes (index - cfgHFEnabled) mode;
  PutArray L_params index mode.

(** [Manager.BlockHostFirewall], datapath/hostfirewall.go:47-51: both directions are
    attempted, then the errors joined. *)
Definition BlockHostFirewall : M HfKern unit :=
  a ← attempt (setHFMode cfgHFEnabled 2);
  b ← attempt (setHFMode cfgHFEgEnabled 2);
  match a, b with
  | Ok _, Ok _ => mret tt
  | Err e, _ | _, Err e => fail e
  end.

(** [want], the desired rows, datapath/hostfirewall.go:91-117. *)
Definition rules_want (entries : list HFAllow) : result (gmap overlayHfAllowKey Z) :=
  foldM (fun want e =>
    match h_CIDR e with
    | None => Ok want
    | Some _ =>
        '(a, bits, family) ← cidrPolicyPrefix (h_CIDR e);
        put_verdict cap_rules want (MkHfAllowKey (u32 (32 + bits)) (h_Proto e) family (htons (h_Port e)) a) (h_Allow e)
    end) ∅ entries.

(** [Manager.syncHFRules], datapath/hostfirewall.go:90-119. *)
Definition syncHFRules (mp : Lens HfKern (gmap overlayHfAllowKey Z)) (entries : list HFAllow) : M HfKern unit :=
  want ← lift (rules_want entries);
  syncMap mp cap_rules want.

(** [Manager.applyHFDirection], datapath/hostfirewall.go:64-84. *)
Definition applyHFDirection (mp : Lens HfKern (gmap overlayHfAllowKey Z)) (index : Z) (on : bool)
    (entries : list HFAllow) : M HfKern unit :=
  _ ← setHFMode index (if on then 2 else 0);
  _ ← syncHFRules mp (if on then entries else []);
  if on then setHFMode index 1 else mret tt.

(** [Manager.ApplyHFIngress], datapath/hostfirewall.go:55-57. *)
Definition ApplyHFIngress (on : bool) (entries : list HFAllow) : M HfKern unit :=
  applyHFDirection L_hfallow cfgHFEnabled on entries.

(** [Manager.ApplyHFEgress], datapath/hostfirewall.go:60-62. *)
Definition ApplyHFEgress (on : bool) (entries : list HFAllow) : M HfKern unit :=
  applyHFDirection L_hfeallow cfgHFEgEnabled on entries.

(** [Manager.SyncHFSelf], datapath/hostfirewall.go:123-135. *)
Definition SyncHFSelf (ips : list IP) : M HfKern unit :=
  want ← lift (foldM (fun want ip => a ← addr128 ip; putDesired cap_self want a 1) ∅ ips);
  syncMap L_self cap_self want.

(** ** Upgrade and restart

    A lookup in an array map; an index past the end is absent. *)
Definition LookupArray (L : Lens HfKern (gmap Z Z)) (k : Z) : M HfKern Z :=
  _ ← call;
  s ← read;
  match view L s !! k with Some v => mret v | None => fail ErrKeyNotExist end.

(** [seedHFModeMap], datapath/hostfirewall_bootstrap.go:49-77.  [legacy] says whether the old
    params map was found. *)
Definition seedHFModeMap (legacy ambiguous : bool) : M HfKern unit :=
  initialized ← LookupArray L_modes hfModeInitialized;
  if initialized =? 1 then mret tt
  else if negb (initialized =? 0) then fail "invalid host-firewall initialization witness"
  else
    let direction d : M HfKern unit :=
      mode ← (if legacy then
                r ← attempt (LookupArray L_params (cfgHFEnabled + d));
                match r with
                | Ok mode => mret mode
                | Err e => if decide (e = ErrKeyNotExist) then mret 0 else fail e
                end
              else mret (if ambiguous then 2 else 0));
      if 2 <? mode then fail "invalid legacy host-firewall mode"
      else PutArray L_modes d mode in
    _ ← direction 0;
    _ ← direction 1;
    PutArray L_modes hfModeInitialized 1.

(** [net.IP.IsUnspecified] and [net.IP.IsMulticast]. *)
Definition IsUnspecified (ip : IP) : bool :=
  IP_Equal ip [0;0;0;0] || IP_Equal ip (replicate 16 0).
Definition IsMulticast (ip : IP) : bool :=
  match To4 ip with
  | Some v4 => Z.land (default 0 (head v4)) 0xf0 =? 0xe0
  | None => bool_decide (length ip = 16%nat) && (default 0 (head ip) =? 0xff)
  end.

(** [armHFBootstrap], one direction, datapath/hostfirewall_bootstrap.go:90-104. *)
Definition armDirection (d : Z) (missing active : bool) : M HfKern bool :=
  mode ← LookupArray L_modes d;
  if 2 <? mode then fail "invalid durable host-firewall mode"
  else
    let mode := if negb (mode =? 0) && missing then 2 else mode in
    _ ← setHFMode (cfgHFEnabled + d) mode;
    mret (active || negb (mode =? 0)).

(** [Manager.armHFBootstrap], datapath/hostfirewall_bootstrap.go:88-125.  [missing_in],
    [missing_eg] and [missing_self] are the pins found absent; [addresses] is the answer of the
    interface address listing. *)
Definition armHFBootstrap (missing_in missing_eg missing_self : bool) (addresses : result (list IP)) : M HfKern unit :=
  active ← armDirection 0 missing_in false;
  active ← armDirection 1 missing_eg active;
  if active && missing_self then
    addresses ← lift addresses;
    let ips := filter (fun ip => ip <> [] /\ IsUnspecified ip = false /\ IsMulticast ip = false) addresses in
    if decide (ips = []) then fail "cannot restore host-firewall identity without host addresses"
    else SyncHFSelf ips
  else mret tt.
End Manager.

(** ** The datapath's rule lookup *)

(** [hf_gate], bpf/overlay.c:1421-1438: exact port, then any port. *)
Definition hf_gate (rules : gmap overlayHfAllowKey Z) (proto port : Z) (addr : list Z) (is_v6 : bool) : bool :=
  let key port := MkHfAllowKey (32 + 128) proto (if is_v6 then 6 else 4) port addr in
  match lpm_find rules (data (key port)) with
  | Some v => negb (v =? 0)
  | None =>
      match lpm_find rules (data (key 0)) with
      | Some v => negb (v =? 0)
      | None => false
      end
  end.

(** ** What the rule map means *)

(** Protocol and port of a row. *)
Definition tier_ok (t : Z * Z) : Prop := 0 <= t.1 < 256 /\ 0 <= t.2 < 2 ^ 16.

Definition hf_key (t : Z * Z) (p : Prefix) : overlayHfAllowKey :=
  MkHfAllowKey (32 + map_bits p) t.1 (family_of (paddr p)) (htons t.2) (be_bytes 16 (enc (paddr p))).

Definition hf_query (t : Z * Z) (x : Addr) : list Z := hf_head t.1 (family_of x) (htons t.2) ++ be_bytes 16 (enc x).

Lemma hf_head_bytes t f : tier_ok t -> f = 4 \/ f = 6 ->
  Forall byte (hf_head t.1 f (htons t.2)) /\ length (hf_head t.1 f (htons t.2)) = 4%nat.
Proof.
  intros [Hp _] Hf. unfold hf_head. split; [|by rewrite length_app, le_bytes_length].
  rewrite Forall_app, !Forall_cons. unfold byte. repeat split; auto using le_bytes_byte; lia.
Qed.

Lemma hf_covers t p t' x : tier_ok t -> tier_ok t' -> prefix_wf p -> plain x ->
  covers (hf_key t p) (hf_query t' x) <-> t = t' /\ Contains p x = true.
Proof.
  intros Ht Ht' Hw Hx. pose proof (family_cases (paddr p)) as Fp. pose proof (family_cases x) as Fx.
  destruct (hf_head_bytes t _ Ht Fp) as [Hb Hl]. destruct (hf_head_bytes t' _ Ht' Fx) as [Hb' Hl'].
  unfold hf_query. rewrite (covers_head _ (hf_head t.1 (family_of (paddr p)) (htons t.2)) _ p x); try done.
  rewrite <-(map_prefix_contains p x Hw Hx). destruct t as [pr po], t' as [pr' po'], Ht as [? Hpo], Ht' as [? Hpo'].
    cbn [fst snd] in *. unfold hf_head. split.
    + intros [E Hm]. apply app_inj_1 in E as [E1 E2]; [|done]. injection E1 as -> E1.
      apply le_bytes_inj in E2; [|by apply htons_range..]. apply htons_inj in E2 as ->; done.
    + intros ([= -> ->] & E & Hm). by rewrite E.
Qed.

Definition hf_row (e : HFAllow) : option ((Z * Z) * Prefix * bool) :=
  match normalizedCIDR (h_CIDR e) with Ok p => Some ((h_Proto e, h_Port e), p, h_Allow e) | Err _ => None end.

Definition entry_ok (e : HFAllow) : Prop :=
  tier_ok (h_Proto e, h_Port e) /\ Forall byte (default [] (inIP <$> h_CIDR e)).

Lemma hf_row_ok entries : Forall entry_ok entries -> Forall (row_ok tier_ok) (omap hf_row entries).
Proof.
  intros Hok. apply Forall_forall. intros row Hr. apply list_elem_of_omap in Hr as (e & He & Hrow).
  assert (entry_ok e) as [Ht Hb] by (by eapply Forall_forall in Hok).
  unfold hf_row in Hrow. destruct (h_CIDR e) as [c|]; [|done].
  destruct (normalizedCIDR (Some c)) as [p|] eqn:Ep; [|done]. injection Hrow as <-.
  pose proof (normalizedCIDR_spec _ _ Hb Ep) as (?&?&_). done.
Qed.

Lemma rules_want_spec cap entries want : Forall entry_ok entries -> rules_want cap entries = Ok want ->
  verdict_map hf_key (omap hf_row entries) want.
Proof.
  intros Hok. rewrite Forall_forall in Hok. unfold rules_want.
  apply (foldM_invariant _ (fun pre m => verdict_map hf_key (omap hf_row pre) m)); [apply verdict_map_nil|].
  intros pre e post m m' E Hpre Hstep. rewrite omap_app. cbn [omap list_omap].
  assert (entry_ok e) as [Ht Hb] by (apply Hok; rewrite E; set_solver). unfold hf_row at 2.
  destruct (h_CIDR e) as [c|] eqn:Ec.
  2: { injection Hstep as <-. cbn. by rewrite app_nil_r. }
  apply bind_ok in Hstep as ([[a bits] f] & Ep & Hput).
  destruct (normalizedCIDR (Some c)) as [p|] eqn:En; [|unfold cidrPolicyPrefix in Ep; by rewrite En in Ep].
  pose proof (normalizedCIDR_spec _ _ Hb En) as (Hw & _ & Hp).
  rewrite (cidrPolicyPrefix_spec _ _ En Hw Hp) in Ep. injection Ep as <- <- <-.
  pose proof (map_bits_range p Hw).
  assert (u32 (32 + map_bits p) = 32 + map_bits p) as Hu by (unfold u32; apply Z.mod_small; lia).
  rewrite Hu in Hput. by eapply verdict_map_snoc.
Qed.

Lemma hf_gate_spec cap entries table proto port x :
  Forall entry_ok entries -> rules_want cap entries = Ok table -> tier_ok (proto, port) -> plain x ->
  hf_gate table proto (htons port) (be_bytes 16 (enc x)) (negb (Is4 x)) = true <->
  ranges_allow (omap hf_row entries) (proto, port) (proto, 0) x.
Proof.
  intros Hok Hw Ht Hx.
  assert (forall po, data (MkHfAllowKey (32 + 128) proto (if negb (Is4 x) then 6 else 4) (htons po)
    (be_bytes 16 (enc x))) = hf_query (proto, po) x) as Hq.
  { intros po. unfold hf_query, family_of. by destruct (Is4 x). }
  unfold hf_gate. rewrite Hq. change 0 with (htons 0) at 2. rewrite Hq.
  apply (two_probe_spec hf_key hf_query tier_ok 32 ltac:(done) hf_covers); auto using hf_row_ok.
  - by eapply rules_want_spec.
  - split; [apply Ht|cbn; lia].
Qed.

(** ** The mode word *)

(** The direction's index in the mode map is fixed by its params index. *)
Definition mode_of (index : Z) (s : HfKern) : option Z := HfModes s !! (index - cfgHFEnabled).

Section Apply.
Context `{Runtime} (cap : nat) (mp : Lens HfKern (gmap overlayHfAllowKey Z)) `{!LensLaws mp} (index : Z).
(** [mp] is one of the rule maps: writing it leaves the modes alone, and conversely. *)
Hypothesis mp_modes : forall t s, HfModes (update mp t s) = HfModes s.
Hypothesis modes_mp : forall t s, view mp (update L_modes t s) = view mp s.
Hypothesis params_mp : forall t s, view mp (update L_params t s) = view mp s.

(** Enforcing exactly the compiled rules. *)
Definition enforcing (entries : list HFAllow) (s : HfKern) : Prop :=
  mode_of index s = Some 1 /\ rules_want cap entries = Ok (view mp s).

Lemma wp_setHFMode mode I Q s :
  (forall s', HfModes s' = <[index - cfgHFEnabled := mode]> (HfModes s) -> view mp s' = view mp s ->
    I s' /\ Q (Ok tt) s' /\ forall e, Q (Err e) s') ->
  (forall e, Q (Err e) s) ->
  wp (setHFMode index mode) I Q s.
Proof.
  intros Hs He. apply wp_bind, wp_PutArray; [by intros|]. cbv zeta. set (s1 := update L_modes _ s).
  destruct (Hs s1 eq_refl (modes_mp _ _)) as (HI & _ & HE). split; [done|].
  apply wp_PutArray; [by intros|]. cbv zeta.
  destruct (Hs (update L_params (<[index:=mode]> (view L_params s1)) s1)) as (? & ? & _); [done| |done].
  rewrite params_mp. apply modes_mp.
Qed.

Lemma wp_applyHFDirection entries s :
  wp (applyHFDirection cap mp index true entries)
    (fun s => mode_of index s = Some 2 \/ enforcing entries s)
    (fun r s' => match r with
      | Ok _ => enforcing entries s'
      | Err _ => mode_of index s' = Some 2 \/ enforcing entries s' \/ s' = s end) s.
Proof.
  apply wp_bind, wp_setHFMode; [|by auto]. intros s1 Hm _.
  assert (mode_of index s1 = Some 2) as Ha by (unfold mode_of; by rewrite Hm, lookup_insert_eq).
  split; [by left|]. split; [|by left]. clear Hm.
  assert (forall t, mode_of index (update mp t s1) = Some 2) as Ht by (intros t; unfold mode_of; by rewrite mp_modes).
  apply wp_bind, wp_sync_step; [done|by left|by left|]. intros want Hw. apply wp_setHFMode; [|by auto].
  intros s3 Hm Hv. rewrite view_update in Hv.
  assert (enforcing entries s3) as He.
  { split; [|by rewrite Hv]. unfold mode_of. by rewrite Hm, lookup_insert_eq. }
  auto.
Qed.
End Apply.

(** C29. Whatever call fails while a host-firewall direction is switched to new rules, every
    kernel state a packet can meet is in the default-deny mode or enforces exactly the
    compiled rows; an error leaves one of the two (or nothing changed), never a partial rule set
    in force. *)
Theorem ApplyHFIngress_guarded `{Runtime} cap entries (w : world HfKern) :
  let '(w', r) := ApplyHFIngress cap true entries w in
  match r with
  | Ok _ => enforcing cap L_hfallow cfgHFEnabled entries (kern w')
  | Err _ => mode_of cfgHFEnabled (kern w') = Some 2 \/
             enforcing cap L_hfallow cfgHFEnabled entries (kern w') \/ kern w' = kern w
  end /\
  exists new, hist w' = new ++ hist w /\
    Forall (fun s => mode_of cfgHFEnabled s = Some 2 \/ enforcing cap L_hfallow cfgHFEnabled entries s) new.
Proof.
  pose proof (wp_applyHFDirection cap L_hfallow cfgHFEnabled ltac:(done) ltac:(done) ltac:(done) entries (kern w) w eq_refl) as Hw.
  unfold ApplyHFIngress. by destruct (applyHFDirection cap L_hfallow cfgHFEnabled true entries w).
Qed.


(** An except of one policy is not local to its port level: when the longest rows of a port
    that contain an address all deny, the address is refused even if an any-port row of another
    policy allows it. *)
Theorem hf_except_hides_any_port cap entries s proto port x row any :
  enforcing cap L_hfallow cfgHFEnabled entries s -> Forall entry_ok entries ->
  tier_ok (proto, port) -> plain x ->
  applies (omap hf_row entries) (proto, port) x row ->
  (forall row', applies (omap hf_row entries) (proto, port) x row' -> pbits row.1.2 <= pbits row'.1.2 -> row'.2 = false) ->
  applies (omap hf_row entries) (proto, 0) x any -> any.2 = true ->
  hf_gate (HfAllow s) proto (htons port) (be_bytes 16 (enc x)) (negb (Is4 x)) = false.
Proof.
  intros [_ Hw] Hok Ht Hx Hrow Hdeny _ _. apply not_true_is_false. intros Hg.
  apply (hf_gate_spec cap entries) in Hg; [|done..]. destruct Hg as [(r & Ha & Ht' & Hmax)|[Hn _]].
  - apply Hdeny in Ha; [congruence|]. by apply Hmax.
  - by apply (Hn row).
Qed.

(** ** Restart never opens an isolated direction *)

Definition isolated (s : HfKern) (d : Z) : Prop := exists m, HfModes s !! d = Some m /\ m <> 0.
Definition keeps (s0 s : HfKern) : Prop := forall d, isolated s0 d -> isolated s d.

Lemma wp_LookupArray `{Runtime} L k I (Q : result Z -> HfKern -> Prop) s :
  (forall e, Q (Err e) s) -> (forall v, view L s !! k = Some v -> Q (Ok v) s) -> wp (LookupArray L k) I Q s.
Proof.
  intros He Hv. apply wp_bind, wp_call; [|by intros]. apply wp_bind, wp_read.
  destruct (view L s !! k) as [v|] eqn:E; [apply wp_ret; eauto|by apply wp_fail].
Qed.

Lemma wp_armDirection `{Runtime} d missing active s0 s (P : HfKern -> Prop) :
  keeps s0 s -> P s ->
  (forall s s', HfModes s' = HfModes s \/ (exists m, HfModes s' = <[d := m]> (HfModes s)) -> P s -> P s') ->
  wp (armDirection d missing active) (keeps s0)
    (fun r s' => keeps s0 s' /\ match r with
      | Ok _ => P s' /\ (missing = true -> isolated s0 d -> HfModes s' !! d = Some 2)
      | Err _ => True end) s.
Proof.
  intros Hk HP Hframe. apply wp_bind, wp_LookupArray; [by auto|]. intros m Hm.
  case_if; [by apply wp_fail|]. set (m' := if negb (m =? 0) && missing then 2 else m).
  assert (m <> 0 -> m' <> 0) as Hm' by (unfold m'; destruct missing, (m =? 0); cbn; lia).
  assert (forall s', HfModes s' = <[d:=m']> (HfModes s) -> keeps s0 s') as K.
  { intros s' E' j Hj. destruct (Hk j Hj) as (mj & Ej & Hne). unfold isolated. rewrite E'.
    destruct (decide (j = d)) as [-> |Hjd]; [|rewrite lookup_insert_ne by done; eauto].
    exists m'. rewrite lookup_insert_eq. split; [done|]. apply Hm'. cbn in Hm. congruence. }
  replace (cfgHFEnabled + d - cfgHFEnabled) with d in * by lia.
  apply wp_bind, wp_bind, wp_PutArray; [by auto|]. cbv zeta.
  replace (cfgHFEnabled + d - cfgHFEnabled) with d by lia.
  set (s1 := update L_modes _ s). assert (HfModes s1 = <[d:=m']> (HfModes s)) as E1 by done.
  clearbody s1. split; [by apply K|]. apply wp_PutArray; [intros; split; [by apply K|done]|]. cbv zeta.
  set (s2 := update L_params _ s1). assert (HfModes s2 = <[d:=m']> (HfModes s)) as E2 by done.
  clearbody s2. split; [by apply K|]. apply wp_ret. split; [by apply K|]. split; [apply (Hframe s); eauto|].
  intros -> Hi. rewrite E2, lookup_insert_eq. destruct (Hk d Hi) as (md & Ed & Hne).
  cbn in Hm. assert (m = md) as -> by congruence. unfold m'. apply Z.eqb_neq in Hne. by rewrite Hne.
Qed.

(** Restart never opens a node: whatever call fails, in every kernel state of the bootstrap
    a direction that was isolated before stays isolated, and a successful bootstrap puts an
    isolated direction whose rule map was lost into default-deny. *)
Theorem armHFBootstrap_keeps_isolation `{Runtime} cap_self mi me ms addresses (w : world HfKern) :
  let '(w', r) := armHFBootstrap cap_self mi me ms addresses w in
  keeps (kern w) (kern w') /\
  (r = Ok tt -> (mi = true -> isolated (kern w) 0 -> HfModes (kern w') !! 0 = Some 2) /\
                (me = true -> isolated (kern w) 1 -> HfModes (kern w') !! 1 = Some 2)) /\
  exists new, hist w' = new ++ hist w /\ Forall (keeps (kern w)) new.
Proof.
  set (s0 := kern w).
  assert (wp (armHFBootstrap cap_self mi me ms addresses) (keeps s0)
    (fun r s => keeps s0 s /\ (r = Ok tt -> (mi = true -> isolated s0 0 -> HfModes s !! 0 = Some 2) /\
                                            (me = true -> isolated s0 1 -> HfModes s !! 1 = Some 2))) s0) as Hw.
  { apply wp_bind. eapply wp_mono; [apply (wp_armDirection 0 mi false s0 s0 (fun _ => True)); [by intros d|done|done]|done|].
    intros [a1|e] s1; [|by intros [? _]]. intros (Hk1 & _ & H1). apply wp_bind.
    eapply wp_mono; [apply (wp_armDirection 1 me a1 s0 s1 (fun s => mi = true -> isolated s0 0 -> HfModes s !! 0 = Some 2)); [done|done|]|done|].
    { intros s s' Hf HP Hmi Hi. specialize (HP Hmi Hi). destruct Hf as [-> |[m ->]]; [done|].
      by rewrite lookup_insert_ne. }
    intros [a2|e] s2; [|by intros [? _]]. intros (Hk2 & H1' & H2). destruct (a2 && ms); [|apply wp_ret; auto].
    apply wp_bind, wp_lift. destruct addresses as [ips|]; [|done]. cbv zeta. case_decide; [by apply wp_fail|].
    apply wp_sync_step; [apply _|done|done|done]. }
  specialize (Hw w eq_refl). destruct (armHFBootstrap cap_self mi me ms addresses w). naive_solver.
Qed.

(** ** A concrete rule set: one policy allows 10.0.0.0/8 but 10.1.0.0/16 on TCP 443, another
    allows 10.1.0.0/16 on every TCP port. *)
Definition demo_rules : list HFAllow :=
  [MkHFAllow 6 443 (Some (MkIPNet [10;0;0;0] [255;0;0;0])) true;
   MkHFAllow 6 443 (Some (MkIPNet [10;1;0;0] [255;255;0;0])) false;
   MkHFAllow 6 0 (Some (MkIPNet [10;1;0;0] [255;255;0;0])) true].
Definition demo_start : world HfKern := MkWorld 0 (MkHfKern ∅ ∅ ∅ ∅ ∅) [].
Definition demo_kern : HfKern := kern (ApplyHFIngress (H := quiet_runtime) 16 true demo_rules demo_start).1.
Definition demo_addr : Addr := MkAddr true (be [10;1;0;9]).

Lemma demo_enforcing : enforcing 16 L_hfallow cfgHFEnabled demo_rules demo_kern.
Proof.
  destruct (wp_applyHFDirection (H := quiet_runtime) 16 L_hfallow cfgHFEnabled ltac:(done) ltac:(done) ltac:(done)
    demo_rules (kern demo_start) demo_start eq_refl) as [Hq _].
  assert ((applyHFDirection (H := quiet_runtime) 16 L_hfallow cfgHFEnabled true demo_rules demo_start).2 = Ok tt) as E
    by (vm_compute; reflexivity).
  by rewrite E in Hq.
Qed.

Lemma demo_entries_ok : Forall entry_ok demo_rules.
Proof.
  apply Forall_forall. intros e He. unfold demo_rules in He. rewrite !elem_of_cons in He.
  destruct He as [-> |[-> |[-> |[]%not_elem_of_nil]]]; (split; [|by apply bytes_lit]);
    (split; split; first [by apply Z.leb_le|by apply Z.ltb_lt]).
Qed.

Lemma demo_plain : plain demo_addr.
Proof. split; [|done]. by split; [apply Z.leb_le|apply Z.ltb_lt]. Qed.

Lemma demo_rows : omap hf_row demo_rules =
  [((6, 443), MkPrefix (MkAddr true (be [10;0;0;0])) 8, true);
   ((6, 443), MkPrefix (MkAddr true (be [10;1;0;0])) 16, false);
   ((6, 0), MkPrefix (MkAddr true (be [10;1;0;0])) 16, true)].
Proof. vm_compute. reflexivity. Qed.


Lemma hf_except_hides_any_port_witness :
  hf_gate (HfAllow demo_kern) 6 (htons 443) (be_bytes 16 (enc demo_addr)) false = false.
Proof.
  apply (hf_except_hides_any_port 16 demo_rules demo_kern 6 443 demo_addr
    ((6, 443), MkPrefix (MkAddr true (be [10;1;0;0])) 16, false)
    ((6, 0), MkPrefix (MkAddr true (be [10;1;0;0])) 16, true)).
  - exact demo_enforcing.
  - exact demo_entries_ok.
  - split; cbn; lia.
  - exact demo_plain.
  - rewrite demo_rows. split; [|split; reflexivity]. apply list_elem_of_lookup. exists 1%nat. reflexivity.
  - intros row' (Hin & Ht & _) Hle. rewrite demo_rows, !elem_of_cons in Hin.
    destruct Hin as [-> |[-> |[-> |[]%not_elem_of_nil]]]; [cbn in Hle; lia|reflexivity|discriminate].
  - rewrite demo_rows. split; [|split; reflexivity]. apply list_elem_of_lookup. exists 2%nat. reflexivity.
  - reflexivity.
Defined.
