(* ===== verification/HfCompile.v ===== *)
(** * HostFirewall compilation (cmd/agent/hostfirewall.go, cmd/agent/policy_limits.go)

    Each agent turns the HostFirewalls that select its node into rule rows, after a preflight
    that bounds the expansion.  Anything it cannot serve is skipped with a warning, never
    widened. *)

From S2P Require Import Prelude GoText GoNet AddrMap Warnings HostFirewall.
Local Open Scope Z_scope.

(** [HostFirewallPeer], api/sdn/v1alpha1/hostfirewall_types.go:100-108. *)
Record HostFirewallPeer := MkPeer { CIDR : string; Except : list string }.
(** [HostFirewallPort], api/sdn/v1alpha1/hostfirewall_types.go:111-126. *)
Record HostFirewallPort := MkPort { Protocol : string; Port : Z; EndPort : Z }.
(** [HostFirewallRule], api/sdn/v1alpha1/hostfirewall_types.go:86-97; the egress rule has the
    same two fields. *)
Record HostFirewallRule := MkRule { Peers : list HostFirewallPeer; Ports : list HostFirewallPort }.
(** [HostFirewallSpec], api/sdn/v1alpha1/hostfirewall_types.go:24-55.  [Selector] is the label
    selector, an object of the Kubernetes library. *)
Record HostFirewall (Selector : Type) := MkHostFirewall {
  Name : string; NodeSelector : Selector; PolicyTypes : list string;
  Ingress : list HostFirewallRule; Egress : list HostFirewallRule
}.
Arguments Name {_} _.
Arguments NodeSelector {_} _.
Arguments PolicyTypes {_} _.
Arguments Ingress {_} _.
Arguments Egress {_} _.

(** The warnings the compiler logs. *)
Inductive Warning :=
  | NotServed (protocol : string)
  | PortOutOfRange (port : Z)
  | BadEndPort (endPort port : Z)
  | RangeTooWide (lo hi : Z)
  | BadCIDR (cidr : string)
  | BadExcept (cidr : string)
  | BadSelector.

(** [hfProtoNum], cmd/agent/hostfirewall.go:50-58. *)
Definition hfProtoNum (proto : string) : option Z :=
  if decide (proto = "TCP") then Some 6
  else if decide (proto = "UDP") then Some 17
  else None.

(** [hfPortRow], cmd/agent/hostfirewall.go:61-64. *)
Record hfPortRow := MkPortRow { row_proto : Z; row_port : Z }.

(** [hi], with the port the bounds of an item, cmd/agent/hostfirewall.go:86-89. *)
Definition port_bounds (p : HostFirewallPort) : Z * Z :=
  (Port p, if negb (EndPort p =? 0) then EndPort p else Port p).

(** [hfCompilePorts], one item, cmd/agent/hostfirewall.go:77-102. *)
Definition hfCompilePort (p : HostFirewallPort) : list hfPortRow * list Warning :=
  match hfProtoNum (Protocol p) with
  | None => ([], [NotServed (Protocol p)])
  | Some proto =>
      if (Port p <? 0) || (65535 <? Port p) then ([], [PortOutOfRange (Port p)])
      else
        let '(lo, hi) := port_bounds p in
        if (hi <? lo) || (65535 <? hi) || ((lo =? 0) && negb (hi =? 0)) then ([], [BadEndPort (EndPort p) (Port p)])
        else if 64 <? hi - lo + 1 then ([], [RangeTooWide lo hi])
        else ((fun port => MkPortRow proto (u16 port)) <$> seqZ lo (hi - lo + 1), [])
  end.

(** [hfCompilePorts], cmd/agent/hostfirewall.go:77-102. *)
Definition hfCompilePorts (ports : list HostFirewallPort) : list hfPortRow * list Warning :=
  if decide (ports = []) then ([MkPortRow 6 0; MkPortRow 17 0], [])
  else fold_left (fun '(out, warnings) p =>
    let '(rows, w) := hfCompilePort p in (out ++ rows, addCompileWarnings warnings w)) ports ([], []).

(** [hfAnyPeers], cmd/agent/hostfirewall.go:107-107. *)
Definition hfAnyPeers : list HostFirewallPeer := [MkPeer "0.0.0.0/0" []; MkPeer "::/0" []].

(** [hfIsolation], cmd/agent/hostfirewall.go:112-125. *)
Definition hfIsolation {Selector} (hf : HostFirewall Selector) : bool * bool :=
  if decide (PolicyTypes hf = []) then (true, negb (bool_decide (Egress hf = [])))
  else fold_left (fun '(ingress, egress) t =>
    if decide (t = "Ingress") then (true, egress)
    else if decide (t = "Egress") then (ingress, true)
    else (ingress, egress)) (PolicyTypes hf) (false, false).

(** [excepts], or the first except that does not parse, cmd/agent/hostfirewall.go:146-156. *)
Fixpoint parse_excepts (excepts : list string) : list IPNet + string :=
  match excepts with
  | [] => inl []
  | ex :: rest =>
      match ParseCIDR ex with
      | None => inr ex
      | Some (_, exNet) =>
          match parse_excepts rest with inl nets => inl (exNet :: nets) | inr bad => inr bad end
      end
  end.

(** [hfCompileRule], one peer, cmd/agent/hostfirewall.go:141-162. *)
Definition hfCompilePeer (rows : list hfPortRow) (peer : HostFirewallPeer) : list HFAllow * list Warning :=
  match ParseCIDR (CIDR peer) with
  | None => ([], [BadCIDR (CIDR peer)])
  | Some (_, allowNet) =>
      match parse_excepts (Except peer) with
      | inr ex => ([], [BadExcept ex])
      | inl excepts =>
          (mjoin ((fun row =>
            MkHFAllow (row_proto row) (row_port row) (Some allowNet) true ::
            ((fun exNet => MkHFAllow (row_proto row) (row_port row) (Some exNet) false) <$> excepts)) <$> rows), [])
      end
  end.

(** [hfCompileRule], cmd/agent/hostfirewall.go:130-164: the entries and warnings grow. *)
Definition hfCompileRule (rule : HostFirewallRule) (acc : list HFAllow * list Warning) : list HFAllow * list Warning :=
  let '(rows, w) := hfCompilePorts (Ports rule) in
  let peers := if decide (Peers rule = []) then hfAnyPeers else Peers rule in
  fold_left (fun '(entries, warnings) peer =>
    let '(es, w) := hfCompilePeer rows peer in (entries ++ es, addCompileWarnings warnings w))
    peers (acc.1, fold_left (fun ws warn => addCompileWarnings ws [warn]) w acc.2).

(** ** The preflight *)


(** [portRows], the port rows [count] charges, cmd/agent/policy_limits.go:103-117. *)
Definition count_ports (ports : list HostFirewallPort) (work : Z) : Z * Z :=
  fold_left (fun '(portRows, work) p =>
    let work := u64 (work + 1) in
    let hi := if negb (EndPort p =? 0) then EndPort p else Port p in
    (if (Port p <=? hi) && (hi - Port p <? 64) then u64 (portRows + (hi - Port p + 1)) else portRows, work))
    ports (if decide (ports = []) then 2 else 0, work).

(** [peerRows], the peer rows [count] charges, cmd/agent/policy_limits.go:118-125. *)
Definition count_peers (peers : list HostFirewallPeer) (work : Z) : Z * Z :=
  fold_left (fun '(peerRows, work) p =>
    let n := Z.of_nat (length (Except p)) + 1 in (u64 (peerRows + n), u64 (work + n)))
    peers (if decide (peers = []) then 2 else 0, work).

(** [count], cmd/agent/policy_limits.go:102-130: the rows of a rule, and the work so far. *)
Definition count (rule : HostFirewallRule) (work : Z) : result (Z * Z) :=
  let '(portRows, work) := count_ports (Ports rule) (u64 (work + 1)) in
  let '(peerRows, work) := count_peers (Peers rule) work in
  if (policyWorkLimit <? work) || (policyRowLimit <? portRows) || (policyWorkLimit <? peerRows)
  then Err "HostFirewall compilation exceeds input budget"
  else Ok (u64 (portRows * peerRows), work).

(** The rules of one direction of one object: rows and work so far. *)
Definition count_rules (rules : list HostFirewallRule) (acc : Z * Z) : result (Z * Z) :=
  foldM (fun '(rows, work) rule =>
    '(n, work) ← count rule work;
    let rows := u64 (rows + n) in
    if policyRowLimit <? rows then Err "HostFirewall exceeds 65536 rows" else mret (rows, work)) acc rules.

Section Compile.
Context {Selector : Type}.
(** [metav1.LabelSelectorAsSelector] and [Matches] on this node's labels: [None] for a selector
    that does not convert. *)
Context (matches : Selector -> option bool).

(** [validateHFCompilation], cmd/agent/policy_limits.go:97-164. *)
Definition validateHFCompilation (hfs : list (HostFirewall Selector)) : result unit :=
  if decide (policyRowLimit < Z.of_nat (length hfs)) then Err "HostFirewall input exceeds 65536 objects"
  else
    _ ← foldM (fun '(ingress, egress, work) hf =>
      let work := u64 (work + 1) in
      match matches (NodeSelector hf) with
      | Some true =>
          let '(ing, eg) := hfIsolation hf in
          '(ingress, work) ← (if ing then count_rules (Ingress hf) (ingress, work) else mret (ingress, work));
          '(egress, work) ← (if eg then count_rules (Egress hf) (egress, work) else mret (egress, work));
          mret (ingress, egress, work)
      | _ => mret (ingress, egress, work)
      end) (0, 0, 0) hfs;
    mret tt.

(** [hfCompiled], cmd/agent/hostfirewall.go:168-175. *)
Record hfCompiled := MkCompiled {
  ingress : bool; egress : bool; c_in : list HFAllow; c_eg : list HFAllow;
  warnings : list Warning; c_err : option string
}.

(** [compileHostFirewalls], one object, cmd/agent/hostfirewall.go:186-208. *)
Definition compile_one (c : hfCompiled) (hf : HostFirewall Selector) : hfCompiled :=
  match matches (NodeSelector hf) with
  | None => MkCompiled (ingress c) (egress c) (c_in c) (c_eg c) (addCompileWarnings (warnings c) [BadSelector]) (c_err c)
  | Some false => c
  | Some true =>
      let '(ing, eg) := hfIsolation hf in
      let '(ins, w) := if ing then fold_left (fun acc rule => hfCompileRule rule acc) (Ingress hf) (c_in c, warnings c)
                       else (c_in c, warnings c) in
      let '(egs, w) := if eg then fold_left (fun acc rule => hfCompileRule rule acc) (Egress hf) (c_eg c, w)
                       else (c_eg c, w) in
      MkCompiled (ingress c || ing) (egress c || eg) ins egs w (c_err c)
  end.

(** [compileHostFirewalls], cmd/agent/hostfirewall.go:186-208. *)
Definition compileHostFirewalls (hfs : list (HostFirewall Selector)) : hfCompiled :=
  let c := MkCompiled false false [] [] [] None in
  match validateHFCompilation hfs with
  | Err e => MkCompiled false false [] [] [] (Some e)
  | Ok _ => fold_left compile_one hfs c
  end.
End Compile.

(** ** The preflight bounds the expansion *)

(** The number of items an input holds; a machine cannot hold [2 ^ 56] of them. *)
Definition rule_weight (rule : HostFirewallRule) : Z :=
  1 + Z.of_nat (length (Ports rule)) +
  foldr (fun p n => Z.of_nat (length (Except p)) + 1 + n) 0 (Peers rule).
Definition rules_weight (rules : list HostFirewallRule) : Z := foldr (fun r n => rule_weight r + n) 0 rules.
Definition weight {Selector} (hfs : list (HostFirewall Selector)) : Z :=
  foldr (fun hf n => 1 + rules_weight (Ingress hf) + rules_weight (Egress hf) + n) 0 hfs.

Lemma u64_small z : 0 <= z < 2 ^ 64 -> u64 z = z.
Proof. apply Z.mod_small. Qed.

(** What the preflight charges for one port item. *)
Definition port_cost (p : HostFirewallPort) : Z :=
  let hi := if negb (EndPort p =? 0) then EndPort p else Port p in
  if (Port p <=? hi) && (hi - Port p <? 64) then hi - Port p + 1 else 0.

Lemma port_cost_range p : 0 <= port_cost p <= 64.
Proof. unfold port_cost. case_if; [|lia]. to_prop. lia. Qed.

Lemma compile_port_cost p : Z.of_nat (length (hfCompilePort p).1) <= port_cost p.
Proof.
  pose proof (port_cost_range p). unfold hfCompilePort, port_bounds. destruct (hfProtoNum _); [|cbn; lia].
  case_if; [cbn; lia|]. case_if; [cbn; lia|]. case_if; [cbn; lia|]. cbn [fst]. rewrite length_fmap, length_seqZ.
  to_prop. unfold port_cost. assert (Port p <=? (if negb (EndPort p =? 0) then EndPort p else Port p) = true) as ->
    by (apply Z.leb_le; lia).
  assert ((if negb (EndPort p =? 0) then EndPort p else Port p) - Port p <? 64 = true) as -> by (apply Z.ltb_lt; lia).
  cbn [andb]. lia.
Qed.

Lemma count_ports_fold ports rows work : 0 <= rows -> 0 <= work ->
  rows + 64 * Z.of_nat (length ports) < 2 ^ 64 -> work + Z.of_nat (length ports) < 2 ^ 64 ->
  fold_left (fun '(portRows, work) p =>
    let work := u64 (work + 1) in
    let hi := if negb (EndPort p =? 0) then EndPort p else Port p in
    (if (Port p <=? hi) && (hi - Port p <? 64) then u64 (portRows + (hi - Port p + 1)) else portRows, work))
    ports (rows, work) =
  (rows + foldr (fun p n => port_cost p + n) 0 ports, work + Z.of_nat (length ports)).
Proof.
  revert rows work. induction ports as [|p ports IH]; intros rows work Hr Hw Hr' Hw'; [cbn; f_equal; lia|].
  cbn [length fold_left foldr] in *. pose proof (port_cost_range p).
  rewrite (u64_small (work + 1)) by lia.
  assert ((if (Port p <=? (if negb (EndPort p =? 0) then EndPort p else Port p)) &&
       ((if negb (EndPort p =? 0) then EndPort p else Port p) - Port p <? 64)
     then u64 (rows + ((if negb (EndPort p =? 0) then EndPort p else Port p) - Port p + 1)) else rows) = rows + port_cost p) as ->.
  { revert H. unfold port_cost. cbv zeta. generalize (if negb (EndPort p =? 0) then EndPort p else Port p).
    intros hi. destruct (_ && _); intros Hc; [rewrite u64_small by lia|]; lia. }
  rewrite IH by lia. f_equal; lia.
Qed.

Lemma compile_ports_fold ports out w :
  length (fold_left (fun '(out, warnings) p =>
    let '(rows, w) := hfCompilePort p in (out ++ rows, addCompileWarnings warnings w)) ports (out, w)).1 =
  foldr (fun p n => length (hfCompilePort p).1 + n)%nat (length out) ports.
Proof.
  revert out w. induction ports as [|p ports IH]; intros out w; [done|].
  cbn [fold_left foldr]. destruct (hfCompilePort p) as [rows w'] eqn:E. rewrite IH, length_app. cbn [fst].
  clear. induction ports as [|q ports IH]; cbn; [lia|]. rewrite IH. lia.
Qed.

(** The rows a rule's ports expand to are at most what the preflight charges. *)
Lemma count_ports_spec ports work : 0 <= work -> work + Z.of_nat (length ports) < 2 ^ 57 ->
  exists rows, count_ports ports work = (rows, work + Z.of_nat (length ports)) /\
    Z.of_nat (length (hfCompilePorts ports).1) <= rows.
Proof.
  intros Hw Hl. unfold count_ports, hfCompilePorts.
  rewrite count_ports_fold; [|case_decide; lia|done|case_decide; lia|lia].
  eexists. split; [done|]. case_decide as Hp; [subst ports; cbn; lia|]. rewrite compile_ports_fold. clear.
  induction ports as [|p ports IH]; [done|]. cbn [foldr]. pose proof (compile_port_cost p). cbn in *. lia.
Qed.

(** Peers: ranges and excepts. *)
Definition peers_cost (peers : list HostFirewallPeer) : Z :=
  foldr (fun p n => Z.of_nat (length (Except p)) + 1 + n) 0 peers.

Lemma peers_cost_nonneg peers : 0 <= peers_cost peers.
Proof. unfold peers_cost. induction peers; cbn; lia. Qed.

Lemma count_peers_fold peers rows work : 0 <= rows -> 0 <= work ->
  rows + peers_cost peers < 2 ^ 64 -> work + peers_cost peers < 2 ^ 64 ->
  fold_left (fun '(peerRows, work) p =>
    let n := Z.of_nat (length (Except p)) + 1 in (u64 (peerRows + n), u64 (work + n))) peers (rows, work) =
  (rows + peers_cost peers, work + peers_cost peers).
Proof.
  revert rows work. induction peers as [|p peers IH]; intros rows work Hr Hw Hr' Hw'; [cbn; f_equal; lia|].
  cbn [fold_left]. cbn [peers_cost foldr] in Hr', Hw'. fold (peers_cost peers) in Hr', Hw'.
  pose proof (peers_cost_nonneg peers). rewrite !u64_small by lia. rewrite IH by lia.
  cbn [peers_cost foldr]. fold (peers_cost peers). f_equal; lia.
Qed.

Lemma parse_excepts_length excepts nets : parse_excepts excepts = inl nets -> length nets = length excepts.
Proof.
  revert nets. induction excepts as [|e excepts IH]; intros nets; cbn; [by intros [= <-]|].
  destruct (ParseCIDR e) as [[? ?]|]; [|done]. destruct (parse_excepts excepts); [|done].
  intros [= <-]. cbn. by rewrite (IH _ eq_refl).
Qed.

Lemma compile_peer_length rows peer :
  (length (hfCompilePeer rows peer).1 <= length rows * (length (Except peer) + 1))%nat.
Proof.
  unfold hfCompilePeer. destruct (ParseCIDR _) as [[? net]|]; [|cbn; lia].
  destruct (parse_excepts _) as [nets|] eqn:E; [|cbn; lia]. apply parse_excepts_length in E. cbn [fst]. rewrite <-E.
  clear. induction rows as [|r rows IH]; [done|]. rewrite fmap_cons.
  change (mjoin (?a :: ?l)) with (a ++ mjoin l). rewrite length_app. cbn [length]. rewrite length_fmap. lia.
Qed.

Lemma compile_peers_fold rows peers es w :
  Z.of_nat (length (fold_left (fun '(entries, warnings) peer =>
    let '(es, w) := hfCompilePeer rows peer in (entries ++ es, addCompileWarnings warnings w)) peers (es, w)).1) <=
  Z.of_nat (length es) + Z.of_nat (length rows) * peers_cost peers.
Proof.
  revert es w. induction peers as [|p peers IH]; intros es w; [cbn; lia|]. cbn [fold_left].
  pose proof (compile_peer_length rows p). destruct (hfCompilePeer rows p) as [es' w']. etrans; [apply IH|].
  rewrite length_app. cbn [peers_cost foldr fst] in *. fold (peers_cost peers). nia.
Qed.

(** One rule adds at most the rows counted for it. *)
Lemma count_spec rule work n work' : 0 <= work -> work + rule_weight rule < 2 ^ 57 ->
  count rule work = Ok (n, work') ->
  0 <= n <= 2 ^ 40 /\ work' = work + rule_weight rule /\
  forall acc, Z.of_nat (length (hfCompileRule rule acc).1) <= Z.of_nat (length acc.1) + n.
Proof.
  intros Hw Hl. unfold rule_weight in *. fold (peers_cost (Peers rule)) in *. pose proof (peers_cost_nonneg (Peers rule)).
  unfold count. rewrite u64_small by lia.
  destruct (count_ports_spec (Ports rule) (work + 1)) as (pr & -> & Hpr); [lia|lia|].
  unfold count_peers. rewrite count_peers_fold; [|case_decide; lia|lia|case_decide; lia|lia].
  set (pe := (if decide (Peers rule = []) then 2 else 0) + peers_cost (Peers rule)).
  assert (0 <= pe) by (unfold pe; case_decide; lia). assert (0 <= pr) by lia.
  case_if; [done|]. to_prop. unfold policyWorkLimit, policyRowLimit in *. change (Z.shiftl 1 20) with (2 ^ 20) in *.
  assert (0 <= pr * pe <= 2 ^ 16 * 2 ^ 20) by nia. rewrite u64_small by lia. intros [= <- <-].
  split; [lia|]. split; [lia|]. intros [es w]. unfold hfCompileRule.
  destruct (hfCompilePorts (Ports rule)) as [rows ws]. cbn [fst snd] in *. etrans; [apply compile_peers_fold|].
  enough (peers_cost (if decide (Peers rule = []) then hfAnyPeers else Peers rule) <= pe) by nia.
  unfold pe. case_decide as Hp; [rewrite Hp; cbn; lia|lia].
Qed.

Lemma rules_weight_nonneg rules : 0 <= rules_weight rules.
Proof.
  unfold rules_weight, rule_weight. induction rules as [|r rules IH]; cbn; [lia|].
  pose proof (peers_cost_nonneg (Peers r)). unfold peers_cost in *. lia.
Qed.

(** The rules of a direction stay within what was counted for them. *)
Lemma count_rules_spec rules rows work rows' work' : 0 <= rows <= policyRowLimit -> 0 <= work ->
  work + rules_weight rules < 2 ^ 57 -> count_rules rules (rows, work) = Ok (rows', work') ->
  0 <= rows' <= policyRowLimit /\ work' = work + rules_weight rules /\
  forall acc, Z.of_nat (length acc.1) <= rows ->
    Z.of_nat (length (fold_left (fun acc rule => hfCompileRule rule acc) rules acc).1) <= rows'.
Proof.
  revert rows work. induction rules as [|r rules IH]; intros rows work Hr Hw Hl; cbn [count_rules foldM].
  { intros [= <- <-]. split; [done|]. split; [cbn; lia|]. by intros acc Ha. }
  cbn [rules_weight foldr] in *. fold (rules_weight rules) in *. pose proof (rules_weight_nonneg rules).
  assert (0 <= rule_weight r) by (pose proof (rules_weight_nonneg [r]) as Hn; cbn in Hn; lia).
  destruct (count r work) as [[n w1]|] eqn:Ec; cbn [mbind result_mbind]; [|done].
  apply count_spec in Ec as (Hn & -> & Hrow); [|lia|lia].
  unfold policyRowLimit in *. rewrite u64_small by lia. case_if; [done|]. to_prop. cbn [mret result_mret].
  intros Hf. apply IH in Hf as (Hr' & -> & Hacc); [|lia|lia|lia]. split; [done|]. split; [lia|].
  intros acc Ha. cbn [fold_left]. apply Hacc. pose proof (Hrow acc). lia.
Qed.

Section Bounds.
Context {Selector : Type} (matches : Selector -> option bool).

Lemma weight_nonneg (hfs : list (HostFirewall Selector)) : 0 <= weight hfs.
Proof.
  unfold weight. induction hfs as [|hf hfs IH]; cbn; [lia|].
  pose proof (rules_weight_nonneg (Ingress hf)). pose proof (rules_weight_nonneg (Egress hf)). lia.
Qed.

(** Compilation follows the preflight object by object. *)
Lemma compile_bound hfs c i e work acc' :
  0 <= i <= policyRowLimit -> 0 <= e <= policyRowLimit -> 0 <= work -> work + weight hfs < 2 ^ 57 ->
  Z.of_nat (length (c_in c)) <= i -> Z.of_nat (length (c_eg c)) <= e ->
  foldM (fun '(ingress, egress, work) hf =>
      let work := u64 (work + 1) in
      match matches (NodeSelector hf) with
      | Some true =>
          let '(ing, eg) := hfIsolation hf in
          '(ingress, work) ← (if ing : bool then count_rules (Ingress hf) (ingress, work) else mret (ingress, work));
          '(egress, work) ← (if eg : bool then count_rules (Egress hf) (egress, work) else mret (egress, work));
          mret (ingress, egress, work)
      | _ => mret (ingress, egress, work)
      end) (i, e, work) hfs = Ok acc' ->
  Z.of_nat (length (c_in (fold_left (compile_one matches) hfs c))) <= policyRowLimit /\
  Z.of_nat (length (c_eg (fold_left (compile_one matches) hfs c))) <= policyRowLimit.
Proof.
  revert c i e work. induction hfs as [|hf hfs IH]; intros c i e work Hi He Hw Hl Hci Hce; cbn [foldM fold_left].
  { intros _. lia. }
  cbn [weight foldr] in Hl. fold (weight hfs) in Hl. pose proof (weight_nonneg hfs).
  pose proof (rules_weight_nonneg (Ingress hf)). pose proof (rules_weight_nonneg (Egress hf)).
  rewrite u64_small by lia. unfold compile_one at 2 4.
  destruct (matches (NodeSelector hf)) as [[]|]; [|by apply IH; auto with lia..].
  destruct (hfIsolation hf) as [ing eg].
  assert (forall (on : bool) rules rows work0, 0 <= rows <= policyRowLimit -> 0 <= work0 ->
    work0 + rules_weight rules < 2 ^ 57 ->
    match (if on then count_rules rules (rows, work0) else mret (rows, work0)) with
    | Ok (rows', work') => 0 <= rows' <= policyRowLimit /\ work0 <= work' <= work0 + rules_weight rules /\
        forall l w, Z.of_nat (length l) <= rows ->
          Z.of_nat (length (if on then fold_left (fun acc rule => hfCompileRule rule acc) rules (l, w) else (l, w)).1) <= rows'
    | Err _ => True end) as K.
  { intros on rules rows work0 Hr0 Hw0 Hl0. pose proof (rules_weight_nonneg rules). destruct on; cbn [mret result_mret].
    - destruct (count_rules rules (rows, work0)) as [[r' w']|] eqn:Ec; [|done].
      apply count_rules_spec in Ec as (? & -> & Ha); [|lia|lia|lia]. split; [done|]. split; [lia|].
      intros l w Hlen. by apply (Ha (l, w)).
    - split; [done|]. split; [lia|]. done. }
  pose proof (K ing (Ingress hf) i (work + 1) Hi ltac:(lia) ltac:(lia)) as K1.
  destruct (if ing then count_rules _ _ else mret _) as [[i' w1]|]; cbn [mbind result_mbind]; [|done].
  destruct K1 as (Hi' & Hw1 & L1). specialize (L1 _ (warnings c) Hci).
  pose proof (K eg (Egress hf) e w1 He ltac:(lia) ltac:(lia)) as K2.
  destruct (if eg then count_rules _ _ else mret _) as [[e' w2]|]; cbn [mbind result_mbind]; [|done].
  destruct K2 as (He' & Hw2 & L2). cbn [mret result_mret].
  destruct (if ing then fold_left _ _ _ else _) as [ins wi]. specialize (L2 _ wi Hce).
  destruct (if eg then fold_left _ _ _ else _) as [egs we]. apply IH; cbn; auto; lia.
Qed.
End Bounds.

(** The preflight is a real bound: a compilation that is not rejected yields at most 65536
    rows per direction, however many ports, peers and excepts the objects list. *)
Theorem compileHostFirewalls_bounded {Selector} (matches : Selector -> option bool) hfs :
  weight hfs < 2 ^ 56 -> c_err (compileHostFirewalls matches hfs) = None ->
  Z.of_nat (length (c_in (compileHostFirewalls matches hfs))) <= policyRowLimit /\
  Z.of_nat (length (c_eg (compileHostFirewalls matches hfs))) <= policyRowLimit.
Proof.
  intros Hw. unfold compileHostFirewalls. destruct (validateHFCompilation matches hfs) as [[]|e] eqn:Ev; [|done].
  intros _. unfold validateHFCompilation in Ev. case_decide; [done|]. apply bind_ok in Ev as ([[i e] w] & Ev & _).
  pose proof (weight_nonneg hfs). eapply compile_bound; [..|exact Ev]; cbn; unfold policyRowLimit; lia.
Qed.

(** ** What a rule expands to *)

(** The item serves a port: protocol and range valid, at most 64 ports wide. *)
Definition port_served (p : HostFirewallPort) (proto port : Z) : Prop :=
  let '(lo, hi) := port_bounds p in
  hfProtoNum (Protocol p) = Some proto /\ 0 <= lo /\ hi <= 65535 /\ hi - lo < 64 /\ (lo = 0 -> hi = 0) /\ lo <= port <= hi.

(** The {proto, port} pairs of a rule; no item means every port of both protocols. *)
Definition rule_ports (rule : HostFirewallRule) (proto port : Z) : Prop :=
  (Ports rule = [] /\ (proto = 6 \/ proto = 17) /\ port = 0) \/
  exists p, p ∈ Ports rule /\ port_served p proto port.

(** A peer is usable when its range and every except parse. *)
Definition peer_nets (peer : HostFirewallPeer) (allow : IPNet) (excepts : list IPNet) : Prop :=
  (exists ip, ParseCIDR (CIDR peer) = Some (ip, allow)) /\
  Forall2 (fun text net => exists ip, ParseCIDR text = Some (ip, net)) (Except peer) excepts.

Lemma compile_port_elem p row : row ∈ (hfCompilePort p).1 <-> port_served p (row_proto row) (row_port row).
Proof.
  unfold hfCompilePort, port_served. destruct (port_bounds p) as [lo hi] eqn:Eb.
  assert (lo = Port p) as El by (unfold port_bounds in Eb; congruence).
  destruct (hfProtoNum (Protocol p)) as [proto|]; [|set_solver].
  case_if; [split; [set_solver|]; intros (_ & ? & ? & ? & ? & ?); apply orb_true_iff in E as [E|E]; to_prop; lia|].
  case_if.
  { split; [set_solver|]. intros (_ & ? & ? & ? & ? & ?). apply orb_true_iff in E0 as [E0|E0]; [apply orb_true_iff in E0 as [E0|E0]|]; to_prop; lia. }
  case_if; [split; [set_solver|]; to_prop; lia|]. to_prop. cbn [fst]. rewrite list_elem_of_fmap.
  match goal with H : _ && _ = false |- _ => apply andb_false_iff in H; rename H into Hz end. split.
  - intros (po & -> & Hpo%elem_of_seqZ). cbn. unfold u16. rewrite Z.mod_small by lia.
    split; [done|]. destruct Hz as [E2|E2]; to_prop; split_and!; lia.
  - intros ([= ->] & ? & ? & ? & ? & ?). exists (row_port row). split; [|apply elem_of_seqZ; lia].
    destruct row as [pr po]. cbn in *. unfold u16. by rewrite Z.mod_small by lia.
Qed.

Lemma compile_ports_elem rule row : row ∈ (hfCompilePorts (Ports rule)).1 <-> rule_ports rule (row_proto row) (row_port row).
Proof.
  unfold hfCompilePorts, rule_ports. case_decide as Hp.
  - rewrite Hp. cbn [fst]. rewrite !elem_of_cons. destruct row as [pr po]. cbn. split.
    + intros [[= -> ->]|[[= -> ->]|[]%not_elem_of_nil]]; left; auto.
    + intros [(_ & [-> | ->] & ->)|(p & []%not_elem_of_nil & _)]; auto.
  - assert (forall ports out w, row ∈ (fold_left (fun '(out, warnings) p =>
      let '(rows, w) := hfCompilePort p in (out ++ rows, addCompileWarnings warnings w)) ports (out, w)).1 <->
      row ∈ out \/ exists p, p ∈ ports /\ port_served p (row_proto row) (row_port row)) as K.
    { induction ports as [|p ports IH]; intros out w; cbn [fold_left].
      - split; [by left|]. intros [?|(p & []%not_elem_of_nil & _)]; done.
      - pose proof (compile_port_elem p row) as Hp'. destruct (hfCompilePort p) as [rows w']. cbn [fst] in Hp'.
        rewrite IH, elem_of_app, Hp'. setoid_rewrite elem_of_cons. naive_solver. }
    rewrite K. split; [intros [[]%not_elem_of_nil|?]; by right|]. intros [(? & _)|?]; [done|by right].
Qed.

Lemma parse_excepts_spec excepts nets : parse_excepts excepts = inl nets <->
  Forall2 (fun text net => exists ip, ParseCIDR text = Some (ip, net)) excepts nets.
Proof.
  revert nets. induction excepts as [|e excepts IH]; intros nets; cbn.
  { split; [intros [= <-]; constructor|]. by inversion 1. }
  destruct (ParseCIDR e) as [[ip net]|] eqn:Ee.
  - destruct (parse_excepts excepts) as [nets'|].
    + split; [intros [= <-]; constructor; [eauto|by apply IH]|].
      inversion_clear 1 as [|? ? ? ? (ip' & Hip) Hr]. apply IH in Hr as [= ->]. rewrite Ee in Hip. by simplify_eq.
    + split; [done|]. inversion_clear 1 as [|? ? ? ? _ Hr]. by apply IH in Hr.
  - split; [done|]. inversion_clear 1 as [|? ? ? ? (ip' & Hip) _]. congruence.
Qed.

(** The rows of a peer on the given ports. *)
Definition peer_rows (peer : HostFirewallPeer) (rows : hfPortRow -> Prop) (e : HFAllow) : Prop :=
  exists row allow excepts, rows row /\ peer_nets peer allow excepts /\
    (e = MkHFAllow (row_proto row) (row_port row) (Some allow) true \/
     exists ex, ex ∈ excepts /\ e = MkHFAllow (row_proto row) (row_port row) (Some ex) false).

Lemma compile_peer_elem rows peer e :
  e ∈ (hfCompilePeer rows peer).1 <-> peer_rows peer (fun row => row ∈ rows) e.
Proof.
  unfold hfCompilePeer, peer_rows, peer_nets. destruct (ParseCIDR (CIDR peer)) as [[ip net]|].
  2: { split; [set_solver|]. intros (row & a & ex & _ & [[ip' ?] _] & _). done. }
  destruct (parse_excepts (Except peer)) as [nets|bad] eqn:Ep.
  2: { split; [set_solver|]. intros (row & a & ex & _ & [_ Hf%parse_excepts_spec] & _). congruence. }
  cbn [fst]. rewrite list_elem_of_join. setoid_rewrite list_elem_of_fmap. split.
  - intros (l & He & row & -> & Hrow). exists row, net, nets. split; [done|].
    split; [split; [eauto|by apply parse_excepts_spec]|]. apply elem_of_cons in He as [-> |He]; [by left|].
    right. apply list_elem_of_fmap in He as (ex & -> & Hex). eauto.
  - intros (row & a & ex & Hrow & [[ip' [= -> ->]] Hf%parse_excepts_spec] & He). rewrite Ep in Hf. injection Hf as ->.
    eexists. split; [|exists row; split; [done|exact Hrow]]. rewrite elem_of_cons, list_elem_of_fmap. naive_solver.
Qed.

(** A rule means exactly its usable peers on its usable ports: an entry is emitted iff it is
    the range of a peer whose CIDR and excepts all parse, or one of those excepts as a mask,
    on a served port; a peer with one bad except contributes nothing, a bad port item serves
    nothing, and an empty list of peers or ports means any. *)
Theorem hfCompileRule_exact rule acc e :
  e ∈ (hfCompileRule rule acc).1 <->
  e ∈ acc.1 \/
  exists peer, peer ∈ (if decide (Peers rule = []) then hfAnyPeers else Peers rule) /\
    peer_rows peer (fun row => rule_ports rule (row_proto row) (row_port row)) e.
Proof.
  destruct acc as [es w]. unfold hfCompileRule. pose proof (compile_ports_elem rule) as Hr.
  destruct (hfCompilePorts (Ports rule)) as [rows ws]. cbn [fst snd] in *.
  generalize (fold_left (fun ws warn => addCompileWarnings ws [warn]) ws w). clear ws w.
  assert (forall peer, peer_rows peer (fun row => row ∈ rows) e <->
    peer_rows peer (fun row => rule_ports rule (row_proto row) (row_port row)) e) as Hp.
  { intros peer. unfold peer_rows. by setoid_rewrite Hr. }
  generalize (if decide (Peers rule = []) then hfAnyPeers else Peers rule). intros peers. revert es.
  induction peers as [|p peers IH]; intros es w; cbn [fold_left].
  - split; [by left|]. intros [?|(p & []%not_elem_of_nil & _)]; done.
  - pose proof (compile_peer_elem rows p e) as He. rewrite Hp in He. destruct (hfCompilePeer rows p) as [es' w'].
    cbn [fst] in He. rewrite IH, elem_of_app, He. setoid_rewrite elem_of_cons. naive_solver.
Qed.

(** A concrete compilation. *)
Definition demo_hf : HostFirewall string :=
  MkHostFirewall string "web" "all" []
    [MkRule [MkPeer "10.0.0.0/8" ["10.1.0.0/16"]; MkPeer "bogus" []] [MkPort "TCP" 443 0; MkPort "SCTP" 1 0]] [].
Definition demo_matches (s : string) : option bool := if decide (s = "all") then Some true else None.

Example demo_compiled :
  let c := compileHostFirewalls demo_matches [demo_hf] in
  ingress c = true /\ egress c = false /\ length (c_in c) = 2%nat /\
  warnings c = [NotServed "SCTP"; BadCIDR "bogus"].
Proof. by vm_compute. Qed.

Lemma compileHostFirewalls_bounded_witness :
  Z.of_nat (length (c_in (compileHostFirewalls demo_matches [demo_hf]))) <= policyRowLimit /\
  Z.of_nat (length (c_eg (compileHostFirewalls demo_matches [demo_hf]))) <= policyRowLimit.
Proof.
  apply (compileHostFirewalls_bounded demo_matches [demo_hf]).
  - vm_compute. reflexivity.
  - vm_compute. reflexivity.
Defined.
