(* ===== verification/SgIdentity.v ===== *)
(** * Group identity proofs (internal/sgidentity/membership.go, internal/vpnlimits/references.go,
      pkg/netid)

    A Port's status lists the numeric groups it belongs to with the UIDs they were resolved
    from.  The agent grants a group bit only if exactly one live SecurityGroup of the VPC
    currently holds that number under that UID. *)

From S2P Require Import Prelude GoText.
Local Open Scope Z_scope.

(** [MaxSecurityGroupsPerVPC], api/sdn/v1alpha1/securitygroup_types.go:26-26. *)
Definition MaxSecurityGroupsPerVPC : Z := 63.

(** [SecurityGroup] with the fields the index reads. *)
Record SecurityGroup := MkSecurityGroup {
  g_Deleting : bool; g_Namespace : string; g_VPCName : string; g_ID : Z; g_UID : string
}.

(** [SecurityGroup.LocalRef], api/sdn/v1alpha1/securitygroup_types.go:192-194. *)
Definition LocalRef (g : SecurityGroup) : string * string := (g_Namespace g, g_VPCName g).

(** [SecurityGroupMembership] and the Port fields [Bitmap] reads. *)
Record Membership := MkMembership { ref_ID : Z; ref_UID : string }.
Record Port := MkPort {
  p_VPCRef : string * string; (* Spec.VPCRef: namespace and name *)
  p_PodUID : string; (* the pod-uid label *)
  p_GroupPodUID : string;
  p_Groups : list Z;
  p_GroupRefs : list Membership
}.

(** [Index]: the UID of each number of each VPC; an ambiguous number has no UID. *)
Abbreviation Index := (gmap (string * string) (gmap Z string)).

Definition index_get (index : Index) (ref : string * string) (id : Z) : option string :=
  index !! ref ≫= fun m => m !! id.

Section Names.
(** The Kubernetes name validators: no complaint about the name. *)
Context (IsDNS1123Label IsDNS1123Subdomain : string -> bool).

(** [ObjectName], internal/vpnlimits/references.go:10-12. *)
Definition ObjectName (name : string) : bool :=
  negb (bool_decide (name = EmptyString)) && bool_decide (String.length name <= 253)%nat && IsDNS1123Subdomain name.

(** [NamespaceName], internal/vpnlimits/references.go:16-18. *)
Definition NamespaceName (name : string) : bool :=
  negb (bool_decide (name = EmptyString)) && bool_decide (String.length name <= 63)%nat && IsDNS1123Label name.

(** [Add], its guards: a live, named group with a valid number,
    internal/sgidentity/membership.go:21-27. *)
Definition admissible (group : option SecurityGroup) : option SecurityGroup :=
  match group with
  | None => None
  | Some g =>
      if g_Deleting g || (g_ID g <=? 0) || (MaxSecurityGroupsPerVPC <=? g_ID g) then None
      else if negb (NamespaceName (g_Namespace g)) || negb (ObjectName (g_VPCName g)) then None
      else Some g
  end.

(** [Index.Add], internal/sgidentity/membership.go:21-37. *)
Definition Add (index : Index) (group : option SecurityGroup) : Index :=
  match admissible group with
  | None => index
  | Some g =>
      let ref := LocalRef g in
      let ids := default ∅ (index !! ref) in
      let uid := match ids !! g_ID g with Some _ => EmptyString | None => g_UID g end in
      <[ref := <[g_ID g := uid]> ids]> index
  end.

(** [NewIndex], internal/sgidentity/membership.go:13-19. *)
Definition NewIndex (groups : list (option SecurityGroup)) : Index := fold_left Add groups ∅.

(** [proven, seen], one reference of the first loop of [Bitmap],
    internal/sgidentity/membership.go:52-64. *)
Definition prove_ref (index : Index) (vpc : string * string) (acc : Z * Z) (ref : Membership) : Z * Z :=
  let '(proven, seen) := acc in
  if (ref_ID ref <=? 0) || (MaxSecurityGroupsPerVPC <=? ref_ID ref) then acc
  else
    let bit := Z.shiftl 1 (ref_ID ref) in
    if negb (Z.land seen bit =? 0) then (Z.ldiff proven bit, seen)
    else
      (if negb (bool_decide (ref_UID ref = EmptyString)) &&
          bool_decide (default EmptyString (index_get index vpc (ref_ID ref)) = ref_UID ref)
       then Z.lor proven bit else proven, Z.lor seen bit).

(** [Index.Bitmap], internal/sgidentity/membership.go:41-75. *)
Definition Bitmap (index : Index) (port : Port) : Z :=
  if negb (bool_decide (p_GroupPodUID port = p_PodUID port)) then 1
  else if decide (p_Groups port = []) then 0
  else if (MaxSecurityGroupsPerVPC <? Z.of_nat (length (p_Groups port))) ||
          (MaxSecurityGroupsPerVPC <=? Z.of_nat (length (p_GroupRefs port))) then 1
  else
    let '(proven, _) := fold_left (prove_ref index (p_VPCRef port)) (p_GroupRefs port) (0, 0) in
    fold_left (fun bitmap id =>
      if (0 <? id) && (id <? MaxSecurityGroupsPerVPC) && negb (Z.land proven (Z.shiftl 1 id) =? 0)
      then Z.lor bitmap (Z.shiftl 1 id) else Z.lor bitmap 1) (p_Groups port) 0.

(** ** The index *)

(** The admissible groups that hold a number in a VPC. *)
Definition holders (groups : list (option SecurityGroup)) (ref : string * string) (id : Z) : list SecurityGroup :=
  filter (fun g => LocalRef g = ref /\ g_ID g = id) (omap admissible groups).

Lemma NewIndex_get groups ref id :
  index_get (NewIndex groups) ref id =
  match holders groups ref id with [] => None | [g] => Some (g_UID g) | _ => Some EmptyString end.
Proof.
  unfold NewIndex, holders. induction groups as [|group groups IH] using rev_ind; [done|].
  rewrite fold_left_app, omap_app. cbn [fold_left omap list_omap]. rewrite filter_app.
  set (index := fold_left Add groups ∅) in *. clearbody index. unfold Add.
  destruct (admissible group) as [g|]; [|by rewrite app_nil_r].
  rewrite filter_cons, filter_nil. unfold index_get in *.
  destruct (decide (LocalRef g = ref)) as [<-|Hr].
  - rewrite lookup_insert_eq. cbn [mbind option_bind].
    destruct (decide (g_ID g = id)) as [<-|Hi].
    + rewrite decide_True by done. rewrite lookup_insert_eq.
      assert (default ∅ (index !! LocalRef g) !! g_ID g = (index !! LocalRef g ≫= fun m => m !! g_ID g)) as ->
        by (destruct (index !! LocalRef g); [done|]; cbn; by rewrite lookup_empty).
      rewrite IH. destruct (filter _ (omap _ _)) as [|h [|h' hs]]; done.
    + rewrite decide_False by tauto. rewrite app_nil_r, lookup_insert_ne by done. rewrite <-IH.
      destruct (index !! LocalRef g); [done|]. cbn. by rewrite lookup_empty.
  - rewrite decide_False by tauto. by rewrite app_nil_r, lookup_insert_ne.
Qed.

(** ** The bitmap *)

(** The references that name a number. *)
Definition naming (refs : list Membership) (id : Z) : list Membership := filter (fun r => ref_ID r = id) refs.

Definition ref_good (index : Index) (vpc : string * string) (r : Membership) : Prop :=
  ref_UID r <> EmptyString /\ index_get index vpc (ref_ID r) = Some (ref_UID r).

(** A bit is seen iff some reference names it, and proven iff exactly one does and it holds. *)
Lemma prove_refs_spec index vpc refs id : 0 < id < MaxSecurityGroupsPerVPC ->
  let '(proven, seen) := fold_left (prove_ref index vpc) refs (0, 0) in
  Z.testbit seen id = negb (bool_decide (naming refs id = [])) /\
  (Z.testbit proven id = true <-> exists r, naming refs id = [r] /\ ref_good index vpc r).
Proof.
  unfold MaxSecurityGroupsPerVPC. intros Hid. induction refs as [|r refs IH] using rev_ind.
  { cbn. rewrite Z.bits_0. split; [done|]. split; [done|]. by intros (r & ? & _). }
  rewrite fold_left_app. cbn [fold_left]. destruct (fold_left (prove_ref index vpc) refs (0, 0)) as [proven seen].
  destruct IH as [Hs Hp]. unfold prove_ref, naming, MaxSecurityGroupsPerVPC in *. rewrite filter_app, filter_cons, filter_nil.
  destruct ((ref_ID r <=? 0) || (63 <=? ref_ID r)) eqn:Er.
  { rewrite decide_False by (apply orb_true_iff in Er as [Er|Er]; to_prop; lia). by rewrite app_nil_r. }
  to_prop. rewrite bit_test by lia. destruct (decide (ref_ID r = id)) as [E|E].
  - subst id. destruct (Z.testbit seen (ref_ID r)) eqn:Eseen.
    + rewrite Z.ldiff_spec, bit_shift_same by lia. cbn [negb]. rewrite andb_false_r, Eseen.
      symmetry in Hs. apply negb_true_iff, bool_decide_eq_false in Hs. split.
      * symmetry. apply negb_true_iff, bool_decide_eq_false. destruct (filter _ refs); done.
      * split; [done|]. intros (r' & Hr' & _). destruct (filter _ refs) as [|a [|b l]]; done.
    + symmetry in Hs. apply negb_false_iff, bool_decide_eq_true in Hs. rewrite Hs in *.
      rewrite Z.lor_spec, bit_shift_same, orb_true_r by lia. split; [done|].
      assert (Z.testbit proven (ref_ID r) = false) as Hpf.
      { apply not_true_is_false. intros (r' & ? & _)%Hp. done. }
      unfold ref_good. destruct (_ && _) eqn:Eg.
      * rewrite Z.lor_spec, bit_shift_same, orb_true_r by lia. to_prop.
        split; [|done]. intros _. exists r. split; [done|]. split; [done|].
        destruct (index_get index vpc (ref_ID r)); cbn in *; congruence.
      * rewrite Hpf. split; [done|]. intros (r' & [= <-] & Hne & Hg). rewrite Hg in Eg. cbn in Eg.
        rewrite (bool_decide_false (ref_UID r = EmptyString)) in Eg by done. by rewrite bool_decide_true in Eg.
  - rewrite app_nil_r. destruct (Z.testbit seen (ref_ID r)).
    + rewrite Z.ldiff_spec, bit_shift_ne by lia. cbn [negb]. rewrite andb_true_r. done.
    + rewrite Z.lor_spec, bit_shift_ne, orb_false_r by lia. split; [done|].
      destruct (_ && _); [|done]. rewrite Z.lor_spec, bit_shift_ne, orb_false_r by lia. done.
Qed.

(** The last loop: a listed number keeps its bit if proven, and leaves bit zero otherwise. *)
Lemma groups_fold proven ids acc n : 0 <= n ->
  Z.testbit (fold_left (fun bitmap id =>
    if (0 <? id) && (id <? MaxSecurityGroupsPerVPC) && negb (Z.land proven (Z.shiftl 1 id) =? 0)
    then Z.lor bitmap (Z.shiftl 1 id) else Z.lor bitmap 1) ids acc) n = true <->
  Z.testbit acc n = true \/
  exists id, id ∈ ids /\
    if (0 <? id) && (id <? MaxSecurityGroupsPerVPC) && Z.testbit proven id then n = id else n = 0.
Proof.
  intros Hn. revert acc. induction ids as [|id ids IH]; intros acc; cbn [fold_left].
  { split; [by left|]. intros [?|(id & []%not_elem_of_nil & _)]; done. }
  rewrite IH. setoid_rewrite elem_of_cons. clear IH.
  assert ((0 <? id) && (id <? MaxSecurityGroupsPerVPC) && negb (Z.land proven (Z.shiftl 1 id) =? 0) =
          (0 <? id) && (id <? MaxSecurityGroupsPerVPC) && Z.testbit proven id) as ->.
  { destruct (0 <? id) eqn:E; [|done]. to_prop. by rewrite bit_test by lia. }
  destruct (_ && _) eqn:E; rewrite Z.lor_spec, orb_true_iff.
  - rename E into Er. assert (0 <= id) by (to_prop; lia). rewrite bit_shift, bool_decide_eq_true by lia. split.
    + intros [[?|?]|(j & ? & ?)]; [by left|right|right; eauto]. exists id. split; [by left|]. by rewrite Er.
    + intros [?|(j & [-> |?] & Hj)]; [by left; left| |right; eauto]. rewrite Er in Hj. left. by right.
  - assert (Z.testbit 1 n = true <-> n = 0) as ->.
    { change 1 with (Z.shiftl 1 0). rewrite bit_shift by lia. apply bool_decide_eq_true. }
    split.
    + intros [[?|?]|(j & ? & ?)]; [by left|right|right; eauto]. exists id. split; [by left|]. by rewrite E.
    + intros [?|(j & [-> |?] & Hj)]; [by left; left| |right; eauto]. rewrite E in Hj. left. by right.
Qed.

(** A group bit is granted exactly when it is proven: the membership was resolved from the
    current pod's labels and is within bounds, the number is listed, exactly one reference
    names it, and exactly one live, well-named SecurityGroup of the Port's VPC holds that number,
    under that reference's UID. *)
Theorem Bitmap_proves groups port g : 0 < g < MaxSecurityGroupsPerVPC ->
  Z.testbit (Bitmap (NewIndex groups) port) g = true <->
  p_GroupPodUID port = p_PodUID port /\ g ∈ p_Groups port /\
  Z.of_nat (length (p_Groups port)) <= MaxSecurityGroupsPerVPC /\
  Z.of_nat (length (p_GroupRefs port)) < MaxSecurityGroupsPerVPC /\
  exists r grp, naming (p_GroupRefs port) g = [r] /\ holders groups (p_VPCRef port) g = [grp] /\
    g_UID grp = ref_UID r /\ ref_UID r <> EmptyString.
Proof.
  intros Hg. unfold Bitmap.
  assert (Z.testbit 1 g = false) as H1 by (change 1 with (Z.shiftl 1 0); rewrite bit_shift_ne; lia || done).
  case_bool_decide as Hu; cbn [negb]; [|rewrite H1; naive_solver].
  case_decide as Hgr; [rewrite Hgr, Z.bits_0; split; [done|]; intros (_ & []%not_elem_of_nil & _)|].
  destruct (_ || _) eqn:Eb.
  { rewrite H1. split; [done|]. intros (_ & _ & ? & ? & _). apply orb_true_iff in Eb as [Eb|Eb]; to_prop; lia. }
  to_prop. pose proof (prove_refs_spec (NewIndex groups) (p_VPCRef port) (p_GroupRefs port) g Hg) as Hp.
  destruct (fold_left (prove_ref _ _) _ _) as [proven seen]. destruct Hp as [_ Hp].
  rewrite groups_fold, Z.bits_0 by lia.
  assert ((exists r grp, naming (p_GroupRefs port) g = [r] /\ holders groups (p_VPCRef port) g = [grp] /\
    g_UID grp = ref_UID r /\ ref_UID r <> EmptyString) <-> Z.testbit proven g = true) as ->.
  { rewrite Hp. unfold ref_good. split.
    - intros (r & grp & Hn & Hh & Hq & Hne). exists r. split; [done|]. split; [done|].
      assert (ref_ID r = g) as -> by (assert (r ∈ naming (p_GroupRefs port) g) as Hin by (rewrite Hn; set_solver);
        by apply list_elem_of_filter in Hin as [? _]).
      rewrite NewIndex_get, Hh. congruence.
    - intros (r & Hn & Hne & Hi).
      assert (ref_ID r = g) as Er by (assert (r ∈ naming (p_GroupRefs port) g) as Hin by (rewrite Hn; set_solver);
        by apply list_elem_of_filter in Hin as [? _]).
      rewrite Er, NewIndex_get in Hi. exists r. destruct (holders groups (p_VPCRef port) g) as [|grp [|? ?]]; [done| |congruence].
      exists grp. by simplify_eq. }
  split.
  - intros [?|(id & Hin & Hid)]; [done|]. destruct (_ && Z.testbit proven id) eqn:E; [|lia]. subst id.
    apply andb_true_iff in E as [_ E]. by split_and!.
  - intros (_ & Hin & _ & _ & Ht). right. exists g. split; [done|]. rewrite Ht.
    assert (0 <? g = true) as -> by (apply Z.ltb_lt; lia). by assert (g <? MaxSecurityGroupsPerVPC = true) as -> by (apply Z.ltb_lt; lia).
Qed.

(** The empty bitmap, which the datapath reads as a resolved endpoint in no group, is returned
    only for a membership of the current pod that lists no group; every unresolved
    membership keeps some bit and so stays default-deny. *)
Theorem Bitmap_zero_iff index port :
  Bitmap index port = 0 <-> p_GroupPodUID port = p_PodUID port /\ p_Groups port = [].
Proof.
  unfold Bitmap. case_bool_decide as Hu; cbn [negb]; [|naive_solver].
  case_decide as Hgr; [naive_solver|]. destruct (_ || _); [naive_solver|].
  destruct (fold_left (prove_ref _ _) _ _) as [proven seen]. split; [|naive_solver]. intros H0. exfalso.
  destruct (p_Groups port) as [|id ids]; [done|].
  set (b := (0 <? id) && (id <? MaxSecurityGroupsPerVPC) && Z.testbit proven id).
  assert (forall n, 0 <= n -> (if b then n = id else n = 0) -> False) as K.
  { intros n Hn Hb. pose proof (groups_fold proven (id :: ids) 0 n Hn) as Hf. rewrite H0, Z.bits_0 in Hf.
    destruct Hf as [_ Hf]. discriminate Hf. right. exists id. split; [set_solver|done]. }
  destruct b eqn:Eb; [|by apply (K 0)]. apply (K id); [|done]. unfold b in Eb. to_prop. lia.
Qed.
End Names.

(** A Port proven in group 3 and unproven in group 5, whose number two groups hold. *)
Definition demo_groups : list (option SecurityGroup) :=
  [Some (MkSecurityGroup false "team" "vpc" 3 "uid-3"); Some (MkSecurityGroup false "team" "vpc" 5 "uid-5");
   Some (MkSecurityGroup false "team" "vpc" 5 "uid-6"); None].
Definition demo_port : Port :=
  MkPort ("team", "vpc") "pod" "pod" [3; 5] [MkMembership 3 "uid-3"; MkMembership 5 "uid-5"].
Definition any_name (s : string) : bool := true.

Example demo_bitmap : Bitmap (NewIndex any_name any_name demo_groups) demo_port = 9.
Proof. by vm_compute. Qed.

Lemma Bitmap_proves_witness :
  Z.testbit (Bitmap (NewIndex any_name any_name demo_groups) demo_port) 3 = true <->
  p_GroupPodUID demo_port = p_PodUID demo_port /\ 3 ∈ p_Groups demo_port /\
  Z.of_nat (length (p_Groups demo_port)) <= MaxSecurityGroupsPerVPC /\
  Z.of_nat (length (p_GroupRefs demo_port)) < MaxSecurityGroupsPerVPC /\
  exists r grp, naming (p_GroupRefs demo_port) 3 = [r] /\
    holders any_name any_name demo_groups (p_VPCRef demo_port) 3 = [grp] /\
    g_UID grp = ref_UID r /\ ref_UID r <> EmptyString.
Proof. apply (Bitmap_proves any_name any_name demo_groups demo_port 3). split; reflexivity. Defined.
