(* ===== verification/RouteBudget.v ===== *)
(** * Fair route budgets (cmd/agent/route_budget.go)

    The route map is shared by all namespaces.  Each namespace's demand is served in
    ascending order, an unsatisfied one with an equal share of what is left. *)

From S2P Require Import Prelude.
Local Open Scope Z_scope.

(** [routeNamespace], the fields the budget reads, cmd/agent/route_budget.go:16-21. *)
Record routeNamespace := MkNamespace { demand : Z; invalid : bool }.

(** [routeBudgets], the order [sort.Slice] is given, by demand then by name,
    cmd/agent/route_budget.go:33-39. *)
Definition budget_le (a b : string * Z) : Prop :=
  a.2 < b.2 \/ (a.2 = b.2 /\ String.le a.1 b.1).

#[export] Instance budget_le_dec a b : Decision (budget_le a b).
Proof. unfold budget_le. apply _. Defined.

(** [routeBudgets], the sharing loop over the sorted demands, cmd/agent/route_budget.go:41-50. *)
Fixpoint share_out (capacity : Z) (names : list (string * Z)) : list (string * Z) :=
  match names with
  | [] => []
  | (name, d) :: rest =>
      let remaining := Z.of_nat (length names) in
      let share := capacity / remaining in
      let share := if negb (capacity mod remaining =? 0) then u64 (share + 1) else share in
      let budget := Z.min d share in
      (name, budget) :: share_out (capacity - budget) rest
  end.

(** [routeBudgets], cmd/agent/route_budget.go:26-52. *)
Definition routeBudgets (groups : gmap string routeNamespace) (capacity : Z) : gmap string Z :=
  let names := (fun e => (e.1, demand e.2)) <$>
    filter (fun e => demand e.2 <> 0 /\ invalid e.2 = false) (map_to_list groups) in
  list_to_map (share_out capacity (merge_sort budget_le names)).

(** ** The loop on sorted demands *)

#[export] Instance budget_le_trans : Transitive budget_le.
Proof.
  intros [a x] [b y] [c z]. unfold budget_le. cbn. intros [?|[-> ?]] [?|[-> ?]]; [left; lia|by left|by left|].
  right. split; [done|]. by etrans.
Qed.
#[export] Instance budget_le_total : Total budget_le.
Proof.
  intros [a x] [b y]. unfold budget_le. cbn. destruct (Z.lt_trichotomy x y) as [?|[-> |?]]; [auto| |auto].
  destruct (total String.le a b); auto.
Qed.

Definition share (capacity r : Z) : Z := capacity / r + (if capacity mod r =? 0 then 0 else 1).

(** The rounded-up share [s]: [r * (s - 1) < capacity <= r * s]. *)
Lemma share_spec c r : 0 <= c -> 0 < r -> r * share c r - r < c <= r * share c r /\ 0 <= share c r.
Proof.
  intros Hc Hr. unfold share. pose proof (Z.div_mod c r ltac:(lia)). pose proof (Z.mod_pos_bound c r Hr).
  pose proof (Z.div_pos c r Hc Hr). destruct (Z.eqb_spec (c mod r) 0); nia.
Qed.

Lemma share_le c r : 0 <= c -> 0 < r -> share c r <= c.
Proof. intros Hc Hr. pose proof (share_spec c r Hc Hr). nia. Qed.

Definition total (l : list (string * Z)) : Z := foldr (fun e n => e.2 + n) 0 l.

Definition demands_ok (l : list (string * Z)) : Prop := Forall (fun e => 0 < e.2 < 2 ^ 64) l.

Lemma share_out_cons c name d rest : 0 <= c < 2 ^ 64 ->
  let r := Z.of_nat (S (length rest)) in
  share_out c ((name, d) :: rest) = (name, Z.min d (share c r)) :: share_out (c - Z.min d (share c r)) rest.
Proof.
  intros Hc. cbn [share_out length]. cbv zeta. set (r := Z.of_nat (S (length rest))). assert (0 < r) by lia.
  pose proof (share_le c r ltac:(lia) ltac:(lia)) as Hs. unfold share in *.
  assert ((if negb (c mod r =? 0) then u64 (c / r + 1) else c / r) = c / r + (if c mod r =? 0 then 0 else 1)) as ->.
  { destruct (c mod r =? 0); cbn [negb]; [lia|]. unfold u64. apply Z.mod_small.
    pose proof (Z.div_pos c r). lia. }
  done.
Qed.

Lemma sorted_total name d rest : StronglySorted budget_le ((name, d) :: rest) ->
  Forall (fun e => d <= e.2) rest /\ d * Z.of_nat (length rest) <= total rest.
Proof.
  intros Hs. apply StronglySorted_inv in Hs as [_ Hall].
  assert (Forall (fun e => d <= e.2) rest) as HF.
  { eapply Forall_impl; [exact Hall|]. intros [n x] [?|[? _]]; cbn in *; lia. }
  split; [done|]. clear Hall. induction HF as [|e rest He HF IH]; cbn [length total foldr]; [lia|]. fold (total rest). nia.
Qed.

(** Everything is handed out until demand or capacity is exhausted. *)
Lemma share_out_total c l : 0 <= c < 2 ^ 64 -> demands_ok l -> StronglySorted budget_le l ->
  total (share_out c l) = Z.min (total l) c.
Proof.
  revert c. induction l as [|[name d] rest IH]; intros c Hc Hd Hs; [cbn; lia|].
  rewrite (share_out_cons c name d rest Hc). apply Forall_cons in Hd as [Hd0 Hd]. cbn [snd] in Hd0.
  pose proof (sorted_total _ _ _ Hs) as [_ Hge]. apply StronglySorted_inv in Hs as [Hs _].
  set (r := Z.of_nat (S (length rest))) in *. assert (0 < r) by lia.
  pose proof (share_spec c r ltac:(lia) ltac:(lia)) as [[H1 H2] H3]. pose proof (share_le c r ltac:(lia) ltac:(lia)).
  cbn [total foldr snd]. fold (total rest) (total (share_out (c - Z.min d (share c r)) rest)). rewrite IH by (done || lia).
  assert (r = Z.of_nat (length rest) + 1) by lia.
  destruct (Z_lt_dec d (share c r)); [lia|]. rewrite (Z.min_r d) by lia. nia.
Qed.

Lemma share_out_names c l : (share_out c l).*1 = l.*1.
Proof. revert c. induction l as [|[n d] l IH]; intros c; [done|]. cbn. by rewrite IH. Qed.

(** ** Fairness *)

Lemma share_out_step c d (rest : list (string * Z)) : 0 <= c < 2 ^ 64 -> 0 < d ->
  let b := Z.min d (share c (Z.of_nat (S (length rest)))) in 0 <= b <= c /\ 0 <= c - b < 2 ^ 64.
Proof.
  intros Hc Hd. cbv zeta. pose proof (share_spec c (Z.of_nat (S (length rest))) ltac:(lia) ltac:(lia)).
  pose proof (share_le c (Z.of_nat (S (length rest))) ltac:(lia) ltac:(lia)). lia.
Qed.

(** Every budget is within its demand. *)
Lemma share_out_within c l i n b : 0 <= c < 2 ^ 64 -> demands_ok l -> share_out c l !! i = Some (n, b) ->
  exists d, l !! i = Some (n, d) /\ 0 <= b <= d.
Proof.
  revert c i. induction l as [|[name d] rest IH]; intros c i Hc Hd; [done|]. apply Forall_cons in Hd as [Hd0 Hd].
  rewrite (share_out_cons c name d rest Hc). pose proof (share_out_step c d rest Hc ltac:(cbn in Hd0; lia)) as Hs.
  cbv zeta in Hs. destruct i as [|i]; cbn.
  - intros [= <- <-]. exists d. split; [done|]. cbn in Hd0. lia.
  - apply IH; [lia|done].
Qed.

(** With at most [s] per head, nobody gets more than [s]. *)
Lemma share_out_cap c l s : 0 <= c < 2 ^ 64 -> demands_ok l -> c <= s * Z.of_nat (length l) ->
  Forall (fun e => s <= e.2) l -> Forall (fun e => e.2 <= s) (share_out c l).
Proof.
  revert c. induction l as [|[name d] rest IH]; intros c Hc Hd Hs Hall; [constructor|].
  rewrite (share_out_cons c name d rest Hc). apply Forall_cons in Hd as [Hd0 Hd], Hall as [Hs0 Hall]. cbn in Hd0, Hs0.
  pose proof (share_out_step c d rest Hc ltac:(lia)) as Hst. cbv zeta in Hst.
  cbn [length] in Hs. set (r := Z.of_nat (S (length rest))) in *. assert (0 < r) by lia.
  pose proof (share_spec c r ltac:(lia) ltac:(lia)) as [[H1 H2] H3].
  assert (share c r <= s) by nia. constructor; [cbn; lia|].
  apply IH; [lia|done| |done]. rewrite Z.min_r by lia. nia.
Qed.

(** With at least [q] per head, nobody unsatisfied gets less than [q]. *)
Lemma share_out_floor c l q i n b d : 0 <= c < 2 ^ 64 -> demands_ok l -> q * Z.of_nat (length l) <= c ->
  share_out c l !! i = Some (n, b) -> l !! i = Some (n, d) -> b < d -> q <= b.
Proof.
  revert c i. induction l as [|[name d'] rest IH]; intros c i Hc Hd Hq; [done|].
  rewrite (share_out_cons c name d' rest Hc). apply Forall_cons in Hd as [Hd0 Hd]. cbn in Hd0.
  pose proof (share_out_step c d' rest Hc ltac:(lia)) as Hst. cbv zeta in Hst.
  cbn [length] in Hq. set (r := Z.of_nat (S (length rest))) in *. assert (0 < r) by lia.
  pose proof (share_spec c r ltac:(lia) ltac:(lia)) as [[H1 H2] H3]. destruct i as [|i]; cbn.
  - intros [= <- <-] [= <-] ?. assert (q <= share c r) by nia. lia.
  - apply IH; [lia|done|]. assert (q * (r - 1) <= c - share c r).
    { destruct (Z_le_dec q (share c r)); [nia|nia]. }
    assert (r - 1 = Z.of_nat (length rest)) as <- by lia. nia.
Qed.

Lemma share_out_fair c l i j n m b b' d : 0 <= c < 2 ^ 64 -> demands_ok l -> StronglySorted budget_le l ->
  share_out c l !! i = Some (n, b) -> l !! i = Some (n, d) -> b < d ->
  share_out c l !! j = Some (m, b') -> b' <= b + 1.
Proof.
  revert c i j. induction l as [|[name d0] rest IH]; intros c i j Hc Hd Hs; [done|].
  rewrite (share_out_cons c name d0 rest Hc). pose proof (sorted_total _ _ _ Hs) as [Hge _].
  apply StronglySorted_inv in Hs as [Hs _]. apply Forall_cons in Hd as [Hd0 Hd]. cbn in Hd0.
  pose proof (share_out_step c d0 rest Hc ltac:(lia)) as Hst. cbv zeta in Hst.
  set (r := Z.of_nat (S (length rest))) in *. assert (0 < r) by lia. assert (r - 1 = Z.of_nat (length rest)) as Er by lia.
  pose proof (share_spec c r ltac:(lia) ltac:(lia)) as [[H1 H2] H3].
  destruct i as [|i], j as [|j]; cbn.
  - intros [= <- <-] _ _ [= <- <-]. lia.
  - intros [= <- <-] [= <-] Hlt Hj. rewrite Z.min_r in * by lia.
    assert (Forall (fun e => e.2 <= share c r) (share_out (c - share c r) rest)) as HF.
    { apply share_out_cap; [lia|done|rewrite <-Er; nia|]. eapply Forall_impl; [exact Hge|]. intros e He. cbn in *. lia. }
    eapply Forall_lookup_1 in HF; [|exact Hj]. cbn in HF. lia.
  - intros Hi Hli Hlt [= <- <-]. assert (share c r - 1 <= b); [|lia].
    eapply (share_out_floor _ rest _ i); [..|exact Hi|exact Hli|exact Hlt]; [lia|done|]. rewrite <-Er. nia.
  - intros Hi Hli Hlt Hj. exact (IH _ i j (proj2 Hst) Hd Hs Hi Hli Hlt Hj).
Qed.

(** ** The budgets of a cluster *)

Lemma total_perm l k : l ≡ₚ k -> total l = total k.
Proof. unfold total. induction 1; cbn in *; lia. Qed.

Section Cluster.
Context (groups : gmap string routeNamespace) (capacity : Z).
Hypothesis Hc : 0 <= capacity < 2 ^ 64.
Hypothesis Hg : map_Forall (fun _ g => 0 <= demand g < 2 ^ 64) groups.

(** The namespaces that compete. *)
Definition competing : list (string * Z) :=
  (fun e => (e.1, demand e.2)) <$> filter (fun e => demand e.2 <> 0 /\ invalid e.2 = false) (map_to_list groups).

Let sorted := merge_sort budget_le competing.

Lemma competing_elem n d : (n, d) ∈ competing <->
  exists g, groups !! n = Some g /\ demand g = d /\ d <> 0 /\ invalid g = false.
Proof.
  unfold competing. rewrite list_elem_of_fmap. split.
  - intros ([n' g] & [= -> ->] & [[? ?] Hin%elem_of_map_to_list]%list_elem_of_filter). eauto.
  - intros (g & Hn & <- & ? & ?). exists (n, g). split; [done|]. apply list_elem_of_filter. split; [done|].
    by apply elem_of_map_to_list.
Qed.

Lemma sorted_ok : demands_ok sorted /\ StronglySorted budget_le sorted /\ NoDup sorted.*1.
Proof.
  pose proof (merge_sort_Permutation budget_le competing : sorted ≡ₚ competing) as Hp. split; [|split].
  - apply Forall_forall. intros [n d] Hin. rewrite Hp in Hin. apply competing_elem in Hin as (g & Hn & <- & ? & _).
    apply Hg in Hn. cbn. lia.
  - apply StronglySorted_merge_sort; apply _.
  - rewrite Hp. unfold competing. rewrite <-list_fmap_compose.
    apply NoDup_fmap_2_strong; [|apply NoDup_filter, NoDup_map_to_list].
    intros [n g] [n' g'] [_ Hx%elem_of_map_to_list]%list_elem_of_filter [_ Hy%elem_of_map_to_list]%list_elem_of_filter.
    cbn. intros ->. by simplify_eq.
Qed.

Lemma budgets_lookup n b : routeBudgets groups capacity !! n = Some b <-> exists i, share_out capacity sorted !! i = Some (n, b).
Proof.
  unfold routeBudgets. fold competing. fold sorted. destruct sorted_ok as (_ & _ & Hnd).
  rewrite <-elem_of_list_to_map, list_elem_of_lookup; [done|]. by rewrite share_out_names.
Qed.

(** Route budgets are fair and exhaustive: exactly the valid namespaces with a
    demand get a budget, none above its demand; together the budgets hand out the whole
    capacity or satisfy everybody, whichever is less; and a namespace that is not
    satisfied is at most one route behind any other. *)
Theorem routeBudgets_fair :
  (forall n, is_Some (routeBudgets groups capacity !! n) <->
     exists g, groups !! n = Some g /\ demand g <> 0 /\ invalid g = false)
  /\ (forall n b, routeBudgets groups capacity !! n = Some b ->
       exists g, groups !! n = Some g /\ 0 <= b <= demand g
         /\ (b < demand g -> forall m b', routeBudgets groups capacity !! m = Some b' -> b' <= b + 1))
  /\ total (map_to_list (routeBudgets groups capacity)) = Z.min (total competing) capacity.
Proof.
  destruct sorted_ok as (Hok & Hss & Hnd).
  pose proof (merge_sort_Permutation budget_le competing : sorted ≡ₚ competing) as Hp. split; [|split].
  - intros n. trans (n ∈ sorted.*1).
    + rewrite <-(share_out_names capacity sorted). rewrite list_elem_of_fmap. split.
      * intros [b [i Hi]%budgets_lookup]. exists (n, b). split; [done|]. by eapply list_elem_of_lookup_2.
      * intros ([n' b] & -> & [i Hi]%list_elem_of_lookup). exists b. apply budgets_lookup. eauto.
    + rewrite Hp, list_elem_of_fmap. split.
      * intros ([n' d] & -> & (g & ? & <- & ? & ?)%competing_elem). eauto.
      * intros (g & ? & ? & ?). exists (n, demand g). split; [done|]. apply competing_elem. eauto.
  - intros n b [i Hi]%budgets_lookup. destruct (share_out_within _ _ _ _ _ Hc Hok Hi) as (d & Hd & Hb).
    pose proof (list_elem_of_lookup_2 _ _ _ Hd) as Hin. rewrite Hp in Hin.
    apply competing_elem in Hin as (g & Hn & <- & _). exists g. split; [done|]. split; [done|].
    intros Hlt m b' [j Hj]%budgets_lookup. exact (share_out_fair capacity sorted i j _ _ _ _ _ Hc Hok Hss Hi Hd Hlt Hj).
  - rewrite (total_perm (map_to_list (routeBudgets groups capacity)) (share_out capacity sorted)).
    + rewrite (share_out_total _ _ Hc Hok Hss). by rewrite (total_perm _ _ Hp).
    + unfold routeBudgets. fold competing. fold sorted. apply map_to_list_to_map. by rewrite share_out_names.
Qed.
End Cluster.

(** Three namespaces competing for ten routes; a fourth one is invalid. *)
Definition demo_groups : gmap string routeNamespace :=
  list_to_map [("a", MkNamespace 2 false); ("b", MkNamespace 9 false); ("c", MkNamespace 9 false);
               ("d", MkNamespace 5 true)].

Lemma routeBudgets_fair_witness :
  routeBudgets demo_groups 10 !! "b" = Some 4 /\ routeBudgets demo_groups 10 !! "d" = None
  /\ total (map_to_list (routeBudgets demo_groups 10)) = 10.
Proof.
  assert (map_Forall (fun _ g => 0 <= demand g < 2 ^ 64) demo_groups) as Hg.
  { unfold demo_groups. repeat (apply map_Forall_insert_2; [cbn; lia|]). apply map_Forall_empty. }
  destruct (routeBudgets_fair demo_groups 10 ltac:(lia) Hg) as (_ & _ & Ht).
  split; [by vm_compute|]. split; [by vm_compute|]. rewrite Ht. by vm_compute.
Defined.
