(* ===== verification/Routes.v ===== *)
(** * Route tables (datapath/routes.go; [route_of], [routes_blocked], [route_next_hop] of
    bpf/overlay.c)

    The agent publishes a per-VPC route table and a bitmap of blocked scopes under one
    global guard, and remembers the bitmap cells it wrote to rewrite only what changed.
    Shown here: no packet meets a half-written table, the remembered cells never diverge
    from the kernel whatever call fails, and the datapath lookup means the published
    routes. *)

From S2P Require Import Prelude GoNet AddrMap KernelMap Lpm Verdict.
Local Open Scope Z_scope.

(** [RouteNextHop], datapath/routes.go:58-61. *)
Record RouteNextHop := MkRouteNextHop { nh_GwIP : option IP; nh_NodeIP : option IP }.

(** [RouteEntry], datapath/routes.go:41-51. *)
Record RouteEntry := MkRouteEntry {
  Scope : Z; CIDR : string; NextHops : list RouteNextHop;
  GwIP : option IP; NodeIP : option IP; VPN : bool
}.

(** [routeFlagVPN], datapath/routes.go:54-54. *)
Definition routeFlagVPN : Z := 1.

(** [overlayGwEntry], datapath/overlay_bpfel.go:195-200. *)
Record overlayGwEntry := MkGwEntry { ge_GwIp : list Z; ge_NodeIp : Z }.

(** [overlayRouteEntry], datapath/overlay_bpfel.go:329-335. *)
Record overlayRouteEntry := MkOverlayRoute { re_NextHops : list overlayGwEntry; re_Count : Z; re_Flags : Z }.

#[export] Instance overlayGwEntry_eq_dec : EqDecision overlayGwEntry.
Proof. solve_decision. Defined.
#[export] Instance overlayRouteEntry_eq_dec : EqDecision overlayRouteEntry.
Proof. solve_decision. Defined.

Definition zero_hop : overlayGwEntry := MkGwEntry (replicate 16 0) 0.

(** [overlayRouteScopeGuard], datapath/overlay_bpfel.go:337-340: 128 words of 32 bits. *)
Definition overlayRouteScopeGuard : Type := list Z.
Definition zero_cell : list Z := replicate 128 0.

(** ** One route *)

(** [routeMapEntry], one next hop, datapath/routes.go:186-199. *)
Definition hop_entry (nextHop : RouteNextHop) : result overlayGwEntry :=
  gw ← addr128 (default [] (nh_GwIP nextHop));
  match nh_NodeIP nextHop with
  | None => mret (MkGwEntry gw 0)
  | Some n =>
      match To4 n with
      | None => Err "route node IP is not IPv4"
      | Some n4 => mret (MkGwEntry gw (be n4))
      end
  end.

(** [routeMapEntry], the next hops in effect, datapath/routes.go:170-173. *)
Definition effective_hops (d : RouteEntry) : list RouteNextHop :=
  match NextHops d, GwIP d with
  | [], Some gw => [MkRouteNextHop (Some gw) (NodeIP d)]
  | hops, _ => hops
  end.

(** [routeMapEntry], datapath/routes.go:165-201. *)
Definition routeMapEntry (d : RouteEntry) : result (overlayLpmKey * overlayRouteEntry) :=
  key ← lpmKey (Scope d) (CIDR d);
  let nextHops := effective_hops d in
  if decide (2 < length nextHops)%nat then Err "too many next-hops"
  else
    let count := if decide (length nextHops = 2)%nat then 2 else 1 in
    let flags := if VPN d && bool_decide (0 < length nextHops)%nat then routeFlagVPN else 0 in
    hops ← foldM (fun out nh => e ← hop_entry nh; mret (out ++ [e])) [] nextHops;
    mret (key, MkOverlayRoute (take 2 (hops ++ [zero_hop; zero_hop])) count flags).

(** ** The kernel maps and the manager's memory of the cells it wrote *)

Record RtState := MkRtState {
  RouteGuard : gmap Z Z;
  VpcRoutes : gmap overlayLpmKey overlayRouteEntry;
  RouteScopes : gmap Z (list Z);
  routeScopeCells : gmap Z (list Z);
  routeScopeSeeded : bool
}.

Definition L_guard : Lens RtState (gmap Z Z) :=
  MkLens RouteGuard (fun t s => MkRtState t (VpcRoutes s) (RouteScopes s) (routeScopeCells s) (routeScopeSeeded s)).
Definition L_routes : Lens RtState (gmap overlayLpmKey overlayRouteEntry) :=
  MkLens VpcRoutes (fun t s => MkRtState (RouteGuard s) t (RouteScopes s) (routeScopeCells s) (routeScopeSeeded s)).
Definition L_scopes : Lens RtState (gmap Z (list Z)) :=
  MkLens RouteScopes (fun t s => MkRtState (RouteGuard s) (VpcRoutes s) t (routeScopeCells s) (routeScopeSeeded s)).
Definition L_cells : Lens RtState (gmap Z (list Z)) :=
  MkLens routeScopeCells (fun t s => MkRtState (RouteGuard s) (VpcRoutes s) (RouteScopes s) t (routeScopeSeeded s)).
Definition L_seeded : Lens RtState bool :=
  MkLens routeScopeSeeded (fun t s => MkRtState (RouteGuard s) (VpcRoutes s) (RouteScopes s) (routeScopeCells s) t).

#[export] Instance rt_routes_laws : LensLaws L_routes.
Proof. split; [done|by intros []|done]. Qed.

Section Manager.
Context `{Runtime} (cap : nat) (scopes_loaded : bool).

(** [Manager.BlockRoutes], datapath/routes.go:67-71. *)
Definition BlockRoutes : M RtState unit := PutArray L_guard 0 1.

(** [want], the routes of a snapshot, datapath/routes.go:87-99. *)
Definition routes_want (desired : list RouteEntry) : result (gmap overlayLpmKey overlayRouteEntry) :=
  foldM (fun want d =>
    if (Scope d =? 0) || (Z.shiftl 1 22 <=? Scope d) then Err "route scope outside tenant VNI range"
    else '(key, e) ← routeMapEntry d; putDesired cap want key e) ∅ desired.

(** [cells], one blocked scope, datapath/routes.go:105-108. *)
Definition block_scope (cells : gmap Z (list Z)) (scope : Z) : gmap Z (list Z) :=
  let page := Z.shiftr scope 12 in
  let cell := default zero_cell (cells !! page) in
  <[page := alter (fun w => Z.lor w (Z.shiftl 1 (Z.land scope 31)))
              (Z.to_nat (Z.land (Z.shiftr scope 5) 127)) cell]> cells.

(** [cells], the bitmap of the blocked scopes, datapath/routes.go:100-109. *)
Definition blocked_cells (blocked : list Z) : result (gmap Z (list Z)) :=
  foldM (fun cells scope =>
    if (scope =? 0) || (Z.shiftl 1 22 <=? scope) then Err "blocked scope outside tenant VNI range"
    else Ok (block_scope cells scope)) ∅ blocked.

(** [put] of [syncRouteScopes], datapath/routes.go:126-138. *)
Definition put_cell (page : Z) (cell : list Z) : M RtState unit :=
  _ ← PutArray L_scopes page cell;
  s ← read;
  write (update L_cells (if decide (cell = zero_cell) then delete page (routeScopeCells s)
                         else <[page := cell]> (routeScopeCells s)) s).

(** [Manager.syncRouteScopes], datapath/routes.go:119-163. *)
Definition syncRouteScopes (want : gmap Z (list Z)) : M RtState unit :=
  if negb scopes_loaded then fail "route scope guard unavailable"
  else
    s ← read;
    if negb (routeScopeSeeded s) then
      _ ← forM (fun page => put_cell page (default zero_cell (want !! page))) (seqZ 0 1024);
      s ← read;
      write (update L_seeded true s)
    else
      cells ← arrange (routeScopeCells s);
      _ ← forM (fun '(page, cell) =>
        let next := default zero_cell (want !! page) in
        if decide (next = cell) then mret tt else put_cell page next) cells;
      desired ← arrange want;
      forM (fun '(page, cell) =>
        s ← read;
        if decide (default zero_cell (routeScopeCells s !! page) = cell) then mret tt
        else put_cell page cell) desired.

(** [Manager.SyncRoutesScoped], datapath/routes.go:81-117. *)
Definition SyncRoutesScoped (desired : list RouteEntry) (blocked : list Z) : M RtState unit :=
  _ ← PutArray L_guard 0 1;
  want ← lift (routes_want desired);
  cells ← lift (blocked_cells blocked);
  _ ← syncMap L_routes cap want;
  _ ← syncRouteScopes cells;
  PutArray L_guard 0 0.

(** [Manager.SyncRoutes], datapath/routes.go:75-77. *)
Definition SyncRoutes (desired : list RouteEntry) : M RtState unit := SyncRoutesScoped desired [].
End Manager.

(** ** The datapath *)

(** [route_of], bpf/overlay.c:2469-2473. *)
Definition route_of (s : RtState) (scope : Z) (addr : list Z) : option overlayRouteEntry :=
  lpm_find (VpcRoutes s) (data (MkLpmKey (32 + 128) scope addr)).

(** [routes_blocked], bpf/overlay.c:2699-2708. *)
Definition routes_blocked (s : RtState) (scope : Z) : bool :=
  match RouteGuard s !! 0 with
  | None => true
  | Some blocked =>
      if negb (blocked =? 0) then true
      else
        match RouteScopes s !! Z.shiftr scope 12 with
        | None => true
        | Some scopes =>
            negb (Z.land (default 0 (scopes !! Z.to_nat (Z.land (Z.shiftr scope 5) 127)))
                         (Z.shiftl 1 (Z.land scope 31)) =? 0)
        end
  end.

(** [route_next_hop], bpf/overlay.c:2684-2697: the hop a flow takes, from its packet's
    addresses and protocol. *)
Definition route_next_hop (route : option overlayRouteEntry) (src dst : list Z) (proto : Z) : option overlayGwEntry :=
  match route with
  | None => None
  | Some route =>
      if (re_Count route =? 0) || (2 <? re_Count route) then None
      else
        let src := be (reverse (drop 12 src)) in
        let dst := be (reverse (drop 12 dst)) in
        let hash := Z.lxor (Z.lxor src (u32 (Z.shiftl dst 1))) proto in
        let hash := u32 (hash * 2654435761) in
        let hash := Z.lxor hash (Z.shiftr hash 16) in
        if (re_Count route =? 1) || (Z.land hash 1 =? 0) then re_NextHops route !! 0%nat
        else re_NextHops route !! 1%nat
  end.

(** [vpn_route], bpf/overlay.c:2491-2497. *)
Definition vpn_route (s : RtState) (net : Z) (addr : list Z) : option overlayRouteEntry :=
  match route_of s net addr with
  | None => None
  | Some route =>
      if (Z.land (re_Flags route) routeFlagVPN =? 0) || (re_Count route =? 0) || (2 <? re_Count route) then None
      else Some route
  end.

(** [vpn_appliance_source], bpf/overlay.c:2502-2516; [local_of] is the endpoint lookup, as an
    interface index. *)
Definition vpn_appliance_source (local_of : Z -> list Z -> option Z) (s : RtState)
    (net : Z) (src : list Z) (ifindex : Z) : bool :=
  match vpn_route s net src with
  | None => false
  | Some route =>
      existsb (fun hop =>
        match local_of net (ge_GwIp hop) with Some i => i =? ifindex | None => false end)
        (take (Z.to_nat (re_Count route)) (re_NextHops route))
  end.

(** ** The blocked-scope bitmap *)

Definition cell_of (cells : gmap Z (list Z)) (page : Z) : list Z := default zero_cell (cells !! page).

(** The bit of a scope. *)
Definition scope_bit (cell : list Z) (scope : Z) : bool :=
  Z.testbit (default 0 (cell !! Z.to_nat (Z.land (Z.shiftr scope 5) 127))) (Z.land scope 31).

Definition tenant (scope : Z) : Prop := 0 <= scope < 2 ^ 22.

Lemma scope_split scope : tenant scope ->
  scope = Z.shiftr scope 12 * 4096 + Z.land (Z.shiftr scope 5) 127 * 32 + Z.land scope 31
  /\ 0 <= Z.land (Z.shiftr scope 5) 127 < 128 /\ 0 <= Z.land scope 31 < 32 /\ 0 <= Z.shiftr scope 12 < 1024.
Proof.
  intros Hs. unfold tenant in Hs. change 31 with (Z.ones 5). change 127 with (Z.ones 7).
  rewrite !Z.land_ones, !Z.shiftr_div_pow2 by lia. change (2 ^ 22) with 4194304 in Hs.
  change (2 ^ 12) with 4096. change (2 ^ 5) with 32. change (2 ^ 7) with 128.
  assert (scope / 4096 = scope / 32 / 128) as -> by (rewrite Z.div_div by lia; done).
  pose proof (Z.div_mod scope 32). pose proof (Z.div_mod (scope / 32) 128).
  pose proof (Z.mod_pos_bound scope 32). pose proof (Z.mod_pos_bound (scope / 32) 128). lia.
Qed.

Lemma block_scope_length cells scope : (forall p, length (cell_of cells p) = 128%nat) ->
  forall p, length (cell_of (block_scope cells scope) p) = 128%nat.
Proof.
  intros Hl p. unfold cell_of, block_scope. destruct (decide (p = Z.shiftr scope 12)) as [->|Hne].
  - rewrite lookup_insert_eq. cbn. rewrite length_alter. apply Hl.
  - rewrite lookup_insert_ne by done. apply Hl.
Qed.

Lemma block_scope_bit cells scope t : (forall p, length (cell_of cells p) = 128%nat) -> tenant scope -> tenant t ->
  scope_bit (cell_of (block_scope cells scope) (Z.shiftr t 12)) t
  = scope_bit (cell_of cells (Z.shiftr t 12)) t || bool_decide (t = scope).
Proof.
  intros Hl Hs Ht. pose proof (scope_split _ Hs) as (Es & Hw & Hb & _). pose proof (scope_split _ Ht) as (Et & Hw' & Hb' & _).
  set (pg := Z.shiftr scope 12) in *. set (wd := Z.land (Z.shiftr scope 5) 127) in *. set (bt := Z.land scope 31) in *.
  set (pg' := Z.shiftr t 12) in *. set (wd' := Z.land (Z.shiftr t 5) 127) in *. set (bt' := Z.land t 31) in *.
  unfold scope_bit, cell_of, block_scope. fold pg wd bt wd' bt'. destruct (decide (pg' = pg)) as [Ep|Hne].
  2: { rewrite lookup_insert_ne by done. rewrite (bool_decide_false (t = scope)), orb_false_r by lia. done. }
  rewrite Ep, lookup_insert_eq. cbn [default id]. fold (cell_of cells pg).
  destruct (decide (wd' = wd)) as [Ew|Hne].
  - rewrite Ew, list_lookup_alter.
    destruct (lookup_lt_is_Some_2 (cell_of cells pg) (Z.to_nat wd)) as [w Hwd]; [rewrite Hl; lia|].
    rewrite Hwd. cbn [fmap option_fmap option_map default id from_option].
    rewrite decide_True by done. cbn [default id]. rewrite Z.lor_spec, bit_shift by lia. f_equal.
    apply bool_decide_ext. split; [lia|]. intros E. unfold bt, bt'. by rewrite E.
  - rewrite list_lookup_alter_ne by lia. rewrite (bool_decide_false (t = scope)), orb_false_r by lia. done.
Qed.

Lemma blocked_cells_bits blocked cells : Forall (fun x => 0 <= x) blocked -> blocked_cells blocked = Ok cells ->
  forall t, tenant t -> scope_bit (cell_of cells (Z.shiftr t 12)) t = true <-> t ∈ blocked.
Proof.
  intros Hpos Hc. cut ((forall p, length (cell_of cells p) = 128%nat) /\
    forall t, tenant t -> scope_bit (cell_of cells (Z.shiftr t 12)) t = true <-> t ∈ blocked); [tauto|].
  revert Hc. apply (foldM_invariant _ (fun pre cells => (forall p, length (cell_of cells p) = 128%nat) /\
    forall t, tenant t -> scope_bit (cell_of cells (Z.shiftr t 12)) t = true <-> t ∈ pre)).
  - split; [intros p; unfold cell_of; rewrite lookup_empty; cbn [default]; apply length_replicate|].
    intros t Ht. unfold cell_of, scope_bit. rewrite lookup_empty. cbn [default]. unfold zero_cell.
    rewrite lookup_replicate_2 by (pose proof (scope_split _ Ht); lia). cbn [default id]. rewrite Z.bits_0.
    split; [done|]. intros []%not_elem_of_nil.
  - intros pre scope post a a' -> [Hl Hb]. destruct (_ || _) eqn:E; [done|]. intros [= <-].
    assert (tenant scope) as Hs.
    { apply Forall_app in Hpos as [_ Hpos]. apply Forall_cons in Hpos as [? _]. to_prop. unfold tenant.
      change (Z.shiftl 1 22) with (2 ^ 22) in *. lia. }
    split; [by apply block_scope_length|]. intros t Ht.
    rewrite block_scope_bit, orb_true_iff, Hb, bool_decide_eq_true by done. set_solver.
Qed.

(** ** Publishing the bitmap *)

(** The guard and the routes are untouched. *)
Definition same (s s' : RtState) : Prop := RouteGuard s' = RouteGuard s /\ VpcRoutes s' = VpcRoutes s.

(** The manager remembers what the kernel holds. *)
Definition agree (s : RtState) : Prop :=
  forall p, 0 <= p < 1024 -> RouteScopes s !! p = Some (cell_of (routeScopeCells s) p).
Definition memo_ok (s : RtState) : Prop := routeScopeSeeded s = true -> agree s.

Definition published (want : gmap Z (list Z)) (s : RtState) : Prop :=
  forall p, 0 <= p < 1024 -> RouteScopes s !! p = Some (cell_of want p).

(** One cell has been written and remembered. *)
Definition cell_written (page : Z) (cell : list Z) (s s' : RtState) : Prop :=
  same s s' /\ routeScopeSeeded s' = routeScopeSeeded s /\ RouteScopes s' = <[page := cell]> (RouteScopes s) /\
  forall p, cell_of (routeScopeCells s') p = if decide (p = page) then cell else cell_of (routeScopeCells s) p.

Lemma cell_written_agree page cell s s' : cell_written page cell s s' -> agree s -> agree s'.
Proof.
  intros (_ & _ & Es & Ec) Ha p Hp. rewrite Es, Ec. case_decide as E; [subst; apply lookup_insert_eq|].
  rewrite lookup_insert_ne by done. auto.
Qed.

Section Publish.
Context `{Runtime}.

Lemma wp_put_cell page cell I (Q : result unit -> RtState -> Prop) s :
  (forall s', same s s' -> I s') ->
  (forall n e, fault n = Some e -> Q (Err e) s) ->
  (forall s', cell_written page cell s s' -> Q (Ok tt) s') ->
  wp (put_cell page cell) I Q s.
Proof.
  intros HI He Hok. apply wp_bind, wp_PutArray; [done|]. split; [by apply HI|].
  apply wp_bind, wp_read, wp_write; [by apply HI|]. apply Hok. split; [done|]. split; [done|]. split; [done|].
  intros p. unfold cell_of. cbn [update view L_cells L_scopes routeScopeCells]. 
  destruct (decide (cell = zero_cell)) as [-> |Hz], (decide (p = page)) as [-> |Hne].
  - by rewrite lookup_delete_eq.
  - by rewrite lookup_delete_ne.
  - by rewrite lookup_insert_eq.
  - by rewrite lookup_insert_ne.
Qed.

Context (want : gmap Z (list Z)) (I : RtState -> Prop) (Q : result unit -> RtState -> Prop) (s0 : RtState).
Hypothesis HI : forall s, same s0 s -> I s.
Hypothesis Herr : forall e s, same s0 s -> memo_ok s -> Q (Err e) s.

(** A loop that brings the cells [pages] to their desired value, starting from cells that
    agree with the kernel. *)
Lemma wp_cells_loop {A} (pages : list A) (page_of : A -> Z) (step : A -> M RtState unit) (cells1 : Z -> list Z) s1 :
  same s0 s1 -> routeScopeSeeded s1 = true -> agree s1 -> (forall p, cell_of (routeScopeCells s1) p = cells1 p) ->
  (forall x pre post s (R : result unit -> RtState -> Prop), pages = pre ++ x :: post -> same s0 s -> (page_of x ∉ page_of <$> pre ->
     cell_of (routeScopeCells s) (page_of x) = cells1 (page_of x)) ->
     (forall n e, fault n = Some e -> R (Err e) s) ->
     (cell_of (routeScopeCells s) (page_of x) = cell_of want (page_of x) -> R (Ok tt) s) ->
     (forall s', cell_written (page_of x) (cell_of want (page_of x)) s s' -> R (Ok tt) s') ->
     wp (step x) I R s) ->
  (forall s, same s0 s -> routeScopeSeeded s = true -> agree s ->
     (forall p, cell_of (routeScopeCells s) p = if decide (p ∈ page_of <$> pages) then cell_of want p else cells1 p) ->
     Q (Ok tt) s) ->
  wp (forM step pages) I Q s1.
Proof.
  intros Hs1 Hd1 Ha1 Hc1 Hstep Hend.
  apply (wp_forM _ _ (fun pre s => same s0 s /\ routeScopeSeeded s = true /\ agree s /\
    forall p, cell_of (routeScopeCells s) p = if decide (p ∈ page_of <$> pre) then cell_of want p else cells1 p)).
  - repeat (split; [done|]). intros p. rewrite decide_False; [done|]. apply not_elem_of_nil.
  - intros pre x post s E (Hs & Hd & Ha & Hc). apply (Hstep x pre post); [done|done|..].
    + intros Hn. by rewrite Hc, decide_False.
    + intros n e Hf. apply Herr; [done|]. by intros _.
    + intros Ex. repeat (split; [done|]). intros p. rewrite Hc. rewrite fmap_app. cbn.
      destruct (decide (p = page_of x)) as [-> |Hne].
      * rewrite (decide_True _ _ (P := page_of x ∈ (page_of <$> pre) ++ [page_of x])) by set_solver.
        rewrite <-Hc. done.
      * apply decide_ext. set_solver.
    + intros s' Hw. pose proof Hw as ([Hg Hr] & Hd' & _ & Hc'). split; [by destruct Hs; split; congruence|].
      split; [by rewrite Hd'|]. split; [by eapply cell_written_agree|].
      intros p. rewrite Hc', fmap_app. cbn. destruct (decide (p = page_of x)) as [-> |Hne].
      * rewrite (decide_True _ _ (P := page_of x ∈ (page_of <$> pre) ++ [page_of x])) by set_solver. done.
      * rewrite Hc. apply decide_ext. set_solver.
  - intros s (Hs & Hd & Ha & Hc). by apply Hend.
Qed.
End Publish.

Section Scopes.
Context `{Runtime} (want : gmap Z (list Z)) (I : RtState -> Prop) (Q : result unit -> RtState -> Prop) (s0 : RtState).
Hypothesis HI : forall s, same s0 s -> I s.
Hypothesis Herr : forall e s, same s0 s -> memo_ok s -> Q (Err e) s.
Hypothesis Hok : forall s, same s0 s -> memo_ok s -> published want s -> Q (Ok tt) s.

(** The first pass writes every cell. *)
Lemma wp_seed : routeScopeSeeded s0 = false ->
  wp (_ ← forM (fun page => put_cell page (default zero_cell (want !! page))) (seqZ 0 1024);
      s ← read; write (update L_seeded true s)) I Q s0.
Proof.
  intros Hd. apply wp_bind. apply (wp_forM _ _ (fun pre s => same s0 s /\ routeScopeSeeded s = false /\
    forall p, p ∈ pre -> RouteScopes s !! p = Some (cell_of want p) /\ cell_of (routeScopeCells s) p = cell_of want p)).
  - split; [done|]. split; [done|]. intros p []%not_elem_of_nil.
  - intros pre page post s _ (Hs & Hd' & Hp). apply wp_put_cell.
    + intros s' [Hg Hr]. apply HI. destruct Hs. split; congruence.
    + intros n e _. apply Herr; [done|]. intros E. by rewrite Hd' in E.
    + intros s' ([Hg Hr] & Hd'' & Es & Ec). split; [by destruct Hs; split; congruence|]. split; [by rewrite Hd''|].
      intros p Hin. rewrite Es, Ec. destruct (decide (p = page)) as [-> |Hne].
      * by rewrite lookup_insert_eq.
      * rewrite lookup_insert_ne by done. apply Hp. set_solver.
  - intros s (Hs & _ & Hp). apply wp_bind, wp_read. apply wp_write; [by apply HI|].
    assert (forall p, 0 <= p < 1024 -> RouteScopes s !! p = Some (cell_of want p) /\ cell_of (routeScopeCells s) p = cell_of want p)
      as Hp' by (intros p Hb; apply Hp, elem_of_seqZ; lia).
    apply Hok; [done| |].
    + intros _ p Hb. cbn. destruct (Hp' p Hb) as [-> ->]. done.
    + intros p Hb. cbn. by apply Hp'.
Qed.

(** Later passes clear or change the remembered cells, then write the rest. *)
Lemma wp_second_loop cells s1 : cells ≡ₚ map_to_list (routeScopeCells s0) ->
  same s0 s1 -> routeScopeSeeded s1 = true -> agree s1 ->
  (forall p, cell_of (routeScopeCells s1) p = if decide (p ∈ cells.*1) then cell_of want p else cell_of (routeScopeCells s0) p) ->
  wp (desired ← arrange want; forM (fun '(page, cell) => s ← read;
      if decide (default zero_cell (routeScopeCells s !! page) = cell) then mret tt else put_cell page cell) desired) I Q s1.
Proof.
  intros Hcells Hs1 Hd1 Ha1 Hc1. apply wp_bind, wp_arrange. intros desired Hdes.
  eapply (wp_cells_loop want I Q s0 HI Herr desired fst); [done|done|done|exact Hc1| |].
  - intros [page cell] pre post s R -> Hs _ He Hskip Hput. apply wp_bind, wp_read. cbn [fst] in *.
    assert (want !! page = Some cell) as Hw by (apply elem_of_map_to_list; rewrite <-Hdes; set_solver).
    assert (cell_of want page = cell) as Hcw by (unfold cell_of; by rewrite Hw). rewrite Hcw in *.
    fold (cell_of (routeScopeCells s) page). case_decide; [apply wp_ret; auto|]. apply wp_put_cell; [|done|done].
    intros s' [? ?]. apply HI. destruct Hs; split; congruence.
  - intros s Hs Hd Ha Hc. apply Hok; [done|by intros _|]. intros p Hp. rewrite Ha, Hc by done. f_equal.
    destruct (decide (p ∈ desired.*1)) as [|E]; [done|]. destruct (decide (p ∈ cells.*1)) as [|E']; [done|].
    assert (routeScopeCells s0 !! p = None) as Hn0.
    { apply eq_None_not_Some. intros [v Hv]. apply E'. rewrite Hcells. apply list_elem_of_fmap. exists (p, v).
      split; [done|]. by apply elem_of_map_to_list. }
    assert (want !! p = None) as Hnw.
    { apply eq_None_not_Some. intros [v Hv]. apply E. rewrite Hdes. apply list_elem_of_fmap. exists (p, v).
      split; [done|]. by apply elem_of_map_to_list. }
    unfold cell_of. by rewrite Hn0, Hnw.
Qed.

Lemma wp_syncRouteScopes loaded : memo_ok s0 -> wp (syncRouteScopes loaded want) I Q s0.
Proof.
  intros Hm. unfold syncRouteScopes. destruct loaded; [|apply wp_fail; by apply Herr]. cbn [negb].
  apply wp_bind, wp_read. destruct (routeScopeSeeded s0) eqn:Hd; [|by apply wp_seed]. cbn [negb].
  apply wp_bind, wp_arrange. intros cells Hcells. apply wp_bind.
  eapply (wp_cells_loop want I _ s0 HI _ cells fst); [done|done|by apply Hm|done| |].
  - intros [page cell] pre post s R -> Hs Hfresh He Hskip Hput. cbv zeta. cbn [fst] in *.
    fold (cell_of want page). assert (cell_of (routeScopeCells s0) page = cell) as Hc0.
    { unfold cell_of. assert (routeScopeCells s0 !! page = Some cell) as ->; [|done].
      apply elem_of_map_to_list. rewrite <-Hcells. set_solver. }
    assert (page ∉ pre.*1) as Hnew.
    { pose proof (NoDup_fst_map_to_list (routeScopeCells s0)) as Hnd. rewrite <-Hcells, fmap_app in Hnd.
      apply NoDup_app in Hnd as (_ & Hdisj & _). intros Hin. apply (Hdisj _ Hin). set_solver. }
    rewrite Hc0 in Hfresh. case_decide as E; [apply wp_ret, Hskip; rewrite E; auto|]. apply wp_put_cell; [|done|done].
    intros s' [? ?]. apply HI. destruct Hs; split; congruence.
  - intros s Hs Hd' Ha Hc. by eapply wp_second_loop.
Unshelve. done.
Qed.
End Scopes.

(** ** A pass *)

Definition rt_armed (s : RtState) : Prop := RouteGuard s !! 0 = Some 1.

(** The kernel holds exactly the compiled routes and blocked scopes, and the guard is down. *)
Definition rt_complete (cap : nat) (desired : list RouteEntry) (blocked : list Z) (s : RtState) : Prop :=
  routes_want cap desired = Ok (VpcRoutes s) /\
  (exists cells, blocked_cells blocked = Ok cells /\ published cells s) /\
  RouteGuard s !! 0 = Some 0.

Definition rt_post (cap : nat) (desired : list RouteEntry) (blocked : list Z) (s0 : RtState) (r : result unit) (s : RtState) : Prop :=
  match r with Ok _ => rt_complete cap desired blocked s | Err _ => rt_armed s \/ s = s0 end.

Lemma wp_SyncRoutesScoped `{Runtime} cap loaded desired blocked s : memo_ok s ->
  wp (SyncRoutesScoped cap loaded desired blocked) (fun s => rt_armed s \/ rt_complete cap desired blocked s)
    (fun r s' => memo_ok s' /\ rt_post cap desired blocked s r s') s.
Proof.
  intros Hm. apply wp_bind, wp_PutArray; [intros; split; [done|by right]|]. cbv zeta.
  set (s1 := update L_guard _ s). assert (rt_armed s1) as Ha by apply lookup_insert_eq.
  assert (memo_ok s1) as Hm1 by exact Hm. clearbody s1. split; [by left|].
  apply wp_bind, wp_lift. destruct (routes_want cap desired) as [want|] eqn:Ew; [|split; [done|by left]].
  apply wp_bind, wp_lift. destruct (blocked_cells blocked) as [cells|] eqn:Ec; [|split; [done|by left]].
  apply wp_bind. apply (wp_syncMap L_routes); [intros; by left|intros; split; [done|by left]|]. intros _.
  set (s2 := update L_routes want s1). assert (memo_ok s2) as Hm2 by exact Hm1.
  assert (rt_armed s2) as Ha2 by exact Ha. assert (VpcRoutes s2 = want) as Hr2 by done. clearbody s2.
  apply wp_bind, wp_syncRouteScopes; [| | |done].
  - intros s' [Hg _]. left. unfold rt_armed. by rewrite Hg.
  - intros e s' [Hg _] Hm'. split; [done|]. left. unfold rt_armed. by rewrite Hg.
  - intros s' [Hg Hr] Hm' Hp. apply wp_PutArray; [intros; split; [done|]; left; unfold rt_armed; by rewrite Hg|].
    assert (rt_complete cap desired blocked (update L_guard (<[0 := 0]> (view L_guard s')) s')) as Hc.
    { split; [cbn; by rewrite Hr, Hr2|]. split; [eauto|]. apply lookup_insert_eq. }
    split; [by right|]. split; [exact Hm'|exact Hc].
Qed.

(** A manager that has not yet written a cell, on whatever the pinned maps hold. *)
Definition new_manager (guard : gmap Z Z) (routes : gmap overlayLpmKey overlayRouteEntry) (scopes : gmap Z (list Z)) : RtState :=
  MkRtState guard routes scopes ∅ false.

(** Passes made so far, whether they failed or not. *)
Definition past `{Runtime} (cap : nat) (loaded : bool) : list (list RouteEntry * list Z) -> M RtState unit :=
  forM (fun '(desired, blocked) => _ ← attempt (SyncRoutesScoped cap loaded desired blocked); mret tt).

Lemma wp_past `{Runtime} cap loaded passes s : memo_ok s ->
  wp (past cap loaded passes) (fun _ => True) (fun _ s' => memo_ok s') s.
Proof.
  intros Hm. apply (wp_forM _ _ (fun _ s => memo_ok s)); [done| |done].
  intros pre [desired blocked] post s' _ Hm'. apply wp_bind, wp_attempt.
  eapply wp_mono; [by apply wp_SyncRoutesScoped|done|]. intros r s'' [? _]. by apply wp_ret.
Qed.

(** C27. Route updates are atomic for packets and recover from any failure: after any number
    of earlier passes, failed or not, whatever calls fail now, every kernel state of a pass
    has off-VPC egress closed or is the complete new snapshot; an error leaves it closed (or,
    if even the guard write failed, changes nothing); and success leaves exactly the new
    routes and exactly the new blocked scopes in all 1024 cells, although the manager only
    rewrites the cells it believes have changed. *)
Theorem SyncRoutesScoped_guarded `{Runtime} cap loaded guard routes scopes clk log passes desired blocked :
  let w := (past cap loaded passes (MkWorld clk (new_manager guard routes scopes) log)).1 in
  let '(w', r) := SyncRoutesScoped cap loaded desired blocked w in
  rt_post cap desired blocked (kern w) r (kern w') /\
  exists new, hist w' = new ++ hist w /\ Forall (fun s => rt_armed s \/ rt_complete cap desired blocked s) new.
Proof.
  intros w. assert (memo_ok (kern w)) as Hm.
  { by apply (wp_past cap loaded passes (new_manager guard routes scopes)). }
  destruct (wp_SyncRoutesScoped cap loaded desired blocked (kern w) Hm w eq_refl) as ([_ Hp] & Hn).
  by destruct (SyncRoutesScoped cap loaded desired blocked w).
Qed.

(** ** What the published table means *)

(** The prefix a CIDR text denotes. *)
Definition cidr_prefix (text : string) : option Prefix :=
  '(_, net) ← ParseCIDR text;
  match normalizedCIDR (Some net) with Ok p => Some p | Err _ => None end.

Lemma cidr_prefix_wf text p : cidr_prefix text = Some p -> prefix_wf p /\ plain (paddr p).
Proof.
  unfold cidr_prefix. rewrite bind_Some. intros ([ip net] & Hp & E). apply ParseCIDR_bytes in Hp.
  destruct (normalizedCIDR (Some net)) as [q|] eqn:En; [|done]. injection E as ->.
  apply normalizedCIDR_spec in En as (? & _ & ?); done.
Qed.

Lemma lpmKey_spec scope text key : lpmKey scope text = Ok key <->
  exists p, cidr_prefix text = Some p /\ key = MkLpmKey (32 + map_bits p) scope (be_bytes 16 (enc (paddr p))).
Proof.
  assert (forall p, cidr_prefix text = Some p ->
    lpmKey scope text = Ok (MkLpmKey (32 + map_bits p) scope (be_bytes 16 (enc (paddr p))))) as Hf.
  { intros p Hp. destruct (cidr_prefix_wf _ _ Hp) as [Hw Hpl]. unfold cidr_prefix, lpmKey, cidrAddressPrefix in *.
    apply bind_Some in Hp as ([ip net] & -> & E). destruct (normalizedCIDR (Some net)) as [q|] eqn:En; [|done].
    injection E as ->. rewrite (cidrPolicyPrefix_spec _ _ En Hw Hpl). cbn. f_equal.
    pose proof (map_bits_range _ Hw). unfold u32. rewrite Z.mod_small by lia. done. }
  split; [|by intros (p & Hp & ->); apply Hf]. intros Hk. destruct (cidr_prefix text) as [p|] eqn:Hp.
  - rewrite (Hf p eq_refl) in Hk. exists p. split; [done|]. by injection Hk as <-.
  - exfalso. unfold cidr_prefix, lpmKey, cidrAddressPrefix, cidrPolicyPrefix in *.
    destruct (ParseCIDR text) as [[ip net]|]; [|done].
    cbn [mbind option_bind] in Hp. by destruct (normalizedCIDR (Some net)).
Qed.

(** [d] routes [x] within [scope]: its prefix matches the address in the 128-bit space. *)
Definition route_covers (d : RouteEntry) (scope : Z) (x : Addr) (p : Prefix) : Prop :=
  Scope d = scope /\ cidr_prefix (CIDR d) = Some p /\
  leading_match (map_bits p) (be_bytes 16 (enc (paddr p))) (be_bytes 16 (enc x)).

Lemma routeMapEntry_key d key e : routeMapEntry d = Ok (key, e) -> lpmKey (Scope d) (CIDR d) = Ok key.
Proof.
  unfold routeMapEntry. rewrite bind_ok. intros (k & -> & E). case_decide; [done|].
  apply bind_ok in E as (hops & _ & [= <- _]). done.
Qed.

Lemma routes_want_spec cap desired want : routes_want cap desired = Ok want ->
  (forall k e, want !! k = Some e -> exists d, d ∈ desired /\ routeMapEntry d = Ok (k, e)) /\
  (forall d, d ∈ desired -> Scope d < 2 ^ 22 /\ exists k e, routeMapEntry d = Ok (k, e) /\ is_Some (want !! k)).
Proof.
  apply (foldM_invariant _ (fun pre want =>
    (forall k e, want !! k = Some e -> exists d, d ∈ pre /\ routeMapEntry d = Ok (k, e)) /\
    (forall d, d ∈ pre -> Scope d < 2 ^ 22 /\ exists k e, routeMapEntry d = Ok (k, e) /\ is_Some (want !! k)))).
  { split; [by intros k e|]. intros d []%not_elem_of_nil. }
  intros pre d post a a' _ [H1 H2]. destruct (_ || _) eqn:E; [done|].
  assert (Scope d < 2 ^ 22) as Hs by (to_prop; change (Z.shiftl 1 22) with (2 ^ 22) in *; lia).
  rewrite bind_ok. intros ([key e] & He & Hp). unfold putDesired in Hp. case_decide; [done|]. injection Hp as <-. split.
  - intros k e' Hk. destruct (decide (k = key)) as [-> |Hne].
    + rewrite lookup_insert_eq in Hk. injection Hk as <-. exists d. split; [set_solver|done].
    + rewrite lookup_insert_ne in Hk by done. destruct (H1 k e' Hk) as (d' & ? & ?). exists d'. split; [set_solver|done].
  - intros d' [Hin| ->%list_elem_of_singleton]%elem_of_app.
    + destruct (H2 d' Hin) as (? & k & e' & Hk & Hsome). split; [done|]. exists k, e'. split; [done|].
      destruct (decide (k = key)) as [-> |]; [by rewrite lookup_insert_eq|by rewrite lookup_insert_ne].
    + split; [done|]. exists key, e. split; [done|]. by rewrite lookup_insert_eq.
Qed.

(** ** Next hops *)

(** The published hops are the declared ones, in order. *)
Lemma routeMapEntry_hops d key e : routeMapEntry d = Ok (key, e) ->
  exists hops, Forall2 (fun nh h => hop_entry nh = Ok h) (effective_hops d) hops /\ (length hops <= 2)%nat /\
    re_NextHops e = take 2 (hops ++ [zero_hop; zero_hop]) /\
    re_Count e = (if decide (length hops = 2)%nat then 2 else 1) /\
    re_Flags e = (if VPN d && bool_decide (0 < length hops)%nat then routeFlagVPN else 0).
Proof.
  unfold routeMapEntry. rewrite bind_ok. intros (k & _ & E). case_decide as Hl; [done|].
  apply bind_ok in E as (hops & Hh & [= <- <-]). cbn [re_NextHops re_Count re_Flags].
  assert (Forall2 (fun nh h => hop_entry nh = Ok h) (effective_hops d) hops) as HF.
  { revert Hh. apply (foldM_invariant _ (fun pre out => Forall2 (fun nh h => hop_entry nh = Ok h) pre out)); [constructor|].
    intros pre nh post a a' _ IH. rewrite bind_ok. intros (h & Hnh & [= <-]). apply Forall2_app; auto. }
  pose proof (Forall2_length _ _ _ HF) as El. rewrite El in *. exists hops. repeat (split; [done || lia|]). done.
Qed.

(** The hop a published entry gives to a flow. *)
Lemma next_hop_cases d key e src dst proto : routeMapEntry d = Ok (key, e) ->
  exists hop, route_next_hop (Some e) src dst proto = Some hop /\
    match effective_hops d with
    | [] => hop = zero_hop
    | hops => exists nh, nh ∈ hops /\ hop_entry nh = Ok hop
    end.
Proof.
  intros He. destruct (routeMapEntry_hops d key e He) as (hops & HF & Hl & En & Ec & _). unfold route_next_hop.
  rewrite En, Ec. destruct HF as [|n1 h1 ns hs H1 HF]; cbn [length decide]; [exists zero_hop; by cbn|].
  destruct HF as [|n2 h2 ns hs H2 HF]; [exists h1; split; [done|]; exists n1; split; [set_solver|done]|].
  destruct HF; [|cbn in Hl; lia]. rewrite decide_True by done. cbn [Z.eqb Z.ltb Z.compare Pos.compare orb].
  destruct (_ || _) eqn:Eh; [exists h1|exists h2]; (split; [done|]); [exists n1|exists n2]; split; try done; set_solver.
Qed.

(** Every flow of a published route takes one of its declared next hops, the same for
    every packet with the same addresses and protocol, and a route without next hop
    is a blackhole rather than a missing route; only a VPN route with a next hop carries the
    transit exception. *)
Theorem route_next_hop_sound d key e :
  routeMapEntry d = Ok (key, e) ->
  (forall src dst proto, exists hop, route_next_hop (Some e) src dst proto = Some hop /\
     match effective_hops d with
     | [] => hop = zero_hop
     | hops => exists nh, nh ∈ hops /\ hop_entry nh = Ok hop
     end) /\
  (Z.land (re_Flags e) routeFlagVPN <> 0 <-> VPN d = true /\ effective_hops d <> []).
Proof.
  intros He. split; [intros; by eapply next_hop_cases|].
  destruct (routeMapEntry_hops d key e He) as (hops & HF & _ & _ & _ & Ef). rewrite Ef.
  pose proof (Forall2_length _ _ _ HF) as El. destruct (VPN d); cbn [andb]; [|by cbn; split; [|intros []]].
  destruct (effective_hops d), hops; cbn in El |- *; try done. by split; [|intros []].
Qed.

Section Enforced.
Context (cap : nat) (desired : list RouteEntry) (blocked : list Z) (s : RtState).
Hypothesis Hscopes : Forall (fun d => 0 <= Scope d) desired.
Hypothesis Hblocked : Forall (fun x => 0 <= x) blocked.
Hypothesis Hcomplete : rt_complete cap desired blocked s.

Lemma route_covers_key d key e scope x : d ∈ desired -> routeMapEntry d = Ok (key, e) -> tenant scope -> Scope d < 2 ^ 22 ->
  (exists p, route_covers d scope x p /\ plen key = 32 + map_bits p) <->
  covers key (data (MkLpmKey (32 + 128) scope (be_bytes 16 (enc x)))).
Proof.
  intros Hin He Ht Hs. apply routeMapEntry_key, lpmKey_spec in He as (p & Hp & ->).
  destruct (cidr_prefix_wf _ _ Hp) as [Hw _]. rewrite Forall_forall in Hscopes. specialize (Hscopes d Hin).
  cbn [data overlayLpmKey_lpm lk_ScopeNet lk_Addr plen lk_Prefixlen].
  rewrite (covers_head _ (le_bytes 4 (Scope d)) (le_bytes 4 scope) p x); auto using le_bytes_byte.
  unfold route_covers. split.
  - intros (q & (<- & Hq & Hl) & _). rewrite Hp in Hq. by injection Hq as <-.
  - intros [Hh Hl]. exists p. split; [|done]. split; [|done]. unfold tenant in Ht.
    apply le_bytes_inj in Hh; [done| |]; change (256 ^ Z.of_nat 4) with (2 ^ 32); lia.
Qed.

Lemma route_of_spec scope x : tenant scope -> plain x ->
  match route_of s scope (be_bytes 16 (enc x)) with
  | Some e => exists d key p, d ∈ desired /\ routeMapEntry d = Ok (key, e) /\ route_covers d scope x p /\
      forall d' p', d' ∈ desired -> route_covers d' scope x p' -> map_bits p' <= map_bits p
  | None => forall d p, d ∈ desired -> ~ route_covers d scope x p
  end.
Proof.
  intros Ht Hx. destruct Hcomplete as (Hw & _ & _). destruct (routes_want_spec _ _ _ Hw) as [H1 H2].
  unfold route_of. set (q := data _). pose proof (lpm_find_spec (VpcRoutes s) q) as Hf.
  assert (forall d p, d ∈ desired -> route_covers d scope x p ->
    exists k e, VpcRoutes s !! k = Some e /\ covers k q /\ plen k = 32 + map_bits p) as Hcov.
  { intros d p Hd Hr. destruct (H2 d Hd) as (Hs & k & e & He & [e' Hk]). exists k, e'. split; [done|].
    pose proof (routeMapEntry_key _ _ _ He) as Hk'. apply lpmKey_spec in Hk' as (p' & Hq & Ek).
    assert (p' = p) as -> by (destruct Hr as (_ & Hr & _); congruence).
    split; [|by rewrite Ek]. eapply (route_covers_key d); [done|exact He|done|done|]. exists p. split; [done|by rewrite Ek]. }
  destruct (lpm_find _ _) as [e|].
  - destruct Hf as (k & Hk & Hcv & Hmax). destruct (H1 k e Hk) as (d & Hd & He). destruct (H2 d Hd) as (Hs & _).
    apply (route_covers_key d k e scope x Hd He Ht Hs) in Hcv as (p & Hr & Hpl). exists d, k, p.
    repeat (split; [done|]). intros d' p' Hd' Hr'. destruct (Hcov d' p' Hd' Hr') as (k' & e' & Hk' & Hcv' & Hpl').
    specialize (Hmax k' e' Hk' Hcv'). lia.
  - intros d p Hd Hr. destruct (Hcov d p Hd Hr) as (k & e & Hk & Hcv & _).
    destruct (lpm_lookup_exists _ _ _ _ Hk Hcv) as (v & Hv). by apply (Hf v).
Qed.

(** C26. The datapath reads the published table as meant: a tenant scope is blocked exactly
    when the snapshot blocks it, and a destination takes the route of the snapshot with the
    longest prefix that covers it within its own scope, and no route exactly when none
    covers it. *)
Theorem routes_enforced :
  (forall scope, tenant scope -> routes_blocked s scope = true <-> scope ∈ blocked) /\
  (forall scope x, tenant scope -> plain x ->
     match route_of s scope (be_bytes 16 (enc x)) with
     | Some e => exists d key p, d ∈ desired /\ routeMapEntry d = Ok (key, e) /\ route_covers d scope x p /\
         forall d' p', d' ∈ desired -> route_covers d' scope x p' -> map_bits p' <= map_bits p
     | None => forall d p, d ∈ desired -> ~ route_covers d scope x p
     end).
Proof.
  split; [|intros; by apply route_of_spec]. destruct Hcomplete as (_ & (cells & Hc & Hp) & Hg).
  intros scope Ht. pose proof (scope_split _ Ht) as (_ & Hwd & Hb & Hpg).
  rewrite <-(blocked_cells_bits blocked cells) by done. unfold routes_blocked. rewrite Hg, (Hp _ Hpg). cbn [negb Z.eqb].
  rewrite bit_test by lia. done.
Qed.

(** Only the appliance a VPN route names may source the prefix behind it: whenever the
    boundary's transit exception admits a source address on an interface, the snapshot holds a VPN
    route that covers the address in that network and one of its next hops is the local
    endpoint at that very interface. *)
Theorem vpn_appliance_source_sound (local_of : Z -> list Z -> option Z) net x ifindex :
  tenant net -> plain x ->
  vpn_appliance_source local_of s net (be_bytes 16 (enc x)) ifindex = true ->
  exists d p nh hop, d ∈ desired /\ VPN d = true /\ route_covers d net x p /\
    nh ∈ effective_hops d /\ hop_entry nh = Ok hop /\ local_of net (ge_GwIp hop) = Some ifindex.
Proof.
  intros Ht Hx. unfold vpn_appliance_source, vpn_route. pose proof (route_of_spec net x Ht Hx) as Hr.
  destruct (route_of s net _) as [e|]; [|done]. destruct Hr as (d & key & p & Hd & He & Hc & _).
  destruct (routeMapEntry_hops d key e He) as (hops & HF & Hl & En & Ec & Ef).
  destruct (_ || _) eqn:E; [done|]. apply orb_false_iff in E as [E _]. apply orb_false_iff in E as [E _].
  rewrite Ef in E. destruct (VPN d) eqn:Ev; [|done]. case_bool_decide as Hn; [|done].
  assert (take (Z.to_nat (re_Count e)) (re_NextHops e) = hops) as ->.
  { rewrite En, Ec. destruct hops as [|h1 [|h2 [|]]]; cbn in *; try done; lia. }
  intros (hop & Hin & Hleg)%existsb_exists. apply list_elem_of_In in Hin.
  destruct (local_of net (ge_GwIp hop)) as [i|] eqn:Hi; [|done]. apply Z.eqb_eq in Hleg as ->.
  apply list_elem_of_lookup in Hin as [j Hj]. destruct (Forall2_lookup_r _ _ _ _ _ HF Hj) as (nh & Hnh & Hok).
  exists d, p, nh, hop. repeat (split; [done|]). split; [by eapply list_elem_of_lookup_2|done].
Qed.
End Enforced.

(** A snapshot with a local VPN appliance, a wider route through another node and a blocked
    scope, applied to empty maps. *)
Definition demo_routes : list RouteEntry := [
  MkRouteEntry 100 "10.8.0.0/16" [MkRouteNextHop (Some [10; 0; 0; 5]) (Some [192; 0; 2; 7])] None None false;
  MkRouteEntry 100 "10.8.1.0/24" [] (Some [10; 0; 0; 9]) None true].
Definition demo_table : RtState :=
  kern (SyncRoutesScoped (H := quiet_runtime) 16 true demo_routes [4097] (MkWorld 0 (new_manager ∅ ∅ ∅) [])).1.
Definition demo_dest : Addr := MkAddr true (10 * 2 ^ 24 + 8 * 2 ^ 16 + 2 ^ 8 + 3).

Lemma demo_scopes : Forall (fun d => 0 <= Scope d) demo_routes.
Proof. repeat (apply Forall_cons; split; [cbn; lia|]). constructor. Qed.
Lemma demo_blocked : Forall (fun x => 0 <= x) [4097].
Proof. apply Forall_singleton. lia. Qed.

Lemma demo_table_complete : rt_complete 16 demo_routes [4097] demo_table.
Proof.
  destruct (wp_SyncRoutesScoped (H := quiet_runtime) 16 true demo_routes [4097] (new_manager ∅ ∅ ∅) ltac:(done)
    (MkWorld 0 (new_manager ∅ ∅ ∅) []) eq_refl) as ([_ Hp] & _).
  assert ((SyncRoutesScoped (H := quiet_runtime) 16 true demo_routes [4097] (MkWorld 0 (new_manager ∅ ∅ ∅) [])).2 = Ok tt)
    as Hr by (by vm_compute).
  rewrite Hr in Hp. exact Hp.
Qed.

Lemma demo_dest_plain : plain demo_dest.
Proof. split; [split; vm_compute; congruence|done]. Qed.

Lemma demo_tenant n : (0 <=? n) && (n <? 2 ^ 22) = true -> tenant n.
Proof. unfold tenant. intros. to_prop. lia. Qed.

Lemma routes_enforced_witness :
  routes_blocked demo_table 4097 = true /\
  match route_of demo_table 100 (be_bytes 16 (enc demo_dest)) with
  | Some e => exists d key p, d ∈ demo_routes /\ routeMapEntry d = Ok (key, e) /\ route_covers d 100 demo_dest p /\
      forall d' p', d' ∈ demo_routes -> route_covers d' 100 demo_dest p' -> map_bits p' <= map_bits p
  | None => forall d p, d ∈ demo_routes -> ~ route_covers d 100 demo_dest p
  end.
Proof.
  destruct (routes_enforced 16 demo_routes [4097] demo_table demo_scopes demo_blocked
    demo_table_complete) as [Hb Hr].
  split; [apply (Hb 4097 (demo_tenant 4097 eq_refl)), list_elem_of_singleton; reflexivity|].
  exact (Hr 100 demo_dest (demo_tenant 100 eq_refl) demo_dest_plain).
Defined.

Definition demo_vpn : RouteEntry := MkRouteEntry 100 "10.8.1.0/24" [] (Some [10; 0; 0; 9]) None true.

Lemma demo_vpn_ok : exists key e, routeMapEntry demo_vpn = Ok (key, e).
Proof. eexists _, _. vm_compute. reflexivity. Qed.

Lemma route_next_hop_sound_witness :
  exists key e, routeMapEntry demo_vpn = Ok (key, e) /\ Z.land (re_Flags e) routeFlagVPN <> 0.
Proof.
  destruct demo_vpn_ok as (key & e & E). exists key, e. split; [exact E|].
  apply (proj2 (route_next_hop_sound demo_vpn key e E)). split; [reflexivity|discriminate].
Defined.

Definition demo_local (net : Z) (gw : list Z) : option Z :=
  if decide (gw = be_bytes 16 (enc (MkAddr true (10 * 2 ^ 24 + 9)))) then Some 12 else None.

Lemma demo_appliance : vpn_appliance_source demo_local demo_table 100 (be_bytes 16 (enc demo_dest)) 12 = true.
Proof. vm_compute. reflexivity. Qed.

Lemma vpn_appliance_source_sound_witness :
  exists d p nh hop, d ∈ demo_routes /\ VPN d = true /\ route_covers d 100 demo_dest p /\
    nh ∈ effective_hops d /\ hop_entry nh = Ok hop /\ demo_local 100 (ge_GwIp hop) = Some 12.
Proof.
  exact (vpn_appliance_source_sound 16 demo_routes [4097] demo_table demo_scopes demo_table_complete
    demo_local 100 demo_dest 12 (demo_tenant 100 eq_refl) demo_dest_plain demo_appliance).
Defined.
