(* ===== verification/NpCompile.v ===== *)
(** * NetworkPolicy compilation (cmd/agent/networkpolicy.go, [npInputWork] of
      cmd/agent/policy_limits.go)

    Every agent turns the cluster's NetworkPolicies into identity rows, identity-pair rules
    and address ranges under a work budget.  Go visits maps in any order; the compiler runs
    here in the monad of [KernelMap], whose [order] stands for that choice, so the theorems
    hold for all of them.  Label selectors belong to the Kubernetes library and are an
    interface. *)

From S2P Require Import Prelude GoText GoNet Sha256 Warnings AddrMap KernelMap PortPrefix Lpm Verdict NetworkPolicy.
Local Open Scope Z_scope.

(** ** Objects of the Kubernetes API *)

Abbreviation labels := (gmap string string).

Record Requirement := MkRequirement { r_Key : string; r_Operator : string; r_Values : list string }.
Record LabelSelector := MkLabelSelector { MatchLabels : labels; MatchExpressions : list Requirement }.

(** [metav1.LabelSelectorAsSelector] with [Selector.Matches], and [labels.Everything]. *)
Class Selectors := {
  AsSelector : option LabelSelector -> option (labels -> bool);
  Everything : labels -> bool;
  Everything_matches : forall l, Everything l = true
}.

Record Pod := MkPod { pod_Namespace : string; pod_Labels : labels; pod_HostNetwork : bool; pod_IPs : list string }.
Record Namespace := MkNamespace { ns_Name : string; ns_Labels : labels }.

Inductive IntOrString := IntVal (v : Z) | StrVal (s : string).
Record NetworkPolicyPort := MkNPPort { np_Protocol : option string; np_Port : option IntOrString; np_EndPort : option Z }.
Record IPBlock := MkIPBlock { blk_CIDR : string; blk_Except : list string }.
Record NetworkPolicyPeer := MkNPPeer {
  PodSelector : option LabelSelector; NamespaceSelector : option LabelSelector; peer_IPBlock : option IPBlock }.
Record NetworkPolicyRule := MkNPRule { rule_Ports : list NetworkPolicyPort; rule_Peers : list NetworkPolicyPeer }.
Record NetworkPolicyObj := MkNetworkPolicy {
  pol_Namespace : string; pol_Name : string; pol_PodSelector : LabelSelector;
  pol_Ingress : list NetworkPolicyRule; pol_Egress : option (list NetworkPolicyRule); pol_Types : list string }.

(** The warnings the compiler logs, with the policy they belong to. *)
Inductive npWarning :=
  | ProtocolNotServed (policy proto : string)
  | EndPortWithoutPort (policy : string)
  | NamedPort (policy name : string)
  | PortOutOfRange (policy : string) (port : Z)
  | BadEndPort (policy : string) (endPort : Z)
  | FilteredKey (policy key : string)
  | BadPodSelector (policy : string)
  | EntityNotServed (policy name : string) (dir : Z)
  | BadPeerPodSelector (policy : string)
  | BadPeerNamespaceSelector (policy : string)
  | BlockRangeTooWide (policy : string) (lo hi : Z)
  | BadBlock (policy cidr : string)
  | BadExcept (policy cidr : string).

(** ** Identities *)

(** [NPFirstRealID], datapath/networkpolicy.go:50-50. *)
Definition NPFirstRealID : Z := 8.
(** [NPSrcLocalNode], datapath/networkpolicy.go:46-46. *)
Definition NPSrcLocalNode : Z := 4.

(** [npFilteredLabel], cmd/agent/networkpolicy.go:58-70. *)
Definition npFilteredLabel (key : string) : bool :=
  bool_decide (key ∈ ["pod-template-hash"; "controller-revision-hash"; "statefulset.kubernetes.io/pod-name";
                      "apps.kubernetes.io/pod-index"; "controller-uid"; "job-name"])
  || has_prefix "batch.kubernetes.io/" key.

(** [npFilterLabels], cmd/agent/networkpolicy.go:72-80. *)
Definition npFilterLabels (l : labels) : labels := filter (fun e => npFilteredLabel e.1 = false) l.

(** [npIdentityOf], what is hashed, cmd/agent/networkpolicy.go:88-101. *)
Definition identity_input (namespace : string) (filtered : labels) : list Z :=
  bytes_of namespace ++ [0] ++
  mjoin ((fun e => bytes_of e.1 ++ [0] ++ bytes_of e.2 ++ [0]) <$>
         merge_sort (fun a b => String.le a.1 b.1) (map_to_list filtered)).

(** [npIdentityOf], cmd/agent/networkpolicy.go:88-101. *)
Definition npIdentityOf (namespace : string) (filtered : labels) : Z :=
  let id := be (take 8 (Sum256 (identity_input namespace filtered))) in
  if id <? NPFirstRealID then id + NPFirstRealID else id.

(** [identInfo], cmd/agent/networkpolicy.go:290-293. *)
Record identInfo := MkIdentInfo { info_ns : string; info_lbls : labels }.

(** [registry], the pods policies apply to, cmd/agent/networkpolicy.go:296-301. *)
Definition eligible (pod : Pod) : bool := negb (pod_HostNetwork pod) && negb (bool_decide (pod_IPs pod = [])).
Definition pod_id (pod : Pod) : Z := npIdentityOf (pod_Namespace pod) (npFilterLabels (pod_Labels pod)).
Definition pod_info (pod : Pod) : identInfo := MkIdentInfo (pod_Namespace pod) (npFilterLabels (pod_Labels pod)).

(** [registry], cmd/agent/networkpolicy.go:294-306. *)
Definition registry_of (pods : list Pod) : gmap Z identInfo :=
  fold_left (fun registry pod => if eligible pod then <[pod_id pod := pod_info pod]> registry else registry) pods ∅.

(** [podIDs], by position of the pod, cmd/agent/networkpolicy.go:295-306. *)
Definition podIDs_of (pods : list Pod) : gmap nat Pod :=
  filter (fun e => eligible e.2 = true) (map_seq 0 pods).

(** [nsLabels], cmd/agent/networkpolicy.go:283-286. *)
Definition nsLabels_of (nss : list Namespace) : gmap string labels :=
  fold_left (fun m ns => <[ns_Name ns := ns_Labels ns]> m) nss ∅.

(** ** Peers and ports *)

(** [npEntityLabel], cmd/agent/networkpolicy.go:149-149. *)
Definition npEntityLabel : string := "policy.cozyplane.io/entity".

(** [npEntityPeer], cmd/agent/networkpolicy.go:156-166. *)
Definition npEntityPeer (peer : NetworkPolicyPeer) : option string :=
  match NamespaceSelector peer, PodSelector peer, peer_IPBlock peer with
  | Some ns, None, None =>
      if decide (MatchExpressions ns = [] /\ size (MatchLabels ns) = 1%nat) then MatchLabels ns !! npEntityLabel
      else None
  | _, _, _ => None
  end.

(** [npEntityID], cmd/agent/networkpolicy.go:173-183. *)
Definition npEntityID (name : string) (dir : Z) : Z * bool :=
  if decide (name = "nodes") then (NPSrcNodes, dir =? NPDirIn)
  else if decide (name = "local-node") then (NPSrcLocalNode, dir =? NPDirIn)
  else if decide (name = "local-pods") then (NPSrcLocalPods, true)
  else (0, false).

(** [npPort], cmd/agent/networkpolicy.go:204-208. *)
Record npPort := MkNpPort { it_proto : Z; it_port : Z; it_endPort : Z }.

(** [npCompilePorts], the protocol of an item, cmd/agent/networkpolicy.go:220-231. *)
Definition port_proto (p : NetworkPolicyPort) : option Z :=
  match np_Protocol p with
  | None => Some 6
  | Some proto => if decide (proto = "TCP") then Some 6 else if decide (proto = "UDP") then Some 17 else None
  end.

(** [npCompilePorts], one item: what it compiles to and the warnings so far; two of the
    warnings are appended without the bound, cmd/agent/networkpolicy.go:219-257. *)
Definition npCompilePort (policy : string) (p : NetworkPolicyPort) (warns : list npWarning) : option npPort * list npWarning :=
  match port_proto p with
  | None => (None, addCompileWarnings warns [ProtocolNotServed policy (default EmptyString (np_Protocol p))])
  | Some proto =>
      match np_Port p with
      | None =>
          match np_EndPort p with
          | Some _ => (None, warns ++ [EndPortWithoutPort policy])
          | None => (Some (MkNpPort proto 0 0), warns)
          end
      | Some (StrVal name) => (None, addCompileWarnings warns [NamedPort policy name])
      | Some (IntVal v) =>
          if (v <? 1) || (65535 <? v) then (None, warns ++ [PortOutOfRange policy v])
          else
            match np_EndPort p with
            | None => (Some (MkNpPort proto v 0), warns)
            | Some e =>
                if (e <? v) || (65535 <? e) then (None, addCompileWarnings warns [BadEndPort policy e])
                else (Some (MkNpPort proto v e), warns)
            end
      end
  end.

(** [npCompilePorts], cmd/agent/networkpolicy.go:219-257. *)
Definition npCompilePorts (policy : string) (ports : list NetworkPolicyPort) (warns : list npWarning) :
    list npPort * list npWarning :=
  if decide (ports = []) then ([MkNpPort 6 0 0; MkNpPort 17 0 0], warns)
  else fold_left (fun '(out, warns) p =>
    let '(item, warns) := npCompilePort policy p warns in (out ++ option_list item, warns)) ports ([], warns).

(** [expandPorts], cmd/agent/networkpolicy.go:441-458. *)
Definition expandPorts (policy : string) (ports : list npPort) (warns : list npWarning) : list npPort * list npWarning :=
  fold_left (fun '(out, warns) p =>
    if it_endPort p =? 0 then (out ++ [p], warns)
    else if 64 <=? it_endPort p - it_port p then
      (out, addCompileWarnings warns [BlockRangeTooWide policy (it_port p) (it_endPort p)])
    else (out ++ ((fun q => MkNpPort (it_proto p) q 0) <$> seqZ (it_port p) (it_endPort p - it_port p + 1)), warns))
    ports ([], warns).

(** ** The input budget *)

(** [selector] of [npInputWork], cmd/agent/policy_limits.go:18-27. *)
Definition selector_work (s : option LabelSelector) : Z :=
  match s with
  | None => 0
  | Some s => Z.of_nat (size (MatchLabels s)) + Z.of_nat (length (MatchExpressions s)) +
              foldr (fun e n => Z.of_nat (length (r_Values e)) + n) 0 (MatchExpressions s)
  end.

(** [peers] of [npInputWork], cmd/agent/policy_limits.go:28-37. *)
Definition peers_work (ps : list NetworkPolicyPeer) : Z :=
  Z.of_nat (length ps) + foldr (fun p n =>
    selector_work (PodSelector p) + selector_work (NamespaceSelector p) +
    match peer_IPBlock p with Some b => Z.of_nat (length (blk_Except b)) + 1 | None => 0 end + n) 0 ps.

(** [npInputWork], one policy, cmd/agent/policy_limits.go:57-63. *)
Definition policy_work (np : NetworkPolicyObj) : Z :=
  let rules := foldr (fun r n => 1 + Z.of_nat (length (rule_Ports r)) + peers_work (rule_Peers r) + n) 0 in
  selector_work (Some (pol_PodSelector np)) + rules (pol_Ingress np) + rules (default [] (pol_Egress np)).

(** [check] of [npInputWork], cmd/agent/policy_limits.go:38-43. *)
Definition check_work (work : Z) : result Z :=
  if policyWorkLimit <? work then Err "NetworkPolicy input exceeds operations" else Ok work.

(** [npInputWork], cmd/agent/policy_limits.go:16-69. *)
Definition npInputWork (pods : list Pod) (nss : list Namespace) (nps : list NetworkPolicyObj) : result Z :=
  let work := Z.of_nat (length pods + length nss + length nps) in
  work ← foldM (fun work p => check_work (work + Z.of_nat (size (pod_Labels p)) + Z.of_nat (length (pod_IPs p)))) work pods;
  work ← foldM (fun work ns => check_work (work + Z.of_nat (size (ns_Labels ns)))) work nss;
  foldM (fun work np => check_work (work + policy_work np)) work nps.

(** ** The compiler *)

(** [npCompileLimit], cmd/agent/networkpolicy.go:141-141. *)
Definition npCompileLimit : Z := 65536.
(** [npCompileWorkLimit], cmd/agent/networkpolicy.go:142-142. *)
Definition npCompileWorkLimit : Z := Z.shiftl 1 20.

#[export] Instance NPAllow_eq_dec : EqDecision NPAllow.
Proof. solve_decision. Defined.
#[export] Program Instance NPAllow_countable : Countable NPAllow :=
  inj_countable' (fun r => (a_DstID r, a_SrcID r, a_Dir r, a_Proto r, a_Port r, a_EndPort r))
    (fun '(a, b, c, d, e, f) => MkNPAllow a b c d e f) _.
Next Obligation. by intros []. Qed.

(** The variables the closures of [compileNetworkPolicies] share. *)
Record npState := MkNpState {
  work : Z; warnings : list npWarning; flags : gmap Z Z; allows : gmap NPAllow bool; cidrs : list NPCidr }.

Definition set_work v s := MkNpState v (warnings s) (flags s) (allows s) (cidrs s).
Definition set_warnings v s := MkNpState (work s) v (flags s) (allows s) (cidrs s).
Definition set_flags v s := MkNpState (work s) (warnings s) v (allows s) (cidrs s).
Definition set_allows v s := MkNpState (work s) (warnings s) (flags s) v (cidrs s).
Definition set_cidrs v s := MkNpState (work s) (warnings s) (flags s) (allows s) v.

(** [npCompiled], cmd/agent/networkpolicy.go:133-139; the error is the monad's. *)
Record npCompiled := MkNpCompiled {
  c_idents : list NPIdent; c_allows : list NPAllow; c_cidrs : list NPCidr; c_warnings : list npWarning }.

Section Compiler.
Context `{Runtime} `{Selectors}.

(** [spend], cmd/agent/networkpolicy.go:266-273. *)
Definition spend : M npState unit :=
  _ ← modify (fun s => set_work (work s + 1) s);
  s ← read;
  if npCompileWorkLimit <? work s then fail "NetworkPolicy compilation exceeds operations" else mret tt.

(** The same with another error. *)
Definition spend_or (e : string) : M npState unit := fun w =>
  match spend w with (w, Err _) => (w, Err e) | r => r end.

Definition warn (w : npWarning) : M npState unit :=
  modify (fun s => set_warnings (addCompileWarnings (warnings s) [w]) s).

(** A helper that takes the warnings by pointer. *)
Definition with_warnings {A} (f : list npWarning -> A * list npWarning) : M npState A :=
  s ← read;
  _ ← modify (set_warnings (f (warnings s)).2);
  mret (f (warnings s)).1.

(** [npSelectorWarnings], cmd/agent/networkpolicy.go:186-200. *)
Definition npSelectorWarnings (policy : string) (sel : option LabelSelector) : M npState unit :=
  match sel with
  | None => mret tt
  | Some sel =>
      keys ← arrange (MatchLabels sel);
      _ ← forM (fun '(k, _) => if npFilteredLabel k then warn (FilteredKey policy k) else mret tt) keys;
      forM (fun e => if npFilteredLabel (r_Key e) then warn (FilteredKey policy (r_Key e)) else mret tt) (MatchExpressions sel)
  end.

(** [compileNetworkPolicies], a loop over the registry that keeps the identities that match
    and spends one operation for each, cmd/agent/networkpolicy.go:320-328. *)
Definition select_ids (registry : gmap Z identInfo) (matches : identInfo -> bool) : M npState (list Z) :=
  entries ← arrange registry;
  foldlM (fun ids '(id, info) => _ ← spend; mret (if matches info then ids ++ [id] else ids)) [] entries.

Section Policy.
Context (registry : gmap Z identInfo) (nsLabels : gmap string labels).

Section OnePolicy.
Context (np : NetworkPolicyObj).
Let policy := pol_Namespace np +:+ "/" +:+ pol_Name np.

(** [hasIngress, hasEgress], cmd/agent/networkpolicy.go:330-340. *)
Definition policy_types : bool * bool :=
  if decide (pol_Types np = []) then (true, bool_decide (is_Some (pol_Egress np)))
  else (bool_decide ("Ingress" ∈ pol_Types np), bool_decide ("Egress" ∈ pol_Types np)).

(** [resolvePeers], one peer that is not an ipBlock, cmd/agent/networkpolicy.go:367-430. *)
Definition resolve_peer (dir : Z) (peer : NetworkPolicyPeer) : M npState (list Z) :=
  match npEntityPeer peer with
  | Some name =>
      let '(id, legal) := npEntityID name dir in
      if legal then mret [id] else _ ← warn (EntityNotServed policy name dir); mret []
  | None =>
      _ ← npSelectorWarnings policy (PodSelector peer);
      _ ← npSelectorWarnings policy (NamespaceSelector peer);
      match NamespaceSelector peer with
      | None =>
          match AsSelector (PodSelector peer) with
          | None => _ ← warn (BadPeerPodSelector policy); mret []
          | Some sel => select_ids registry (fun info => bool_decide (info_ns info = pol_Namespace np) && sel (info_lbls info))
          end
      | Some ns =>
          if decide (PodSelector peer = None /\ size (MatchLabels ns) = 0%nat /\ length (MatchExpressions ns) = 0%nat)
          then mret [NPSrcAnyPod]
          else
            match AsSelector (Some ns) with
            | None => _ ← warn (BadPeerNamespaceSelector policy); mret []
            | Some nsSel =>
                match (match PodSelector peer with None => Some Everything | sel => AsSelector sel end) with
                | None => _ ← warn (BadPeerPodSelector policy); mret []
                | Some podSel =>
                    select_ids registry (fun info =>
                      match nsLabels !! info_ns info with
                      | Some nsl => nsSel nsl && podSel (info_lbls info)
                      | None => false
                      end)
                end
            end
      end
  end.

(** [resolvePeers], cmd/agent/networkpolicy.go:353-433. *)
Definition resolvePeers (peers : list NetworkPolicyPeer) (dir : Z) : M npState (list Z * list IPBlock) :=
  foldlM (fun '(ids, blocks) peer =>
    _ ← spend;
    match peer_IPBlock peer with
    | Some b => mret (ids, blocks ++ [b])
    | None => new ← resolve_peer dir peer; mret (ids ++ new, blocks)
    end) ([], []) peers.

(** [compileBlocks], one row, cmd/agent/networkpolicy.go:471-478 and 487-494. *)
Definition add_cidr (self dir : Z) (cidr : IPNet) (allow : bool) (p : npPort) : M npState unit :=
  s ← read;
  if npCompileLimit <=? Z.of_nat (length (cidrs s)) then fail "NetworkPolicy CIDR expansion exceeds compilation budget"
  else
    _ ← spend_or "NetworkPolicy CIDR expansion exceeds compilation budget";
    modify (fun s => set_cidrs (cidrs s ++ [MkNPCidr self dir (it_proto p) (it_port p) (Some cidr) allow]) s).

(** [compileBlocks], one ipBlock, cmd/agent/networkpolicy.go:464-496. *)
Definition compile_block (self dir : Z) (ports : list npPort) (b : IPBlock) : M npState unit :=
  match ParseCIDR (TrimSpace (blk_CIDR b)) with
  | None => warn (BadBlock policy (blk_CIDR b))
  | Some (_, cidr) =>
      _ ← forM (add_cidr self dir cidr true) ports;
      forM (fun exs =>
        match ParseCIDR (TrimSpace exs) with
        | None => warn (BadExcept policy exs)
        | Some (_, ex) => forM (add_cidr self dir ex false) ports
        end) (blk_Except b)
  end.

(** [compileBlocks], cmd/agent/networkpolicy.go:459-498. *)
Definition compileBlocks (blocks : list IPBlock) (self dir : Z) (ports : list npPort) : M npState unit :=
  if decide (blocks = []) then mret tt
  else
    ports ← with_warnings (expandPorts policy ports);
    forM (compile_block self dir ports) blocks.

(** [compileNetworkPolicies], one rule row, cmd/agent/networkpolicy.go:523-538. *)
Definition add_allow (key : NPAllow) : M npState unit :=
  _ ← spend;
  s ← read;
  if negb (default false (allows s !! key)) && (npCompileLimit <=? Z.of_nat (size (allows s)))
  then fail "NetworkPolicy rules exceed rows"
  else modify (fun s => set_allows (<[key := true]> (allows s)) s).

(** The identity pair of a rule row: the subject is the destination of ingress and the
    source of egress. *)
Definition row_of (dir subject peer : Z) (p : npPort) : NPAllow :=
  if dir =? NPDirIn then MkNPAllow subject peer dir (it_proto p) (it_port p) (it_endPort p)
  else MkNPAllow peer subject dir (it_proto p) (it_port p) (it_endPort p).

(** [compileNetworkPolicies], one rule of either direction, cmd/agent/networkpolicy.go:501-546. *)
Definition compile_rule (dir : Z) (subjects : list Z) (rule : NetworkPolicyRule) : M npState unit :=
  ports ← with_warnings (npCompilePorts policy (rule_Ports rule));
  '(peerIDs, blocks) ← (if decide (rule_Peers rule = []) then mret ([NPSrcAny], []) else resolvePeers (rule_Peers rule) dir);
  if decide (ports = []) then mret tt
  else
    forM (fun self =>
      _ ← forM (fun peer => forM (fun p => add_allow (row_of dir self peer p)) ports) peerIDs;
      compileBlocks blocks self dir ports) subjects.

(** [compileNetworkPolicies], the ingress rules, cmd/agent/networkpolicy.go:500-547. *)
Definition ingress_rules (subjects : list Z) : M npState unit :=
  forM (compile_rule NPDirIn subjects) (pol_Ingress np).
(** [compileNetworkPolicies], the egress rules, cmd/agent/networkpolicy.go:549-594. *)
Definition egress_rules (subjects : list Z) : M npState unit :=
  forM (compile_rule NPDirEg subjects) (default [] (pol_Egress np)).

(** [flags], the isolation of a subject, cmd/agent/networkpolicy.go:341-349. *)
Definition isolate (ingress egress : bool) (flags : gmap Z Z) (id : Z) : gmap Z Z :=
  let flags := if ingress then <[id := Z.lor (default 0 (flags !! id)) NPIngIsolated]> flags else flags in
  if egress then <[id := Z.lor (default 0 (flags !! id)) NPEgIsolated]> flags else flags.

(** [compileNetworkPolicies], one policy, cmd/agent/networkpolicy.go:311-350. *)
Definition compile_policy : M npState unit :=
  match AsSelector (Some (pol_PodSelector np)) with
  | None => warn (BadPodSelector policy)
  | Some subjectSel =>
      _ ← npSelectorWarnings policy (Some (pol_PodSelector np));
      subjects ← select_ids registry (fun info =>
        bool_decide (info_ns info = pol_Namespace np) && subjectSel (info_lbls info));
      let '(hasIngress, hasEgress) := policy_types in
      _ ← modify (fun s => set_flags (fold_left (isolate hasIngress hasEgress) subjects (flags s)) s);
      _ ← (if hasIngress then ingress_rules subjects else mret tt);
      if hasEgress then egress_rules subjects else mret tt
  end.
End OnePolicy.
End Policy.

(** [compileNetworkPolicies], one pod address, cmd/agent/networkpolicy.go:600-611. *)
Definition add_ident (flags : gmap Z Z) (pod : Pod) (acc : gset string * list NPIdent) (text : string) :
    M npState (gset string * list NPIdent) :=
  match ParseIP text with
  | [] => mret acc
  | ip =>
      if decide (text ∈ acc.1) then mret acc
      else if npCompileLimit <=? Z.of_nat (length acc.2) then fail "NetworkPolicy identities exceed rows"
      else mret ({[text]} ∪ acc.1, acc.2 ++ [MkNPIdent ip (pod_id pod) (default 0 (flags !! pod_id pod))])
  end.

(** [compileNetworkPolicies], the identity rows, cmd/agent/networkpolicy.go:597-612. *)
Definition ident_rows (pods : list Pod) (flags : gmap Z Z) : M npState (list NPIdent) :=
  podIDs ← arrange (podIDs_of pods);
  acc ← foldlM (fun acc '(_, pod) => foldlM (add_ident flags pod) acc (pod_IPs pod)) (∅, []) podIDs;
  mret acc.2.

(** [compileNetworkPolicies], cmd/agent/networkpolicy.go:263-282; the loops are above. *)
Definition compileNetworkPolicies (pods : list Pod) (nss : list Namespace) (nps : list NetworkPolicyObj) : M npState npCompiled :=
  if (npCompileLimit <? Z.of_nat (length pods)) || (npCompileLimit <? Z.of_nat (length nss)) ||
     (npCompileLimit <? Z.of_nat (length nps))
  then fail "NetworkPolicy input exceeds objects per kind"
  else
    input ← lift (npInputWork pods nss nps);
    _ ← modify (set_work input);
    _ ← forM (compile_policy (registry_of pods) (nsLabels_of nss)) nps;
    s ← read;
    idents ← ident_rows pods (flags s);
    rows ← arrange (allows s);
    mret (MkNpCompiled idents rows.*1 (cidrs s) (warnings s)).
End Compiler.

(** ** What a step emits

    [emits m P R Φ]: when [m] succeeds with [a], [Φ a] holds, and the rows it added are
    exactly those of [P] and [R]; flags stay, and the row limits are kept. *)

Definition bounded (s : npState) : Prop :=
  Z.of_nat (size (allows s)) <= npCompileLimit /\ map_Forall (fun _ b => b = true) (allows s) /\
  Z.of_nat (length (cidrs s)) <= npCompileLimit.

Definition adds (P : NPAllow -> Prop) (R : NPCidr -> Prop) (s s' : npState) : Prop :=
  (forall a, is_Some (allows s' !! a) <-> is_Some (allows s !! a) \/ P a) /\
  (forall c, c ∈ cidrs s' <-> c ∈ cidrs s \/ R c) /\
  flags s' = flags s /\ (bounded s -> bounded s').

(** A budget is exhausted: the only reason to fail. *)
Definition over (s : npState) : Prop :=
  npCompileWorkLimit < work s \/ npCompileLimit <= Z.of_nat (length (cidrs s)) \/ npCompileLimit <= Z.of_nat (size (allows s)).

Abbreviation none := (fun _ => False).

Section Emits.
Context `{Runtime}.

Definition emits {A} (m : M npState A) (P : NPAllow -> Prop) (R : NPCidr -> Prop) (Φ : A -> Prop) : Prop :=
  forall s, wp m (fun _ => True)
    (fun r s' => match r with Ok a => Φ a /\ adds P R s s' | Err _ => over s' end) s.

Lemma adds_none s s' : allows s' = allows s -> cidrs s' = cidrs s -> flags s' = flags s -> adds none none s s'.
Proof.
  intros Ha Hc Hf. unfold adds, bounded. rewrite Ha, Hc. split; [tauto|]. split; [tauto|]. done.
Qed.

Lemma adds_trans P R P' R' s s' s'' : adds P R s s' -> adds P' R' s' s'' ->
  adds (fun a => P a \/ P' a) (fun c => R c \/ R' c) s s''.
Proof.
  intros (H1 & H2 & H3 & H4) (G1 & G2 & G3 & G4). split; [intros a; rewrite G1, H1; tauto|].
  split; [intros c; rewrite G2, H2; tauto|]. split; [congruence|auto].
Qed.

Lemma adds_iff P R P' R' s s' : (forall a, P a <-> P' a) -> (forall c, R c <-> R' c) -> adds P R s s' -> adds P' R' s s'.
Proof.
  intros HP HR (H1 & H2 & H3 & H4). split; [intros a; by rewrite H1, HP|]. split; [intros c; by rewrite H2, HR|]. done.
Qed.

Lemma emits_iff {A} (m : M npState A) P R Φ P' R' (Φ' : A -> Prop) :
  emits m P R Φ -> (forall a, P a <-> P' a) -> (forall c, R c <-> R' c) -> (forall a, Φ a -> Φ' a) -> emits m P' R' Φ'.
Proof.
  intros Hm HP HR HΦ s. eapply wp_mono; [apply Hm|done|]. intros [a|e] s'; [|done].
  intros [Ha Hs]. split; [auto|]. by eapply adds_iff.
Qed.

Lemma emits_ret {A} (a : A) (Φ : A -> Prop) : Φ a -> emits (mret a) none none Φ.
Proof. intros Ha s. apply wp_ret. split; [done|]. by apply adds_none. Qed.

Lemma emits_skip : emits (mret tt) none none (fun _ => True).
Proof. by apply emits_ret. Qed.


Lemma emits_modify f : (forall s, allows (f s) = allows s /\ cidrs (f s) = cidrs s /\ flags (f s) = flags s) ->
  emits (modify f) none none (fun _ => True).
Proof. intros Hf s. apply wp_modify; [done|]. split; [done|]. destruct (Hf s) as (? & ? & ?). by apply adds_none. Qed.

Lemma emits_bind {A B} (m : M npState A) (f : A -> M npState B) P R Φ P' R' (Ψ : B -> Prop) :
  emits m P R Φ -> (forall a, Φ a -> emits (f a) P' R' Ψ) ->
  emits (m ≫= f) (fun x => P x \/ P' x) (fun x => R x \/ R' x) Ψ.
Proof.
  intros Hm Hf s. apply wp_bind. eapply wp_mono; [apply Hm|done|]. intros [a|e] s'; [|done].
  intros [Ha Hs]. eapply wp_mono; [by apply Hf|done|]. intros [b|e] s''; [|done].
  intros [Hb Hs']. split; [done|]. by eapply adds_trans.
Qed.

(** A step that adds nothing before another. *)
Lemma emits_quiet {A B} (m : M npState A) (f : A -> M npState B) Φ P R (Ψ : B -> Prop) :
  emits m none none Φ -> (forall a, Φ a -> emits (f a) P R Ψ) -> emits (m ≫= f) P R Ψ.
Proof. intros Hm Hf. eapply emits_iff; [by eapply emits_bind|cbn; tauto|cbn; tauto|done]. Qed.

Lemma emits_then {A B} (m : M npState A) (f : A -> M npState B) Φ P R (Ψ : B -> Prop) :
  emits m P R Φ -> (forall a, Φ a -> emits (f a) none none Ψ) -> emits (m ≫= f) P R Ψ.
Proof. intros Hm Hf. eapply emits_iff; [by eapply emits_bind|cbn; tauto|cbn; tauto|done]. Qed.

Lemma emits_read {B} (f : npState -> M npState B) P R (Ψ : B -> Prop) :
  (forall s, emits (f s) P R Ψ) -> emits (read ≫= f) P R Ψ.
Proof. intros Hf s. apply wp_bind, wp_read. apply Hf. Qed.

Lemma emits_foldlM {A B} (f : B -> A -> M npState B) b0 l (Inv : list A -> B -> Prop) P R :
  Inv [] b0 ->
  (forall pre x post b, l = pre ++ x :: post -> Inv pre b -> emits (f b x) (P x) (R x) (Inv (pre ++ [x]))) ->
  emits (foldlM f b0 l) (fun a => exists x, x ∈ l /\ P x a) (fun c => exists x, x ∈ l /\ R x c) (Inv l).
Proof.
  intros H0 Hf s. apply (wp_foldlM _ _ _ (fun pre b s' => Inv pre b /\
    adds (fun a => exists x, x ∈ pre /\ P x a) (fun c => exists x, x ∈ pre /\ R x c) s s')).
  - split; [done|]. eapply adds_iff; [..|by apply adds_none]; cbn; set_solver.
  - intros pre x post b s' E [Hi Hs]. eapply wp_mono; [by eapply Hf|done|]. intros [b'|e] s''; [|done].
    intros [Hi' Hs']. split; [done|]. eapply adds_iff; [..|by eapply adds_trans]; cbn; set_solver.
  - done.
Qed.

Lemma emits_forM {A} (f : A -> M npState unit) l P R :
  (forall x, x ∈ l -> emits (f x) (P x) (R x) (fun _ => True)) ->
  emits (forM f l) (fun a => exists x, x ∈ l /\ P x a) (fun c => exists x, x ∈ l /\ R x c) (fun _ => True).
Proof.
  intros Hf s. apply (wp_forM _ _ (fun pre s' =>
    adds (fun a => exists x, x ∈ pre /\ P x a) (fun c => exists x, x ∈ pre /\ R x c) s s')).
  - eapply adds_iff; [..|by apply adds_none]; cbn; set_solver.
  - intros pre x post s' E Hs. eapply wp_mono; [apply Hf; set_solver|done|]. intros [[]|e] s''; [|done].
    intros [_ Hs']. eapply adds_iff; [..|by eapply adds_trans]; cbn; set_solver.
  - done.
Qed.

(** A loop that adds nothing. *)
Lemma emits_forM_quiet {A} (f : A -> M npState unit) l :
  (forall x, emits (f x) none none (fun _ => True)) -> emits (forM f l) none none (fun _ => True).
Proof.
  intros Hf. eapply emits_iff; [apply (emits_forM f l (fun _ => none) (fun _ => none)); auto|cbn; naive_solver|cbn; naive_solver|done].
Qed.

Lemma emits_arrange {K V B} `{Countable K} (m : gmap K V) (f : list (K * V) -> M npState B) P R (Ψ : B -> Prop) :
  (forall l, l ≡ₚ map_to_list m -> emits (f l) P R Ψ) -> emits (arrange m ≫= f) P R Ψ.
Proof. intros Hf s. apply wp_bind, wp_arrange. intros l Hl. by apply Hf. Qed.
End Emits.

Create HintDb emits discriminated.
#[export] Hint Resolve emits_ret emits_modify : emits.

(** ** Ports *)

(** The items of a port list, without the warnings. *)
Definition port_items (ports : list NetworkPolicyPort) : list npPort :=
  if decide (ports = []) then [MkNpPort 6 0 0; MkNpPort 17 0 0]
  else omap (fun p => (npCompilePort EmptyString p []).1) ports.

Lemma npCompilePort_item policy p ws : (npCompilePort policy p ws).1 = (npCompilePort EmptyString p []).1.
Proof. unfold npCompilePort. repeat case_match; done. Qed.

Lemma npCompilePorts_items policy ports ws : (npCompilePorts policy ports ws).1 = port_items ports.
Proof.
  unfold npCompilePorts, port_items. case_decide; [done|].
  assert (forall l out ws, (fold_left (fun '(out, warns) p =>
    let '(item, warns) := npCompilePort policy p warns in (out ++ option_list item, warns)) l (out, ws)).1 =
    out ++ omap (fun p => (npCompilePort EmptyString p []).1) l) as Hl; [|by rewrite Hl].
  clear. induction l as [|p l IH]; intros out ws; cbn; [by rewrite app_nil_r|].
  pose proof (npCompilePort_item policy p ws) as Hi. destruct (npCompilePort policy p ws) as [item ws'].
  rewrite IH, <-Hi. cbn. destruct item; cbn; [by rewrite <-app_assoc|by rewrite app_nil_r].
Qed.

(** The items of a port list for an address range: a range of ports is spelled out. *)
Definition expand_item (p : npPort) : list npPort :=
  if it_endPort p =? 0 then [p]
  else if 64 <=? it_endPort p - it_port p then []
  else (fun q => MkNpPort (it_proto p) q 0) <$> seqZ (it_port p) (it_endPort p - it_port p + 1).

Lemma expandPorts_items policy ports ws : (expandPorts policy ports ws).1 = ports ≫= expand_item.
Proof.
  unfold expandPorts. assert (forall l out ws, (fold_left (fun '(out, warns) p =>
    if it_endPort p =? 0 then (out ++ [p], warns)
    else if 64 <=? it_endPort p - it_port p then
      (out, addCompileWarnings warns [BlockRangeTooWide policy (it_port p) (it_endPort p)])
    else (out ++ ((fun q => MkNpPort (it_proto p) q 0) <$> seqZ (it_port p) (it_endPort p - it_port p + 1)), warns))
    l (out, ws)).1 = out ++ (l ≫= expand_item)) as Hl; [|apply Hl].
  clear. induction l as [|p l IH]; intros out ws; cbn [fold_left]; [by rewrite app_nil_r|].
  rewrite bind_cons. unfold expand_item at 1. case_if; [by rewrite IH, <-app_assoc|].
  case_if; [by rewrite IH|by rewrite IH, <-app_assoc].
Qed.

(** ** The steps of the compiler *)

Section Steps.
Context `{Runtime} `{Selectors}.

Lemma emits_warn w : emits (warn w) none none (fun _ => True).
Proof. apply emits_modify. done. Qed.

Lemma emits_spend : emits spend none none (fun _ => True).
Proof.
  intros s. apply wp_bind, wp_modify; [done|]. apply wp_bind, wp_read. case_if; [apply wp_fail; left; by to_prop|].
  apply wp_ret. split; [done|]. by apply adds_none.
Qed.

Lemma emits_spend_or e : emits (spend_or e) none none (fun _ => True).
Proof.
  intros s w Hw. pose proof (emits_spend s w Hw) as Hs. unfold spend_or.
  by destruct (spend w) as [w' [[]|e']].
Qed.

Lemma emits_with_warnings {A} (f : list npWarning -> A * list npWarning) a :
  (forall ws, (f ws).1 = a) -> emits (with_warnings f) none none (fun x => x = a).
Proof.
  intros Hf. apply emits_read. intros s. eapply emits_quiet; [by apply emits_modify|]. intros _ _. apply emits_ret, Hf.
Qed.

Lemma emits_selector_warnings policy sel : emits (npSelectorWarnings policy sel) none none (fun _ => True).
Proof.
  destruct sel as [sel|]; [|by apply emits_ret]. apply emits_arrange. intros keys _.
  eapply emits_quiet; [apply emits_forM_quiet|intros _ _; apply emits_forM_quiet].
  - intros [k v]. case_if; [apply emits_warn|by apply emits_ret].
  - intros e. case_if; [apply emits_warn|by apply emits_ret].
Qed.

Lemma emits_select registry matches :
  emits (select_ids registry matches) none none
    (fun ids => forall id, id ∈ ids <-> exists info, registry !! id = Some info /\ matches info = true).
Proof.
  apply emits_arrange. intros entries He. eapply emits_iff.
  - apply (emits_foldlM _ _ _ (fun pre ids => forall id, id ∈ ids <-> exists info, (id, info) ∈ pre /\ matches info = true)
      (fun _ => none) (fun _ => none)).
    { intros id. split; [intros []%not_elem_of_nil|intros (? & []%not_elem_of_nil & _)]. }
    intros pre [id info] post ids _ Hi. eapply emits_quiet; [apply emits_spend|]. intros _ _. apply emits_ret.
    intros j. assert ((exists info', (j, info') ∈ pre ++ [(id, info)] /\ matches info' = true) <->
      (exists info', (j, info') ∈ pre /\ matches info' = true) \/ (j = id /\ matches info = true)) as ->.
    { split.
      - intros (i & [Hin|Hin]%elem_of_app & Hm); [left; eauto|]. apply list_elem_of_singleton in Hin as [= -> ->]. by right.
      - intros [(i & Hin & Hm)|[-> Hm]]; [exists i|exists info]; rewrite elem_of_app, list_elem_of_singleton; auto. }
    destruct (matches info); [rewrite elem_of_app, Hi, list_elem_of_singleton; tauto|].
    rewrite Hi. split; [by left|]. by intros [|[_ ?]].
  - naive_solver.
  - naive_solver.
  - cbn. intros ids Hids id. rewrite Hids. split; intros (info & Hin & Hm); exists info; (split; [|done]).
    + rewrite He in Hin. by apply elem_of_map_to_list.
    + rewrite He. by apply elem_of_map_to_list.
Qed.
End Steps.

#[export] Hint Resolve emits_warn emits_spend emits_spend_or emits_selector_warnings : emits.

(** ** What a policy declares *)

Section Spec.
Context `{Selectors} (registry : gmap Z identInfo) (nsLabels : gmap string labels).

(** The policy selects a pod with this namespace and these labels. *)
Definition selected (np : NetworkPolicyObj) (info : identInfo) : Prop :=
  exists sel, AsSelector (Some (pol_PodSelector np)) = Some sel /\
    info_ns info = pol_Namespace np /\ sel (info_lbls info) = true.

(** The identities it selects. *)
Definition subject (np : NetworkPolicyObj) (id : Z) : Prop :=
  exists info, registry !! id = Some info /\ selected np info.

(** [namespaceSelector: {}] alone. *)
Definition any_pod (peer : NetworkPolicyPeer) : Prop :=
  PodSelector peer = None /\
  match NamespaceSelector peer with
  | Some ns => size (MatchLabels ns) = 0%nat /\ length (MatchExpressions ns) = 0%nat
  | None => False
  end.

(** The selectors of a peer select a pod with this namespace and these labels. *)
Definition peer_selects (np : NetworkPolicyObj) (peer : NetworkPolicyPeer) (info : identInfo) : Prop :=
  match NamespaceSelector peer with
  | None => exists sel, AsSelector (PodSelector peer) = Some sel /\
      info_ns info = pol_Namespace np /\ sel (info_lbls info) = true
  | Some ns => exists nsSel podSel nsl, AsSelector (Some ns) = Some nsSel /\
      match PodSelector peer with None => Some Everything | sel => AsSelector sel end = Some podSel /\
      nsLabels !! info_ns info = Some nsl /\ nsSel nsl = true /\ podSel (info_lbls info) = true
  end.

(** The identities a peer stands for in a direction. *)
Definition peer_names (np : NetworkPolicyObj) (dir : Z) (peer : NetworkPolicyPeer) (id : Z) : Prop :=
  match npEntityPeer peer with
  | Some name => npEntityID name dir = (id, true)
  | None => (any_pod peer /\ id = NPSrcAnyPod) \/
      (~ any_pod peer /\ exists info, registry !! id = Some info /\ peer_selects np peer info)
  end.

(** The identities of the peers of a rule. *)
Definition rule_peer (np : NetworkPolicyObj) (dir : Z) (rule : NetworkPolicyRule) (id : Z) : Prop :=
  (rule_Peers rule = [] /\ id = NPSrcAny) \/
  exists peer, peer ∈ rule_Peers rule /\ peer_IPBlock peer = None /\ peer_names np dir peer id.

(** The ranges of an ipBlock: its CIDR, and its excepts that parse. *)
Definition block_range (b : IPBlock) (net : IPNet) (allow : bool) : Prop :=
  exists ip cidr, ParseCIDR (TrimSpace (blk_CIDR b)) = Some (ip, cidr) /\
    ((allow = true /\ net = cidr) \/
     (allow = false /\ exists exs ip', exs ∈ blk_Except b /\ ParseCIDR (TrimSpace exs) = Some (ip', net))).

(** The rules in force for a direction. *)
Definition rules_of (np : NetworkPolicyObj) (dir : Z) : list NetworkPolicyRule :=
  if dir =? NPDirIn then (if (policy_types np).1 then pol_Ingress np else [])
  else (if (policy_types np).2 then default [] (pol_Egress np) else []).

Definition rule_row (np : NetworkPolicyObj) (dir : Z) (rule : NetworkPolicyRule) (a : NPAllow) : Prop :=
  exists self peer p, subject np self /\ rule_peer np dir rule peer /\ p ∈ port_items (rule_Ports rule) /\
    a = row_of dir self peer p.

Definition rule_range (np : NetworkPolicyObj) (dir : Z) (rule : NetworkPolicyRule) (c : NPCidr) : Prop :=
  exists self peer b p net allow, subject np self /\ peer ∈ rule_Peers rule /\ peer_IPBlock peer = Some b /\
    p ∈ (port_items (rule_Ports rule) ≫= expand_item) /\ block_range b net allow /\
    c = MkNPCidr self dir (it_proto p) (it_port p) (Some net) allow.
End Spec.

#[export] Instance any_pod_dec peer : Decision (any_pod peer).
Proof. unfold any_pod. destruct (PodSelector peer); [right; by intros []|]. destruct (NamespaceSelector peer); apply _. Defined.

(** ** The compiler emits what the policies declare *)

Section PolicySteps.
Context `{Runtime} `{Selectors} (registry : gmap Z identInfo) (nsLabels : gmap string labels) (np : NetworkPolicyObj).

Lemma emits_resolve_peer dir peer :
  emits (resolve_peer registry nsLabels np dir peer) none none
    (fun ids => forall id, id ∈ ids <-> peer_names registry nsLabels np dir peer id).
Proof.
  unfold resolve_peer, peer_names. destruct (npEntityPeer peer) as [name|].
  - destruct (npEntityID name dir) as [id []].
    + apply emits_ret. intros j. rewrite list_elem_of_singleton. split; [by intros ->|by intros [= ->]].
    + eapply emits_quiet; [apply emits_warn|]. intros _ _. apply emits_ret. intros j.
      split; [intros []%not_elem_of_nil|by intros [= ?]].
  - eapply emits_quiet; [apply emits_selector_warnings|]. intros _ _.
    eapply emits_quiet; [apply emits_selector_warnings|]. intros _ _. unfold any_pod, peer_selects.
    destruct (NamespaceSelector peer) as [ns|].
    + case_decide as Ha.
      { apply emits_ret. intros j. rewrite list_elem_of_singleton. tauto. }
      destruct (AsSelector (Some ns)) as [nsSel|].
      2: { eapply emits_quiet; [apply emits_warn|]. intros _ _. apply emits_ret. intros j.
           split; [intros []%not_elem_of_nil|]. intros [[? _]|(_ & info & _ & ? & ? & ? & ? & _)]; [tauto|done]. }
      destruct (match PodSelector peer with None => Some Everything | sel => AsSelector sel end) as [podSel|].
      2: { eapply emits_quiet; [apply emits_warn|]. intros _ _. apply emits_ret. intros j.
           split; [intros []%not_elem_of_nil|]. intros [[? _]|(_ & info & _ & ? & ? & ? & ? & ? & _)]; [tauto|done]. }
      eapply emits_iff; [apply emits_select|done|done|]. cbn. intros ids Hids id. rewrite Hids. split.
      * intros (info & Hr & Hm). right. split; [done|]. exists info. split; [done|].
        destruct (nsLabels !! info_ns info) as [nsl|]; [|done]. to_prop. exists nsSel, podSel, nsl. auto.
      * intros [[? _]|(_ & info & Hr & nsSel' & podSel' & nsl & [= <-] & [= <-] & Hn & Hm1 & Hm2)]; [tauto|].
        exists info. split; [done|]. rewrite Hn, Hm1, Hm2. done.
    + destruct (AsSelector (PodSelector peer)) as [sel|].
      2: { eapply emits_quiet; [apply emits_warn|]. intros _ _. apply emits_ret. intros j.
           split; [intros []%not_elem_of_nil|]. intros [[[_ []] _]|(_ & info & _ & ? & ? & _)]; done. }
      eapply emits_iff; [apply emits_select|done|done|]. cbn. intros ids Hids id. rewrite Hids. split.
      * intros (info & Hr & Hm). right. split; [by intros [_ []]|]. exists info. split; [done|]. to_prop. eauto.
      * intros [[[_ []] _]|(_ & info & Hr & sel' & [= <-] & Hn & Hm)]. exists info. split; [done|].
        rewrite Hm. by rewrite bool_decide_true.
Qed.

Lemma emits_resolvePeers dir peers :
  emits (resolvePeers registry nsLabels np peers dir) none none
    (fun r => (forall id, id ∈ r.1 <-> exists peer, peer ∈ peers /\ peer_IPBlock peer = None /\ peer_names registry nsLabels np dir peer id)
      /\ (forall b, b ∈ r.2 <-> exists peer, peer ∈ peers /\ peer_IPBlock peer = Some b)).
Proof.
  eapply emits_iff.
  - apply (emits_foldlM _ _ _ (fun pre r =>
      (forall id, id ∈ r.1 <-> exists peer, peer ∈ pre /\ peer_IPBlock peer = None /\ peer_names registry nsLabels np dir peer id)
      /\ (forall b, b ∈ r.2 <-> exists peer, peer ∈ pre /\ peer_IPBlock peer = Some b)) (fun _ => none) (fun _ => none)).
    { cbn. split; intros ?; (split; [intros []%not_elem_of_nil|intros (? & []%not_elem_of_nil & _)]). }
    intros pre peer post [ids blocks] _ [Hi Hb]. cbn [fst snd] in *. eapply emits_quiet; [apply emits_spend|]. intros _ _.
    destruct (peer_IPBlock peer) as [b|] eqn:Eb.
    + apply emits_ret. cbn [fst snd]. split; intros x.
      * rewrite Hi. split; intros (p & Hp & Hn & Hm); exists p; (split; [|done]).
        { apply elem_of_app. by left. }
        { apply elem_of_app in Hp as [|Hp]; [done|]. apply list_elem_of_singleton in Hp as ->. congruence. }
      * rewrite elem_of_app, Hb, list_elem_of_singleton. setoid_rewrite elem_of_app. setoid_rewrite list_elem_of_singleton.
        split; [intros [(p & ? & ?)| ->]; eauto|]. intros (p & [? | ->] & E); [eauto|right; congruence].
    + eapply emits_quiet; [apply emits_resolve_peer|]. cbn. intros new Hnew. apply emits_ret. cbn [fst snd]. split; intros x.
      * rewrite elem_of_app, Hi, Hnew. setoid_rewrite elem_of_app. setoid_rewrite list_elem_of_singleton.
        split; [intros [(p & ? & ? & ?)|?]; eauto 10|]. intros (p & [? | ->] & ? & ?); eauto 10.
      * rewrite Hb. setoid_rewrite elem_of_app. setoid_rewrite list_elem_of_singleton.
        split; [intros (p & ? & ?); eauto|]. intros (p & [? | ->] & E); [eauto|congruence].
  - cbn. naive_solver.
  - cbn. naive_solver.
  - done.
Qed.

Lemma wp_spend I (Q : result unit -> npState -> Prop) s : (forall s, I s) ->
  (forall e, npCompileWorkLimit < work s + 1 -> Q (Err e) (set_work (work s + 1) s)) -> Q (Ok tt) (set_work (work s + 1) s) -> wp spend I Q s.
Proof.
  intros HI He Hq. apply wp_bind, wp_modify; [done|]. apply wp_bind, wp_read.
  case_if; [apply wp_fail, He; by to_prop|by apply wp_ret].
Qed.

Lemma wp_spend_or e I (Q : result unit -> npState -> Prop) s : (forall s, I s) ->
  (forall e, npCompileWorkLimit < work s + 1 -> Q (Err e) (set_work (work s + 1) s)) -> Q (Ok tt) (set_work (work s + 1) s) -> wp (spend_or e) I Q s.
Proof.
  intros HI He Hq w Hw.
  pose proof (wp_spend I (fun r s' => s' = set_work (work s + 1) s /\ (forall e, r = Err e -> npCompileWorkLimit < work s + 1))
    s HI ltac:(done) ltac:(done) w Hw) as [[Es Hlim] Hh].
  unfold spend_or. destruct (spend w) as [w' [[]|e']]; cbn in *; rewrite Es; [auto|]. split; [|done]. by eapply He, Hlim.
Qed.

Lemma emits_add_cidr self dir net allow p :
  emits (add_cidr self dir net allow p) none (fun c => c = MkNPCidr self dir (it_proto p) (it_port p) (Some net) allow) (fun _ => True).
Proof.
  intros s. apply wp_bind, wp_read. destruct (npCompileLimit <=? _) eqn:El; [apply wp_fail; right; left; by to_prop|].
  apply wp_bind, wp_spend_or; [done|intros e He; by left|]. apply wp_modify; [done|].
  split; [done|]. split; [intros a; cbn; tauto|]. split.
  - intros c. cbn [cidrs set_cidrs set_work]. by rewrite elem_of_app, list_elem_of_singleton.
  - split; [done|]. intros (B1 & B2 & B3). split; [done|]. split; [done|].
    cbn [cidrs set_cidrs set_work]. rewrite length_app. cbn [length]. to_prop. lia.
Qed.

Lemma emits_compile_block self dir ports b :
  emits (compile_block np self dir ports b) none
    (fun c => exists p net allow, p ∈ ports /\ block_range b net allow /\
       c = MkNPCidr self dir (it_proto p) (it_port p) (Some net) allow) (fun _ => True).
Proof.
  unfold compile_block, block_range. destruct (ParseCIDR (TrimSpace (blk_CIDR b))) as [[ip cidr]|].
  2: { eapply emits_iff; [apply emits_warn|done| |done]. intros c. split; [done|]. by intros (? & ? & ? & _ & (? & ? & ? & _) & _). }
  eapply emits_iff.
  - eapply emits_bind; [apply emits_forM; intros p _; apply emits_add_cidr|]. intros _ _.
    apply (emits_forM _ _ (fun _ => none) (fun exs c => exists p ip' ex, p ∈ ports /\ ParseCIDR (TrimSpace exs) = Some (ip', ex) /\
      c = MkNPCidr self dir (it_proto p) (it_port p) (Some ex) false)).
    intros exs _. destruct (ParseCIDR (TrimSpace exs)) as [[ip' ex]|].
    + eapply emits_iff; [apply emits_forM; intros p _; apply emits_add_cidr|cbn; naive_solver| |done].
      intros c. cbn. split; [intros (p & ? & ->); eauto 10|]. intros (p & ? & ? & ? & [= <- <-] & ->). eauto.
    + eapply emits_iff; [apply emits_warn|done| |done]. intros c. split; [done|]. by intros (? & ? & ? & _ & ? & _).
  - cbn. naive_solver.
  - intros c. cbn. split.
    + intros [(p & ? & ->)|(exs & ? & p & ip' & ex & ? & ? & ->)]; [exists p, cidr, true|exists p, ex, false]; (split; [done|]);
        (split; [|done]); exists ip, cidr; (split; [done|]); [by left|right; eauto].
    + intros (p & net & allow & Hp & (ip0 & cidr0 & [= <- <-] & [[-> ->]|[-> (exs & ip' & ? & ?)]]) & ->); [left|right]; eauto 10.
  - done.
Qed.

Lemma emits_compileBlocks blocks self dir ports :
  emits (compileBlocks np blocks self dir ports) none
    (fun c => exists b p net allow, b ∈ blocks /\ p ∈ (ports ≫= expand_item) /\ block_range b net allow /\
       c = MkNPCidr self dir (it_proto p) (it_port p) (Some net) allow) (fun _ => True).
Proof.
  unfold compileBlocks. case_decide as E.
  { eapply emits_iff; [apply emits_skip|done| |done]. intros c. split; [done|]. subst. by intros (? & ? & ? & ? & []%not_elem_of_nil & _). }
  eapply emits_quiet; [eapply emits_with_warnings, expandPorts_items|]. cbn. intros ? ->.
  eapply emits_iff; [apply emits_forM; intros b _; apply emits_compile_block|cbn; naive_solver| |done].
  intros c. cbn. split; [intros (b & ? & p & net & allow & ? & ? & ->)|intros (b & p & net & allow & ? & ? & ? & ->)]; eauto 10.
Qed.

Lemma emits_add_allow key : emits (add_allow key) (fun a => a = key) none (fun _ => True).
Proof.
  intros s. apply wp_bind, wp_spend; [done|intros e He; by left|]. apply wp_bind, wp_read.
  destruct (negb _ && _) eqn:El; [apply wp_fail; right; right; by to_prop|]. apply wp_modify; [done|]. split; [done|].
  cbn [allows set_work set_allows] in *. split.
  { intros a. cbn [allows set_allows set_work]. destruct (decide (a = key)) as [-> |Hne].
    - rewrite lookup_insert_eq. split; [by right|eauto].
    - rewrite lookup_insert_ne by done. split; [by left|]. by intros [|]. }
  split; [intros c; cbn; tauto|]. split; [done|]. intros (B1 & B2 & B3). split; [|split; [|done]].
  - cbn [allows set_allows set_work]. destruct (allows s !! key) as [b|] eqn:Ek.
    + rewrite map_size_insert_Some by eauto. done.
    + rewrite map_size_insert_None by done. rewrite ?Ek in El. cbn in El. to_prop. lia.
  - cbn. by apply map_Forall_insert_2.
Qed.

Lemma emits_compile_rule dir subjects rule :
  (forall id, id ∈ subjects <-> subject registry np id) ->
  emits (compile_rule registry nsLabels np dir subjects rule)
    (rule_row registry nsLabels np dir rule) (rule_range registry np dir rule) (fun _ => True).
Proof.
  intros Hsub. unfold compile_rule.
  eapply emits_quiet; [eapply emits_with_warnings; intros ws; apply npCompilePorts_items|]. cbn. intros ? ->.
  eapply (emits_quiet _ _ (fun r => (forall id, id ∈ r.1 <-> rule_peer registry nsLabels np dir rule id) /\
    (forall b, b ∈ r.2 <-> exists peer, peer ∈ rule_Peers rule /\ peer_IPBlock peer = Some b))).
  { unfold rule_peer. case_decide as E.
    - apply emits_ret. cbn. rewrite E. split; intros x.
      + rewrite list_elem_of_singleton. split; [by left|]. intros [[_ ?]|(? & []%not_elem_of_nil & _)]. done.
      + split; [intros []%not_elem_of_nil|intros (? & []%not_elem_of_nil & _)].
    - eapply emits_iff; [apply emits_resolvePeers|done|done|]. cbn. intros r [Hi Hb]. split; [|done]. intros id. rewrite Hi.
      split; [by right|]. by intros [[? _]|]. }
  intros [peerIDs blocks] [Hi Hb]. cbn [fst snd] in *. case_decide as Ep.
  { eapply emits_iff; [apply emits_skip| | |done]; intros x; split; try done; rewrite ?Ep.
    - unfold rule_row. rewrite Ep. by intros (? & ? & ? & _ & _ & []%not_elem_of_nil & _).
    - unfold rule_range. rewrite Ep. by intros (? & ? & ? & ? & ? & ? & _ & _ & _ & []%not_elem_of_nil & _). }
  eapply emits_iff; [apply emits_forM; intros self _; eapply emits_bind;
    [apply emits_forM; intros peer _; apply emits_forM; intros p _; apply emits_add_allow|intros _ _; apply emits_compileBlocks]| | |done].
  - intros a. unfold rule_row. cbn. split.
    + intros (self & Hs & [(peer & Hp & p & ? & ->)|[]]). exists self, peer, p. rewrite <-Hsub, <-Hi. auto.
    + intros (self & peer & p & Hs & Hp & ? & ->). exists self. rewrite Hsub. split; [done|]. left. exists peer. rewrite Hi. eauto.
  - intros c. unfold rule_range. cbn. split.
    + intros (self & Hs & [(? & _ & ? & _ & [])|(b & p & net & allow & (peer & ? & ?)%Hb & ? & ? & ->)]).
      exists self, peer, b, p, net, allow. rewrite <-Hsub. auto 10.
    + intros (self & peer & b & p & net & allow & Hs & ? & ? & ? & ? & ->). exists self. rewrite Hsub. split; [done|]. right.
      exists b, p, net, allow. rewrite Hb. eauto 10.
Qed.

(** The rows a policy declares. *)
Definition policy_row (a : NPAllow) : Prop :=
  exists dir rule, (dir = NPDirIn \/ dir = NPDirEg) /\ rule ∈ rules_of np dir /\ rule_row registry nsLabels np dir rule a.
Definition policy_range (c : NPCidr) : Prop :=
  exists dir rule, (dir = NPDirIn \/ dir = NPDirEg) /\ rule ∈ rules_of np dir /\ rule_range registry np dir rule c.

(** The policy isolates the identities it selects in direction [dir]. *)
Definition isolates (dir id : Z) : Prop :=
  subject registry np id /\ (if dir =? NPDirIn then (policy_types np).1 else (policy_types np).2) = true.

Definition flag_of (flags : gmap Z Z) (id : Z) : Z := default 0 (flags !! id).

Lemma isolate_bits ingress egress flags subjects id k : k = 0 \/ k = 1 ->
  Z.testbit (flag_of (fold_left (isolate ingress egress) subjects flags) id) k = true <->
  Z.testbit (flag_of flags id) k = true \/ (id ∈ subjects /\ (if k =? 0 then ingress else egress) = true).
Proof.
  intros Hk. revert flags. induction subjects as [|x l IH]; intros flags; cbn [fold_left].
  { split; [by left|]. intros [|[[]%not_elem_of_nil _]]. done. }
  rewrite IH. clear IH. rewrite elem_of_cons.
  assert (Z.testbit (flag_of (isolate ingress egress flags x) id) k = true <->
    Z.testbit (flag_of flags id) k = true \/ (id = x /\ (if k =? 0 then ingress else egress) = true)) as ->; [|tauto].
  unfold isolate, flag_of. destruct (decide (id = x)) as [-> |Hne].
  - destruct Hk as [-> | ->], ingress, egress; rewrite ?lookup_insert_eq; cbn [default id];
      rewrite ?Z.lor_spec, ?orb_true_iff; unfold NPIngIsolated, NPEgIsolated; cbn; intuition done.
  - destruct ingress, egress; rewrite ?lookup_insert_ne by done; tauto.
Qed.

Lemma emits_rules dir subjects (enabled : bool) rules :
  (forall id, id ∈ subjects <-> subject registry np id) -> rules_of np dir = (if enabled then rules else []) ->
  emits (if enabled then forM (compile_rule registry nsLabels np dir subjects) rules else mret tt)
    (fun a => exists rule, rule ∈ rules_of np dir /\ rule_row registry nsLabels np dir rule a)
    (fun c => exists rule, rule ∈ rules_of np dir /\ rule_range registry np dir rule c) (fun _ => True).
Proof.
  intros Hs Hr. destruct enabled; rewrite Hr.
  - apply emits_forM. intros rule _. by apply emits_compile_rule.
  - eapply emits_iff; [apply emits_skip| | |done]; intros x; (split; [done|]); by intros (? & []%not_elem_of_nil & _).
Qed.

Lemma wp_compile_policy s :
  wp (compile_policy registry nsLabels np) (fun _ => True)
    (fun r s' => match r with
     | Ok _ => (forall a, is_Some (allows s' !! a) <-> is_Some (allows s !! a) \/ policy_row a) /\
         (forall c, c ∈ cidrs s' <-> c ∈ cidrs s \/ policy_range c) /\ (bounded s -> bounded s') /\
         (forall id, (Z.testbit (flag_of (flags s') id) 0 = true <-> Z.testbit (flag_of (flags s) id) 0 = true \/ isolates NPDirIn id) /\
                     (Z.testbit (flag_of (flags s') id) 1 = true <-> Z.testbit (flag_of (flags s) id) 1 = true \/ isolates NPDirEg id))
     | Err _ => over s' end) s.
Proof.
  unfold compile_policy, policy_row, policy_range, isolates.
  destruct (AsSelector (Some (pol_PodSelector np))) as [sel|] eqn:Es.
  2: { assert (forall id, ~ subject registry np id) as Hno by (intros id (? & _ & ? & ? & _); congruence).
       eapply wp_mono; [apply emits_warn|done|]. intros [[]|e] s'; [|done]. intros [_ (H1 & H2 & H3 & H4)]. split; [|split; [|split]].
       - intros a. rewrite H1. split; [tauto|]. intros [|(dir & rule & _ & _ & self & ? & ? & Hs & _)]; [by left|by apply Hno in Hs].
       - intros c. rewrite H2. split; [tauto|]. intros [|(dir & rule & _ & _ & self & ? & ? & ? & ? & ? & Hs & _)]; [by left|by apply Hno in Hs].
       - done.
       - intros id. rewrite H3. specialize (Hno id). split; tauto. }
  apply wp_bind. eapply wp_mono; [apply emits_selector_warnings|done|]. intros [[]|e] s1; [|done]. intros [_ A1].
  apply wp_bind. eapply wp_mono; [apply emits_select|done|]. intros [subjects|e] s2; [|done]. intros [Hsub A2].
  assert (forall id, id ∈ subjects <-> subject registry np id) as Hsub'.
  { intros id. rewrite Hsub. unfold subject, selected. split.
    - intros (info & ? & Hm). to_prop. exists info. eauto.
    - intros (info & ? & sel' & E & ? & ?). rewrite Es in E. injection E as <-. exists info. split; [done|].
      apply andb_true_iff. split; [by apply bool_decide_true|done]. }
  destruct (policy_types np) as [hasIngress hasEgress] eqn:Et. cbn [fst snd].
  apply wp_bind, wp_modify; [done|]. set (s3 := set_flags _ s2).
  assert (adds none none s2 (set_flags (flags s2) s3)) as A3 by (by apply adds_none).
  apply wp_bind. eapply wp_mono; [apply (emits_rules NPDirIn subjects hasIngress (pol_Ingress np) Hsub'); unfold rules_of; by rewrite Et|done|].
  intros [[]|e] s4; [|done]. intros [_ A4].
  eapply wp_mono; [apply (emits_rules NPDirEg subjects hasEgress (default [] (pol_Egress np)) Hsub'); unfold rules_of; by rewrite Et|done|].
  intros [[]|e] s5; [|done]. intros [_ A5].
  destruct A1 as (P1 & R1 & F1 & B1), A2 as (P2 & R2 & F2 & B2), A4 as (P4 & R4 & F4 & B4), A5 as (P5 & R5 & F5 & B5).
  split; [|split; [|split]].
  - intros a. rewrite P5, P4. cbn [allows s3 set_flags]. rewrite P2, P1. split.
    + intros [[[[|[]]|[]]|(rule & ? & ?)]|(rule & ? & ?)]; [by left|right; eauto 6|right; eauto 6].
    + intros [|(dir & rule & [-> | ->] & ? & ?)]; eauto 6.
  - intros c. rewrite R5, R4. cbn [cidrs s3 set_flags]. rewrite R2, R1. split.
    + intros [[[[|[]]|[]]|(rule & ? & ?)]|(rule & ? & ?)]; [by left|right; eauto 6|right; eauto 6].
    + intros [|(dir & rule & [-> | ->] & ? & ?)]; eauto 6.
  - auto.
  - intros id. rewrite F5, F4. cbn [flags s3 set_flags]. rewrite !isolate_bits by auto. rewrite F2, F1, Hsub'. done.
Qed.
End PolicySteps.

(** ** Identity rows *)

Lemma podIDs_spec pods pod : (exists i, podIDs_of pods !! i = Some pod) <-> pod ∈ pods /\ eligible pod = true.
Proof.
  unfold podIDs_of. setoid_rewrite map_lookup_filter_Some. setoid_rewrite lookup_map_seq_0.
  rewrite list_elem_of_lookup. cbn. naive_solver.
Qed.

Section IdentRows.
Context `{Runtime} (fl : gmap Z Z).

Definition row_for (pod : Pod) (text : string) (e : NPIdent) : Prop :=
  ParseIP text <> [] /\ e = MkNPIdent (ParseIP text) (pod_id pod) (flag_of fl (pod_id pod)).

(** The addresses visited so far have a row each, by text. *)
Definition rows_inv (visited : list (Pod * string)) (acc : gset string * list NPIdent) : Prop :=
  (forall e, e ∈ acc.2 -> exists pod text, (pod, text) ∈ visited /\ row_for pod text e) /\
  (forall pod text, (pod, text) ∈ visited -> ParseIP text <> [] -> text ∈ acc.1) /\
  (forall text, text ∈ acc.1 -> exists e, e ∈ acc.2 /\ i_IP e = ParseIP text) /\
  Z.of_nat (length acc.2) <= npCompileLimit /\ (length acc.2 <= length visited)%nat.

Lemma rows_inv_step visited acc pod text s :
  rows_inv visited acc ->
  wp (add_ident fl pod acc text) (fun _ => True)
    (fun r s' => s' = s /\ match r with Ok acc' => rows_inv (visited ++ [(pod, text)]) acc'
       | Err _ => npCompileLimit <= Z.of_nat (length acc.2) end) s.
Proof.
  intros (H1 & H2 & H3 & H4 & H5). unfold add_ident, rows_inv. rewrite length_app. destruct acc as [seen rows]. cbn [fst snd] in *.
  assert (forall e, e ∈ rows -> exists pod' text', (pod', text') ∈ visited ++ [(pod, text)] /\ row_for pod' text' e) as H1'.
  { intros e He. destruct (H1 e He) as (p & t & ? & ?). exists p, t. split; [apply elem_of_app; by left|done]. }
  assert (forall p t, (p, t) ∈ visited ++ [(pod, text)] -> (p, t) ∈ visited \/ (p = pod /\ t = text)) as Hv.
  { intros p t [?|Hin]%elem_of_app; [by left|]. apply list_elem_of_singleton in Hin as [= -> ->]. by right. }
  destruct (ParseIP text) as [|b ip] eqn:Ep.
  { apply wp_ret. split; [done|]. split; [done|]. split; [|cbn; split_and!; auto with lia].
    intros p t [Hin|[-> ->]]%Hv Hn; [eauto|congruence]. }
  destruct (decide (text ∈ seen)) as [Hin|Hin].
  { apply wp_ret. split; [done|]. split; [done|]. split; [|cbn; split_and!; auto with lia].
    intros p t [?|[-> ->]]%Hv Hn; eauto. }
  destruct (npCompileLimit <=? _) eqn:El; [apply wp_fail; split; [done|by to_prop]|]. apply wp_ret. split; [done|].
  cbn [fst snd]. split; [|split; [|split; [|split]]].
  - intros e [He|He]%elem_of_app; [auto|]. apply list_elem_of_singleton in He as ->. exists pod, text.
    split; [apply elem_of_app; right; by apply list_elem_of_singleton|]. split; [congruence|]. by rewrite Ep.
  - intros p t [?|[-> ->]]%Hv Hn; [|set_solver]. apply elem_of_union. right. eauto.
  - intros t [Ht|Ht]%elem_of_union.
    + apply elem_of_singleton in Ht as ->. eexists. split; [apply elem_of_app; right; by apply list_elem_of_singleton|]. by rewrite Ep.
    + destruct (H3 t Ht) as (e & ? & ?). exists e. split; [apply elem_of_app; by left|done].
  - rewrite length_app. cbn [length]. to_prop. lia.
  - rewrite length_app. cbn [length]. lia.
Qed.

(** The addresses of the pods policies apply to. *)
Definition addresses (entries : list (nat * Pod)) : list (Pod * string) :=
  entries ≫= (fun e => pair e.2 <$> pod_IPs e.2).

Lemma addresses_elem entries pod text : (pod, text) ∈ addresses entries <-> (exists i, (i, pod) ∈ entries) /\ text ∈ pod_IPs pod.
Proof.
  unfold addresses. rewrite list_elem_of_bind. split.
  - intros ([i p] & Hin & Hp). apply list_elem_of_fmap in Hin as (t & [= -> ->] & Ht). eauto.
  - intros ([i Hi] & Ht). exists (i, pod). split; [|done]. apply list_elem_of_fmap. eauto.
Qed.

Lemma wp_ident_rows pods s :
  wp (ident_rows pods fl) (fun _ => True)
    (fun r s' => s' = s /\ match r with
     | Ok rows =>
         (forall e, e ∈ rows -> exists pod text, pod ∈ pods /\ eligible pod = true /\ text ∈ pod_IPs pod /\ row_for pod text e) /\
         (forall pod text, pod ∈ pods -> eligible pod = true -> text ∈ pod_IPs pod -> ParseIP text <> [] ->
            exists e, e ∈ rows /\ i_IP e = ParseIP text) /\
         Z.of_nat (length rows) <= npCompileLimit
     | Err _ => npCompileLimit <= Z.of_nat (length (addresses (map_to_list (podIDs_of pods))))
     end) s.
Proof.
  apply wp_bind, wp_arrange. intros entries Hent. apply wp_bind.
  assert (forall pod, (exists i, (i, pod) ∈ entries) <-> pod ∈ pods /\ eligible pod = true) as Hpods.
  { intros pod. rewrite <-podIDs_spec. by setoid_rewrite Hent; setoid_rewrite elem_of_map_to_list. }
  assert (length (addresses entries) = length (addresses (map_to_list (podIDs_of pods)))) as Hlen.
  { unfold addresses. apply Permutation_length. by rewrite Hent. }
  apply (wp_foldlM _ _ _ (fun pre acc s' => s' = s /\ rows_inv (addresses pre) acc)).
  - split; [done|]. split; [intros e []%not_elem_of_nil|]. split; [intros ? ? []%not_elem_of_nil|].
    split; [set_solver|]. cbn. split; [done|lia].
  - intros pre [i pod] post acc s' E [-> Hi].
    apply (wp_foldlM _ _ _ (fun pre' acc s' => s' = s /\ rows_inv (addresses pre ++ (pair pod <$> pre')) acc)).
    + split; [done|]. by rewrite app_nil_r.
    + intros pre' text post' acc' s'' E' [-> Hi']. eapply wp_mono; [exact (rows_inv_step _ acc' pod text s Hi')|done|].
      cbn. intros [acc''|e] s''; intros [-> Hr]; (split; [done|]).
      * by rewrite fmap_app, app_assoc.
      * destruct Hi' as (_ & _ & _ & _ & Hl). rewrite <-Hlen, E. unfold addresses in *. rewrite bind_app, length_app.
        rewrite length_app in Hl. rewrite bind_cons, length_app. cbn [snd]. rewrite E', fmap_app, !length_app. lia.
    + intros acc' s'' [-> Hi']. split; [done|]. unfold addresses. rewrite bind_app. cbn. by rewrite app_nil_r.
  - intros [seen rows] s' [-> (H1 & H2 & H3 & H4 & _)]. apply wp_ret. split; [done|]. cbn [fst snd] in *. split; [|split; [|done]].
    + intros e He. destruct (H1 e He) as (pod & text & Hv & Hr). apply addresses_elem in Hv as [Hp Ht].
      apply Hpods in Hp as [? ?]. eauto 10.
    + intros pod text Hp He Ht Hn. apply H3. eapply H2; [|done]. apply addresses_elem. split; [by apply Hpods|done].
Qed.
End IdentRows.

(** ** The compilation *)

Definition npInit : npState := MkNpState 0 [] ∅ ∅ [].

Section Compilation.
Context `{Runtime} `{Selectors} (pods : list Pod) (nss : list Namespace) (nps : list NetworkPolicyObj).
Let registry := registry_of pods.
Let nsLabels := nsLabels_of nss.

(** The compiled snapshot is exactly what the policies declare, within the limits. *)
Definition compiled_exactly (c : npCompiled) : Prop :=
  (forall a, a ∈ c_allows c <-> exists np, np ∈ nps /\ policy_row registry nsLabels np a) /\
  (forall r, r ∈ c_cidrs c <-> exists np, np ∈ nps /\ policy_range registry np r) /\
  (forall e, e ∈ c_idents c -> exists pod text, pod ∈ pods /\ eligible pod = true /\ text ∈ pod_IPs pod /\
     i_IP e = ParseIP text /\ i_ID e = pod_id pod /\
     (Z.testbit (i_Flags e) 0 = true <-> exists np, np ∈ nps /\ isolates registry np NPDirIn (pod_id pod)) /\
     (Z.testbit (i_Flags e) 1 = true <-> exists np, np ∈ nps /\ isolates registry np NPDirEg (pod_id pod))) /\
  (forall pod text, pod ∈ pods -> eligible pod = true -> text ∈ pod_IPs pod -> ParseIP text <> [] ->
     exists e, e ∈ c_idents c /\ i_IP e = ParseIP text) /\
  Z.of_nat (length (c_allows c)) <= npCompileLimit /\ Z.of_nat (length (c_cidrs c)) <= npCompileLimit /\
  Z.of_nat (length (c_idents c)) <= npCompileLimit.

(** Why a compilation is rejected. *)
Definition compile_budget (s : npState) : Prop :=
  npCompileLimit < Z.of_nat (length pods) \/ npCompileLimit < Z.of_nat (length nss) \/ npCompileLimit < Z.of_nat (length nps) \/
  is_ok (npInputWork pods nss nps) = false \/ over s \/
  npCompileLimit <= Z.of_nat (length (addresses (map_to_list (podIDs_of pods)))).

(** The state after some of the policies. *)
Definition policies_done (pre : list NetworkPolicyObj) (s : npState) : Prop :=
  (forall a, is_Some (allows s !! a) <-> exists np, np ∈ pre /\ policy_row registry nsLabels np a) /\
  (forall r, r ∈ cidrs s <-> exists np, np ∈ pre /\ policy_range registry np r) /\ bounded s /\
  (forall id, (Z.testbit (flag_of (flags s) id) 0 = true <-> exists np, np ∈ pre /\ isolates registry np NPDirIn id) /\
              (Z.testbit (flag_of (flags s) id) 1 = true <-> exists np, np ∈ pre /\ isolates registry np NPDirEg id)).

Lemma ex_snoc {A} (pre : list A) x (P : A -> Prop) :
  (exists y, y ∈ pre ++ [x] /\ P y) <-> (exists y, y ∈ pre /\ P y) \/ P x.
Proof.
  setoid_rewrite elem_of_app. setoid_rewrite list_elem_of_singleton. split.
  - intros (y & [? | ->] & ?); eauto.
  - intros [(y & ? & ?)|?]; eauto.
Qed.

Lemma wp_policies s : policies_done [] s ->
  wp (forM (compile_policy registry nsLabels) nps) (fun _ => True)
    (fun r s' => match r with Ok _ => policies_done nps s' | Err _ => over s' end) s.
Proof.
  intros Hs. apply (wp_forM _ _ policies_done); [done| |done]. intros pre np post s' _ (H1 & H2 & H3 & H4).
  eapply wp_mono; [apply wp_compile_policy|done|]. intros [[]|e] s''; [|done]. intros (P & R & B & F). split; [|split; [|split]].
  - intros a. rewrite P, H1. by rewrite (ex_snoc pre np (fun np => policy_row registry nsLabels np a)).
  - intros r. rewrite R, H2. by rewrite (ex_snoc pre np (fun np => policy_range registry np r)).
  - auto.
  - intros id. destruct (F id) as [F0 F1], (H4 id) as [G0 G1]. rewrite F0, F1, G0, G1.
    by rewrite (ex_snoc pre np (fun np => isolates registry np NPDirIn id)), (ex_snoc pre np (fun np => isolates registry np NPDirEg id)).
Qed.

Lemma wp_compile :
  wp (compileNetworkPolicies pods nss nps) (fun _ => True)
    (fun r s => match r with Ok c => compiled_exactly c | Err _ => compile_budget s end) npInit.
Proof.
  unfold compileNetworkPolicies, compile_budget. destruct (_ || _) eqn:El.
  { apply wp_fail. rewrite !orb_true_iff, !Z.ltb_lt in El. tauto. }
  apply wp_bind, wp_lift. destruct (npInputWork pods nss nps) as [input|e]; [|tauto]. apply wp_bind, wp_modify; [done|].
  apply wp_bind. eapply wp_mono; [apply wp_policies|done|].
  { split; [intros a|split; [intros r|split; [|intros id]]]; cbn.
    - split; [intros [? Hx]; by rewrite lookup_empty in Hx|intros (? & []%not_elem_of_nil & _)].
    - split; [intros []%not_elem_of_nil|intros (? & []%not_elem_of_nil & _)].
    - split; [done|]. split; [apply map_Forall_empty|done].
    - unfold flag_of. rewrite lookup_empty. cbn. split; (split; [done|intros (? & []%not_elem_of_nil & _)]). }
  intros [[]|e] s; [|tauto]. intros (H1 & H2 & (B1 & B2 & B3) & H4). apply wp_bind, wp_read. apply wp_bind.
  eapply wp_mono; [apply wp_ident_rows|done|]. intros [rows|e] s'; [|tauto]. intros [-> (I1 & I2 & I3)].
  apply wp_bind, wp_arrange. intros al Hal. apply wp_ret. split; [|split; [|split; [|split; [|split; [|split]]]]]; cbn.
  - intros a. rewrite <-H1, Hal, list_elem_of_fmap. split.
    + intros ([k v] & -> & Hin%elem_of_map_to_list). eauto.
    + intros [v Hv]. exists (a, v). split; [done|]. by apply elem_of_map_to_list.
  - done.
  - intros e He. destruct (I1 e He) as (pod & text & Hp & Hel & Ht & _ & ->). exists pod, text. cbn. repeat (split; [done|]). apply H4.
  - done.
  - rewrite length_fmap, Hal, length_map_to_list. done.
  - done.
  - done.
Qed.

(** C4. Compilation is exact whatever order Go visits its maps in: a successful run emits an
    identity-pair rule, a range row and an isolation flag if and only if a policy declares it,
    gives every address of every pod policies apply to a row, and stays within the row limits;
    and a run fails only because an input, work or row budget is exhausted. *)
Theorem compileNetworkPolicies_exact clk log :
  let '(w, r) := compileNetworkPolicies pods nss nps (MkWorld clk npInit log) in
  match r with Ok c => compiled_exactly c | Err _ => compile_budget (kern w) end.
Proof.
  destruct (wp_compile (MkWorld clk npInit log) eq_refl) as [Hw _].
  by destruct (compileNetworkPolicies pods nss nps (MkWorld clk npInit log)).
Qed.

(** [c] is the result of a run of the compiler. *)
Definition compiles (c : npCompiled) : Prop :=
  exists clk log w, compileNetworkPolicies pods nss nps (MkWorld clk npInit log) = (w, Ok c).

Lemma compiles_exact c : compiles c -> compiled_exactly c.
Proof. intros (clk & log & w & E). destruct (wp_compile (MkWorld clk npInit log) eq_refl) as [Hw _]. by rewrite E in Hw. Qed.
End Compilation.

(** ** What the compiled rules mean for pods *)

(** Real identities never collide with the reserved ones. *)
Lemma npIdentityOf_range ns l : NPFirstRealID <= npIdentityOf ns l < 2 ^ 64.
Proof.
  unfold npIdentityOf, NPFirstRealID.
  match goal with |- context [be (take 8 (Sum256 ?m))] => set (b := m) end.
  assert (0 <= be (take 8 (Sum256 b)) < 256 ^ Z.of_nat (length (take 8 (Sum256 b)))) as Hb by (apply be_bound, Forall_take, Sum256_byte).
  rewrite length_take, Sum256_length in Hb. change (256 ^ Z.of_nat (8 `min` 32)) with (2 ^ 64) in Hb.
  case_if; to_prop; lia.
Qed.

(** An item of the port list admits a port. *)
Definition port_matches (p : NetworkPolicyPort) (proto port : Z) : Prop :=
  port_proto p = Some proto /\
  match np_Port p, np_EndPort p with
  | None, None => True
  | Some (IntVal v), None => 1 <= v <= 65535 /\ port = v
  | Some (IntVal v), Some e => 1 <= v /\ v <= e <= 65535 /\ v <= port <= e
  | _, _ => False
  end.

Definition ports_match (ports : list NetworkPolicyPort) (proto port : Z) : Prop :=
  (ports = [] /\ (proto = 6 \/ proto = 17)) \/ exists p, p ∈ ports /\ port_matches p proto port.

(** An item as a rule row sees it. *)
Definition item_admits (it : npPort) (proto port : Z) : Prop :=
  it_proto it = proto /\ (it_port it = 0 \/ it_port it <= port <= (if it_endPort it =? 0 then it_port it else it_endPort it)).

Lemma npCompilePort_spec p it : (npCompilePort EmptyString p []).1 = Some it ->
  (it_proto it = 6 \/ it_proto it = 17) /\ 0 <= it_port it < 2 ^ 16 /\ 0 <= it_endPort it < 2 ^ 16 /\
  forall proto port, item_admits it proto port <-> port_matches p proto port.
Proof.
  assert (forall pr, port_proto p = Some pr -> pr = 6 \/ pr = 17) as Hpr.
  { intros pr. unfold port_proto. repeat case_match; intros [= <-]; auto. }
  unfold npCompilePort, port_matches, item_admits. destruct (port_proto p) as [pr|]; [|done]. specialize (Hpr pr eq_refl).
  destruct (np_Port p) as [[v|n]|], (np_EndPort p) as [e|]; cbn [fst]; try done.
  - destruct (_ || _) eqn:E1; [done|]. destruct ((e <? v) || _) eqn:E2; [done|]. intros [= <-]. to_prop. cbn.
    split; [done|]. split; [lia|]. split; [lia|]. intros proto port. destruct (Z.eqb_spec e 0); [lia|].
    split; [intros [-> ?]|intros [[= ->] ?]]; (split; [done|lia]).
  - destruct (_ || _) eqn:E1; [done|]. intros [= <-]. to_prop. cbn. split; [done|]. split; [lia|]. split; [lia|].
    intros proto port. split; [intros [-> ?]|intros [[= ->] ?]]; (split; [done|lia]).
  - intros [= <-]. cbn. split; [done|]. split; [lia|]. split; [lia|]. intros proto port.
    split; [intros [-> ?]|intros [[= ->] ?]]; (split; [done|]); [done|by left].
Qed.

Lemma port_items_spec ports proto port :
  (exists it, it ∈ port_items ports /\ item_admits it proto port) <-> ports_match ports proto port.
Proof.
  unfold port_items, ports_match. case_decide as E.
  - subst. unfold item_admits. split.
    + intros (it & Hin & <- & _). left. split; [done|]. apply elem_of_cons in Hin as [-> |Hin]; [by left|].
      apply list_elem_of_singleton in Hin as ->. by right.
    + intros [[_ [-> | ->]]|(? & []%not_elem_of_nil & _)].
      * exists (MkNpPort 6 0 0). split; [apply list_elem_of_here|]. split; [done|by left].
      * exists (MkNpPort 17 0 0). split; [apply list_elem_of_further, list_elem_of_here|]. split; [done|by left].
  - setoid_rewrite list_elem_of_omap. split.
    + intros (it & (p & Hp & Hit) & Ha). right. exists p. split; [done|]. by apply (npCompilePort_spec p it Hit).
    + intros [[? _]|(p & Hp & Hm)]; [done|]. destruct (npCompilePort EmptyString p []).1 as [it|] eqn:Hit.
      * exists it. split; [eauto|]. by apply (npCompilePort_spec p it Hit).
      * exfalso. revert Hit. unfold npCompilePort, port_matches in *. destruct Hm as [-> Hm].
        destruct (np_Port p) as [[v|n]|], (np_EndPort p) as [e|]; try done; cbn.
        -- destruct (_ || _) eqn:E1; [rewrite orb_true_iff, !Z.ltb_lt in E1; lia|].
           destruct ((e <? v) || _) eqn:E2; [rewrite orb_true_iff, !Z.ltb_lt in E2; lia|done].
        -- destruct (_ || _) eqn:E1; [rewrite orb_true_iff, !Z.ltb_lt in E1; lia|done].
Qed.

Lemma registry_spec pods id info : registry_of pods !! id = Some info ->
  exists pod, pod ∈ pods /\ eligible pod = true /\ pod_id pod = id /\ pod_info pod = info.
Proof.
  unfold registry_of. cut (forall reg : gmap Z identInfo, (fold_left (fun registry pod => if eligible pod then <[pod_id pod := pod_info pod]> registry else registry)
    pods reg) !! id = Some info -> reg !! id = Some info \/ exists pod, pod ∈ pods /\ eligible pod = true /\ pod_id pod = id /\ pod_info pod = info).
  { intros C [E|?]%C; [by rewrite lookup_empty in E|done]. }
  induction pods as [|p pods IH]; intros reg; cbn [fold_left]; [by left|]. intros [E|(q & ? & ? & ? & ?)]%IH.
  - destruct (eligible p) eqn:Ep; [|by left]. destruct (decide (pod_id p = id)) as [<- |Hne].
    + rewrite lookup_insert_eq in E. injection E as <-. right. exists p. set_solver.
    + rewrite lookup_insert_ne in E by done. by left.
  - right. exists q. set_solver.
Qed.

Lemma registry_dom pods pod : pod ∈ pods -> eligible pod = true -> is_Some (registry_of pods !! pod_id pod).
Proof.
  intros Hin He. unfold registry_of. generalize (∅ : gmap Z identInfo).
  cut (forall reg : gmap Z identInfo, pod ∈ pods \/ is_Some (reg !! pod_id pod) -> is_Some (fold_left (fun registry pod =>
    if eligible pod then <[pod_id pod := pod_info pod]> registry else registry) pods reg !! pod_id pod)).
  { intros C reg. apply C. by left. }
  clear Hin. induction pods as [|p pods IH]; intros reg Hr; cbn [fold_left]; [set_solver|]. apply IH.
  destruct Hr as [[-> |]%elem_of_cons|Hr]; [right; rewrite He, lookup_insert_eq; eauto|by left|right].
  destruct (eligible p); [|done]. destruct (decide (pod_id p = pod_id pod)) as [-> |]; [rewrite lookup_insert_eq; eauto|].
  by rewrite lookup_insert_ne.
Qed.

(** ** The meaning of a compiled snapshot *)

Section Meaning.
Context `{Runtime} `{Selectors} (pods : list Pod) (nss : list Namespace) (nps : list NetworkPolicyObj) (c : npCompiled).

(** The identity hash separates the label sets in use. *)
Definition identities_distinct : Prop :=
  forall p q, p ∈ pods -> q ∈ pods -> eligible p = true -> eligible q = true -> pod_id p = pod_id q -> pod_info p = pod_info q.

(** What the API objects say about a peer pod: a policy selecting [self] has a rule whose ports
    include the port and whose peers are absent or select [peer]. *)
Definition pod_admitted (dir : Z) (self peer : Pod) (proto port : Z) : Prop :=
  exists np rule, np ∈ nps /\ selected np (pod_info self) /\ rule ∈ rules_of np dir /\ ports_match (rule_Ports rule) proto port /\
    (rule_Peers rule = [] \/
     exists pr, pr ∈ rule_Peers rule /\ peer_IPBlock pr = None /\ npEntityPeer pr = None /\
       (any_pod pr \/ peer_selects (nsLabels_of nss) np pr (pod_info peer))).

Lemma registry_at pod info : identities_distinct -> pod ∈ pods -> eligible pod = true ->
  registry_of pods !! pod_id pod = Some info <-> info = pod_info pod.
Proof.
  intros Hd Hin He. destruct (registry_dom pods pod Hin He) as [i Hi].
  assert (i = pod_info pod) as ->; [|rewrite Hi; split; congruence].
  destruct (registry_spec _ _ _ Hi) as (q & ? & ? & E & <-). by apply Hd.
Qed.

Lemma registry_real id info : registry_of pods !! id = Some info -> NPFirstRealID <= id < 2 ^ 64.
Proof. intros (pod & _ & _ & <- & _)%registry_spec. apply npIdentityOf_range. Qed.

Lemma npEntityID_reserved name dir id : npEntityID name dir = (id, true) -> 1 < id < NPFirstRealID.
Proof.
  unfold npEntityID, NPSrcNodes, NPSrcLocalNode, NPSrcLocalPods, NPFirstRealID.
  repeat case_decide; intros E; inversion E; lia.
Qed.

(** The names under which a rule reaches the pod [peer]. *)
Definition pod_name (peer : Pod) (id : Z) : Prop := id = pod_id peer \/ id = NPSrcAnyPod \/ id = NPSrcAny.

Lemma rule_peer_meaning np dir rule peer : identities_distinct -> peer ∈ pods -> eligible peer = true ->
  (exists id, pod_name peer id /\ rule_peer (registry_of pods) (nsLabels_of nss) np dir rule id) <->
  (rule_Peers rule = [] \/
     exists pr, pr ∈ rule_Peers rule /\ peer_IPBlock pr = None /\ npEntityPeer pr = None /\
       (any_pod pr \/ peer_selects (nsLabels_of nss) np pr (pod_info peer))).
Proof.
  intros Hd Hin He. pose proof (npIdentityOf_range (pod_Namespace peer) (npFilterLabels (pod_Labels peer))) as Hr. fold (pod_id peer) in Hr.
  unfold pod_name, rule_peer, peer_names. split.
  - intros (id & Hid & [[? _]|(pr & Hpr & Hb & Hn)]); [by left|right]. exists pr. split; [done|]. split; [done|].
    destruct (npEntityPeer pr) as [name|].
    { apply npEntityID_reserved in Hn. unfold NPSrcAnyPod, NPSrcAny in Hid. lia. }
    split; [done|]. destruct Hn as [[? _]|(_ & info & Hi & Hs)]; [by left|right].
    pose proof (registry_real _ _ Hi) as Hge. unfold NPFirstRealID, NPSrcAnyPod, NPSrcAny in *. destruct Hid as [-> |?]; [|lia].
    apply registry_at in Hi as ->; done.
  - intros [?|(pr & Hpr & Hb & Hn & Hs)]; [exists NPSrcAny; auto 10|].
    destruct (decide (any_pod pr)) as [Ha|Ha].
    + exists NPSrcAnyPod. split; [auto|]. right. exists pr. rewrite Hn. auto.
    + exists (pod_id peer). split; [auto|]. right. exists pr. rewrite Hn. repeat (split; [done|]). right. split; [done|].
      exists (pod_info peer). rewrite registry_at by done. split; [done|]. by destruct Hs.
Qed.

Lemma item_port_in dir self peer it port proto : a_Proto (row_of dir self peer it) = proto /\ port_in (row_of dir self peer it) port <->
  item_admits it proto port.
Proof. unfold row_of, item_admits, port_in. by destruct (dir =? NPDirIn). Qed.

(** C10. The compiled rules mean what the NetworkPolicy API says of two pods: whenever the
    identity hash separates the label sets in use, some compiled rule admits the pair under a
    name of the peer exactly when a policy selecting the pod has a rule in that direction
    whose port list contains the port and whose peer list is empty or selects the other pod's
    namespace and labels. *)
Theorem compiled_rules_mean_policies dir self peer proto port :
  compiles pods nss nps c -> identities_distinct -> dir = NPDirIn \/ dir = NPDirEg ->
  self ∈ pods -> eligible self = true -> peer ∈ pods -> eligible peer = true ->
  (exists id, pod_name peer id /\
     rule_admits (c_allows c) dir proto (if dir =? NPDirIn then pod_id self else id) (if dir =? NPDirIn then id else pod_id self) port) <->
  pod_admitted dir self peer proto port.
Proof.
  intros (Hc & _)%compiles_exact Hd Hdir Hs Hse Hp Hpe. unfold rule_admits, pod_admitted. split.
  - intros (id & Hid & r & Hr & Ed & Epr & Edst & Esrc & Hport).
    apply Hc in Hr as (np & Hnp & dir' & rule & Hd' & Hrule & s & q & it & (info & Hi & Hsel) & Hq & Hit & ->).
    assert (dir' = dir) as -> by (rewrite <-Ed; unfold row_of; by destruct (dir' =? NPDirIn)).
    assert (s = pod_id self /\ q = id) as [-> ->].
    { revert Edst Esrc. unfold row_of. by destruct (dir =? NPDirIn); cbn. }
    apply registry_at in Hi as ->; [|done..]. exists np, rule. repeat (split; [done|]). split.
    + apply port_items_spec. exists it. split; [done|]. by apply (item_port_in dir (pod_id self) id).
    + apply (rule_peer_meaning np dir rule peer); eauto.
  - intros (np & rule & Hnp & Hsel & Hrule & Hport & Hpeer).
    apply port_items_spec in Hport as (it & Hit & Ha). apply (rule_peer_meaning np dir rule peer) in Hpeer as (id & Hid & Hq); [|done..].
    apply (item_port_in dir (pod_id self) id it) in Ha. destruct Ha as [Hproto Hport]. exists id. split; [done|]. exists (row_of dir (pod_id self) id it).
    split; [|by split_and!; try done; unfold row_of; destruct (Z.eqb_spec dir NPDirIn)].
    apply Hc. exists np. split; [done|]. exists dir, rule. repeat (split; [done|]).
    exists (pod_id self), id, it. split; [|done]. exists (pod_info self). by rewrite registry_at.
Qed.
End Meaning.

(** ** The snapshot fits the maps *)

Section SnapshotOk.
Context `{Runtime} `{Selectors} (pods : list Pod) (nss : list Namespace) (nps : list NetworkPolicyObj) (c : npCompiled).

Definition item_ok (it : npPort) : Prop :=
  (it_proto it = 6 \/ it_proto it = 17) /\ 0 <= it_port it < 2 ^ 16 /\ 0 <= it_endPort it < 2 ^ 16.

Lemma port_items_ok ports it : it ∈ port_items ports -> item_ok it.
Proof.
  unfold port_items. case_decide.
  - intros [-> | ->%list_elem_of_singleton]%elem_of_cons; unfold item_ok; cbn; lia.
  - intros (p & _ & Hit)%list_elem_of_omap. by destruct (npCompilePort_spec p it Hit) as (? & ? & ? & _).
Qed.

Lemma expand_item_ok it x : item_ok it -> x ∈ expand_item it -> item_ok x.
Proof.
  unfold expand_item, item_ok. intros Hit. case_if; [by intros ->%list_elem_of_singleton|]. case_if; [intros []%not_elem_of_nil|].
  intros (q & -> & Hq%elem_of_seqZ)%list_elem_of_fmap. cbn. lia.
Qed.

Lemma rule_peer_ok np dir rule id : rule_peer (registry_of pods) (nsLabels_of nss) np dir rule id -> 0 <= id < 2 ^ 64.
Proof.
  unfold rule_peer, peer_names, NPSrcAny, NPSrcAnyPod. intros [[_ ->]|(peer & _ & _ & Hn)]; [lia|].
  destruct (npEntityPeer peer); [apply npEntityID_reserved in Hn; unfold NPFirstRealID in Hn; lia|].
  destruct Hn as [[_ ->]|(_ & info & Hi%registry_real & _)]; unfold NPFirstRealID in *; lia.
Qed.

Lemma subject_ok np id : subject (registry_of pods) np id -> 0 <= id < 2 ^ 64.
Proof. intros (info & Hi%registry_real & _). unfold NPFirstRealID in Hi. lia. Qed.

(** A compiled snapshot is well typed for the kernel maps: every identity is a 64-bit
    value, every rule and range carries a direction, protocol and ports of their machine
    widths, and every range is made of bytes. *)
Theorem compiled_snapshot_ok :
  compiles pods nss nps c -> snapshot_ok (c_idents c) (c_allows c) (c_cidrs c).
Proof.
  intros (Ha & Hr & Hi & _)%compiles_exact. unfold snapshot_ok. rewrite !Forall_forall. split; [|split].
  - intros e He. destruct (Hi e He) as (pod & _ & _ & _ & _ & _ & -> & _).
    pose proof (npIdentityOf_range (pod_Namespace pod) (npFilterLabels (pod_Labels pod))) as R.
    unfold NPFirstRealID in R. unfold pod_id. lia.
  - intros a (np & _ & dir & rule & Hdir & _ & self & peer & it & Hs%subject_ok & Hp%rule_peer_ok & Hit%port_items_ok & ->)%Ha.
    destruct Hit as (? & ? & ?). unfold allow_ok, row_of, NPDirIn, NPDirEg in *. destruct (dir =? 0); cbn; lia.
  - intros r (np & _ & dir & rule & Hdir & _ & self & peer & b & x & net & allow & Hs%subject_ok & _ & _ & Hx & Hb & ->)%Hr.
    apply list_elem_of_bind in Hx as (it & Hx & Hit%port_items_ok). apply (expand_item_ok it x) in Hx as (? & ? & ?); [|done].
    unfold cidr_ok, tier_ok. cbn. split; [lia|]. destruct Hb as (ip & cidr & Hc & [[_ ->]|(_ & exs & ip' & _ & He)]); by eapply ParseCIDR_bytes.
Qed.
End SnapshotOk.

(** ** Two behaviours at the edges *)

(** An ipBlock none of whose excepts parses stands for its whole range: the exception is
    dropped and the allow stays. *)
Lemma broken_excepts_allow_all b ip cidr : ParseCIDR (TrimSpace (blk_CIDR b)) = Some (ip, cidr) ->
  Forall (fun exs => ParseCIDR (TrimSpace exs) = None) (blk_Except b) ->
  forall net allow, block_range b net allow <-> allow = true /\ net = cidr.
Proof.
  intros Hc Hex net allow. unfold block_range. rewrite Forall_forall in Hex. split.
  - intros (ip' & cidr' & E & [[-> ->]|(_ & exs & ip'' & Hin & He)]); [by rewrite E in Hc; injection Hc as _ ->|].
    by rewrite (Hex exs Hin) in He.
  - intros [-> ->]. exists ip, cidr. auto.
Qed.

(** The port list of one rule can add any number of warnings: two of its branches bypass
    [addCompileWarnings]. *)
Lemma npCompilePorts_warnings_unbounded policy n :
  length (npCompilePorts policy (replicate (S n) (MkNPPort None (Some (IntVal 0)) None)) []).2 = S n.
Proof.
  unfold npCompilePorts. rewrite decide_False by done. change (S n) with (length (@nil npWarning) + S n)%nat at 2.
  generalize (@nil npPort) (@nil npWarning) (S n). intros out ws m. revert out ws.
  induction m as [|m IH]; intros out ws; cbn [replicate fold_left]; [cbn; lia|].
  unfold npCompilePort. cbn -[replicate fold_left app]. rewrite IH, length_app. cbn. lia.
Qed.

(** ** A policy at work *)

(** Selectors as the API documents them: [matchLabels] and the four operators. *)
Definition requirement_matches (l : labels) (r : Requirement) : option bool :=
  let v := l !! r_Key r in
  if decide (r_Operator r = "In") then Some (match v with Some x => bool_decide (x ∈ r_Values r) | None => false end)
  else if decide (r_Operator r = "NotIn") then Some (match v with Some x => negb (bool_decide (x ∈ r_Values r)) | None => true end)
  else if decide (r_Operator r = "Exists") then Some (bool_decide (is_Some v))
  else if decide (r_Operator r = "DoesNotExist") then Some (bool_decide (v = None))
  else None.

Definition label_selectors : Selectors := {|
  AsSelector sel :=
    match sel with
    | None => Some (fun _ => false)
    | Some sel =>
        if forallb (fun r => bool_decide (is_Some (requirement_matches ∅ r))) (MatchExpressions sel)
        then Some (fun l => bool_decide (MatchLabels sel ⊆ l) &&
                            forallb (fun r => default false (requirement_matches l r)) (MatchExpressions sel))
        else None
    end;
  Everything := fun _ => true;
  Everything_matches := fun _ => eq_refl |}.

Definition web : Pod := MkPod "shop" {["app" := "web"]} false ["10.1.0.5"].
Definition client : Pod := MkPod "shop" {["role" := "client"]} false ["10.1.0.6"].
Definition web_policy : NetworkPolicyObj :=
  MkNetworkPolicy "shop" "web" (MkLabelSelector {["app" := "web"]} [])
    [MkNPRule [MkNPPort None (Some (IntVal 80)) None]
      [MkNPPeer (Some (MkLabelSelector {["role" := "client"]} [])) None None]] None ["Ingress"].
Definition shop : list Namespace := [MkNamespace "shop" ∅].

Lemma shop_compiles : is_ok (compileNetworkPolicies (H := quiet_runtime) (H0 := label_selectors)
  [web; client] shop [web_policy] (MkWorld 0%nat npInit [])).2 = true.
Proof. vm_compute. reflexivity. Qed.

Lemma compileNetworkPolicies_exact_witness :
  exists c, (compileNetworkPolicies (H := quiet_runtime) (H0 := label_selectors) [web; client] shop [web_policy]
      (MkWorld 0%nat npInit [])).2 = Ok c /\
    compiled_exactly (H0 := label_selectors) [web; client] shop [web_policy] c.
Proof.
  pose proof (compileNetworkPolicies_exact (H := quiet_runtime) (H0 := label_selectors) [web; client] shop [web_policy] 0%nat []) as T.
  pose proof shop_compiles as O.
  destruct (compileNetworkPolicies _ _ _ _) as [w [c|e]]; [exists c; split; [reflexivity|exact T]|discriminate O].
Defined.

Lemma shop_compiled : exists c, compiles (H := quiet_runtime) (H0 := label_selectors) [web; client] shop [web_policy] c.
Proof.
  pose proof shop_compiles as O.
  destruct (compileNetworkPolicies _ _ _ _) as [w [c|e]] eqn:E; [exists c, 0%nat, [], w; exact E|discriminate O].
Qed.

Lemma shop_distinct : identities_distinct [web; client].
Proof.
  assert (pod_id web <> pod_id client) as Hne by (vm_compute; discriminate).
  intros p q [-> | ->%list_elem_of_singleton]%elem_of_cons [-> | ->%list_elem_of_singleton]%elem_of_cons _ _ E; congruence.
Qed.

Lemma shop_admitted : pod_admitted (H0 := label_selectors) shop [web_policy] NPDirIn web client 6 80.
Proof.
  exists web_policy. eexists. split; [apply list_elem_of_here|]. split; [eexists; split; [reflexivity|]; by vm_compute|].
  split; [apply list_elem_of_here|]. split.
  - right. eexists. split; [apply list_elem_of_here|]. split; [done|]. cbn. lia.
  - right. eexists. split; [apply list_elem_of_here|]. do 2 (split; [done|]). right. eexists. split; [reflexivity|]. by vm_compute.
Qed.

Lemma compiled_rules_mean_policies_witness : exists c id,
  pod_name client id /\ rule_admits (c_allows c) NPDirIn 6 (pod_id web) id 80.
Proof.
  destruct shop_compiled as [c Hc]. exists c.
  exact (proj2 (compiled_rules_mean_policies (H := quiet_runtime) (H0 := label_selectors) [web; client] shop [web_policy] c NPDirIn web client 6 80
    Hc shop_distinct (or_introl eq_refl) (list_elem_of_here web [client]) eq_refl
    (list_elem_of_further client web [client] (list_elem_of_here client [])) eq_refl) shop_admitted).
Defined.

Lemma compiled_snapshot_ok_witness : exists c, snapshot_ok (c_idents c) (c_allows c) (c_cidrs c).
Proof.
  destruct shop_compiled as [c Hc]. exists c.
  exact (compiled_snapshot_ok (H := quiet_runtime) (H0 := label_selectors) [web; client] shop [web_policy] c Hc).
Defined.
