(* ===== verification/Boundary.v ===== *)
(** * VPC boundaries in the kernel (datapath/boundary.go)

    A managed VPC has an operator policy: rules for its peers, an Internet switch and an
    identity.  Rules are stored under the revision they belong to and the policy map points to
    the revision in force, so a new version is staged beside the old one and published by one
    write.  Shown here: whatever call fails, at every moment each VPC is closed, follows the
    complete old version or follows the complete new one. *)
From S2P Require Import Prelude GoNet AddrMap KernelMap Lpm SecurityGroups.
Local Open Scope Z_scope.

(** ** Data *)

(** [BoundaryRule], datapath/boundary.go:19-24. *)
Record BoundaryRule := MkBoundaryRule { r_Peer : Z; r_Ingress : bool; r_Protocol : Z; r_Port : Z }.

(** [Boundary], datapath/boundary.go:10-17. *)
Record Boundary := MkBoundary {
  b_Net : Z; b_Revision : Z; b_Identity : Z; b_Internet : bool;
  b_Rules : list BoundaryRule; b_CIDRs : list (option IPNet)
}.

(** [PrimaryPort], datapath/boundary.go:25-28. *)
Record PrimaryPort := MkPrimaryPort { pp_Net : Z; pp_IP : IP }.

(** [overlayBoundaryPolicy], datapath/overlay_bpfel.go:49-55. *)
Record overlayBoundaryPolicy := MkBPolicy { bp_Revision : Z; bp_Identity : Z; bp_Internet : Z }.

(** [overlayBoundaryRule], datapath/overlay_bpfel.go:57-66. *)
Record overlayBoundaryRule := MkBRule {
  br_Revision : Z; br_Net : Z; br_Peer : Z; br_Port : Z; br_Proto : Z; br_Direction : Z
}.

(** [overlayBoundaryCidr], datapath/overlay_bpfel.go:21-25. *)
Record overlayBoundaryCidr := MkBCidr { bc_Prefixlen : Z; bc_Addr : list Z }.

(** [overlayBoundaryFlow], datapath/overlay_bpfel.go:27-38. *)
Record overlayBoundaryFlow := MkBFlow {
  bf_Src : list Z; bf_Dst : list Z; bf_Local : Z; bf_Peer : Z;
  bf_Sport : Z; bf_Dport : Z; bf_Proto : Z; bf_Hook : Z
}.

(** [overlayBoundaryFlowValue], datapath/overlay_bpfel.go:40-47. *)
Record overlayBoundaryFlowValue := MkBFlowValue {
  bv_LocalRev : Z; bv_PeerRev : Z; bv_LocalId : Z; bv_PeerId : Z; bv_Expires : Z
}.

#[export] Instance overlayBoundaryPolicy_eq_dec : EqDecision overlayBoundaryPolicy.
Proof. solve_decision. Defined.
#[export] Instance overlayBoundaryRule_eq_dec : EqDecision overlayBoundaryRule.
Proof. solve_decision. Defined.
#[export] Instance overlayBoundaryCidr_eq_dec : EqDecision overlayBoundaryCidr.
Proof. solve_decision. Defined.
#[export] Instance overlayBoundaryFlow_eq_dec : EqDecision overlayBoundaryFlow.
Proof. solve_decision. Defined.

#[export] Program Instance overlayBoundaryRule_countable : Countable overlayBoundaryRule :=
  inj_countable' (fun r => (br_Revision r, br_Net r, br_Peer r, br_Port r, br_Proto r, br_Direction r))
    (fun '(a, b, c, d, e, f) => MkBRule a b c d e f) _.
Next Obligation. by intros []. Qed.
#[export] Program Instance overlayBoundaryCidr_countable : Countable overlayBoundaryCidr :=
  inj_countable' (fun r => (bc_Prefixlen r, bc_Addr r)) (fun '(a, b) => MkBCidr a b) _.
Next Obligation. by intros []. Qed.
#[export] Program Instance overlayBoundaryFlow_countable : Countable overlayBoundaryFlow :=
  inj_countable' (fun r => (bf_Src r, bf_Dst r, bf_Local r, bf_Peer r, bf_Sport r, bf_Dport r, bf_Proto r, bf_Hook r))
    (fun '(a, b, c, d, e, f, g, h) => MkBFlow a b c d e f g h) _.
Next Obligation. by intros []. Qed.

#[export] Instance overlayBoundaryCidr_lpm : LpmKey overlayBoundaryCidr := {|
  plen := bc_Prefixlen; data := bc_Addr |}.

(** ** The desired maps *)

Record Desired := MkDesired {
  policies : gmap Z overlayBoundaryPolicy;
  rules : gmap overlayBoundaryRule Z;
  cidrs : gmap overlayBoundaryCidr Z
}.

(** [rules], the key of one rule, datapath/boundary.go:55-59. *)
Definition rule_key (b : Boundary) (r : BoundaryRule) : overlayBoundaryRule :=
  MkBRule (b_Revision b) (b_Net b) (r_Peer r) (htons (r_Port r)) (r_Protocol r) (if r_Ingress r then 1 else 0).

(** [rules], one boundary, datapath/boundary.go:51-60. *)
Definition add_rules (b : Boundary) (rules : gmap overlayBoundaryRule Z) : result (gmap overlayBoundaryRule Z) :=
  foldM (fun rules r =>
    if (r_Peer r =? 0) || (r_Peer r =? b_Net b) then Err "invalid boundary peer"
    else Ok (<[rule_key b r := 1]> rules)) rules (b_Rules b).

(** [cidrs], one range, datapath/boundary.go:61-80. *)
Definition cidr_key (c : option IPNet) : result overlayBoundaryCidr :=
  match c with
  | None => Err "invalid boundary CIDR"
  | Some c =>
      ip ← addr128 (inIP c);
      let '(bits, size) := Mask_Size (inMask c) in
      if negb (size =? 32) && negb (size =? 128) then Err "invalid boundary CIDR mask"
      else
        let bits := match To4 (inIP c) with Some _ => bits + 96 | None => bits end in
        if (bits <? 0) || (128 <? bits) then Err "invalid boundary CIDR prefix"
        else Ok (MkBCidr bits ip)
  end.

(** [Manager.SyncBoundaries], the loop over [desired], datapath/boundary.go:39-81. *)
Definition add_boundary (d : Desired) (b : Boundary) : result Desired :=
  if (b_Net b =? 0) || (b_Revision b =? 0) || (b_Identity b =? 0) then Err "invalid boundary identity or revision"
  else if decide (is_Some (policies d !! b_Net b)) then Err "duplicate boundary VNI"
  else
    rs ← add_rules b (rules d);
    cs ← foldM (fun cs c => k ← cidr_key c; mret (<[k := 1]> cs)) (cidrs d) (b_CIDRs b);
    mret (MkDesired (<[b_Net b := MkBPolicy (b_Revision b) (b_Identity b) (if b_Internet b then 1 else 0)]> (policies d)) rs cs).

(** [Manager.SyncBoundaries], the desired maps and their limits, datapath/boundary.go:36-84. *)
Definition desired_maps (desired : list Boundary) (primary : list PrimaryPort) : result Desired :=
  d ← foldM add_boundary (MkDesired ∅ ∅ ∅) desired;
  if (16384 <? Z.of_nat (size (policies d))) || (65536 <? Z.of_nat (size (rules d))) ||
     (32768 <? Z.of_nat (size (cidrs d))) || (65536 <? Z.of_nat (length primary))
  then Err "boundary map capacity exceeded" else Ok d.

(** [prim], datapath/boundary.go:165-172. *)
Definition primary_map (primary : list PrimaryPort) : result (gmap overlayLocalKey Z) :=
  foldM (fun prim port => ip ← addr128 (pp_IP port); mret (<[MkLocalKey (pp_Net port) ip := 1]> prim)) ∅ primary.

(** What the desired maps hold. *)
Definition policy_of (b : Boundary) : overlayBoundaryPolicy :=
  MkBPolicy (b_Revision b) (b_Identity b) (if b_Internet b then 1 else 0).

Definition describes (pre : list Boundary) (d : Desired) : Prop :=
  (forall n, match policies d !! n with
             | Some p => exists b, b ∈ pre /\ b_Net b = n /\ b_Revision b <> 0 /\ p = policy_of b
             | None => forall b, b ∈ pre -> b_Net b <> n
             end) /\
  (forall k, is_Some (rules d !! k) <-> exists b r, b ∈ pre /\ r ∈ b_Rules b /\ k = rule_key b r) /\
  (forall b b', b ∈ pre -> b' ∈ pre -> b_Net b = b_Net b' -> b = b').

Lemma add_rules_spec b rs rs' : add_rules b rs = Ok rs' ->
  forall k, is_Some (rs' !! k) <-> is_Some (rs !! k) \/ exists r, r ∈ b_Rules b /\ k = rule_key b r.
Proof.
  intros Hf. set (sound := fun (pre : list BoundaryRule) (m : gmap overlayBoundaryRule Z) =>
    forall k, is_Some (m !! k) <-> is_Some (rs !! k) \/ exists r, r ∈ pre /\ k = rule_key b r).
  refine (foldM_invariant _ sound rs _ _ _ _ Hf); unfold sound.
  - intros k. split; [by left|]. intros [?|(r & ?%not_elem_of_nil & _)]; done.
  - intros pre r post m m' _ IH. case_if; [done|]. intros [= <-] k. setoid_rewrite elem_of_app. setoid_rewrite list_elem_of_singleton.
    rewrite lookup_insert_is_Some', IH. naive_solver.
Qed.

Lemma add_boundary_describes pre d b d' : describes pre d -> add_boundary d b = Ok d' -> describes (pre ++ [b]) d'.
Proof.
  intros (Hp & Hr & Hu). unfold add_boundary. case_if; [done|]. case_decide as Hdup; [done|]. to_prop.
  intros (rs & Hrs & (cs & _ & [= <-])%bind_ok)%bind_ok. pose proof (add_rules_spec _ _ _ Hrs) as Hrules.
  apply eq_None_not_Some in Hdup. specialize (Hp (b_Net b)) as Hnew. rewrite Hdup in Hnew. split; [|split]; cbn.
  - intros n. destruct (decide (n = b_Net b)) as [->|Hne].
    + rewrite lookup_insert_eq. exists b. split; [set_solver|]. done.
    + rewrite lookup_insert_ne by done. specialize (Hp n). destruct (policies d !! n) as [p|].
      * destruct Hp as (b' & ? & ?). exists b'. split; [set_solver|done].
      * intros b' [?| ->%list_elem_of_singleton]%elem_of_app; [auto|done].
  - intros k. rewrite Hrules, Hr. setoid_rewrite elem_of_app. setoid_rewrite list_elem_of_singleton. naive_solver.
  - intros b1 b2 [Hb1| ->%list_elem_of_singleton]%elem_of_app [Hb2| ->%list_elem_of_singleton]%elem_of_app E; [auto| | |done].
    + by destruct (Hnew b1 Hb1).
    + by destruct (Hnew b2 Hb2).
Qed.

Lemma desired_maps_spec desired primary d : desired_maps desired primary = Ok d -> describes desired d.
Proof.
  intros (d' & Hf & Hd)%bind_ok. case_if; [done|]. injection Hd as ->.
  refine (foldM_invariant _ describes _ _ _ _ _ Hf).
  - split; [intros n; cbn; rewrite lookup_empty; intros b Hb; by apply not_elem_of_nil in Hb|]. split.
    + intros k. cbn. rewrite lookup_empty. split; [by intros []|]. by intros (b & r & ?%not_elem_of_nil & _).
    + intros b b' Hb. by apply not_elem_of_nil in Hb.
  - intros. by eapply add_boundary_describes.
Qed.

(** ** The kernel maps *)

Record BdKern := MkBdKern {
  BoundaryPolicy : gmap Z overlayBoundaryPolicy;
  BoundaryRules : gmap overlayBoundaryRule Z;
  BoundaryPrimary : gmap overlayLocalKey Z;
  BoundaryCidrs : gmap overlayBoundaryCidr Z;
  BoundaryCt : gmap overlayBoundaryFlow overlayBoundaryFlowValue
}.

Definition L_policy : Lens BdKern (gmap Z overlayBoundaryPolicy) :=
  MkLens BoundaryPolicy (fun t s => MkBdKern t (BoundaryRules s) (BoundaryPrimary s) (BoundaryCidrs s) (BoundaryCt s)).
Definition L_rules : Lens BdKern (gmap overlayBoundaryRule Z) :=
  MkLens BoundaryRules (fun t s => MkBdKern (BoundaryPolicy s) t (BoundaryPrimary s) (BoundaryCidrs s) (BoundaryCt s)).
Definition L_primary : Lens BdKern (gmap overlayLocalKey Z) :=
  MkLens BoundaryPrimary (fun t s => MkBdKern (BoundaryPolicy s) (BoundaryRules s) t (BoundaryCidrs s) (BoundaryCt s)).
Definition L_cidrs : Lens BdKern (gmap overlayBoundaryCidr Z) :=
  MkLens BoundaryCidrs (fun t s => MkBdKern (BoundaryPolicy s) (BoundaryRules s) (BoundaryPrimary s) t (BoundaryCt s)).

#[export] Instance bd_policy_laws : LensLaws L_policy.
Proof. split; [done|by intros []|done]. Qed.
#[export] Instance bd_rules_laws : LensLaws L_rules.
Proof. split; [done|by intros []|done]. Qed.
#[export] Instance bd_primary_laws : LensLaws L_primary.
Proof. split; [done|by intros []|done]. Qed.
#[export] Instance bd_cidrs_laws : LensLaws L_cidrs.
Proof. split; [done|by intros []|done]. Qed.

(** The capacities of the maps. *)
Record BdCaps := MkBdCaps { cap_policy : nat; cap_rules : nat; cap_primary : nat; cap_cidrs : nat }.

(** ** The pass *)

Section Sync.
Context `{Runtime} (caps : BdCaps).

(** [Manager.SyncBoundaries], closing a VNI recycled for another VPC, datapath/boundary.go:99-109. *)
Definition close_recycled (d : Desired) (current : gmap Z overlayBoundaryPolicy) : M BdKern (gmap Z overlayBoundaryPolicy) :=
  wanted ← arrange (policies d);
  foldlM (fun (current : gmap Z overlayBoundaryPolicy) '(n, p) =>
    match current !! n with
    | Some old =>
        if bp_Identity old =? bp_Identity p then mret current
        else
          let closed := MkBPolicy 0 (bp_Identity p) 0 in
          _ ← Put L_policy (cap_policy caps) n closed; mret (<[n := closed]> current)
    | None =>
        let closed := MkBPolicy 0 (bp_Identity p) 0 in
        _ ← Put L_policy (cap_policy caps) n closed; mret (<[n := closed]> current)
    end) current wanted.

(** [Manager.SyncBoundaries], closing a VPC that no longer exists, datapath/boundary.go:110-119. *)
Definition close_unknown (known : list Z) (current : gmap Z overlayBoundaryPolicy) : M BdKern (gmap Z overlayBoundaryPolicy) :=
  visited ← arrange current;
  foldlM (fun (current : gmap Z overlayBoundaryPolicy) '(n, p) =>
    if decide (n ∈ known) then mret current
    else if (bp_Revision p =? 0) && (bp_Internet p =? 0) then mret current
    else
      let p := MkBPolicy 0 (bp_Identity p) 0 in
      _ ← Put L_policy (cap_policy caps) n p; mret (<[n := p]> current)) current visited.

(** [stage], the live rules and the desired ones, datapath/boundary.go:120-137. *)
Definition stage_of (d : Desired) (current : gmap Z overlayBoundaryPolicy) (existing : gmap overlayBoundaryRule Z)
    : gmap overlayBoundaryRule Z :=
  rules d ∪ filter (fun e => bp_Revision <$> current !! br_Net e.1 = Some (br_Revision e.1)) existing.

(** [Manager.SyncBoundaries], staging, datapath/boundary.go:120-164. *)
Definition stage_rules (d : Desired) (current : gmap Z overlayBoundaryPolicy) : M BdKern unit :=
  found ← Iterate L_rules;
  let existing := list_to_map found in
  let stage := stage_of d current existing in
  if 131072 <? Z.of_nat (size stage) then fail "boundary staging map capacity exceeded"
  else
    again ← Iterate L_rules;
    _ ← forM (DeleteIfExists L_rules) (filter (fun e => stage !! e.1 = None) again).*1;
    wanted ← arrange (rules d);
    forM (fun '(k, v) => if decide (existing !! k = Some v) then mret tt else Put L_rules (cap_rules caps) k v) wanted.

(** [Manager.SyncBoundaries], publication, datapath/boundary.go:179-186. *)
Definition publish (d : Desired) (current : gmap Z overlayBoundaryPolicy) : M BdKern unit :=
  wanted ← arrange (policies d);
  forM (fun '(n, p) => if decide (current !! n = Some p) then mret tt else Put L_policy (cap_policy caps) n p) wanted.

(** [Manager.SyncBoundaries], removal from a VPC that still exists, datapath/boundary.go:187-197. *)
Definition unmanage (d : Desired) (known : list Z) (current : gmap Z overlayBoundaryPolicy) : M BdKern unit :=
  visited ← arrange current;
  forM (fun '(n, _) => if decide (n ∈ known /\ policies d !! n = None) then DeleteIfExists L_policy n else mret tt) visited.

(** [Manager.SyncBoundaries], datapath/boundary.go:33-199. *)
Definition SyncBoundaries (desired : list Boundary) (known : list Z) (primary : list PrimaryPort) : M BdKern unit :=
  d ← lift (desired_maps desired primary);
  found ← Iterate L_policy;
  current ← close_recycled d (list_to_map found);
  current ← close_unknown known current;
  _ ← stage_rules d current;
  prim ← lift (primary_map primary);
  _ ← syncMap L_primary (cap_primary caps) prim;
  _ ← syncMap L_cidrs (cap_cidrs caps) (cidrs d);
  _ ← publish d current;
  _ ← unmanage d known current;
  syncMap L_rules (cap_rules caps) (rules d).
End Sync.

(** ** What a pass guarantees *)

Section Guarantee.
Context `{Runtime} (caps : BdCaps) (d : Desired) (known : list Z) (s0 : BdKern).

(** The rules a policy entry puts in force. *)
Definition in_force (n : Z) (p : overlayBoundaryPolicy) (k : overlayBoundaryRule) : Prop :=
  br_Net k = n /\ br_Revision k = bp_Revision p.

(** One VPC in the state [s] of a pass that started in [s0]: unmanaged as before or by
    request, closed, or under a version all of whose rules are there. *)
Definition consistent (s : BdKern) (n : Z) : Prop :=
  match BoundaryPolicy s !! n with
  | None => BoundaryPolicy s0 !! n = None \/ (n ∈ known /\ policies d !! n = None)
  | Some p =>
      bp_Revision p = 0 \/
      (BoundaryPolicy s0 !! n = Some p /\
         forall k, in_force n p k -> is_Some (BoundaryRules s0 !! k) -> is_Some (BoundaryRules s !! k)) \/
      (policies d !! n = Some p /\
         forall k, in_force n p k -> is_Some (rules d !! k) -> is_Some (BoundaryRules s !! k))
  end.

(** No rule comes from anywhere else. *)
Definition no_other (s : BdKern) : Prop :=
  forall k, is_Some (BoundaryRules s !! k) -> is_Some (BoundaryRules s0 !! k) \/ is_Some (rules d !! k).

Definition safe (s : BdKern) : Prop := (forall n, consistent s n) /\ no_other s.

(** The policies after the closing steps. *)
Definition closing (cur : gmap Z overlayBoundaryPolicy) : Prop :=
  forall n, cur !! n = BoundaryPolicy s0 !! n \/ exists i, cur !! n = Some (MkBPolicy 0 i 0).

Definition unknown_closed (cur : gmap Z overlayBoundaryPolicy) : Prop :=
  forall n p, n ∉ known -> cur !! n = Some p -> bp_Revision p = 0 /\ bp_Internet p = 0.

(** The rules while the live ones are kept. *)
Definition keeping (cur : gmap Z overlayBoundaryPolicy) (R : gmap overlayBoundaryRule Z) : Prop :=
  (forall k, is_Some (R !! k) -> is_Some (BoundaryRules s0 !! k) \/ is_Some (rules d !! k)) /\
  (forall k p, cur !! br_Net k = Some p -> bp_Revision p = br_Revision k ->
     is_Some (BoundaryRules s0 !! k) -> is_Some (R !! k)).

Definition staged (R : gmap overlayBoundaryRule Z) : Prop := forall k, is_Some (rules d !! k) -> is_Some (R !! k).

(** Every mixture of closing, publishing and removing is safe. *)
Lemma safe_intro cur s : closing cur -> keeping cur (BoundaryRules s) ->
  (forall n, BoundaryPolicy s !! n = cur !! n \/
     (staged (BoundaryRules s) /\ is_Some (policies d !! n) /\ BoundaryPolicy s !! n = policies d !! n) \/
     (BoundaryPolicy s !! n = None /\ n ∈ known /\ policies d !! n = None)) ->
  safe s.
Proof.
  intros Hc [Hn Hk] Hp. split; [|done]. intros n. unfold consistent.
  destruct (Hp n) as [E|[(Hs & [p Ep] & E)|(E & ? & ?)]]; rewrite E.
  - destruct (Hc n) as [Ec|[i Ec]]; rewrite Ec; [|by left].
    destruct (BoundaryPolicy s0 !! n) as [p|] eqn:E0; [|by left]. right. left. split; [done|].
    intros k [<- Ek]. by apply (Hk k p).
  - rewrite Ep. right. right. split; [done|]. intros k _. apply Hs.
  - by right.
Qed.

(** A state of the closing steps. *)
Definition at_policies (cur : gmap Z overlayBoundaryPolicy) : BdKern := update L_policy cur s0.

Lemma closing_refl : closing (BoundaryPolicy s0).
Proof. intros n. by left. Qed.

Lemma closing_insert cur n i : closing cur -> closing (<[n := MkBPolicy 0 i 0]> cur).
Proof.
  intros Hc j. destruct (decide (j = n)) as [->|]; [rewrite lookup_insert_eq; eauto|by rewrite lookup_insert_ne].
Qed.

Lemma at_policies_safe cur : closing cur -> safe (at_policies cur).
Proof. intros Hc. apply (safe_intro cur); [done| |by left]. split; [by left|done]. Qed.

(** Closing one entry, and going on. *)
Lemma wp_close cur n i (Q : result (gmap Z overlayBoundaryPolicy) -> BdKern -> Prop) :
  closing cur -> (forall e, Q (Err e) (at_policies cur)) ->
  (let cur' := <[n := MkBPolicy 0 i 0]> cur in closing cur' -> Q (Ok cur') (at_policies cur')) ->
  wp (_ ← Put L_policy (cap_policy caps) n (MkBPolicy 0 i 0); mret (<[n := MkBPolicy 0 i 0]> cur)) safe Q (at_policies cur).
Proof.
  intros Hc He Hq. pose proof (closing_insert cur n i Hc) as Hc'. apply wp_bind, wp_Put; [auto|auto|].
  split; [by apply at_policies_safe|]. apply wp_ret. by apply Hq.
Qed.

Lemma wp_close_recycled (Q : result (gmap Z overlayBoundaryPolicy) -> BdKern -> Prop) :
  (forall cur e, closing cur -> Q (Err e) (at_policies cur)) ->
  (forall cur, closing cur -> Q (Ok cur) (at_policies cur)) ->
  wp (close_recycled caps d (BoundaryPolicy s0)) safe Q (at_policies (BoundaryPolicy s0)).
Proof.
  intros He Hq. apply wp_bind, wp_arrange. intros l _.
  apply (wp_foldlM _ _ _ (fun _ cur s => closing cur /\ s = at_policies cur)); [split; [apply closing_refl|done]| |].
  - intros pre [n p] post cur ? _ [Hc ->]. destruct (cur !! n) as [old|]; [case_if; [by apply wp_ret|]|];
      (apply wp_close; [done|by auto|done]).
  - intros cur ? [Hc ->]. auto.
Qed.

Lemma wp_close_unknown cur (Q : result (gmap Z overlayBoundaryPolicy) -> BdKern -> Prop) : closing cur ->
  (forall cur e, closing cur -> Q (Err e) (at_policies cur)) ->
  (forall cur, closing cur -> unknown_closed cur -> Q (Ok cur) (at_policies cur)) ->
  wp (close_unknown caps known cur) safe Q (at_policies cur).
Proof.
  intros Hc0 He Hq. apply wp_bind, wp_arrange. intros l Hl.
  apply (wp_foldlM _ _ _ (fun pre cur' s => closing cur' /\ s = at_policies cur' /\
    forall n, (n ∉ pre.*1 -> cur' !! n = cur !! n) /\
      forall p, n ∈ pre.*1 -> n ∉ known -> cur' !! n = Some p -> bp_Revision p = 0 /\ bp_Internet p = 0)).
  - split; [done|]. split; [done|]. intros n. split; [done|]. intros p Hn. by apply not_elem_of_nil in Hn.
  - intros pre [n p] post cur' ? E (Hc & -> & Hv).
    assert (n ∉ pre.*1) as Hnew.
    { pose proof (NoDup_fst_map_to_list cur) as Hd. rewrite <-Hl, E, fmap_app in Hd. cbn in Hd.
      apply NoDup_app in Hd as (_ & Hd & _). intros Hn. apply (Hd n Hn). apply list_elem_of_here. }
    assert (cur' !! n = Some p) as Hn.
    { rewrite (proj1 (Hv n) Hnew). apply elem_of_map_to_list. rewrite <-Hl, E. set_solver. }
    assert (forall q, (n ∉ known -> bp_Revision q = 0 /\ bp_Internet q = 0) -> forall m : Z,
      (m ∉ (pre ++ [(n, p)]).*1 -> <[n := q]> cur' !! m = cur !! m) /\
      forall p', m ∈ (pre ++ [(n, p)]).*1 -> m ∉ known -> <[n := q]> cur' !! m = Some p' -> bp_Revision p' = 0 /\ bp_Internet p' = 0) as Hv'.
    { intros q Hq' m. rewrite fmap_app. cbn. split.
      - intros Hm. rewrite lookup_insert_ne by set_solver. apply Hv. set_solver.
      - intros p' Hm Hk. destruct (decide (m = n)) as [->|Hne].
        + rewrite lookup_insert_eq. intros [= <-]. auto.
        + rewrite lookup_insert_ne by done. apply Hv; [set_solver|done]. }
    case_decide as Hk; [|case_if].
    + apply wp_ret. split; [done|]. split; [done|]. rewrite <-(insert_id cur' n p) by done. by apply Hv'.
    + apply wp_ret. split; [done|]. split; [done|]. rewrite <-(insert_id cur' n p) by done. apply Hv'. to_prop. lia.
    + apply wp_close; [done|by auto|]. intros cur'' Hc''. split; [done|]. split; [done|]. by apply Hv'.
  - intros cur' ? (Hc & -> & Hv). apply Hq; [done|]. intros n p Hn Hp. destruct (decide (n ∈ l.*1)) as [Hin|Hout].
    + by apply (proj2 (Hv n)).
    + exfalso. rewrite (proj1 (Hv n) Hout) in Hp. apply Hout. rewrite Hl. apply list_elem_of_fmap. exists (n, p).
      split; [done|]. by apply elem_of_map_to_list.
Qed.

(** ** Staging *)

(** A state of the pass after closing: the policies [P], the rules [R]. *)
Definition at_rules (P : gmap Z overlayBoundaryPolicy) (R : gmap overlayBoundaryRule Z) : BdKern :=
  update L_rules R (at_policies P).

Lemma at_rules_safe cur R : closing cur -> keeping cur R -> safe (at_rules cur R).
Proof. intros Hc Hk. apply (safe_intro cur); [done|done|by left]. Qed.

Lemma list_to_map_perm {K V} `{Countable K} (l : list (K * V)) (m : gmap K V) : l ≡ₚ map_to_list m -> list_to_map l = m.
Proof.
  intros Hl. rewrite <-(list_to_map_to_list m). apply list_to_map_proper; [|done].
  rewrite Hl. apply NoDup_fst_map_to_list.
Qed.

Lemma stage_live cur k v : BoundaryRules s0 !! k = Some v ->
  (exists p, cur !! br_Net k = Some p /\ bp_Revision p = br_Revision k) \/ is_Some (rules d !! k) ->
  stage_of d cur (BoundaryRules s0) !! k <> None.
Proof.
  intros Hv Hl. unfold stage_of. rewrite lookup_union. destruct (rules d !! k) as [v'|] eqn:E.
  - by destruct (filter _ _ !! k).
  - destruct Hl as [(p & Hp & Er)|[? ?]]; [|done].
    assert (filter (fun e : overlayBoundaryRule * Z => bp_Revision <$> cur !! br_Net e.1 = Some (br_Revision e.1))
      (BoundaryRules s0) !! k = Some v) as ->; [|done].
    apply map_lookup_filter_Some. split; [done|]. cbn. by rewrite Hp, <-Er.
Qed.

Lemma wp_drop_stale cur stale (Q : result unit -> BdKern -> Prop) : closing cur ->
  (forall k, k ∈ stale -> stage_of d cur (BoundaryRules s0) !! k = None) ->
  (forall R e, keeping cur R -> Q (Err e) (at_rules cur R)) ->
  (forall R, keeping cur R -> (forall k, is_Some (rules d !! k) -> R !! k = BoundaryRules s0 !! k) -> Q (Ok tt) (at_rules cur R)) ->
  wp (forM (DeleteIfExists L_rules) stale) safe Q (at_policies cur).
Proof.
  intros Hc Hst He Hq.
  assert (forall pre, (forall k, k ∈ pre -> k ∈ stale) -> let R := pruned (BoundaryRules s0) pre in
    keeping cur R /\ forall k, is_Some (rules d !! k) -> R !! k = BoundaryRules s0 !! k) as Hp.
  { intros pre Hin R. split; [split|]; intros k; unfold R; rewrite pruned_lookup.
    - case_decide; [by intros []|by left].
    - intros p Hp Er [v Hv]. case_decide as Hk; [|eauto]. destruct (stage_live cur k v Hv); eauto.
    - intros Hd. case_decide as Hk; [|done]. destruct (BoundaryRules s0 !! k) as [v|] eqn:Ev; [|done].
      destruct (stage_live cur k v Ev); auto. }
  apply (wp_forM _ _ (fun pre s => s = at_rules cur (pruned (BoundaryRules s0) pre))).
  - by rewrite pruned_nil.
  - intros pre k post ? E ->. assert (forall j, j ∈ pre ++ [k] -> j ∈ stale) as Hin by (rewrite E; set_solver).
    apply wp_DeleteIfExists.
    + intros n e _. apply He, Hp. rewrite E; set_solver.
    + intros Hk. cbn in Hk. by rewrite pruned_snoc, delete_id.
    + intros v _. cbn [view update L_rules at_rules BoundaryRules]. rewrite <-pruned_snoc. split; [by apply at_rules_safe, Hp|done].
  - intros ? ->. by apply Hq; apply Hp.
Qed.

Lemma keeping_insert cur R k : is_Some (rules d !! k) -> keeping cur R -> forall v, keeping cur (<[k := v]> R).
Proof.
  intros Hk [H1 H2] v. split; intros j.
  - destruct (decide (j = k)) as [->|]; [by right|rewrite lookup_insert_ne by done; apply H1].
  - intros p Hp Er Hj. destruct (decide (j = k)) as [->|]; [rewrite lookup_insert_eq; eauto|rewrite lookup_insert_ne by done; eauto].
Qed.

Lemma wp_put_rules cur R0 l (Q : result unit -> BdKern -> Prop) : closing cur -> keeping cur R0 ->
  (forall k, is_Some (rules d !! k) -> R0 !! k = BoundaryRules s0 !! k) -> l ≡ₚ map_to_list (rules d) ->
  (forall R e, keeping cur R -> Q (Err e) (at_rules cur R)) ->
  (forall R, keeping cur R -> staged R -> Q (Ok tt) (at_rules cur R)) ->
  wp (forM (fun '(k, v) => if decide (BoundaryRules s0 !! k = Some v) then mret tt else Put L_rules (cap_rules caps) k v) l)
    safe Q (at_rules cur R0).
Proof.
  intros Hc Hk0 H0 Hl He Hq.
  assert (forall k v, (k, v) ∈ l -> rules d !! k = Some v) as Hin.
  { intros k v Hkv. apply elem_of_map_to_list. by rewrite <-Hl. }
  apply (wp_forM _ _ (fun pre s => exists R, s = at_rules cur R /\ keeping cur R /\
    forall k, (k ∉ pre.*1 -> R !! k = R0 !! k) /\ (k ∈ pre.*1 -> is_Some (R !! k)))).
  - exists R0. split; [done|]. split; [done|]. intros k. split; [done|]. intros Hk. by apply not_elem_of_nil in Hk.
  - intros pre [k v] post ? E (R & -> & HR & Hpre). pose proof (Hin k v ltac:(rewrite E; set_solver)) as Hkv.
    case_decide as Hx.
    + apply wp_ret. exists R. split; [done|]. split; [done|]. intros j. rewrite fmap_app. cbn. split.
      * intros Hj. apply Hpre. set_solver.
      * intros Hj. destruct (decide (j ∈ pre.*1)) as [?|Hn]; [by apply Hpre|]. assert (j = k) as -> by set_solver.
        rewrite (proj1 (Hpre k) Hn), H0, Hx; eauto.
    + pose proof (keeping_insert cur R k (mk_is_Some _ _ Hkv) HR v) as HR'. apply wp_Put; [auto|auto|].
      split; [by apply at_rules_safe|]. exists (<[k := v]> R). split; [done|]. split; [done|].
      intros j. rewrite fmap_app. cbn. destruct (decide (j = k)) as [->|Hne].
      * rewrite lookup_insert_eq. split; [set_solver|eauto].
      * rewrite lookup_insert_ne by done. split; intros Hj; apply Hpre; set_solver.
  - intros ? (R & -> & HR & Hpre). apply Hq; [done|]. intros k [v Hv]. apply Hpre. rewrite Hl.
    apply list_elem_of_fmap. exists (k, v). split; [done|]. by apply elem_of_map_to_list.
Qed.

Lemma wp_stage_rules cur (Q : result unit -> BdKern -> Prop) : closing cur ->
  (forall R e, keeping cur R -> Q (Err e) (at_rules cur R)) ->
  (forall R, keeping cur R -> staged R -> Q (Ok tt) (at_rules cur R)) ->
  wp (stage_rules caps d cur) safe Q (at_policies cur).
Proof.
  intros Hc He Hq.
  assert (keeping cur (BoundaryRules s0)) as Hk0 by (split; [by left|done]).
  assert (forall e, Q (Err e) (at_policies cur)) as He0 by (intros e; apply (He (BoundaryRules s0) e Hk0)).
  apply wp_bind, wp_Iterate; [auto|]. intros l Hl. cbn in Hl. rewrite (list_to_map_perm _ _ Hl). cbv beta zeta.
  case_if; [by apply wp_fail|]. apply wp_bind, wp_Iterate; [auto|]. intros l' Hl'. cbn in Hl'.
  apply wp_bind, (wp_drop_stale cur); [done| |done|].
  - intros k Hk. apply (filtered_keys _ _ _ _ Hl') in Hk. by destruct Hk as (v & _ & Hk).
  - intros R HR H0. apply wp_bind, wp_arrange. intros w Hw. by apply wp_put_rules.
Qed.

(** ** Publication *)

(** The policies once the desired ones are published, and once a boundary is removed. *)
Definition published (cur P : gmap Z overlayBoundaryPolicy) : Prop :=
  forall n, P !! n = match policies d !! n with Some p => Some p | None => cur !! n end.

Definition final_policies (cur P : gmap Z overlayBoundaryPolicy) : Prop :=
  forall n, P !! n = match policies d !! n with
                     | Some p => Some p
                     | None => if decide (n ∈ known) then None else cur !! n
                     end.

Lemma wp_publish cur s (Q : result unit -> BdKern -> Prop) :
  closing cur -> keeping cur (BoundaryRules s) -> staged (BoundaryRules s) -> BoundaryPolicy s = cur ->
  (forall P e, safe (update L_policy P s) -> Q (Err e) (update L_policy P s)) ->
  (forall P, published cur P -> Q (Ok tt) (update L_policy P s)) ->
  wp (publish caps d cur) safe Q s.
Proof.
  intros Hc Hk Hst Hcur He Hq. apply wp_bind, wp_arrange. intros l Hl.
  assert (forall n p, (n, p) ∈ l -> policies d !! n = Some p) as Hin.
  { intros n p Hnp. apply elem_of_map_to_list. by rewrite <-Hl. }
  assert (forall pre post P, l = pre ++ post ->
    (forall n, P !! n = if decide (n ∈ pre.*1) then policies d !! n else cur !! n) -> safe (update L_policy P s)) as Hsafe.
  { intros pre post P E HP. apply (safe_intro cur); [done|done|]. intros m. cbn. rewrite HP.
    case_decide as Hm; [|by left]. right. left. split; [done|]. split; [|done].
    apply list_elem_of_fmap in Hm as ([m' p'] & -> & Hm). exists p'. cbn. apply Hin. rewrite E. set_solver. }
  apply (wp_forM _ _ (fun pre s' => exists P, s' = update L_policy P s /\
    forall n, P !! n = if decide (n ∈ pre.*1) then policies d !! n else cur !! n)).
  - exists cur. split; [rewrite <-Hcur; symmetry; apply (update_view (L := L_policy))|]. intros n.
    by rewrite decide_False by apply not_elem_of_nil.
  - intros pre [n p] post ? E (P & -> & HP). pose proof (Hin n p ltac:(rewrite E; set_solver)) as Hp.
    assert (forall m : Z, <[n := p]> P !! m = if decide (m ∈ (pre ++ [(n, p)]).*1) then policies d !! m else cur !! m) as HP'.
    { intros m. rewrite fmap_app. cbn. destruct (decide (m = n)) as [->|Hne].
      - rewrite lookup_insert_eq, decide_True by set_solver. done.
      - rewrite lookup_insert_ne, HP by done. destruct (decide (m ∈ pre.*1)).
        + by rewrite decide_True by set_solver.
        + by rewrite (decide_False (P := m ∈ _ ++ _)) by set_solver. }
    case_decide as Hx.
    + apply wp_ret. exists P. split; [done|]. replace P with (<[n := p]> P); [done|]. apply insert_id.
      rewrite HP. case_decide; congruence.
    + apply wp_Put; [eauto|eauto|]. split; [|by exists (<[n := p]> P)].
      apply (Hsafe (pre ++ [(n, p)]) post); [by rewrite <-app_assoc|done].
  - intros ? (P & -> & HP). apply Hq. intros n. rewrite HP. case_decide as Hn.
    + apply list_elem_of_fmap in Hn as ([n' p'] & -> & Hn). cbn. by rewrite (Hin n' p').
    + destruct (policies d !! n) as [p|] eqn:Ep; [|done]. contradict Hn. rewrite Hl.
      apply list_elem_of_fmap. exists (n, p). split; [done|]. by apply elem_of_map_to_list.
Qed.

Lemma wp_unmanage cur P0 s (Q : result unit -> BdKern -> Prop) :
  closing cur -> keeping cur (BoundaryRules s) -> staged (BoundaryRules s) -> published cur P0 -> BoundaryPolicy s = P0 ->
  (forall P e, safe (update L_policy P s) -> Q (Err e) (update L_policy P s)) ->
  (forall P, final_policies cur P -> Q (Ok tt) (update L_policy P s)) ->
  wp (unmanage d known cur) safe Q s.
Proof.
  intros Hc Hk Hst Hpub Hcur He Hq. apply wp_bind, wp_arrange. intros l Hl.
  assert (forall (pre : list Z) P,
    (forall n, P !! n = if decide (n ∈ pre /\ n ∈ known /\ policies d !! n = None) then None else P0 !! n) ->
    safe (update L_policy P s)) as Hsafe.
  { intros pre P HP. apply (safe_intro cur); [done|done|]. intros m. cbn. rewrite HP.
    case_decide as Hm; [right; right; tauto|]. rewrite Hpub. destruct (policies d !! m) as [q|] eqn:Eq; [|by left].
    right. left. split; [done|]. split; [by exists q|done]. }
  apply (wp_forM _ _ (fun pre s' => exists P, s' = update L_policy P s /\
    forall n, P !! n = if decide (n ∈ pre.*1 /\ n ∈ known /\ policies d !! n = None) then None else P0 !! n)).
  - exists P0. split; [rewrite <-Hcur; symmetry; apply (update_view (L := L_policy))|]. intros n.
    rewrite decide_False; [done|]. intros [Hn _]. by apply not_elem_of_nil in Hn.
  - intros pre [n p] post ? E (P & -> & HP). case_decide as Hd.
    + assert (forall m : Z, delete n P !! m =
        if decide (m ∈ (pre ++ [(n, p)]).*1 /\ m ∈ known /\ policies d !! m = None) then None else P0 !! m) as HP'.
      { intros m. rewrite fmap_app. cbn. destruct (decide (m = n)) as [->|Hne].
        - rewrite lookup_delete_eq, decide_True by set_solver. done.
        - rewrite lookup_delete_ne, HP by done. apply decide_ext. set_solver. }
      apply wp_DeleteIfExists; [eauto|intros Hn; exists P; split; [done|]; rewrite <-(delete_id P n Hn); done|].
      intros v _. split; [by eapply Hsafe|by exists (delete n P)].
    + apply wp_ret. exists P. split; [done|]. intros m. rewrite HP, fmap_app. cbn. apply decide_ext. set_solver.
  - intros ? (P & -> & HP). apply Hq. intros n. rewrite HP, Hpub. destruct (policies d !! n) as [p|] eqn:Ep.
    + rewrite decide_False; [done|]. by intros (_ & _ & ?).
    + destruct (decide (n ∈ known)) as [Hn|Hn]; [|rewrite decide_False by tauto; done].
      destruct (decide (n ∈ l.*1)) as [?|Hout]; [by rewrite decide_True|rewrite decide_False by tauto].
      destruct (cur !! n) as [q|] eqn:Eq; [|done]. contradict Hout. rewrite Hl. apply list_elem_of_fmap.
      exists (n, q). split; [done|]. by apply elem_of_map_to_list.
Qed.

(** The last step prunes the versions nothing points to. *)
Lemma final_safe cur s R : closing cur -> unknown_closed cur -> keeping cur (BoundaryRules s) -> staged (BoundaryRules s) ->
  final_policies cur (BoundaryPolicy s) -> between (BoundaryRules s) (rules d) R -> safe (update L_rules R s).
Proof.
  intros Hc Hu [Hn _] Hst Hf Hb. split.
  - intros n. unfold consistent. cbn. rewrite Hf. destruct (policies d !! n) as [p|] eqn:Ep.
    + right. right. split; [done|]. intros k _ Hk. destruct (Hb k) as [-> | ->]; [by apply Hst|done].
    + case_decide as Hkn; [by right|]. destruct (cur !! n) as [q|] eqn:Eq.
      * left. by apply (Hu n q).
      * left. destruct (Hc n) as [<-|[i Ei]]; congruence.
  - intros k. cbn. destruct (Hb k) as [-> | ->]; [apply Hn|by right].
Qed.
End Guarantee.

(** Every state of a pass over [desired]. *)
Definition pass_safe (desired : list Boundary) (known : list Z) (primary : list PrimaryPort) (s0 s : BdKern) : Prop :=
  match desired_maps desired primary with
  | Ok d => safe d known s0 s
  | Err _ => s = s0
  end.

(** The state a pass without errors ends in. *)
Definition pass_done (desired : list Boundary) (known : list Z) (primary : list PrimaryPort) (s0 s : BdKern) : Prop :=
  exists d, desired_maps desired primary = Ok d /\ primary_map primary = Ok (BoundaryPrimary s) /\
    BoundaryRules s = rules d /\ BoundaryCidrs s = cidrs d /\ BoundaryCt s = BoundaryCt s0 /\
    forall n, match policies d !! n with
              | Some p => BoundaryPolicy s !! n = Some p
              | None => if decide (n ∈ known) then BoundaryPolicy s !! n = None
                        else forall p, BoundaryPolicy s !! n = Some p -> bp_Revision p = 0 /\ bp_Internet p = 0
              end.

Section Pass.
Context `{Runtime} (caps : BdCaps).

Lemma wp_SyncBoundaries desired known primary s0 :
  wp (SyncBoundaries caps desired known primary) (pass_safe desired known primary s0)
    (fun r s => pass_safe desired known primary s0 s /\ (r = Ok tt -> pass_done desired known primary s0 s)) s0.
Proof.
  unfold pass_safe, pass_done. apply wp_bind, wp_lift.
  destruct (desired_maps desired primary) as [d|e]; [|done].
  assert (forall s, update L_policy (BoundaryPolicy s) s = s) as Hid by (by intros []).
  assert (at_policies s0 (BoundaryPolicy s0) = s0) as Es0 by apply Hid.
  assert (safe d known s0 s0) as Hs0.
  { rewrite <-Es0 at 2. apply at_policies_safe, closing_refl. }
  apply wp_bind, wp_Iterate; [done|]. intros l Hl. cbn in Hl. rewrite (list_to_map_perm _ _ Hl).
  apply wp_bind. rewrite <-Es0 at 2. apply wp_close_recycled; [intros cur e Hc; split; [by apply at_policies_safe|done]|].
  intros cur Hc. apply wp_bind, wp_close_unknown; [done|intros cur' e Hc'; split; [by apply at_policies_safe|done]|].
  clear cur Hc. intros cur Hc Hu. apply wp_bind, wp_stage_rules; [done|intros R e HR; split; [by apply at_rules_safe|done]|].
  intros R HR Hst. apply wp_bind, wp_lift. destruct (primary_map primary) as [prim|e]; [|split; [by apply at_rules_safe|done]].
  assert (forall pm cm, safe d known s0 (MkBdKern cur R pm cm (BoundaryCt s0))) as Hsafe.
  { intros pm cm. apply (safe_intro d known s0 cur); [done|done|by left]. }
  apply wp_bind, (wp_syncMap L_primary); [intros; apply Hsafe|intros; split; [apply Hsafe|done]|intros _].
  apply wp_bind, (wp_syncMap L_cidrs); [intros; apply Hsafe|intros; split; [apply Hsafe|done]|intros _].
  set (s := update L_cidrs _ _).
  apply wp_bind, (wp_publish caps d known s0 cur s); [done..|by split|]. intros P HP.
  apply wp_bind, (wp_unmanage d known s0 cur P); [done..|by split|]. intros P' HP'.
  apply (wp_syncMap L_rules); [intros m Hb _|intros m e Hb _; split; [|done]|intros _; split].
  1,2: by apply (final_safe d known s0 cur (update L_policy P' s)).
  - apply (final_safe d known s0 cur (update L_policy P' s)); [done..|]. by right.
  - intros _. exists d. repeat (split; [done|]). intros n. cbn. rewrite HP'.
    destruct (policies d !! n); [done|]. case_decide; [done|]. intros p Hp. by apply (Hu n p).
Qed.

(** C16. Boundaries change by whole versions: whatever call of a pass fails and in whatever order
    maps are visited, in every kernel state a packet can meet each VPC is closed, unmanaged as
    before or because its removal was requested, or under the old or the new policy entry with
    all the rules of that version, and no rule is there that neither version has; a pass without
    errors leaves exactly the desired policies, rules, ranges and primary ports, removes the
    policies of known unmanaged VPCs and closes those of unknown ones. *)
Theorem SyncBoundaries_versioned desired known primary (w : world BdKern) :
  let '(w', r) := SyncBoundaries caps desired known primary w in
  pass_safe desired known primary (kern w) (kern w') /\
  (r = Ok tt -> pass_done desired known primary (kern w) (kern w')) /\
  exists new, hist w' = new ++ hist w /\ Forall (pass_safe desired known primary (kern w)) new.
Proof.
  destruct (wp_SyncBoundaries desired known primary (kern w) w eq_refl) as ([? ?] & Hh).
  by destruct (SyncBoundaries caps desired known primary w).
Qed.
End Pass.
