(* ===== verification/BoundaryGate.v ===== *)
(** * The boundary gate of the datapath (bpf/overlay.c)

    Every packet between a pod and another VPC, or the Internet, crosses [boundary_gate] at both
    pods.  Between two VPCs the rules of both must agree, and a flow they admitted is remembered
    with the revisions and identities of both policies.  The theorems say that an admitted
    packet belongs to a flow both current policies authorised, that replies need no rule of
    their own, and that a pod of a managed VPC sends with its own address only. *)
From S2P Require Import Prelude GoNet AddrMap KernelMap Lpm Packet SecurityGroups SgDatapath Nat Routes Boundary.
Local Open Scope Z_scope.

(** ** Packets *)

(** What one run of the program meets: the clock, and whether the two map updates succeed. *)
Record BdEnv := MkBdEnv { now : Z; put_ok : bool; put_reply_ok : bool }.

(** [boundary_l4], bpf/overlay.c:5811-5834: protocol, source port and destination port of the
    tuple. *)
Definition boundary_l4 (skb : sk_buff) (p : pkt) : option (Z * Z * Z) :=
  let f := frame skb in
  let off := l4_off (is_v6 p) in
  let plain_v4 :=
    match load_field f ETH_HLEN 1, load_field f (ETH_HLEN + 6) 2 with
    | Some vihl, Some frag => (vihl =? 0x45) && (Z.land (htons frag) 0x3fff =? 0)
    | _, _ => false
    end in
  if negb (is_v6 p) && negb plain_v4 then None
  else if (p_proto p =? IPPROTO_TCP) || (p_proto p =? IPPROTO_UDP) then
    sport ← load_field f off 2; dport ← load_field f (off + 2) 2; Some (p_proto p, sport, dport)
  else if (p_proto p =? IPPROTO_ICMP) || (p_proto p =? IPPROTO_ICMPV6) then
    dport ← load_field f off 2; sport ← load_field f (off + 4) 2; Some (p_proto p, sport, dport)
  else None.

Definition with_l4 (key : overlayBoundaryFlow) (l4 : Z * Z * Z) : overlayBoundaryFlow :=
  let '(proto, sport, dport) := l4 in
  MkBFlow (bf_Src key) (bf_Dst key) (bf_Local key) (bf_Peer key) sport dport proto (bf_Hook key).

Definition other_hook (hook : Z) : Z := if hook =? 0 then 1 else 0.

(** [boundary_related_error], which messages are errors, bpf/overlay.c:5842-5854: [None] if it
    is not one, otherwise whether its type and code are defined. *)
Definition icmp_error (v6 : bool) (proto dport : Z) : option bool :=
  let tc := htons dport in
  let type := Z.shiftr tc 8 in
  let code := Z.land tc 0xff in
  if (proto =? IPPROTO_ICMP) && negb v6 then
    if negb (type =? 3) && negb (type =? 11) && negb (type =? 12) then None
    else Some (negb (((type =? 3) && (15 <? code)) || ((type =? 11) && (1 <? code)) || ((type =? 12) && (2 <? code))))
  else if (proto =? IPPROTO_ICMPV6) && v6 then
    if 128 <=? type then None
    else Some (negb ((type <? 1) || (4 <? type) || ((type =? 1) && (6 <? code)) || ((type =? 2) && negb (code =? 0)) ||
                     ((type =? 3) && (1 <? code)) || ((type =? 4) && (2 <? code))))
  else None.

(** [boundary_related_error], the addresses and protocol of the quoted packet and the offset of
    its transport header, bpf/overlay.c:5856-5881. *)
Definition quoted_addrs (skb : sk_buff) (v6 : bool) : option (Z * list Z * list Z * Z) :=
  let f := frame skb in
  let quoted := l4_off v6 + 8 in
  version ← load_field f quoted 1;
  if v6 then
    if negb (Z.shiftr version 4 =? 6) then None
    else
      proto ← load_field f (quoted + 6) 1;
      src ← load_bytes f (quoted + 8) 16;
      dst ← load_bytes f (quoted + 24) 16;
      Some (proto, src, dst, quoted + 40)
  else
    if negb (version =? 0x45) then None
    else
      frag ← load_field f (quoted + 6) 2;
      if negb (Z.land (htons frag) 0x3fff =? 0) then None
      else
        proto ← load_field f (quoted + 9) 1;
        src ← load_bytes f (quoted + 12) 4;
        dst ← load_bytes f (quoted + 16) 4;
        Some (proto, v4_to_128 src, v4_to_128 dst, quoted + 20).

(** [boundary_related_error], the flow of the quoted packet, bpf/overlay.c:5856-5895. *)
Definition quoted_flow (skb : sk_buff) (p : pkt) (key : overlayBoundaryFlow) : option overlayBoundaryFlow :=
  '(proto, src, dst, off) ← quoted_addrs skb (is_v6 p);
  if negb (addr128_eq src (p_dst p)) then None
  else
    l4 ← load_bytes (frame skb) off 8;
    let flow sport dport := MkBFlow src dst (bf_Local key) (bf_Peer key) sport dport proto (other_hook (bf_Hook key)) in
    if (proto =? IPPROTO_TCP) || (proto =? IPPROTO_UDP) then Some (flow (field l4 0 2) (field l4 2 2))
    else if (negb (is_v6 p) && (proto =? IPPROTO_ICMP) && ((field l4 0 1 =? 8) || (field l4 0 1 =? 0)) && (field l4 1 1 =? 0)) ||
            (is_v6 p && (proto =? IPPROTO_ICMPV6) && ((field l4 0 1 =? 128) || (field l4 0 1 =? 129)) && (field l4 1 1 =? 0))
    then Some (flow (field l4 4 2) (field l4 0 2))
    else None.

(** A remembered flow is in force: same revisions and identities, not expired. *)
Definition flow_live (ct : gmap overlayBoundaryFlow overlayBoundaryFlowValue) (key : overlayBoundaryFlow)
    (value : overlayBoundaryFlowValue) (now : Z) : bool :=
  match ct !! key with
  | None => false
  | Some c =>
      (bv_LocalRev c =? bv_LocalRev value) && (bv_PeerRev c =? bv_PeerRev value) &&
      (bv_LocalId c =? bv_LocalId value) && (bv_PeerId c =? bv_PeerId value) && (now <? bv_Expires c)
  end.

(** [boundary_related_error], bpf/overlay.c:5839-5901; [None] stands for -1. *)
Definition boundary_related_error (ct : gmap overlayBoundaryFlow overlayBoundaryFlowValue) (env : BdEnv)
    (skb : sk_buff) (p : pkt) (key : overlayBoundaryFlow) (value : overlayBoundaryFlowValue) : option bool :=
  match icmp_error (is_v6 p) (bf_Proto key) (bf_Dport key) with
  | None => None
  | Some false => Some false
  | Some true =>
      Some (match quoted_flow skb p key with None => false | Some flow => flow_live ct flow value (now env) end)
  end.

(** ** The gate *)

(** The lifetime of a remembered flow, in nanoseconds. *)
Definition flow_lifetime : Z := 30000000000.

Definition set_expires (v : overlayBoundaryFlowValue) (t : Z) : overlayBoundaryFlowValue :=
  MkBFlowValue (bv_LocalRev v) (bv_PeerRev v) (bv_LocalId v) (bv_PeerId v) t.

(** [boundary_gate], the first of the two rules a new flow needs, bpf/overlay.c:5948-5951. *)
Definition rule_local (key : overlayBoundaryFlow) (rev : Z) : overlayBoundaryRule :=
  MkBRule rev (bf_Local key) (bf_Peer key) (bf_Dport key) (bf_Proto key) (bf_Hook key).
(** [boundary_gate], the second of the two rules, bpf/overlay.c:5952-5954. *)
Definition rule_peer (key : overlayBoundaryFlow) (rev : Z) : overlayBoundaryRule :=
  MkBRule rev (bf_Peer key) (bf_Local key) (bf_Dport key) (bf_Proto key) (other_hook (bf_Hook key)).

(** [boundary_gate], the flow of the answers, bpf/overlay.c:5957-5966; only echo has one among
    the ICMP messages. *)
Definition reply_flow (key : overlayBoundaryFlow) : option overlayBoundaryFlow :=
  let flow sport dport := MkBFlow (bf_Dst key) (bf_Src key) (bf_Local key) (bf_Peer key) sport dport (bf_Proto key) (other_hook (bf_Hook key)) in
  if (bf_Proto key =? IPPROTO_TCP) || (bf_Proto key =? IPPROTO_UDP) then Some (flow (bf_Dport key) (bf_Sport key))
  else
    let tc := htons (bf_Dport key) in
    if (bf_Proto key =? IPPROTO_ICMP) && (tc =? 0x0800) then Some (flow (bf_Sport key) 0)
    else if (bf_Proto key =? IPPROTO_ICMPV6) && (tc =? 0x8000) then Some (flow (bf_Sport key) (htons 0x8100))
    else None.

(** [boundary_gate], which TCP segments may start a flow, bpf/overlay.c:5941-5947. *)
Definition may_start (skb : sk_buff) (p : pkt) : bool :=
  if p_proto p =? IPPROTO_TCP then
    match load_field (frame skb) (l4_off (is_v6 p) + 13) 1 with
    | None => false
    | Some flags => negb (Z.land flags 2 =? 0) && (Z.land flags (Z.lor (Z.lor 0x10 0x04) 0x01) =? 0)
    end
  else true.

(** [boundary_gate], a flow between two VPCs that is not remembered, bpf/overlay.c:5941-5967. *)
Definition start_flow (k : BdKern) (env : BdEnv) (skb : sk_buff) (p : pkt) (key : overlayBoundaryFlow)
    (value : overlayBoundaryFlowValue) : bool * gmap overlayBoundaryFlow overlayBoundaryFlowValue :=
  let ct := BoundaryCt k in
  if negb (may_start skb p) then (false, ct)
  else if decide (BoundaryRules k !! rule_local key (bv_LocalRev value) = None) then (false, ct)
  else if decide (BoundaryRules k !! rule_peer key (bv_PeerRev value) = None) then (false, ct)
  else
    let value := set_expires value (u64 (now env + flow_lifetime)) in
    if negb (put_ok env) then (false, ct)
    else
      let ct := <[key := value]> ct in
      match reply_flow key with
      | None => (true, ct)
      | Some reply => if put_reply_ok env then (true, <[reply := value]> ct) else (false, ct)
      end.

(** [boundary_gate], between two VPCs, bpf/overlay.c:5928-5967. *)
Definition between_vpcs (k : BdKern) (env : BdEnv) (skb : sk_buff) (p : pkt) (key : overlayBoundaryFlow)
    (local peer : overlayBoundaryPolicy) : bool * gmap overlayBoundaryFlow overlayBoundaryFlowValue :=
  let ct := BoundaryCt k in
  let value := MkBFlowValue (bp_Revision local) (bp_Revision peer) (bp_Identity local) (bp_Identity peer) 0 in
  let related :=
    if (bf_Proto key =? IPPROTO_ICMP) || (bf_Proto key =? IPPROTO_ICMPV6)
    then boundary_related_error ct env skb p key value else None in
  match related with
  | Some verdict => (verdict, ct)
  | None =>
      if flow_live ct key value (now env)
      then (true, alter (fun c => set_expires c (u64 (now env + flow_lifetime))) key ct)
      else start_flow k env skb p key value
  end.

(** [boundary_gate], towards the Internet, bpf/overlay.c:5915-5926. *)
Definition to_internet (k : BdKern) (routes : RtState) (p : pkt) (key : overlayBoundaryFlow) (local : overlayBoundaryPolicy) : bool :=
  if negb (bf_Hook key =? 0) then true
  else if decide (is_Some (lpm_find (BoundaryCidrs k) (p_dst p))) then false
  else if decide (is_Some (vpn_route routes (bf_Local key) (p_dst p))) then true
  else negb (bp_Internet local =? 0) && bool_decide (is_Some (BoundaryPrimary k !! MkLocalKey (bf_Local key) (p_src p))).

(** [boundary_gate], bpf/overlay.c:5903-5968. *)
Definition boundary_gate (k : BdKern) (routes : RtState) (env : BdEnv) (skb : sk_buff) (p : pkt) (key : overlayBoundaryFlow)
    : bool * gmap overlayBoundaryFlow overlayBoundaryFlowValue :=
  let ct := BoundaryCt k in
  match BoundaryPolicy k !! bf_Local key, BoundaryPolicy k !! bf_Peer key with
  | None, None => (true, ct)
  | None, Some _ => (false, ct)
  | Some local, peer =>
      if bp_Revision local =? 0 then (false, ct)
      else if bf_Local key =? bf_Peer key then (true, ct)
      else match boundary_l4 skb p with
           | None => (false, ct)
           | Some l4 =>
               let key := with_l4 key l4 in
               if bf_Peer key =? 0 then (to_internet k routes p key local, ct)
               else match peer with
                    | None => (false, ct)
                    | Some peer => if bp_Revision peer =? 0 then (false, ct) else between_vpcs k env skb p key local peer
                    end
           end
  end.

(** ** The programs on the pod side *)

(** The further maps the programs read. *)
Record PodView := MkPodView {
  v_bd : BdKern; v_routes : RtState; v_nat : NatEnv;
  v_ports : gmap Z Z; v_networks : gmap overlayLpmKey Z;
  v_dns_ips : gmap Z (list Z); v_resolver_port : Z; v_org_gw : gmap overlayLocalKey Z
}.

(** [net_of], bpf/overlay.c:2452-2457. *)
Definition net_of (networks : gmap overlayLpmKey Z) (scope : Z) (addr : list Z) : Z :=
  default 0 (lpm_find networks (data (MkLpmKey (32 + 128) scope addr))).

(** [dns_destination], bpf/overlay.c:5519-5525. *)
Definition dns_destination (v : PodView) (p : pkt) : bool :=
  match v_dns_ips v !! (if is_v6 p then 1 else 0) with
  | None => false
  | Some dns => negb (addr128_zero dns) && (addr128_eq dns (p_dst p) || is_internal (v_nat v) (p_dst p))
  end.

(** [org_gw_port], bpf/overlay.c:5668-5671. *)
Definition org_gw_port (port : Z) : bool := (port =? htons 80) || (port =? htons 443).

(** [LINK_LOCAL_GW6], bpf/overlay.c:2934-2934. *)
Definition LINK_LOCAL_GW6 : list Z := [0xfe; 0x80; 0; 0; 0; 0; 0; 0; 0; 0; 0; 0; 0; 0; 0; 1].
(** [LINK_LOCAL_GW], bpf/overlay.c:41-41, as an address. *)
Definition LINK_LOCAL_GW4 : list Z := v4_to_128 [169; 254; 1; 1].

(** [NDP_TARGET_OFF], bpf/overlay.c:142-142. *)
Definition NDP_TARGET_OFF : Z := L4_OFF6 + 8.

(** [boundary_neighbor_discovery], bpf/overlay.c:5973-5992. *)
Definition boundary_neighbor_discovery (skb : sk_buff) : bool :=
  let f := frame skb in
  default false (
    protocol_hop ← load_field f (ETH_HLEN + 6) 2;
    version ← load_field f ETH_HLEN 1;
    payload ← load_field f (ETH_HLEN + 4) 2;
    dst ← load_bytes f (ETH_HLEN + 24) 16;
    type_code ← load_field f L4_OFF6 2;
    target_first ← load_field f NDP_TARGET_OFF 1;
    Some ((protocol_hop =? htons (Z.lor (Z.shiftl IPPROTO_ICMPV6 8) 255)) && (Z.shiftr version 4 =? 6) &&
          (24 <=? htons payload) && (ETH_HLEN + 40 + htons payload <=? skb_len skb) &&
          v6_link_scoped dst && negb ((field dst 0 1 =? 0xff) && negb (Z.land (field dst 1 1) 0x0f =? 2)) &&
          ((type_code =? htons (Z.shiftl 135 8)) || (type_code =? htons (Z.shiftl 136 8))) && negb (target_first =? 0xff))).

Definition all_routers : list Z := [0xff; 2; 0; 0; 0; 0; 0; 0; 0; 0; 0; 0; 0; 0; 0; 2].
Definition all_dhcp_servers : list Z := [0xff; 2; 0; 0; 0; 0; 0; 0; 0; 0; 0; 0; 0; 1; 0; 2].

(** [boundary_guest_config], bpf/overlay.c:5997-6029. *)
Definition boundary_guest_config (skb : sk_buff) : bool :=
  let f := frame skb in
  match parse_ip skb with
  | None => false
  | Some p =>
      if negb (is_v6 p) then false
      else match load_field f (ETH_HLEN + 4) 2 with
      | None => false
      | Some payload =>
          if skb_len skb <? ETH_HLEN + 40 + htons payload then false
          else
            let link_source := (field (p_src p) 0 1 =? 0xfe) && (Z.land (field (p_src p) 1 1) 0xc0 =? 0x80) in
            if p_proto p =? IPPROTO_ICMPV6 then
              (link_source || addr128_eq (p_src p) (replicate 16 0)) &&
              (addr128_eq (p_dst p) all_routers || addr128_eq (p_dst p) LINK_LOCAL_GW6) &&
              (8 <=? htons payload) &&
              bool_decide (load_field f (ETH_HLEN + 7) 1 = Some 255) &&
              bool_decide (load_field f L4_OFF6 2 = Some (htons (Z.shiftl 133 8)))
            else if (p_proto p =? IPPROTO_UDP) && link_source then
              (addr128_eq (p_dst p) all_dhcp_servers || addr128_eq (p_dst p) LINK_LOCAL_GW6) &&
              (12 <=? htons payload) &&
              bool_decide (load_field f L4_OFF6 2 = Some (htons 546)) &&
              bool_decide (load_field f (L4_OFF6 + 2) 2 = Some (htons 547)) &&
              bool_decide (load_field f (L4_OFF6 + 4) 2 = Some payload)
            else false
      end
  end.

(** How a program ends: drop, pass, or the tail call into its continuation, which drops when
    the continuation is missing. *)
Inductive verdict := V_SHOT | V_OK | V_CONTINUE.

(** [ETH_P_ARP], bpf/overlay.c:31-31. *)
Definition ETH_P_ARP : Z := 0x0806.

(** [cozyplane_from_pod], traffic to the gateway, the resolver or the organisation gateway,
    bpf/overlay.c:6065-6078. *)
Definition plumbing (v : PodView) (skb : sk_buff) (p : pkt) (net peer : Z) : bool :=
  let l4 := boundary_l4 skb p in
  let dport_is (P : Z -> bool) := match l4 with Some (_, _, dport) => P dport | None => false end in
  addr128_eq (p_dst p) LINK_LOCAL_GW4 || addr128_eq (p_dst p) LINK_LOCAL_GW6 || (is_v6 p && v6_link_scoped (p_dst p)) ||
  ((peer =? 0) && negb (v_resolver_port v =? 0) && dns_destination v p &&
     ((p_proto p =? IPPROTO_TCP) || (p_proto p =? IPPROTO_UDP)) && dport_is (fun d => d =? htons 53)) ||
  ((peer =? 0) && negb (is_v6 p) && (p_proto p =? IPPROTO_TCP) && dport_is org_gw_port &&
     bool_decide (is_Some (v_org_gw v !! MkLocalKey net (p_dst p)))).

(** [cozyplane_from_pod], the source check of a managed VPC, bpf/overlay.c:6062-6064. *)
Definition own_source (v : PodView) (net ifindex : Z) (src : list Z) : bool :=
  match local_of (v_nat v) net src with
  | Some self => ep_ifindex self =? ifindex
  | None => vpn_appliance_source (fun n a => ep_ifindex <$> local_of (v_nat v) n a) (v_routes v) net src ifindex
  end.

(** [cozyplane_from_pod], a parsed packet of a VPC pod, bpf/overlay.c:6056-6080. *)
Definition from_pod_boundary (v : PodView) (env : BdEnv) (skb : sk_buff) (p : pkt) (ifindex port : Z)
    : verdict * gmap overlayBoundaryFlow overlayBoundaryFlowValue :=
  let k := v_bd v in
  let net := PortNet port in
  let peer := net_of (v_networks v) net (p_dst p) in
  let key := MkBFlow (p_src p) (p_dst p) net peer 0 0 0 0 in
  match BoundaryPolicy k !! net with
  | None => if decide (is_Some (BoundaryPolicy k !! peer)) then (V_SHOT, BoundaryCt k) else (V_CONTINUE, BoundaryCt k)
  | Some _ =>
      if negb (Z.land port PortGatewayFlag =? 0) then (V_CONTINUE, BoundaryCt k)
      else if negb (own_source v net ifindex (p_src p)) then (V_SHOT, BoundaryCt k)
      else if plumbing v skb p net peer then (V_CONTINUE, BoundaryCt k)
      else match boundary_gate k (v_routes v) env skb p key with
           | (true, ct) => (V_CONTINUE, ct)
           | (false, ct) => (V_SHOT, ct)
           end
  end.

(** [cozyplane_from_pod], bpf/overlay.c:6031-6084. *)
Definition cozyplane_from_pod (v : PodView) (env : BdEnv) (pulled : bool) (skb : sk_buff) (ifindex : Z)
    : verdict * gmap overlayBoundaryFlow overlayBoundaryFlowValue :=
  let skb := pull_headers pulled skb in
  let k := v_bd v in
  let port := v_ports v !! ifindex in
  if decide (port = Some QuarantineNet) then (V_SHOT, BoundaryCt k)
  else if unsupported_ip_header skb then (V_SHOT, BoundaryCt k)
  else if match load_field (frame skb) 12 2 with
          | None => false
          | Some ether_type =>
              (ether_type =? htons ETH_P_ARP) ||
              ((ether_type =? htons ETH_P_IPV6) && (boundary_neighbor_discovery skb || boundary_guest_config skb))
          end
  then (V_OK, BoundaryCt k)
  else match port with
       | None => (V_CONTINUE, BoundaryCt k)
       | Some port =>
           if PortNet port =? 0 then (V_CONTINUE, BoundaryCt k)
           else match parse_ip skb with
                | None => (V_CONTINUE, BoundaryCt k)
                | Some p => from_pod_boundary v env skb p ifindex port
                end
       end.

(** [cozyplane_to_pod], bpf/overlay.c:6608-6632; [forwarded] is the [FWD_MARK] of the packet. *)
Definition cozyplane_to_pod (v : PodView) (env : BdEnv) (pulled forwarded : bool) (skb : sk_buff) (ifindex : Z)
    : verdict * gmap overlayBoundaryFlow overlayBoundaryFlowValue :=
  let skb := pull_headers pulled skb in
  let k := v_bd v in
  let port := v_ports v !! ifindex in
  if decide (port = Some QuarantineNet) then (V_SHOT, BoundaryCt k)
  else if unsupported_ip_header skb then (V_SHOT, BoundaryCt k)
  else match port with
       | None => (V_CONTINUE, BoundaryCt k)
       | Some port =>
           let net := PortNet port in
           if net =? 0 then (V_CONTINUE, BoundaryCt k)
           else match parse_ip skb with
                | None => (V_CONTINUE, BoundaryCt k)
                | Some p =>
                    let key := MkBFlow (p_src p) (p_dst p) net (net_of (v_networks v) net (p_src p)) 0 0 0 1 in
                    if bool_decide (is_Some (BoundaryPolicy k !! net)) && forwarded &&
                       bool_decide (vpn_route (v_routes v) net (p_src p) = None)
                    then (V_SHOT, BoundaryCt k)
                    else match boundary_gate k (v_routes v) env skb p key with
                         | (true, ct) => (V_CONTINUE, ct)
                         | (false, ct) => (V_SHOT, ct)
                         end
                end
       end.

(** ** Flows are authorised *)

Section Authority.

(** What can happen to the maps: a packet meets the gate, entries of the flow table are
    evicted, the agent changes the policies. *)
Inductive step : BdKern -> BdKern -> Prop :=
| step_packet k routes env skb p key :
    step k (MkBdKern (BoundaryPolicy k) (BoundaryRules k) (BoundaryPrimary k) (BoundaryCidrs k)
              (boundary_gate k routes env skb p key).2)
| step_evict k ct : ct ⊆ BoundaryCt k ->
    step k (MkBdKern (BoundaryPolicy k) (BoundaryRules k) (BoundaryPrimary k) (BoundaryCidrs k) ct)
| step_control k policy rules primary cidrs : step k (MkBdKern policy rules primary cidrs (BoundaryCt k)).

(** In [k], both policies are at the versions of [v] and both admit the start of [flow]. *)
Definition authorised (k : BdKern) (v : overlayBoundaryFlowValue) (flow : overlayBoundaryFlow) : Prop :=
  (exists local peer, BoundaryPolicy k !! bf_Local flow = Some local /\ BoundaryPolicy k !! bf_Peer flow = Some peer /\
     bp_Revision local = bv_LocalRev v /\ bp_Identity local = bv_LocalId v /\
     bp_Revision peer = bv_PeerRev v /\ bp_Identity peer = bv_PeerId v) /\
  is_Some (BoundaryRules k !! rule_local flow (bv_LocalRev v)) /\
  is_Some (BoundaryRules k !! rule_peer flow (bv_PeerRev v)).

(** [flow] is an authorised flow of the history that leads from [k0] to [k], or its answer. *)
Definition belongs (k0 k : BdKern) (v : overlayBoundaryFlowValue) (flow : overlayBoundaryFlow) : Prop :=
  exists k1 start, rtc step k0 k1 /\ rtc step k1 k /\ authorised k1 v start /\ (flow = start \/ reply_flow start = Some flow).

Definition ct_authorised (k0 k : BdKern) : Prop := forall flow v, BoundaryCt k !! flow = Some v -> belongs k0 k v flow.

Lemma belongs_step k0 k k' v flow : belongs k0 k v flow -> step k k' -> belongs k0 k' v flow.
Proof. intros (k1 & start & H1 & H2 & Hr) Hs. exists k1, start. split; [done|]. split; [by eapply rtc_r|done]. Qed.

Lemma authorised_expires k v t flow : authorised k (set_expires v t) flow <-> authorised k v flow.
Proof. done. Qed.

Lemma start_flow_ct k env skb p key v flow c :
  (start_flow k env skb p key v).2 !! flow = Some c ->
  BoundaryCt k !! flow = Some c \/
  (is_Some (BoundaryRules k !! rule_local key (bv_LocalRev v)) /\ is_Some (BoundaryRules k !! rule_peer key (bv_PeerRev v)) /\
   c = set_expires v (u64 (now env + flow_lifetime)) /\ (flow = key \/ reply_flow key = Some flow)).
Proof.
  unfold start_flow. case_if; [by left|]. case_decide as Hl; [by left|]. case_decide as Hp; [by left|].
  apply not_eq_None_Some in Hl, Hp. cbv zeta. case_if; [by left|]. set (c0 := set_expires _ _).
  assert (forall m : gmap _ _, (<[key := c0]> m) !! flow = Some c -> m !! flow = Some c \/ (c = c0 /\ flow = key)) as Hi.
  { intros m. destruct (decide (flow = key)) as [->|]; [rewrite lookup_insert_eq; intros [= <-]; auto|rewrite lookup_insert_ne by done; auto]. }
  destruct (reply_flow key) as [reply|]; [case_if|]; cbn; intros Hc.
  - destruct (decide (flow = reply)) as [->|]; [rewrite lookup_insert_eq in Hc; injection Hc as <-; auto 10|].
    rewrite lookup_insert_ne in Hc by done. apply Hi in Hc as [?|[-> ->]]; auto 10.
  - apply Hi in Hc as [?|[-> ->]]; auto 10.
  - apply Hi in Hc as [?|[-> ->]]; auto 10.
Qed.

Lemma with_l4_nets key l4 : bf_Local (with_l4 key l4) = bf_Local key /\ bf_Peer (with_l4 key l4) = bf_Peer key.
Proof. by destruct l4 as [[]]. Qed.

(** The only entries a packet adds are those of a flow authorised now; it refreshes others. *)
Lemma gate_ct k routes env skb p key flow c :
  (boundary_gate k routes env skb p key).2 !! flow = Some c ->
  exists v, (BoundaryCt k !! flow = Some v \/ exists start, authorised k v start /\ (flow = start \/ reply_flow start = Some flow)) /\
    c = set_expires v (bv_Expires c).
Proof.
  assert (BoundaryCt k !! flow = Some c -> exists v, (BoundaryCt k !! flow = Some v \/
    exists start, authorised k v start /\ (flow = start \/ reply_flow start = Some flow)) /\ c = set_expires v (bv_Expires c)) as Hsame.
  { intros Hc. exists c. split; [by left|by destruct c]. }
  unfold boundary_gate. destruct (BoundaryPolicy k !! bf_Local key) as [local|] eqn:El.
  2: { by destruct (BoundaryPolicy k !! bf_Peer key). }
  case_if; [done|]. case_if; [done|]. destruct (boundary_l4 skb p) as [l4|]; [|done].
  destruct (with_l4_nets key l4) as [Enl Enp]. cbv zeta. case_if; [done|].
  destruct (BoundaryPolicy k !! bf_Peer key) as [peer|] eqn:Ep; [|done]. case_if; [done|].
  unfold between_vpcs. set (v := MkBFlowValue _ _ _ _ _). match goal with |- context [match ?r with Some _ => _ | None => _ end] => destruct r end; [done|].
  case_if.
  - destruct (decide (flow = with_l4 key l4)) as [->|].
    + cbn [snd]. rewrite lookup_alter_eq. intros (c0 & Hc & ->)%fmap_Some. exists c0. split; [by left|done].
    + cbn [snd]. by rewrite lookup_alter_ne.
  - intros [Hc|(Hl & Hp & -> & Hf)]%start_flow_ct; [by apply Hsame|]. exists v. split; [|done]. right.
    exists (with_l4 key l4). split; [|done]. split; [|done]. exists local, peer. by rewrite Enl, Enp.
Qed.

Lemma reachable_authorised k0 k : BoundaryCt k0 = ∅ -> rtc step k0 k -> ct_authorised k0 k.
Proof.
  intros H0 Hr. pattern k. refine (rtc_ind_r (fun k => ct_authorised k0 k) k0 _ _ k Hr).
  { intros flow v. by rewrite H0, lookup_empty. }
  intros k1 k2 H1 Hs IH flow c Hc. pose proof Hs as Hs'. inversion Hs' as [? routes env skb p key|? ct Hsub|]; subst; cbn in Hc.
  - apply gate_ct in Hc as (v & [Hv|(start & Ha & Hf)] & ->).
    + destruct (belongs_step _ _ _ _ _ (IH _ _ Hv) Hs) as (k1' & start & ?). by exists k1', start.
    + exists k1, start. split; [done|]. split; [by apply rtc_once|]. done.
  - eapply belongs_step; [|done]. apply IH. by eapply lookup_weaken.
  - eapply belongs_step; [|done]. by apply IH.
Qed.

Lemma flow_live_Some ct key v t : flow_live ct key v t = true ->
  exists c, ct !! key = Some c /\ c = set_expires v (bv_Expires c) /\ t < bv_Expires c.
Proof.
  unfold flow_live. destruct (ct !! key) as [c|]; [|done]. intros E. to_prop. exists c. split; [done|].
  split; [|done]. destruct c; unfold set_expires; cbn in *. congruence.
Qed.

(** The versions of two policies. *)
Definition versions (local peer : overlayBoundaryPolicy) : overlayBoundaryFlowValue :=
  MkBFlowValue (bp_Revision local) (bp_Revision peer) (bp_Identity local) (bp_Identity peer) 0.

(** The flow a packet carries: its own tuple or, in an ICMP error, the tuple it quotes. *)
Definition carried (skb : sk_buff) (p : pkt) (key flow : overlayBoundaryFlow) : Prop :=
  exists l4, boundary_l4 skb p = Some l4 /\
    (flow = with_l4 key l4 \/
     (icmp_error (is_v6 p) (bf_Proto (with_l4 key l4)) (bf_Dport (with_l4 key l4)) = Some true /\
      quoted_flow skb p (with_l4 key l4) = Some flow)).

Lemma between_vpcs_sound k0 k env skb p key l4 local peer : ct_authorised k0 k -> rtc step k0 k ->
  boundary_l4 skb p = Some l4 -> BoundaryPolicy k !! bf_Local key = Some local -> BoundaryPolicy k !! bf_Peer key = Some peer ->
  (between_vpcs k env skb p (with_l4 key l4) local peer).1 = true ->
  exists flow, carried skb p key flow /\ belongs k0 k (versions local peer) flow.
Proof.
  intros Hct Hr El4 El Ep. destruct (with_l4_nets key l4) as [Enl Enp]. unfold between_vpcs. fold (versions local peer).
  set (key' := with_l4 key l4) in *. set (v := versions local peer).
  assert (forall flow t, flow_live (BoundaryCt k) flow v t = true -> belongs k0 k v flow) as Hlive.
  { intros flow t (c & Hc & E & _)%flow_live_Some. apply Hct in Hc. by rewrite E in Hc. }
  assert (boundary_related_error (BoundaryCt k) env skb p key' v = Some true ->
    exists flow, carried skb p key flow /\ belongs k0 k v flow) as Hrel.
  { unfold boundary_related_error. destruct (icmp_error _ _ _) as [[]|] eqn:Ee; [|done..].
    destruct (quoted_flow skb p key') as [flow|] eqn:Eq; [|done]. intros [= Hl]. exists flow.
    split; [exists l4; eauto|by eapply Hlive]. }
  destruct (if (_ || _) then _ else _) as [r|] eqn:Er; cbn.
  { intros ->. case_if; [by apply Hrel|done]. }
  case_if; [intros _; exists key'; split; [exists l4; auto|by eapply Hlive]|].
  unfold start_flow. case_if; [done|]. case_decide as Hl; [done|]. case_decide as Hp; [done|].
  apply not_eq_None_Some in Hl, Hp. intros _. exists key'. split; [exists l4; auto|].
  exists k, key'. split; [done|]. split; [apply rtc_refl|]. split; [|by left]. split; [|done].
  exists local, peer. by rewrite Enl, Enp.
Qed.

Lemma gate_authorised k0 k routes env skb p key :
  BoundaryCt k0 = ∅ -> rtc step k0 k -> bf_Local key <> bf_Peer key -> bf_Peer key <> 0 ->
  is_Some (BoundaryPolicy k !! bf_Local key) \/ is_Some (BoundaryPolicy k !! bf_Peer key) ->
  (boundary_gate k routes env skb p key).1 = true ->
  exists local peer flow,
    BoundaryPolicy k !! bf_Local key = Some local /\ BoundaryPolicy k !! bf_Peer key = Some peer /\
    bp_Revision local <> 0 /\ bp_Revision peer <> 0 /\
    carried skb p key flow /\ belongs k0 k (versions local peer) flow.
Proof.
  intros H0 Hr Hne Hp0 Hm. pose proof (reachable_authorised k0 k H0 Hr) as Hct. unfold boundary_gate.
  destruct (BoundaryPolicy k !! bf_Local key) as [local|] eqn:El.
  2: { destruct (BoundaryPolicy k !! bf_Peer key); [done|]. destruct Hm as [[? ?]|[? ?]]; done. }
  destruct (Z.eqb_spec (bp_Revision local) 0); [done|]. destruct (Z.eqb_spec (bf_Local key) (bf_Peer key)); [done|].
  destruct (boundary_l4 skb p) as [l4|] eqn:El4; [|done]. destruct (with_l4_nets key l4) as [Enl Enp]. cbv zeta.
  rewrite Enp. destruct (Z.eqb_spec (bf_Peer key) 0); [done|].
  destruct (BoundaryPolicy k !! bf_Peer key) as [peer|] eqn:Ep; [|done].
  destruct (Z.eqb_spec (bp_Revision peer) 0); [done|]. intros Hg.
  destruct (between_vpcs_sound k0 k env skb p key l4 local peer) as (flow & ? & ?); [done..|].
  exists local, peer, flow. auto 10.
Qed.

(** C5. No traffic between VPCs without both sides' current consent: in every state reachable
    from an empty flow table by packets, evictions and arbitrary policy changes, if the gate
    admits a packet between two distinct VPCs of which one is managed, both are managed and
    open, and the packet, or the packet an ICMP error quotes, belongs to a flow whose start was
    admitted by a rule of each VPC at a moment when both policies had the revisions and
    identities they have now.  A revised or recycled policy therefore admits nothing on the
    strength of an older one. *)
Theorem boundary_gate_authorised k0 k routes env skb p key :
  BoundaryCt k0 = ∅ -> rtc step k0 k -> bf_Local key <> bf_Peer key -> bf_Peer key <> 0 ->
  is_Some (BoundaryPolicy k !! bf_Local key) \/ is_Some (BoundaryPolicy k !! bf_Peer key) ->
  (boundary_gate k routes env skb p key).1 = true ->
  exists local peer flow,
    BoundaryPolicy k !! bf_Local key = Some local /\ BoundaryPolicy k !! bf_Peer key = Some peer /\
    bp_Revision local <> 0 /\ bp_Revision peer <> 0 /\
    carried skb p key flow /\ belongs k0 k (versions local peer) flow.
Proof. apply gate_authorised. Qed.

(** ** Answers *)

Lemma reply_flow_not_error v6 key reply : reply_flow key = Some reply ->
  (if (bf_Proto key =? IPPROTO_ICMP) || (bf_Proto key =? IPPROTO_ICMPV6) then icmp_error v6 (bf_Proto key) (bf_Dport key) else None) = None /\
  (if (bf_Proto reply =? IPPROTO_ICMP) || (bf_Proto reply =? IPPROTO_ICMPV6) then icmp_error v6 (bf_Proto reply) (bf_Dport reply) else None) = None.
Proof.
  unfold reply_flow, icmp_error. destruct ((bf_Proto key =? IPPROTO_TCP) || (bf_Proto key =? IPPROTO_UDP)) eqn:Et.
  { intros [= <-]. cbn. apply orb_true_iff in Et as [Et|Et]; apply Z.eqb_eq in Et; rewrite Et; done. }
  cbv zeta. destruct ((bf_Proto key =? IPPROTO_ICMP) && _) eqn:E4.
  { intros [= <-]. cbn. apply andb_true_iff in E4 as [E1 E2]. apply Z.eqb_eq in E1, E2. rewrite E1, E2. by destruct v6. }
  destruct ((bf_Proto key =? IPPROTO_ICMPV6) && _) eqn:E6; [|done].
  intros [= <-]. cbn. apply andb_true_iff in E6 as [E1 E2]. apply Z.eqb_eq in E1, E2. rewrite E1, E2. by destruct v6.
Qed.

Lemma related_none ct env skb p key v :
  (if (bf_Proto key =? IPPROTO_ICMP) || (bf_Proto key =? IPPROTO_ICMPV6) then icmp_error (is_v6 p) (bf_Proto key) (bf_Dport key) else None) = None ->
  (if (bf_Proto key =? IPPROTO_ICMP) || (bf_Proto key =? IPPROTO_ICMPV6) then boundary_related_error ct env skb p key v else None) = None.
Proof. unfold boundary_related_error. case_if; [|done]. by intros ->. Qed.

(** Between two open VPCs the gate is [between_vpcs]. *)
Lemma gate_between k routes env skb p key l4 local peer :
  BoundaryPolicy k !! bf_Local key = Some local -> BoundaryPolicy k !! bf_Peer key = Some peer ->
  bp_Revision local <> 0 -> bp_Revision peer <> 0 -> bf_Local key <> bf_Peer key -> bf_Peer key <> 0 ->
  boundary_l4 skb p = Some l4 ->
  boundary_gate k routes env skb p key = between_vpcs k env skb p (with_l4 key l4) local peer.
Proof.
  intros El Ep Hl Hp Hne Hp0 El4. unfold boundary_gate. rewrite El, Ep, El4.
  destruct (Z.eqb_spec (bp_Revision local) 0); [done|]. destruct (Z.eqb_spec (bf_Local key) (bf_Peer key)); [done|].
  cbv zeta. rewrite (proj2 (with_l4_nets key l4)). destruct (Z.eqb_spec (bf_Peer key) 0); [done|].
  by destruct (Z.eqb_spec (bp_Revision peer) 0).
Qed.

Lemma reply_flow_nets key reply : reply_flow key = Some reply -> bf_Local reply = bf_Local key /\ bf_Peer reply = bf_Peer key.
Proof. unfold reply_flow. repeat case_if; intros [= <-]; done. Qed.

Lemma start_flow_reply k env skb p key v reply : reply_flow key = Some reply -> (start_flow k env skb p key v).1 = true ->
  (start_flow k env skb p key v).2 !! reply = Some (set_expires v (u64 (now env + flow_lifetime))).
Proof.
  intros Hr. unfold start_flow. case_if; [done|]. case_decide; [done|]. case_decide; [done|]. cbv zeta.
  case_if; [done|]. rewrite Hr. case_if; [|done]. intros _. apply lookup_insert_eq.
Qed.

Lemma boundary_gate_open k routes env skb p key local peer :
  BoundaryPolicy k !! bf_Local key = Some local -> BoundaryPolicy k !! bf_Peer key = Some peer ->
  bf_Local key <> bf_Peer key -> bf_Peer key <> 0 -> (boundary_gate k routes env skb p key).1 = true ->
  bp_Revision local <> 0 /\ bp_Revision peer <> 0.
Proof.
  intros El Ep Hne Hp0. unfold boundary_gate. rewrite El, Ep. destruct (Z.eqb_spec (bp_Revision local) 0); [done|].
  destruct (Z.eqb_spec (bf_Local key) (bf_Peer key)); [done|]. destruct (boundary_l4 skb p) as [l4|]; [|done]. cbv zeta.
  rewrite (proj2 (with_l4_nets key l4)). destruct (Z.eqb_spec (bf_Peer key) 0); [done|].
  by destruct (Z.eqb_spec (bp_Revision peer) 0).
Qed.

(** Answers need no rule: when the gate admits the start of a TCP or UDP flow or an echo
    request between two VPCs, then for thirty seconds, while both policies keep their versions
    and the entry is not evicted, it admits the answering packets at the opposite hook. *)
Theorem boundary_reply_admitted k routes env skb p key l4 local peer reply k' routes' env' skb' p' key' l4' :
  BoundaryPolicy k !! bf_Local key = Some local -> BoundaryPolicy k !! bf_Peer key = Some peer ->
  bf_Local key <> bf_Peer key -> bf_Peer key <> 0 -> boundary_l4 skb p = Some l4 ->
  flow_live (BoundaryCt k) (with_l4 key l4) (versions local peer) (now env) = false ->
  reply_flow (with_l4 key l4) = Some reply ->
  (boundary_gate k routes env skb p key).1 = true ->
  BoundaryPolicy k' !! bf_Local key = Some local -> BoundaryPolicy k' !! bf_Peer key = Some peer ->
  BoundaryCt k' !! reply = (boundary_gate k routes env skb p key).2 !! reply ->
  boundary_l4 skb' p' = Some l4' -> with_l4 key' l4' = reply ->
  0 <= now env -> now env' < now env + flow_lifetime < 2 ^ 64 ->
  (boundary_gate k' routes' env' skb' p' key').1 = true.
Proof.
  intros El Ep Hne Hp0 El4 Hfresh Hrep Hg El' Ep' Hct El4' Ekey Hn0 Hn.
  destruct (boundary_gate_open k routes env skb p key local peer El Ep Hne Hp0 Hg) as [Hl Hp].
  rewrite (gate_between _ _ _ _ _ _ l4 local peer) in Hct, Hg by done.
  destruct (reply_flow_not_error (is_v6 p) _ _ Hrep) as [Hk _]. destruct (reply_flow_not_error (is_v6 p') _ _ Hrep) as [_ Hr].
  destruct (reply_flow_nets _ _ Hrep) as [Enl Enp]. destruct (with_l4_nets key l4) as [Enl1 Enp1].
  destruct (with_l4_nets key' l4') as [Enl2 Enp2]. rewrite Ekey in Enl2, Enp2.
  assert (BoundaryCt k' !! reply = Some (set_expires (versions local peer) (now env + flow_lifetime))) as Hct'.
  { rewrite Hct. unfold between_vpcs in *. fold (versions local peer) in *. rewrite related_none in * by done. rewrite Hfresh in *.
    rewrite (start_flow_reply _ _ _ _ _ _ reply) by done. unfold u64. rewrite Z.mod_small; [done|]. unfold flow_lifetime in *. lia. }
  rewrite (gate_between _ _ _ _ _ _ l4' local peer); [|congruence..]. rewrite Ekey. unfold between_vpcs. rewrite related_none by done.
  unfold flow_live. rewrite Hct'. cbn. rewrite !Z.eqb_refl. destruct (Z.ltb_spec (now env') (now env + flow_lifetime)); [done|lia].
Qed.

(** ** Pods of a managed VPC *)

(** What the gate lets out of a VPC whose policy is [pol]. *)
Definition let_out (k0 : BdKern) (v : PodView) (skb : sk_buff) (p : pkt) (pol : overlayBoundaryPolicy) (net : Z) : Prop :=
  let k := v_bd v in
  let peer := net_of (v_networks v) net (p_dst p) in
  bp_Revision pol <> 0 /\
  (peer = net \/
   (peer = 0 /\ lpm_find (BoundaryCidrs k) (p_dst p) = None /\
      (is_Some (vpn_route (v_routes v) net (p_dst p)) \/
       (bp_Internet pol <> 0 /\ is_Some (BoundaryPrimary k !! MkLocalKey net (p_src p))))) \/
   exists q flow, BoundaryPolicy k !! peer = Some q /\ bp_Revision q <> 0 /\
     carried skb p (MkBFlow (p_src p) (p_dst p) net peer 0 0 0 0) flow /\ belongs k0 k (versions pol q) flow).

Lemma gate_lets_out k0 v env skb p pol net : BoundaryCt k0 = ∅ -> rtc step k0 (v_bd v) -> net <> 0 ->
  BoundaryPolicy (v_bd v) !! net = Some pol ->
  (boundary_gate (v_bd v) (v_routes v) env skb p
     (MkBFlow (p_src p) (p_dst p) net (net_of (v_networks v) net (p_dst p)) 0 0 0 0)).1 = true ->
  let_out k0 v skb p pol net.
Proof.
  intros H0 Hr Hn Hpol Hg. unfold let_out. set (peer := net_of _ _ _) in *.
  assert (bp_Revision pol <> 0) as Hrev.
  { intros E. unfold boundary_gate in Hg. cbn in Hg. by rewrite Hpol, E in Hg. }
  split; [done|]. destruct (decide (peer = net)) as [?|Hne]; [by left|right]. destruct (decide (peer = 0)) as [E0|Hp0].
  - left. split; [done|]. unfold boundary_gate in Hg. cbn in Hg. rewrite Hpol in Hg.
    destruct (Z.eqb_spec (bp_Revision pol) 0); [done|]. destruct (Z.eqb_spec net peer); [congruence|].
    destruct (boundary_l4 skb p) as [[[proto sport] dport]|]; [|done]. cbn in Hg. rewrite E0 in Hg. cbn in Hg.
    unfold to_internet in Hg. cbn in Hg. case_decide as Hc; [done|]. apply eq_None_not_Some in Hc. split; [done|].
    case_decide as Hv; [by left|right]. to_prop. done.
  - right. apply (gate_authorised k0) in Hg as (l & q & flow & El & Eq & _ & Hq & Hc & Hb); cbn; [|done..|left; eauto].
    cbn in El, Eq. assert (l = pol) as -> by congruence. eauto 10.
Qed.

End Authority.

(** ** Examples *)

(** VPC 100 may open port 80 of VPC 200, and 200 agrees. *)
Definition two_vpcs : BdKern := MkBdKern
  {[100 := MkBPolicy 3 11 0; 200 := MkBPolicy 5 22 0]}
  {[MkBRule 3 100 200 (htons 80) 6 0 := 1; MkBRule 5 200 100 (htons 80) 6 1 := 1]} ∅ ∅ ∅.

Definition client_ip : list Z := v4_to_128 [10; 0; 0; 1].
Definition server_ip : list Z := v4_to_128 [10; 0; 0; 2].
Definition syn_pkt : pkt := MkPkt false 6 client_ip server_ip.
Definition syn_key : overlayBoundaryFlow := MkBFlow client_ip server_ip 100 200 0 0 0 0.
Definition no_routes : RtState := MkRtState ∅ ∅ ∅ ∅ false.
Definition at_time (t : Z) : BdEnv := MkBdEnv t true true.

(** The server's SYN-ACK. *)
Definition syn_ack : sk_buff := MkSkb (
  [2; 0; 0; 0; 0; 1; 2; 0; 0; 0; 0; 2; 8; 0] ++
  [0x45; 0; 0; 40; 0; 0; 0x40; 0; 64; 6; 0; 0; 10; 0; 0; 2; 10; 0; 0; 1] ++
  [0; 80; 0x30; 0x39; 0; 0; 0; 9; 0; 0; 0; 2; 0x50; 0x12; 0xff; 0xff; 0x12; 0x34; 0; 0]) 54.
Definition syn_ack_pkt : pkt := MkPkt false 6 server_ip client_ip.
Definition syn_ack_key : overlayBoundaryFlow := MkBFlow server_ip client_ip 100 200 0 0 0 1.

Lemma syn_admitted : (boundary_gate two_vpcs no_routes (at_time 7) syn_1460 syn_pkt syn_key).1 = true.
Proof. vm_compute. reflexivity. Qed.

Lemma boundary_gate_authorised_witness : exists local peer flow,
  BoundaryPolicy two_vpcs !! 100 = Some local /\ BoundaryPolicy two_vpcs !! 200 = Some peer /\
  carried syn_1460 syn_pkt syn_key flow /\ belongs two_vpcs two_vpcs (versions local peer) flow.
Proof.
  destruct (boundary_gate_authorised two_vpcs two_vpcs no_routes (at_time 7) syn_1460 syn_pkt syn_key eq_refl (rtc_refl _ _)
    ltac:(discriminate) ltac:(discriminate) (or_introl (mk_is_Some _ _ eq_refl)) syn_admitted) as (l & q & flow & Hl & Hq & _ & _ & Hc & Hb).
  exists l, q, flow. exact (conj Hl (conj Hq (conj Hc Hb))).
Defined.

(** The kernel after the SYN, and the answer a second later. *)
Definition after_syn : BdKern := MkBdKern (BoundaryPolicy two_vpcs) (BoundaryRules two_vpcs) ∅ ∅
  (boundary_gate two_vpcs no_routes (at_time 7) syn_1460 syn_pkt syn_key).2.

Lemma boundary_reply_admitted_witness :
  (boundary_gate after_syn no_routes (at_time 1000000007) syn_ack syn_ack_pkt syn_ack_key).1 = true.
Proof.
  refine (boundary_reply_admitted two_vpcs no_routes (at_time 7) syn_1460 syn_pkt syn_key (6, 0x3930, htons 80)
    (MkBPolicy 3 11 0) (MkBPolicy 5 22 0) (MkBFlow server_ip client_ip 100 200 (htons 80) 0x3930 6 1)
    after_syn no_routes (at_time 1000000007) syn_ack syn_ack_pkt syn_ack_key (6, htons 80, 0x3930)
    eq_refl eq_refl _ _ _ eq_refl eq_refl syn_admitted eq_refl eq_refl eq_refl _ eq_refl _ _);
    [discriminate|discriminate|reflexivity|reflexivity|discriminate|split; reflexivity].
Defined.

(** The client's interface 5 on a node that knows both VPCs. *)
Definition client_node : PodView :=
  MkPodView two_vpcs no_routes
    (MkNatEnv (MkSgView (sg_kern vpc_view) {[MkLocalKey 100 client_ip := MkEndpoint 5 [2; 0; 0; 0; 0; 1] [7; 0; 0; 0]]})
       ∅ ∅ ∅ ∅ ∅ ∅ 0 4 1 true)
    {[5 := 100]} {[MkLpmKey (32 + 96 + 32) 100 server_ip := 200]} ∅ 0 ∅.

Lemma client_syn_continues : (cozyplane_from_pod client_node (at_time 7) true syn_1460 5).1 = V_CONTINUE.
Proof. vm_compute. reflexivity. Qed.

