(* ===== verification/BoundaryCompile.v ===== *)
(** * Compilation of boundaries (cmd/agent/boundary.go, pkg/boundaryidentity)

    The agent turns the boundary policies of all VPCs into rules between overlay networks, with
    an identity that changes with every change of the policy.  Together with [Boundary] and
    [BoundaryGate]: a new flow between two VPCs passes exactly when both operators declared
    it. *)
From S2P Require Import Prelude GoText GoNet Sha256 GoJson CidrOverlap AddrMap Grants KernelMap Lpm Packet SecurityGroups SgDatapath Nat Routes Boundary BoundaryGate.
Local Open Scope Z_scope.

(** ** Objects *)

(** [VPCBoundaryRule], api/sdn/v1alpha1/vpc_types.go:63-76. *)
Record VPCBoundaryRule := MkVPCBoundaryRule {
  PeerRef : VPCRef; Direction : string; br_Protocol : string;
  br_Ports : list Z; ICMPType : option Z; ICMPCode : option Z
}.

(** [VPCBoundary], api/sdn/v1alpha1/vpc_types.go:53-60. *)
Record VPCBoundary := MkVPCBoundary { vb_Revision : Z; vb_Internet : bool; vb_Peers : list VPCBoundaryRule }.

(** [VPC] with the fields the boundary reads; a slice is [None] when it is nil,
    api/sdn/v1alpha1/vpc_types.go:35-50. *)
Record VPC := MkVPC {
  vpc_Namespace : string; vpc_Name : string; vpc_UID : string;
  vpc_CIDRs : option (list string); vpc_Boundary : option VPCBoundary; vpc_VNI : Z
}.

(** [PortSpec] with the fields the boundary reads, api/sdn/v1alpha1/port_types.go:41-97. *)
Record PortObj := MkPortObj { port_VPCRef : VPCRef; port_IP : string; port_Primary : bool; port_Deleting : bool }.

Definition vpc_ref (v : VPC) : VPCRef := MkVPCRef (vpc_Namespace v) (vpc_Name v).
Definition cidrs_of (v : VPC) : list string := default [] (vpc_CIDRs v).

(** ** Identity *)

Definition opt_int (key : string) (v : option Z) : list (string * json) :=
  match v with None => [] | Some n => [(key, JInt n)] end.

Definition rule_json (r : VPCBoundaryRule) : json := JObj (
  [("peerRef", JObj [("namespace", JStr (refNamespace (PeerRef r))); ("name", JStr (refName (PeerRef r)))]);
   ("direction", JStr (Direction r)); ("protocol", JStr (br_Protocol r))] ++
  (match br_Ports r with [] => [] | ports => [("ports", JArr (JInt <$> ports))] end) ++
  opt_int "icmpType" (ICMPType r) ++ opt_int "icmpCode" (ICMPCode r)).

Definition boundary_json (b : VPCBoundary) : json := JObj (
  [("revision", JInt (vb_Revision b)); ("internet", JBool (vb_Internet b))] ++
  match vb_Peers b with [] => [] | peers => [("peers", JArr (rule_json <$> peers))] end).

(** [compileBoundaries], the identity of a policy, cmd/agent/boundary.go:51-60. *)
Definition policy_identity (v : VPC) (b : VPCBoundary) : Z :=
  let policyIdentity := marshal (JObj [
    ("UID", JStr (vpc_UID v));
    ("CIDRs", match vpc_CIDRs v with None => JNull | Some l => JArr (JStr <$> l) end);
    ("Policy", boundary_json b)]) in
  let id := be (reverse (take 8 (Sum256 policyIdentity))) in
  if id =? 0 then 1 else id.

(** ** Rules *)

(** [byRef], the realized VPCs with their position standing for the pointer,
    cmd/agent/boundary.go:30-41. *)
Definition byRef_of (vpcs : list VPC) : gmap VPCRef (nat * VPC) :=
  fold_left (fun m iv => if ValidVNI (vpc_VNI iv.2) then <[vpc_ref iv.2 := iv]> m else m) (imap pair vpcs) ∅.

(** [compileBoundaries], the VNI check and [known], cmd/agent/boundary.go:31-41. *)
Definition known_of (vpcs : list VPC) : result (list Z) :=
  foldM (fun known v =>
    if negb (vpc_VNI v =? 0) && negb (ValidVNI (vpc_VNI v)) then Err "invalid VPC VNI"
    else Ok (if ValidVNI (vpc_VNI v) then known ++ [VNI (vpc_VNI v)] else known)) [] vpcs.

(** [compileBoundaries], the protocol and ports of a rule, cmd/agent/boundary.go:85-116. *)
Definition compile_ports (peer : Z) (ingress : bool) (r : VPCBoundaryRule) : result (list BoundaryRule) :=
  if decide (br_Protocol r = "TCP" \/ br_Protocol r = "UDP") then
    if bool_decide (br_Ports r = []) || (32 <? Z.of_nat (length (br_Ports r))) ||
       bool_decide (is_Some (ICMPType r)) || bool_decide (is_Some (ICMPCode r))
    then Err "invalid boundary ports"
    else
      let proto := if decide (br_Protocol r = "UDP") then 17 else 6 in
      foldM (fun rules p =>
        if (p <? 1) || (65535 <? p) then Err "invalid boundary port"
        else Ok (rules ++ [MkBoundaryRule peer ingress proto (u16 p)])) [] (br_Ports r)
  else if decide (br_Protocol r = "ICMP") then
    match br_Ports r, ICMPType r, ICMPCode r with
    | [], Some t, Some c =>
        if (t <? 0) || (255 <? t) || (c <? 0) || (255 <? c) then Err "invalid boundary ICMP"
        else
          let port := Z.lor (u16 (Z.shiftl (u16 t) 8)) (u16 c) in
          Ok [MkBoundaryRule peer ingress 1 port; MkBoundaryRule peer ingress 58 port]
    | _, _, _ => Err "invalid boundary ICMP"
    end
  else Err "unsupported boundary protocol".

(** [compileBoundaries], one rule of the VPC at position [i], cmd/agent/boundary.go:69-117. *)
Definition compile_peer (byRef : gmap VPCRef (nat * VPC)) (i : nat) (v : VPC) (r : VPCBoundaryRule) : result (list BoundaryRule) :=
  match byRef !! PeerRef r with
  | None => Err "boundary peer not realized"
  | Some (j, peer) =>
      if negb (ValidVNI (vpc_VNI peer)) then Err "boundary peer not realized"
      else if bool_decide (i = j) || CIDRsOverlap (cidrs_of v) (cidrs_of peer) then Err "invalid boundary peer address space"
      else if negb (bool_decide (Direction r = "ingress")) && negb (bool_decide (Direction r = "egress"))
      then Err "invalid boundary direction"
      else compile_ports (VNI (vpc_VNI peer)) (bool_decide (Direction r = "ingress")) r
  end.

(** [compileBoundaries], one VPC with a boundary, cmd/agent/boundary.go:48-118. *)
Definition compile_vpc (byRef : gmap VPCRef (nat * VPC)) (i : nat) (v : VPC) (vb : VPCBoundary) : result Boundary :=
  if vb_Revision vb <? 1 then Err "invalid boundary revision"
  else
    cidrs ← foldM (fun out c =>
      match ParseCIDR c with None => Err "invalid VPC CIDR" | Some (_, n) => Ok (out ++ [Some n]) end) [] (cidrs_of v);
    rules ← foldM (fun out r => rs ← compile_peer byRef i v r; mret (out ++ rs)) [] (vb_Peers vb);
    mret (MkBoundary (VNI (vpc_VNI v)) (u64 (vb_Revision vb)) (policy_identity v vb) (vb_Internet vb) rules cidrs).

(** [compileBoundaries], the primary ports, cmd/agent/boundary.go:120-135. *)
Definition compile_primary (byRef : gmap VPCRef (nat * VPC)) (ports : list PortObj) : result (list PrimaryPort) :=
  foldM (fun prim p =>
    match byRef !! port_VPCRef p with
    | None => Ok prim
    | Some (_, v) =>
        if negb (port_Primary p) || port_Deleting p then Ok prim
        else if negb (ValidVNI (vpc_VNI v)) then Err "primary VPC not realized"
        else match ParseIP (port_IP p) with
             | [] => Err "invalid primary Port address"
             | ip => Ok (prim ++ [MkPrimaryPort (VNI (vpc_VNI v)) ip])
             end
    end) [] ports.

(** [compileBoundaries], cmd/agent/boundary.go:29-137. *)
Definition compileBoundaries (vpcs : list VPC) (ports : list PortObj) : result (list Boundary * list Z * list PrimaryPort) :=
  known ← known_of vpcs;
  let byRef := byRef_of vpcs in
  out ← foldM (fun out iv =>
    match vpc_Boundary iv.2 with
    | None => Ok out
    | Some vb =>
        if negb (ValidVNI (vpc_VNI iv.2)) then Ok out
        else b ← compile_vpc byRef iv.1 iv.2 vb; mret (out ++ [b])
    end) [] (imap pair vpcs);
  prim ← compile_primary byRef ports;
  mret (out, known, prim).

(** ** What the rules say *)

(** [r] admits the protocol and port; ICMP has its type and code in the port. *)
Definition rule_says (r : VPCBoundaryRule) (proto port : Z) : Prop :=
  (br_Protocol r = "TCP" /\ proto = 6 /\ port ∈ br_Ports r) \/
  (br_Protocol r = "UDP" /\ proto = 17 /\ port ∈ br_Ports r) \/
  (br_Protocol r = "ICMP" /\ (proto = 1 \/ proto = 58) /\
     exists t c, ICMPType r = Some t /\ ICMPCode r = Some c /\ port = t * 256 + c).

Lemma compile_ports_spec peer ingress r rs : compile_ports peer ingress r = Ok rs ->
  forall x, x ∈ rs <-> 0 <= r_Port x < 65536 /\ r_Peer x = peer /\ r_Ingress x = ingress /\ rule_says r (r_Protocol x) (r_Port x).
Proof.
  unfold compile_ports, rule_says. case_decide as Hp.
  - case_if; [done|]. to_prop. set (proto := if decide _ then _ else _).
    intros Hf. assert (rs = MkBoundaryRule peer ingress proto <$> br_Ports r /\ Forall (fun p => 0 <= p < 65536) (br_Ports r)) as [-> Hrange].
    { refine (foldM_invariant _ (fun pre rs => rs = MkBoundaryRule peer ingress proto <$> pre /\ Forall (fun p => 0 <= p < 65536) pre)
        [] _ _ (conj eq_refl (Forall_nil_2 _)) _ Hf).
      intros pre p post a a' _ [-> Hr]. case_if; [done|]. intros [= <-]. to_prop. rewrite fmap_app. cbn.
      unfold u16. rewrite (Z.mod_small p) by lia. split; [done|]. apply Forall_app. split; [done|]. constructor; [lia|done]. }
    intros [xp xi xr xq]. rewrite list_elem_of_fmap. cbn. split.
    + intros (q & [= -> -> -> ->] & Hq). split; [by eapply Forall_forall in Hrange|]. split; [done|]. split; [done|]. unfold proto.
      destruct Hp as [-> | ->]; cbn; [left|right; left]; done.
    + intros (_ & -> & -> & Hs). exists xq. unfold proto. destruct Hp as [Hp|Hp]; rewrite Hp in *; cbn;
        destruct Hs as [(? & -> & ?)|[(? & -> & ?)|(? & _)]]; done.
  - case_decide as Hi; [|done]. destruct (br_Ports r) eqn:Eports; [|done].
    destruct (ICMPType r) as [t|]; [|done]. destruct (ICMPCode r) as [c|]; [|done]. case_if; [done|]. intros [= <-]. to_prop.
    assert (Z.lor (u16 (Z.shiftl (u16 t) 8)) (u16 c) = t * 256 + c) as ->.
    { unfold u16. rewrite (Z.mod_small t), (Z.mod_small c), Z.shiftl_mul_pow2 by lia.
      rewrite Z.mod_small by lia. rewrite lor_add by lia. done. }
    intros [xp xi xr xq]. rewrite !elem_of_cons, elem_of_nil. cbn. split.
    + intros [[= -> -> -> ->]|[[= -> -> -> ->]|[]]]; (split; [lia|]; split; [done|]; split; [done|]); right; right; eauto 10.
    + intros (_ & -> & -> & [(E & _)|[(E & _)|(_ & Hpr & t' & c' & [= <-] & [= <-] & ->)]]); [congruence..|].
      destruct Hpr as [-> | ->]; auto.
Qed.

Section Compiled.
Context (vpcs : list VPC).

Lemma byRef_spec ref j q : byRef_of vpcs !! ref = Some (j, q) -> vpcs !! j = Some q /\ vpc_ref q = ref /\ ValidVNI (vpc_VNI q) = true.
Proof.
  unfold byRef_of. assert (forall iv, iv ∈ imap pair vpcs -> vpcs !! iv.1 = Some iv.2) as Hin.
  { intros [i v] Hi. apply elem_of_lookup_imap in Hi as (i' & v' & [= -> ->] & Hi). done. }
  assert (forall l m, (forall iv, iv ∈ l -> vpcs !! iv.1 = Some iv.2) ->
    (forall ref j q, m !! ref = Some (j, q) -> vpcs !! j = Some q /\ vpc_ref q = ref /\ ValidVNI (vpc_VNI q) = true) ->
    forall ref j q, fold_left (fun (m : gmap VPCRef (nat * VPC)) iv => if ValidVNI (vpc_VNI iv.2) then <[vpc_ref iv.2 := iv]> m else m) l m !! ref = Some (j, q) ->
      vpcs !! j = Some q /\ vpc_ref q = ref /\ ValidVNI (vpc_VNI q) = true) as Hfold.
  { induction l as [|[i v] l IH]; intros m Hl Hm; [done|]. cbn. apply IH; [intros iv Hiv; apply Hl; by right|].
    intros ref' j' q'. case_if; [|apply Hm]. destruct (decide (ref' = vpc_ref v)) as [->|Hne].
    - rewrite lookup_insert_eq. intros [= <- <-]. split; [apply (Hl (i, v)); left|done].
    - rewrite lookup_insert_ne by done. apply Hm. }
  apply Hfold; [done|]. intros ? ? ?. by rewrite lookup_empty.
Qed.

(** VPC [v] declares initiations in a direction, with a realized peer at VNI [peer]. *)
Definition declares (v : VPC) (peer : Z) (ingress : bool) (proto port : Z) : Prop :=
  exists vb r j q, vpc_Boundary v = Some vb /\ r ∈ vb_Peers vb /\ byRef_of vpcs !! PeerRef r = Some (j, q) /\ vpc_VNI q = peer /\
    Direction r = (if ingress then "ingress" else "egress") /\ rule_says r proto port.

Lemma VNI_valid v : ValidVNI v = true -> VNI v = v /\ 0 < v < 2 ^ 22.
Proof.
  assert (LastVNI = 2 ^ 22 - 1) as EL by done. unfold ValidVNI, VNI, FirstVNI, u32. rewrite EL. intros E. to_prop.
  destruct (Z.ltb_spec v 100); [lia|]. destruct (Z.ltb_spec (2 ^ 22 - 1) v); [lia|]. cbn [orb]. rewrite Z.mod_small; lia.
Qed.

Lemma compile_peer_spec i v r rs : compile_peer (byRef_of vpcs) i v r = Ok rs ->
  exists j q, byRef_of vpcs !! PeerRef r = Some (j, q) /\ forall x, x ∈ rs <->
    0 <= r_Port x < 65536 /\ r_Peer x = vpc_VNI q /\ Direction r = (if r_Ingress x then "ingress" else "egress") /\
    rule_says r (r_Protocol x) (r_Port x).
Proof.
  unfold compile_peer. destruct (byRef_of vpcs !! PeerRef r) as [[j q]|] eqn:E; [|done].
  destruct (byRef_spec _ _ _ E) as (_ & _ & Hv). rewrite Hv. cbn [negb]. destruct (VNI_valid _ Hv) as [-> _].
  case_if; [done|]. case_if; [done|]. intros Hc. exists j, q. split; [done|]. intros x.
  rewrite (compile_ports_spec _ _ _ _ Hc). split; intros (Hp & -> & Hd & Hs); (split; [done|]; split; [done|]; split; [|done]).
  - rewrite Hd. case_bool_decide; [done|]. apply andb_false_iff in E1 as [E1|E1]; to_prop; congruence.
  - destruct (r_Ingress x); rewrite Hd; done.
Qed.

Lemma compile_vpc_spec i v vb b : vpc_Boundary v = Some vb -> ValidVNI (vpc_VNI v) = true ->
  compile_vpc (byRef_of vpcs) i v vb = Ok b ->
  b_Net b = vpc_VNI v /\ b_Revision b = u64 (vb_Revision vb) /\ b_Internet b = vb_Internet vb /\ b_Identity b = policy_identity v vb /\
  forall x, x ∈ b_Rules b <-> 0 <= r_Port x < 65536 /\ declares v (r_Peer x) (r_Ingress x) (r_Protocol x) (r_Port x).
Proof.
  intros Hb Hv. unfold compile_vpc. case_if; [done|]. rewrite bind_ok. intros (cs & _ & Hc). apply bind_ok in Hc as (rs & Hf & [= <-]). cbn.
  destruct (VNI_valid _ Hv) as [-> _]. repeat (split; [done|]).
  set (sound := fun (pre : list VPCBoundaryRule) (rs : list BoundaryRule) => forall x, x ∈ rs <-> exists r j q, r ∈ pre /\ byRef_of vpcs !! PeerRef r = Some (j, q) /\
    0 <= r_Port x < 65536 /\ r_Peer x = vpc_VNI q /\ Direction r = (if r_Ingress x then "ingress" else "egress") /\
    rule_says r (r_Protocol x) (r_Port x)).
  assert (sound (vb_Peers vb) rs) as Hrs.
  { refine (foldM_invariant _ sound [] _ _ _ _ Hf); unfold sound.
    - intros x. split; [by intros ?%not_elem_of_nil|]. by intros (r & _ & _ & ?%not_elem_of_nil & _).
    - intros pre r post acc acc' _ IH (rs' & Hr & [= <-])%bind_ok. destruct (compile_peer_spec _ _ _ _ Hr) as (j & q & Hq & Hrs).
      intros x. rewrite elem_of_app, IH, Hrs. setoid_rewrite elem_of_app. setoid_rewrite list_elem_of_singleton. split.
      + intros [(r' & j' & q' & ? & ?)|?]; [exists r', j', q'; auto|exists r, j, q; auto].
      + intros (r' & j' & q' & [?| ->] & Hq' & ?); [left; eauto 10|right]. assert (q' = q) as -> by congruence. done. }
  intros x. rewrite (Hrs x). unfold declares. split.
  - intros (r & j & q & ? & ? & ? & -> & ?). split; [done|]. exists vb, r, j, q. auto 10.
  - intros (? & vb' & r & j & q & Hb' & ? & ? & <- & ?). assert (vb' = vb) as -> by congruence. exists r, j, q. auto.
Qed.

Lemma compileBoundaries_out ports out known prim : compileBoundaries vpcs ports = Ok (out, known, prim) ->
  (forall b, b ∈ out -> exists i v vb, vpcs !! i = Some v /\ vpc_Boundary v = Some vb /\ ValidVNI (vpc_VNI v) = true /\
    compile_vpc (byRef_of vpcs) i v vb = Ok b) /\
  (forall i v vb, vpcs !! i = Some v -> vpc_Boundary v = Some vb -> ValidVNI (vpc_VNI v) = true ->
    exists b, b ∈ out /\ compile_vpc (byRef_of vpcs) i v vb = Ok b).
Proof.
  intros (kn & _ & (out' & Hf & (pr & _ & [= <- <- <-])%bind_ok)%bind_ok)%bind_ok.
  set (sound := fun (pre : list (nat * VPC)) (out : list Boundary) =>
    (forall b, b ∈ out -> exists i v vb, (i, v) ∈ pre /\
      vpc_Boundary v = Some vb /\ ValidVNI (vpc_VNI v) = true /\ compile_vpc (byRef_of vpcs) i v vb = Ok b) /\
    (forall i v vb, (i, v) ∈ pre -> vpc_Boundary v = Some vb -> ValidVNI (vpc_VNI v) = true ->
      exists b, b ∈ out /\ compile_vpc (byRef_of vpcs) i v vb = Ok b)).
  assert (sound (imap pair vpcs) out') as [Hs1 Hs2].
  { refine (foldM_invariant _ sound [] _ _ _ _ Hf); unfold sound.
    - split; [by intros b ?%not_elem_of_nil|]. by intros i v vb ?%not_elem_of_nil.
    - intros pre [i v] post acc acc' _ [IH1 IH2]. cbn. setoid_rewrite elem_of_app. setoid_rewrite list_elem_of_singleton.
      destruct (vpc_Boundary v) as [vb|] eqn:Eb; [destruct (ValidVNI (vpc_VNI v)) eqn:Ev; cbn|].
      + intros (b0 & Hb0 & [= <-])%bind_ok. setoid_rewrite elem_of_app. setoid_rewrite list_elem_of_singleton. split.
        * intros b [Hb| ->]; [destruct (IH1 b Hb) as (i' & v' & vb' & ? & ?); exists i', v', vb'; auto|exists i, v, vb; auto].
        * intros i' v' vb' [Hin|[= -> ->]] Hvb Hv; [destruct (IH2 i' v' vb' Hin Hvb Hv) as (b & ? & ?); eauto|].
          exists b0. assert (vb' = vb) as -> by congruence. auto.
      + intros [= <-]. split; [intros b Hb; destruct (IH1 b Hb) as (i' & v' & vb' & ? & ?); exists i', v', vb'; auto|].
        intros i' v' vb' [Hin|[= -> ->]] Hvb Hv; [eauto|congruence].
      + intros [= <-]. split; [intros b Hb; destruct (IH1 b Hb) as (i' & v' & vb' & ? & ?); exists i', v', vb'; auto|].
        intros i' v' vb' [Hin|[= -> ->]] Hvb Hv; [eauto|congruence]. }
  split.
  - intros b Hb. destruct (Hs1 b Hb) as (i & v & vb & Hi & ?). exists i, v, vb. split; [|done].
    by apply elem_of_lookup_imap in Hi as (? & ? & [= -> ->] & ?).
  - intros i v vb Hi. apply Hs2. apply elem_of_lookup_imap. eauto.
Qed.

(** The policy and the rules of a managed VPC, after a pass over what was compiled. *)
Lemma rules_declared ports desired known prim s0 k v vb :
  compileBoundaries vpcs ports = Ok (desired, known, prim) -> pass_done desired known prim s0 k ->
  v ∈ vpcs -> vpc_Boundary v = Some vb -> ValidVNI (vpc_VNI v) = true ->
  exists pol, BoundaryPolicy k !! vpc_VNI v = Some pol /\ bp_Revision pol <> 0 /\
    forall peer dir proto port, dir = 0 \/ dir = 1 -> 0 <= port < 65536 ->
      is_Some (BoundaryRules k !! MkBRule (bp_Revision pol) (vpc_VNI v) peer (htons port) proto dir) <->
      declares v peer (dir =? 1) proto port.
Proof.
  intros Hc (d & Hd & _ & Hrules & _ & _ & Hpol) Hin Hvb Hv.
  destruct (desired_maps_spec _ _ _ Hd) as (Dp & Dr & Du). destruct (compileBoundaries_out _ _ _ _ Hc) as [_ Hall].
  apply list_elem_of_lookup in Hin as [i Hi]. destruct (Hall i v vb Hi Hvb Hv) as (b & Hb & Hcb).
  destruct (compile_vpc_spec _ _ _ _ Hvb Hv Hcb) as (En & _ & _ & _ & Hr).
  specialize (Dp (vpc_VNI v)). specialize (Hpol (vpc_VNI v)). destruct (policies d !! vpc_VNI v) as [pol|]; [|by destruct (Dp b)].
  destruct Dp as (b' & Hb' & En' & Hrev & ->). assert (b' = b) as -> by (apply Du; congruence).
  exists (policy_of b). split; [done|]. split; [done|]. intros peer dir proto port Hdir Hport.
  rewrite Hrules, Dr. split.
  - intros (b1 & r & Hb1 & Hr1 & [= Erev Enet -> Eport -> Ed]). assert (b1 = b) as -> by (apply Du; congruence).
    apply Hr in Hr1 as [Hrange Hr1]. apply htons_inj in Eport as ->; [|done..]. destruct (r_Ingress r); rewrite Ed; done.
  - intros Hdecl. exists b, (MkBoundaryRule peer (dir =? 1) proto port). split; [done|]. split; [by apply Hr|].
    unfold rule_key. cbn. rewrite En. destruct Hdir as [-> | ->]; done.
Qed.

(** C7. Consent is exact from the API to the packet: after a boundary pass over the compiled
    policies, a packet that would start a flow between two managed VPCs is admitted exactly when
    it may start one and the policy of each VPC declares the protocol and port (or the ICMP type
    and code) with the other as its peer, as egress on the initiating side and as ingress on the
    other, whichever side checks. *)
Theorem consent_exact ports desired known prim s0 k routes env skb p key proto sport port u ub v vb :
  compileBoundaries vpcs ports = Ok (desired, known, prim) -> pass_done desired known prim s0 k ->
  u ∈ vpcs -> vpc_Boundary u = Some ub -> ValidVNI (vpc_VNI u) = true -> bf_Local key = vpc_VNI u ->
  v ∈ vpcs -> vpc_Boundary v = Some vb -> ValidVNI (vpc_VNI v) = true -> bf_Peer key = vpc_VNI v ->
  vpc_VNI u <> vpc_VNI v -> bf_Hook key = 0 \/ bf_Hook key = 1 ->
  boundary_l4 skb p = Some (proto, sport, htons port) -> 0 <= port < 65536 ->
  icmp_error (is_v6 p) proto (htons port) = None ->
  BoundaryCt k !! with_l4 key (proto, sport, htons port) = None ->
  put_ok env = true -> put_reply_ok env = true ->
  (boundary_gate k routes env skb p key).1 = true <->
  may_start skb p = true /\
  declares u (vpc_VNI v) (bf_Hook key =? 1) proto port /\ declares v (vpc_VNI u) (bf_Hook key =? 0) proto port.
Proof.
  intros Hc Hk Hu Hub Hvu El Hv Hvb Hvv Ep Hne Hhook Hl4 Hport Herr Hct Hput Hput'.
  destruct (rules_declared _ _ _ _ _ _ u ub Hc Hk Hu Hub Hvu) as (lp & Hlp & Hlr & Hl).
  destruct (rules_declared _ _ _ _ _ _ v vb Hc Hk Hv Hvb Hvv) as (pp & Hpp & Hpr & Hp).
  destruct (VNI_valid _ Hvv) as [_ Hv0].
  rewrite (gate_between _ _ _ _ _ _ (proto, sport, htons port) lp pp) by (rewrite ?El, ?Ep; (done || lia)).
  specialize (Hl (vpc_VNI v) (bf_Hook key) proto port Hhook Hport).
  assert (other_hook (bf_Hook key) = 0 \/ other_hook (bf_Hook key) = 1) as Hoh by (unfold other_hook; case_if; auto).
  specialize (Hp (vpc_VNI u) (other_hook (bf_Hook key)) proto port Hoh Hport).
  replace (other_hook (bf_Hook key) =? 1) with (bf_Hook key =? 0) in Hp by (unfold other_hook; by destruct (bf_Hook key =? 0)).
  unfold between_vpcs. rewrite related_none by (cbn; rewrite Herr; by destruct (_ || _)).
  unfold flow_live. rewrite Hct. unfold start_flow, rule_local, rule_peer. cbn. rewrite El, Ep, Hput. cbn [negb].
  rewrite <-Hl, <-Hp. destruct (may_start skb p); cbn; [|split; [done|by intros [? _]]].
  case_decide as D1; [rewrite D1; split; [done|by intros (_ & [? ?] & _)]|].
  case_decide as D2; [rewrite D2; split; [done|by intros (_ & _ & [? ?])]|].
  apply not_eq_None_Some in D1, D2. rewrite Hput'. split; [done|]. intros _. by destruct (reply_flow _).
Qed.
End Compiled.

(** ** Digest of the primary ports *)

(** [PrimaryPort], pkg/boundaryidentity/primary.go:11-11. *)
Record PrimaryId := MkPrimaryId { pi_UID : string; pi_IP : string }.

(** [Digest], the order of [slices.SortFunc], pkg/boundaryidentity/primary.go:17-31. *)
Definition primary_le (a b : PrimaryId) : Prop :=
  (pi_UID a <> pi_UID b /\ String.le (pi_UID a) (pi_UID b)) \/ (pi_UID a = pi_UID b /\ String.le (pi_IP a) (pi_IP b)).

#[export] Instance primary_le_dec a b : Decision (primary_le a b).
Proof. unfold primary_le. apply _. Defined.

(** [Digest], pkg/boundaryidentity/primary.go:17-31. *)
Definition Digest (ports : list PrimaryId) : string :=
  let ordered := merge_sort primary_le ports in
  let raw := marshal (JArr ((fun p => JObj [("UID", JStr (pi_UID p)); ("IP", JStr (pi_IP p))]) <$> ordered)) in
  hex_encode (Sum256 raw).

#[export] Instance primary_le_total : Total primary_le.
Proof.
  intros [u i] [u' i']. unfold primary_le. cbn. destruct (decide (u = u')) as [->|].
  - destruct (total String.le i i'); auto.
  - destruct (total String.le u u'); auto.
Qed.
#[export] Instance primary_le_trans : Transitive primary_le.
Proof.
  intros [u i] [v j] [w k]. unfold primary_le. cbn. intros [[Hn Hl]|[-> Hl]] [[Hn' Hl']|[-> Hl']]; [|by auto..|right; split; [done|by etrans]].
  left. split; [|by etrans]. intros ->. apply Hn. by apply (anti_symm String.le).
Qed.
#[export] Instance primary_le_antisymm : AntiSymm (=) primary_le.
Proof.
  intros [u i] [v j]. unfold primary_le. cbn. intros [[Hn Hl]|[-> Hl]] [[Hn' Hl']|[E Hl']]; [|congruence..|].
  - destruct Hn. by apply (anti_symm String.le).
  - f_equal. by apply (anti_symm String.le).
Qed.

(** The digest an agent acknowledges does not depend on the order of its informer's list. *)
Theorem Digest_order ports ports' : ports ≡ₚ ports' -> Digest ports = Digest ports'.
Proof.
  intros Hp. unfold Digest. do 5 f_equal. apply (StronglySorted_unique primary_le).
  - apply StronglySorted_merge_sort; apply _.
  - apply StronglySorted_merge_sort; apply _.
  - by rewrite !merge_sort_Permutation.
Qed.

(** ** Examples *)

Definition web_ref : VPCRef := MkVPCRef "team" "web".
Definition db_ref : VPCRef := MkVPCRef "infra" "db".
Definition web_vpc (revision : Z) : VPC := MkVPC "team" "web" "uid-1" (Some ["10.0.0.0/24"])
  (Some (MkVPCBoundary revision false [MkVPCBoundaryRule db_ref "egress" "TCP" [80] None None])) 100.
Definition db_vpc : VPC := MkVPC "infra" "db" "uid-2" (Some ["10.1.0.0/24"])
  (Some (MkVPCBoundary 1 false [MkVPCBoundaryRule web_ref "ingress" "TCP" [80; 443] None None])) 200.

(** The compilation of the two, and the maps a pass leaves. *)
Definition compiled_pair (revision : Z) : list Boundary * list Z * list PrimaryPort :=
  ok_or ([], [], []) (compileBoundaries [web_vpc revision; db_vpc] []).
Definition small_bd_caps : BdCaps := MkBdCaps 8 16 4 8.
Definition empty_bd : BdKern := MkBdKern ∅ ∅ ∅ ∅ ∅.
Definition sync_pair (R : Runtime) (revision : Z) (k : BdKern) : world BdKern * result unit :=
  let '(desired, known, prim) := compiled_pair revision in
  SyncBoundaries (H := R) small_bd_caps desired known prim (MkWorld 0 k []).
Definition paired : BdKern := kern (sync_pair quiet_runtime 1 empty_bd).1.

Lemma pair_compiles revision : is_ok (compileBoundaries [web_vpc revision; db_vpc] []) = true ->
  compileBoundaries [web_vpc revision; db_vpc] [] = Ok (compiled_pair revision).
Proof. unfold compiled_pair. by destruct (compileBoundaries _ _). Qed.

Lemma pair_ok : compileBoundaries [web_vpc 1; db_vpc] [] = Ok (compiled_pair 1).
Proof. apply pair_compiles. vm_compute. reflexivity. Qed.

Lemma pair_done : pass_done (compiled_pair 1).1.1 (compiled_pair 1).1.2 (compiled_pair 1).2 empty_bd paired.
Proof.
  assert ((sync_pair quiet_runtime 1 empty_bd).2 = Ok tt) as Hok by (vm_compute; reflexivity).
  revert Hok. unfold paired, sync_pair. destruct (compiled_pair 1) as [[desired known] prim].
  destruct (wp_SyncBoundaries (H := quiet_runtime) small_bd_caps desired known prim empty_bd (MkWorld 0 empty_bd []) eq_refl) as [[_ Hd] _].
  exact Hd.
Qed.

Lemma paired_fresh : BoundaryCt paired !! with_l4 syn_key (6, 0x3930, htons 80) = None.
Proof. vm_compute. reflexivity. Qed.

Lemma consent_exact_witness :
  (boundary_gate paired no_routes (at_time 7) syn_1460 syn_pkt syn_key).1 = true <->
  may_start syn_1460 syn_pkt = true /\
  declares [web_vpc 1; db_vpc] (web_vpc 1) 200 false 6 80 /\ declares [web_vpc 1; db_vpc] db_vpc 100 true 6 80.
Proof.
  pose proof pair_ok as Hc. pose proof pair_done as Hd. destruct (compiled_pair 1) as [[desired known] prim].
  exact (consent_exact [web_vpc 1; db_vpc] [] desired known prim empty_bd paired no_routes (at_time 7) syn_1460 syn_pkt syn_key
    6 0x3930 80 (web_vpc 1) _ db_vpc _ Hc Hd (list_elem_of_here _ _) eq_refl eq_refl eq_refl
    (list_elem_of_further _ _ _ (list_elem_of_here _ _)) eq_refl eq_refl eq_refl ltac:(discriminate) (or_introl eq_refl) eq_refl
    ltac:(lia) eq_refl paired_fresh eq_refl eq_refl).
Defined.

(** A changed policy has a new identity, so a pass closes the VPC before it stages the new
    version: when staging then fails, the VPC is closed and no longer under its old policy. *)
Lemma changed_policy_closed_on_failure :
  let '(w, r) := sync_pair (faulty_runtime 7) 2 paired in
  is_ok r = false /\ bp_Revision <$> BoundaryPolicy paired !! 100 = Some 1 /\ bp_Revision <$> BoundaryPolicy (kern w) !! 100 = Some 0.
Proof. vm_compute. repeat split. Qed.
