(* ===== verification/Networks.v ===== *)
(** * Scoped networks and peerings (datapath/networks.go, datapath/peers.go,
      cmd/agent/own_networks.go, cmd/agent/boundary.go, cmd/agent/main.go)

    The [networks] map resolves an address, as seen from a network, to the network that owns
    it.  One writer keeps a VPC's own CIDRs in it, another the CIDRs of its peers; each
    replaces only its own rows.  The [peers] map says which networks may talk.  The peer rows
    come from the live peerings: pairs of halves that name each other. *)
From S2P Require Import Prelude GoText GoNet CidrOverlap AddrMap Grants KernelMap Lpm Packet SecurityGroups SgDatapath Verdict SgIdentity Routes BoundaryGate.
Local Open Scope Z_scope.

(** ** The maps *)

(** [PeerNet], datapath/datapath.go:419-423. *)
Record PeerNet := MkPeerNet { pn_Scope : Z; pn_CIDR : string; pn_Net : Z }.

(** The two maps; the key of [peers] is the source and the destination network. *)
Record NtKern := MkNt { Networks : gmap overlayLpmKey Z; PeerPairs : gmap (Z * Z) Z }.

Definition L_networks : Lens NtKern (gmap overlayLpmKey Z) := MkLens Networks (fun m s => MkNt m (PeerPairs s)).
Definition L_peers : Lens NtKern (gmap (Z * Z) Z) := MkLens PeerPairs (fun m s => MkNt (Networks s) m).

#[export] Instance L_networks_laws : LensLaws L_networks.
Proof. split; [done|by intros []|done]. Qed.
#[export] Instance L_peers_laws : LensLaws L_peers.
Proof. split; [done|by intros []|done]. Qed.

Section Sync.
Context `{Runtime} (cap_networks cap_peers : nat).

(** Whether a row belongs to the own partition. *)
Definition own_row (scope net : Z) : bool := scope =? net.

(** The rows of a partition: the entry [(key, value)] is the writer's. *)
Definition mine (own : bool) (e : overlayLpmKey * Z) : Prop := own_row (lk_ScopeNet e.1) e.2 = own.

#[local] Instance mine_dec own e : Decision (mine own e).
Proof. unfold mine. apply _. Defined.

(** [syncNetworkPartition], the desired rows, datapath/networks.go:10-33. *)
Definition network_want (desired : list PeerNet) (own : bool) : result (gmap overlayLpmKey Z) :=
  if 65536 <? Z.of_nat (length desired) then Err "network snapshot exceeds input work budget"
  else foldM (fun want entry =>
    if negb (Bool.eqb (own_row (pn_Scope entry) (pn_Net entry)) own) then Err "network entry belongs to the other partition"
    else if 64 <? Z.of_nat (String.length (pn_CIDR entry)) then Err "network CIDR exceeds text budget"
    else match lpmKey (pn_Scope entry) (pn_CIDR entry) with
         | Err _ => Err "invalid network CIDR"
         | Ok key =>
             match want !! key with
             | Some value =>
                 if negb (value =? pn_Net entry) then Err "conflicting scoped network destinations"
                 else putDesired cap_networks want key (pn_Net entry)
             | None => putDesired cap_networks want key (pn_Net entry)
             end
         end) ∅ desired.

(** [syncNetworkPartition], datapath/networks.go:7-69. *)
Definition syncNetworkPartition (desired : list PeerNet) (own : bool) : M NtKern unit :=
  want ← lift (network_want desired own);
  entries ← Iterate L_networks;
  let retained := filter (fun e => ~ mine own e) entries in
  if existsb (fun e => bool_decide (is_Some (want !! e.1))) retained
  then fail "network entry collides with the other partition"
  else if decide (cap_networks < size want + length retained)%nat
  then fail "network partitions exceed shared map capacity"
  else
    let stale := (filter (fun e => mine own e /\ want !! e.1 = None) entries).*1 in
    let unchanged := (filter (fun e => mine own e /\ want !! e.1 = Some e.2) entries).*1 in
    _ ← forM (DeleteIfExists L_networks) stale;
    puts ← arrange (filter (fun e => e.1 ∉ unchanged) want);
    forM (fun '(key, value) => Put L_networks cap_networks key value) puts.

(** [SyncPeerNetworks], datapath/datapath.go:426-428. *)
Definition SyncPeerNetworks (desired : list PeerNet) : M NtKern unit := syncNetworkPartition desired false.

(** [SyncOwnNetworks], datapath/datapath.go:431-433. *)
Definition SyncOwnNetworks (desired : list PeerNet) : M NtKern unit := syncNetworkPartition desired true.

(** [SetNetwork], datapath/datapath.go:393-401. *)
Definition SetNetwork (scope : Z) (cidr : string) (id : Z) : M NtKern unit :=
  key ← lift (lpmKey scope cidr);
  Put L_networks cap_networks key id.

(** [DelNetwork], datapath/datapath.go:404-415. *)
Definition DelNetwork (scope : Z) (cidr : string) : M NtKern unit :=
  key ← lift (lpmKey scope cidr);
  DeleteIfExists L_networks key.

(** [SetPeer], datapath/peers.go:21-26. *)
Definition SetPeer (a b : Z) : M NtKern unit :=
  _ ← Put L_peers cap_peers (a, b) 1;
  Put L_peers cap_peers (b, a) 1.

(** [DelPeer], datapath/peers.go:29-39. *)
Definition DelPeer (a b : Z) : M NtKern unit :=
  err1 ← attempt (DeleteIfExists L_peers (a, b));
  err2 ← attempt (DeleteIfExists L_peers (b, a));
  _ ← lift err1;
  lift err2.

Definition normalize (p : Z * Z) : Z * Z := let '(a, b) := p in if b <? a then (b, a) else (a, b).

(** [Peers], datapath/peers.go:44-57. *)
Definition Peers : M NtKern (gmap (Z * Z) bool) :=
  entries ← Iterate L_peers;
  mret (fold_left (fun out e => <[normalize e.1 := true]> out) entries ∅).
End Sync.

(** Whether a pair is in a set [map[[2]uint32]bool]. *)
Definition is_set (m : gmap (Z * Z) bool) (p : Z * Z) : bool := default false (m !! p).

(** ** The live peerings *)

(** [VPC] with the fields the peerings and the own rows read, api/sdn/v1alpha1/vpc_types.go:35-50. *)
Record NetVPC := MkNetVPC { nv_Deleting : bool; nv_VNI : Z; nv_CIDRs : list string }.

(** [VPCPeering]; [pr_Ptr] is the address of the object, which the code compares,
    api/sdn/v1alpha1/vpcpeering_types.go:99-106. *)
Record VPCPeering := MkVPCPeering {
  pr_Ptr : nat; pr_Namespace : string; pr_VPCName : string; pr_PeerRef : VPCRef; pr_Deleting : bool
}.

(** [VPCPeering.LocalRef], api/sdn/v1alpha1/vpcpeering_types.go:118-120. *)
Definition peering_LocalRef (p : VPCPeering) : VPCRef := MkVPCRef (pr_Namespace p) (pr_VPCName p).

(** [VPCPeering.Matches], api/sdn/v1alpha1/vpcpeering_types.go:125-128. *)
Definition Matches (p other : option VPCPeering) : bool :=
  match p, other with
  | Some p, Some other =>
      negb (pr_Deleting p) && negb (pr_Deleting other) &&
      bool_decide (peering_LocalRef other = pr_PeerRef p) && bool_decide (peering_LocalRef p = pr_PeerRef other)
  | _, _ => false
  end.

(** [peerLink], cmd/agent/main.go:2039-2042. *)
Record peerLink := MkPeerLink { l_a : Z; l_b : Z; cidrsA : list string; cidrsB : list string }.

Section Links.
Context (IsDNS1123Label IsDNS1123Subdomain : string -> bool).

(** [PeeringReferences], internal/vpnlimits/references.go:21-23. *)
Definition PeeringReferences (namespace localName peerNamespace peerName : string) : bool :=
  NamespaceName IsDNS1123Label namespace && ObjectName IsDNS1123Subdomain localName &&
  NamespaceName IsDNS1123Label peerNamespace && ObjectName IsDNS1123Subdomain peerName.

(** [desiredPeerLinks], the halves that take part, cmd/agent/main.go:2070-2072. *)
Definition live_half (p : option VPCPeering) : option VPCPeering :=
  match p with
  | None => None
  | Some q =>
      if pr_Deleting q ||
         negb (PeeringReferences (pr_Namespace q) (pr_VPCName q) (refNamespace (pr_PeerRef q)) (refName (pr_PeerRef q)))
      then None else Some q
  end.

(** [eligible]; the memo of the code answers the same question, cmd/agent/main.go:2054-2062. *)
Definition eligible (object : option NetVPC) : option NetVPC :=
  match object with
  | None => None
  | Some v =>
      if negb (nv_Deleting v) && ValidVNI (nv_VNI v) && is_ok (ValidateVPCCIDRs (nv_CIDRs v)) then Some v else None
  end.

(** [desiredPeerLinks], the index by direction: the first half and whether there is a
    distinct one, cmd/agent/main.go:2063-2081. *)
Definition consent_index (peerings : list (option VPCPeering)) : gmap (VPCRef * VPCRef) (VPCPeering * bool) :=
  fold_left (fun index p =>
    match live_half p with
    | None => index
    | Some p =>
        let key := (peering_LocalRef p, pr_PeerRef p) in
        match index !! key with
        | None => <[key := (p, false)]> index
        | Some (first, distinct) =>
            <[key := (first, distinct || negb (pr_Ptr first =? pr_Ptr p)%nat)]> index
        end
    end) peerings ∅.

(** [desiredPeerLinks], the link of one half, cmd/agent/main.go:2088-2108. *)
Definition link_of (index : gmap (VPCRef * VPCRef) (VPCPeering * bool)) (vpc : string -> string -> option NetVPC)
    (p : VPCPeering) : option peerLink :=
  match index !! (pr_PeerRef p, peering_LocalRef p) with
  | None => None
  | Some (first, distinct) =>
      if (pr_Ptr first =? pr_Ptr p)%nat && negb distinct then None
      else
        match eligible (vpc (pr_Namespace p) (pr_VPCName p)),
              eligible (vpc (refNamespace (pr_PeerRef p)) (refName (pr_PeerRef p))) with
        | Some va, Some vb =>
            if decide (nv_CIDRs va = [] \/ nv_CIDRs vb = []) then None
            else if CIDRsOverlap (nv_CIDRs va) (nv_CIDRs vb) then None
            else
              let a := VNI (nv_VNI va) in let b := VNI (nv_VNI vb) in
              Some (if b <? a then MkPeerLink b a (nv_CIDRs vb) (nv_CIDRs va)
                    else MkPeerLink a b (nv_CIDRs va) (nv_CIDRs vb))
        | _, _ => None
        end
  end.

(** [desiredPeerLinks], cmd/agent/main.go:2048-2115. *)
Definition desiredPeerLinks (peerings : list (option VPCPeering)) (vpc : string -> string -> option NetVPC) : list peerLink :=
  let index := consent_index peerings in
  (fold_left (fun '(seen, out) p =>
    match live_half p ≫= link_of index vpc with
    | None => (seen, out)
    | Some l =>
        if is_set seen (l_a l, l_b l) then (seen, out)
        else (<[(l_a l, l_b l) := true]> seen, out ++ [l])
    end) peerings (∅, [])).2.
End Links.

(** [desiredPeerNetworks], cmd/agent/boundary.go:139-150. *)
Definition desiredPeerNetworks (links : list peerLink) : list PeerNet :=
  fold_left (fun networks l =>
    networks ++ ((fun cidr => MkPeerNet (l_a l) cidr (l_b l)) <$> cidrsB l)
             ++ ((fun cidr => MkPeerNet (l_b l) cidr (l_a l)) <$> cidrsA l)) links [].

Section Transport.
Context `{Runtime} (cap_networks cap_peers : nat).

Definition want_pairs (links : list peerLink) : gmap (Z * Z) bool :=
  fold_left (fun want l => <[(l_a l, l_b l) := true]> want) links ∅.

(** [syncPeerTransport], cmd/agent/boundary.go:155-185. *)
Definition syncPeerTransport (links : list peerLink) : M NtKern unit :=
  let want := want_pairs links in
  let networks := desiredPeerNetworks links in
  if decide (2048 < size want)%nat then fail "peering map capacity exceeded"
  else
    current ← Peers;
    obsolete ← arrange current;
    _ ← forM (fun '(p, _) => if is_set want p then mret tt else DelPeer p.1 p.2) obsolete;
    missing ← arrange want;
    _ ← forM (fun '(p, _) => if is_set current p then mret tt else SetPeer cap_peers p.1 p.2) missing;
    SyncPeerNetworks cap_networks networks.

(** [watchPeerings], the recompute of the peers and the peer rows: failures are logged and
    the pass goes on; the answer is whether the rows were replaced, so that the own rows are
    tried again, cmd/agent/main.go:1325-1364. *)
Definition peerings_resync (links : list peerLink) : M NtKern bool :=
  let desired := want_pairs links in
  let peerNets := desiredPeerNetworks links in
  r ← attempt Peers;
  match r with
  | Err _ => mret false
  | Ok current =>
      missing ← arrange desired;
      _ ← forM (fun '(p, _) => if is_set current p then mret tt
                  else _ ← attempt (SetPeer cap_peers p.1 p.2); mret tt) missing;
      obsolete ← arrange current;
      _ ← forM (fun '(p, _) => if is_set desired p then mret tt
                  else _ ← attempt (DelPeer p.1 p.2); mret tt) obsolete;
      r ← attempt (SyncPeerNetworks cap_networks peerNets);
      mret (is_ok r)
  end.
End Transport.

(** [boundaryTransportComplete]; [vni] and [rules] are the VPC's and the peers its boundary
    names, cmd/agent/boundary.go:187-210. *)
Definition boundaryTransportComplete (vni : Z) (rules : list VPCRef) (byRef : gmap VPCRef NetVPC) (links : list peerLink) : bool :=
  if negb (ValidVNI vni) then false
  else forallb (fun ref =>
    match byRef !! ref with
    | None => false
    | Some p =>
        if negb (ValidVNI (nv_VNI p)) then false
        else
          let '(a, b) := normalize (VNI vni, VNI (nv_VNI p)) in
          existsb (fun l => (l_a l =? a) && (l_b l =? b)) links
    end) rules.

(** [maxOwnNetworkInputs], cmd/agent/own_networks.go:11-11. *)
Definition maxOwnNetworkInputs : Z := 65536.

(** [compileOwnNetworks]; [ctx n] is the context's error when it is asked for the [n]th time,
    cmd/agent/own_networks.go:13-45. *)
Definition compileOwnNetworks (ctx : nat -> option string) (vpcs : list (option NetVPC)) : result (list PeerNet) :=
  if maxOwnNetworkInputs <? Z.of_nat (length vpcs) then Err "own network snapshot exceeds object budget"
  else
    '(_, _, desired) ← foldM (fun '(n, work, desired) vpc =>
      match ctx n with
      | Some e => Err e
      | None =>
          match vpc with
          | None => Ok (S n, work, desired)
          | Some v =>
              if nv_Deleting v || (nv_VNI v <=? 0) || (2 ^ 22 <=? nv_VNI v) then Ok (S n, work, desired)
              else if decide (MaxVPCCIDRs < length (nv_CIDRs v))%nat then Ok (S n, work, desired)
              else if maxOwnNetworkInputs - work <? Z.of_nat (length (nv_CIDRs v))
              then Err "own network snapshot exceeds input work budget"
              else
                let work := work + Z.of_nat (length (nv_CIDRs v)) in
                match ValidateVPCCIDRs (nv_CIDRs v) with
                | Err _ => Ok (S n, work, desired)
                | Ok _ =>
                    let net := u32 (nv_VNI v) in
                    '(n, desired) ← foldM (fun '(n, desired) cidr =>
                      match ctx n with
                      | Some e => Err e
                      | None => Ok (S n, desired ++ [MkPeerNet net cidr net])
                      end) (S n, desired) (nv_CIDRs v);
                    mret (n, work, desired)
                end
          end
      end) (0%nat, Z.of_nat (length vpcs), []) vpcs;
    mret desired.

(** ** A pass over one partition *)

(** The rows a writer asks for: a key with its network. *)
Definition row_of (rows : list PeerNet) (key : overlayLpmKey) (net : Z) : Prop :=
  exists e, e ∈ rows /\ lpmKey (pn_Scope e) (pn_CIDR e) = Ok key /\ pn_Net e = net.

(** The rows belong to the partition and have keys. *)
Definition rows_ok (own : bool) (rows : list PeerNet) : Prop :=
  Forall (fun e => own_row (pn_Scope e) (pn_Net e) = own /\ is_ok (lpmKey (pn_Scope e) (pn_CIDR e)) = true) rows.

(** The entries of a partition are exactly the rows. *)
Definition part_exact (own : bool) (rows : list PeerNet) (s : NtKern) : Prop :=
  rows_ok own rows /\ forall key net, own_row (lk_ScopeNet key) net = own -> Networks s !! key = Some net <-> row_of rows key net.

(** A partition is the same in two states. *)
Definition same_part (own : bool) (s s' : NtKern) : Prop :=
  forall key net, own_row (lk_ScopeNet key) net = own -> Networks s !! key = Some net <-> Networks s' !! key = Some net.

(** Each row is old or asked for, and a row that is both stays. *)
Definition rows_between (rows : list PeerNet) (s s' : NtKern) : Prop :=
  forall key net, (Networks s' !! key = Some net -> Networks s !! key = Some net \/ row_of rows key net) /\
    (Networks s !! key = Some net -> row_of rows key net -> Networks s' !! key = Some net).

Lemma rows_between_refl rows s : rows_between rows s s.
Proof. split; auto. Qed.

Lemma same_part_exact own rows s s' : same_part own s s' -> part_exact own rows s -> part_exact own rows s'.
Proof. intros Hs [Hr He]. split; [done|]. intros key net Ho. rewrite <-(Hs key net Ho). by apply He. Qed.

Lemma lpmKey_scope scope text key : lpmKey scope text = Ok key -> lk_ScopeNet key = scope.
Proof. by intros (p & _ & ->)%lpmKey_spec. Qed.

Section Pass.
Context `{Runtime} (cap_networks : nat).

#[local] Existing Instance mine_dec.

Lemma network_want_spec desired own want : network_want cap_networks desired own = Ok want ->
  (forall key net, want !! key = Some net <-> row_of desired key net) /\
  rows_ok own desired /\
  (forall key net, want !! key = Some net -> mine own (key, net)).
Proof.
  unfold network_want. case_match; [done|]. intros Hf.
  assert ((forall key net, want !! key = Some net <-> row_of desired key net) /\
    rows_ok own desired) as [Hw Hd].
  { revert Hf. apply (foldM_invariant _ (fun pre want => (forall key net, want !! key = Some net <-> row_of pre key net) /\
      rows_ok own pre)).
    - split; [|constructor]. intros key net. rewrite lookup_empty. split; [done|]. by intros (e & He%not_elem_of_nil & _).
    - intros pre e ? w w' _ [IH IHo]. case_if; [done|]. case_if; [done|].
      destruct (lpmKey (pn_Scope e) (pn_CIDR e)) as [k|] eqn:Ek; [|done]. apply negb_false_iff, eqb_prop in E.
      intros Hp. assert (w' = <[k := pn_Net e]> w /\ (w !! k = None \/ w !! k = Some (pn_Net e))) as [-> Hk].
      { unfold putDesired in Hp. destruct (w !! k) as [v|] eqn:Ew.
        - destruct (negb _) eqn:Ev; [done|]. apply negb_false_iff, Z.eqb_eq in Ev as ->.
          rewrite decide_False in Hp by naive_solver. injection Hp as <-. auto.
        - case_decide; [done|]. injection Hp as <-. auto. }
      split; [|apply Forall_app; split; [done|]; constructor; [|constructor]; by rewrite Ek].
      intros key net. destruct (decide (key = k)) as [->|Hne].
      + rewrite lookup_insert_eq. split.
        * intros [= <-]. exists e. split; [set_solver|done].
        * intros (e' & [He'|He']%elem_of_app & Hk' & <-).
          -- f_equal. assert (w !! k = Some (pn_Net e')) by (apply IH; by exists e'). destruct Hk; congruence.
          -- by apply list_elem_of_singleton in He' as ->.
      + rewrite lookup_insert_ne by done. rewrite IH. unfold row_of. split.
        * intros (e' & ? & ?). exists e'. split; [set_solver|done].
        * intros (e' & [He'|He']%elem_of_app & Hk' & <-); [by exists e'|].
          apply list_elem_of_singleton in He' as ->. congruence. }
  split; [done|]. split; [done|]. intros key net (e & He & Hk & <-)%Hw. unfold mine. cbn.
  rewrite (lpmKey_scope _ _ _ Hk). unfold rows_ok in Hd. rewrite Forall_forall in Hd. by apply Hd.
Qed.

(** Between the old rows and the merged ones nothing of the other partition moves. *)
Lemma merged_same_part own want (s : NtKern) m :
  (forall key net, want !! key = Some net -> mine own (key, net)) -> want ##ₘ others (mine own) (Networks s) ->
  between (Networks s) (merged (mine own) (Networks s) want) m ->
  same_part (negb own) s (MkNt m (PeerPairs s)).
Proof.
  intros Hm Hd Hb key net Ho. cbn. assert (~ mine own (key, net)) as Hn.
  { unfold mine. cbn. rewrite Ho. by destruct own. }
  split.
  - intros Hk. destruct (merged_others _ _ _ _ _ Hd Hk Hn) as [_ Hk']. destruct (Hb key) as [->| ->]; done.
  - intros Hk. destruct (Hb key) as [E|E]; rewrite E in Hk; [done|].
    apply lookup_union_Some_raw in Hk as [Hk|[_ Hk]]; [by apply Hm in Hk|].
    by apply map_lookup_filter_Some in Hk as [? _].
Qed.

Lemma merged_exact own want desired s : network_want cap_networks desired own = Ok want ->
  part_exact own desired (MkNt (merged (mine own) (Networks s) want) (PeerPairs s)).
Proof.
  intros (Hw & Hr & _)%network_want_spec. split; [done|]. intros key net Ho. cbn. rewrite <-Hw. unfold merged.
  rewrite lookup_union_Some_raw. split; [|by left]. intros [?|[_ Hk]]; [done|].
  apply map_lookup_filter_Some in Hk as [_ Hk]. by destruct Hk.
Qed.

Lemma merged_size own (want old : gmap overlayLpmKey Z) entries : entries ≡ₚ map_to_list old ->
  want ##ₘ others (mine own) old ->
  size (merged (mine own) old want) = (size want + length (filter (fun e => ~ mine own e) entries))%nat.
Proof.
  intros He Hd. unfold merged. rewrite map_size_disj_union by done. f_equal. rewrite He.
  unfold others. rewrite map_filter_alt, <-length_map_to_list, map_to_list_to_map; [done|].
  eapply sublist_NoDup; [apply (NoDup_fst_map_to_list old)|]. apply fmap_sublist, sublist_filter.
Qed.

Lemma no_collision own (want old : gmap overlayLpmKey Z) entries : entries ≡ₚ map_to_list old ->
  existsb (fun e => bool_decide (is_Some (want !! e.1))) (filter (fun e => ~ mine own e) entries) = false ->
  want ##ₘ others (mine own) old.
Proof.
  intros He Hx. apply map_disjoint_spec. intros key x y Hw Ho. apply map_lookup_filter_Some in Ho as [Ho Hn].
  apply not_true_iff_false in Hx. apply Hx, existsb_exists. exists (key, y). split.
  - apply list_elem_of_In, list_elem_of_filter. split; [done|]. rewrite He. by apply elem_of_map_to_list.
  - apply bool_decide_eq_true. cbn. by exists x.
Qed.

(** Every state of a pass, and the one a failure leaves, has the rows of the other partition as
    they were and each row of its own old or desired; success makes its partition exact. *)
Lemma wp_syncNetworkPartition desired own s (I : NtKern -> Prop) (Q : result unit -> NtKern -> Prop) :
  (forall s', PeerPairs s' = PeerPairs s -> same_part (negb own) s s' -> rows_between desired s s' ->
     I s' /\ forall e, Q (Err e) s') ->
  (forall s', PeerPairs s' = PeerPairs s -> same_part (negb own) s s' -> part_exact own desired s' -> Q (Ok tt) s') ->
  wp (syncNetworkPartition cap_networks desired own) I Q s.
Proof.
  intros HI HQ. assert (forall e, Q (Err e) s) as He0 by (apply HI; [done|done|apply rows_between_refl]).
  apply wp_bind, wp_lift. destruct (network_want _ _ _) as [want|] eqn:Ew; [|done].
  apply wp_bind, wp_Iterate; [auto|]. intros entries Hl. cbv zeta.
  destruct (existsb _ _) eqn:Ec; [by apply wp_fail|]. apply (no_collision _ _ _ _ Hl) in Ec.
  case_decide as Hcap; [by apply wp_fail|]. rewrite <-(merged_size _ _ _ _ Hl Ec) in Hcap.
  destruct (network_want_spec _ _ _ Ew) as (Hw & _ & Hmine). cbn in *.
  set (target := merged (mine own) (Networks s) want) in *.
  assert (forall m, between (Networks s) target m ->
    I (update L_networks m s) /\ forall e, Q (Err e) (update L_networks m s)) as Hbt.
  { intros m Hb. apply HI; [done|by eapply merged_same_part|]. intros key net. cbn. destruct (Hb key) as [->| ->]; [auto|].
    split; [|intros _ Hk%Hw; by apply lookup_union_Some_l].
    intros [Hk|[_ Hk]]%lookup_union_Some_raw; [right; by apply Hw|left].
    by apply map_lookup_filter_Some in Hk as [? _]. }
  apply (wp_merge L_networks cap_networks (mine own) want); [done| | |done|].
  - by intros k v [? _]%map_lookup_filter_Some.
  - intros k v Hk. destruct (decide (Networks s !! k = Some v)) as [|Hne]; [by left|right]. exists v.
    apply map_lookup_filter_Some. split; [done|]. cbn. rewrite (filtered_keys _ _ _ _ Hl).
    intros (v' & Ho & _ & Hv'). cbn in Hv'. congruence.
  - apply HQ; [done| |by apply (merged_exact _ _ _ s)]. eapply merged_same_part; [done|done|]. intros k. by right.
Qed.
End Pass.

(** ** The peers map *)

Lemma elem_snoc {A} (l : list A) x y : x ∈ l ++ [y] <-> x ∈ l \/ x = y.
Proof. by rewrite elem_of_app, list_elem_of_singleton. Qed.

Lemma normalize_swap a b : normalize (a, b) = normalize (b, a).
Proof. unfold normalize. repeat case_if; to_prop; repeat f_equal; lia. Qed.

Lemma normalize_fiber a b x : a <= b -> normalize x = (a, b) <-> x = (a, b) \/ x = (b, a).
Proof.
  intros Hab. destruct x as [c d]. unfold normalize. case_if; to_prop; split; intros Hx; simplify_eq; auto.
  - destruct Hx as [Hx|Hx]; injection Hx as -> ->; [lia|done].
  - destruct Hx as [Hx|Hx]; injection Hx as -> ->; [done|]. f_equal; lia.
Qed.

Lemma normalize_le x : (normalize x).1 <= (normalize x).2.
Proof. destruct x as [a b]. unfold normalize. case_if; to_prop; cbn; lia. Qed.

Lemma fold_set_spec {A} (f : A -> Z * Z) l p :
  is_set (fold_left (fun m x => <[f x := true]> m) l ∅) p = true <-> exists x, x ∈ l /\ f x = p.
Proof.
  induction l as [|x l IH] using rev_ind; cbn.
  - split; [done|]. by intros (? & ?%not_elem_of_nil & _).
  - rewrite fold_left_app. cbn [fold_left]. unfold is_set in *. destruct (decide (f x = p)) as [<-|Hne].
    + rewrite lookup_insert_eq. split; [|done]. intros _. exists x. set_solver.
    + rewrite lookup_insert_ne by done. rewrite IH. split.
      * intros (y & ? & ?). exists y. set_solver.
      * intros (y & [?|Hy]%elem_of_app & ?); [by exists y|]. apply list_elem_of_singleton in Hy as ->. done.
Qed.

Lemma fold_set_lookup {A} (f : A -> Z * Z) l p b :
  fold_left (fun m x => <[f x := true]> m) l (∅ : gmap (Z * Z) bool) !! p = Some b -> b = true.
Proof.
  revert b. induction l as [|x l IH] using rev_ind; intros b; cbn; [done|].
  rewrite fold_left_app. cbn [fold_left]. destruct (decide (f x = p)) as [<-|Hne].
  - rewrite lookup_insert_eq. by intros [= <-].
  - rewrite lookup_insert_ne by done. apply IH.
Qed.

(** The keys of such a set, in the order an iteration gives them. *)
Lemma fold_set_keys {A} (f : A -> Z * Z) l entries p :
  entries ≡ₚ map_to_list (fold_left (fun m x => <[f x := true]> m) l ∅) ->
  p ∈ entries.*1 <-> is_set (fold_left (fun m x => <[f x := true]> m) l ∅) p = true.
Proof.
  intros ->. rewrite list_elem_of_fmap. unfold is_set. split.
  - intros ([q b] & -> & Hq). apply elem_of_map_to_list in Hq. cbn. rewrite Hq. cbn. by eapply fold_set_lookup.
  - destruct (_ !! p) as [b|] eqn:E; [|done]. intros _. exists (p, b). split; [done|]. by apply elem_of_map_to_list.
Qed.

Section PeersPass.
Context `{Runtime} (cap_peers : nat).

(** [s'] differs from [s] in the two directions of a pair at most, and there it is as [v]. *)
Definition pair_moved (p : Z * Z) (v : option Z) (s s' : NtKern) : Prop :=
  Networks s' = Networks s /\
  forall x, PeerPairs s' !! x = PeerPairs s !! x \/ (normalize x = p /\ PeerPairs s' !! x = v).
Definition pair_is (p : Z * Z) (v : option Z) (s s' : NtKern) : Prop :=
  Networks s' = Networks s /\
  forall x, PeerPairs s' !! x = if decide (normalize x = p) then v else PeerPairs s !! x.

Lemma wp_SetPeer a b (I : NtKern -> Prop) (Q : result unit -> NtKern -> Prop) s : a <= b ->
  (forall s', pair_moved (a, b) (Some 1) s s' -> I s' /\ forall e, Q (Err e) s') ->
  (forall s', pair_is (a, b) (Some 1) s s' -> Q (Ok tt) s') ->
  wp (SetPeer cap_peers a b) I Q s.
Proof.
  intros Hab Hm Hq.
  assert (pair_moved (a, b) (Some 1) s s) as H0 by (split; auto).
  assert (forall m, (forall x, m !! x = PeerPairs s !! x \/ (x = (a, b) \/ x = (b, a)) /\ m !! x = Some 1) ->
    pair_moved (a, b) (Some 1) s (MkNt (Networks s) m)) as Hmv.
  { intros m Hx. split; [done|]. intros x. rewrite (normalize_fiber a b x Hab). cbn. destruct (Hx x) as [?|[? ?]]; auto. }
  assert (pair_moved (a, b) (Some 1) s (MkNt (Networks s) (<[(a, b):=1]> (PeerPairs s)))) as H1.
  { apply Hmv. intros x. destruct (decide (x = (a, b))) as [->|]; [rewrite lookup_insert_eq|rewrite lookup_insert_ne]; auto. }
  apply wp_bind, wp_Put.
  - intros n e _. by apply Hm.
  - intros _ _. by apply Hm.
  - cbv zeta. cbn. split; [by apply Hm|]. apply wp_Put; cbn.
    + intros n e _. by apply Hm.
    + intros _ _. by apply Hm.
    + assert (forall x, <[(b, a):=1]> (<[(a, b):=1]> (PeerPairs s)) !! x =
        if decide (normalize x = (a, b)) then Some 1 else PeerPairs s !! x) as Hx.
      { intros x. destruct (decide (normalize x = (a, b))) as [Hn|Hn]; rewrite (normalize_fiber a b x Hab) in Hn.
        - destruct (decide (x = (b, a))) as [->|]; [by rewrite lookup_insert_eq|].
          rewrite lookup_insert_ne by done. destruct Hn as [->|]; [|done]. by rewrite lookup_insert_eq.
        - rewrite !lookup_insert_ne by naive_solver. done. }
      split; [|apply Hq; by split]. apply Hm. split; [done|]. intros x. cbn. rewrite Hx. case_decide; auto.
Qed.

Lemma wp_DelPeer a b (I : NtKern -> Prop) (Q : result unit -> NtKern -> Prop) s : a <= b ->
  (forall s', pair_moved (a, b) None s s' -> I s' /\ forall e, Q (Err e) s') ->
  (forall s', pair_is (a, b) None s s' -> Q (Ok tt) s') ->
  wp (DelPeer a b) I Q s.
Proof.
  intros Hab Hm Hq.
  set (gone (x : Z * Z) (s' : NtKern) := PeerPairs s' !! x = None).
  assert (forall k I' (Q' : result (result unit) -> NtKern -> Prop) s1, normalize k = (a, b) -> pair_moved (a, b) None s s1 ->
    (forall s', I s' -> I' s') ->
    (forall r s', pair_moved (a, b) None s s' -> (forall x, gone x s1 -> gone x s') -> (r = Ok tt -> gone k s') -> Q' (Ok r) s') ->
    wp (attempt (DeleteIfExists L_peers k)) I' Q' s1) as Hdel.
  { intros k I' Q' s1 Hk [Hn Hx] HI Hq'. apply wp_attempt, wp_DeleteIfExists.
    - intros n e _. by apply Hq'.
    - intros Hnone. by apply Hq'.
    - intros v Hv. cbv zeta. cbn.
      assert (pair_moved (a, b) None s (MkNt (Networks s1) (delete k (PeerPairs s1)))) as Hmv.
      { split; [done|]. intros x. cbn. destruct (decide (x = k)) as [->|]; [rewrite lookup_delete_eq; auto|].
        rewrite lookup_delete_ne by done. apply Hx. }
      split; [apply HI; by apply Hm|]. apply Hq'; [done| |].
      + intros x Hx'. unfold gone in *. cbn. destruct (decide (x = k)) as [->|]; [by rewrite lookup_delete_eq|].
        by rewrite lookup_delete_ne.
      + intros _. unfold gone. cbn. by rewrite lookup_delete_eq. }
  apply wp_bind, (Hdel (a, b)); [by apply normalize_fiber; auto|by split; auto|auto|]. intros r1 s1 Hs1 _ Hr1.
  apply wp_bind, (Hdel (b, a)); [by apply normalize_fiber; auto|done|auto|]. intros r2 s2 Hs2 Hg Hr2.
  apply wp_bind, wp_lift. destruct r1 as [[]|e]; [|by apply Hm]. apply wp_lift.
  destruct r2 as [[]|e]; [|by apply Hm]. apply Hq. destruct Hs2 as [Hn Hx]. split; [done|].
  intros x. case_decide as Hc.
  - apply normalize_fiber in Hc as [-> | ->]; [by apply Hg, Hr1|by apply Hr2|done].
  - destruct (Hx x) as [?|[? _]]; done.
Qed.
End PeersPass.

(** ** The peer transport *)

Section TransportPass.
Context `{Runtime} (cap_networks cap_peers : nat) (links : list peerLink).
Hypothesis Hlinks : Forall (fun l => l_a l <= l_b l) links.
Let want := want_pairs links.

(** Some direction of the pair is programmed. *)
Definition linked (s : NtKern) (p : Z * Z) : Prop := exists x, normalize x = p /\ is_Some (PeerPairs s !! x).

(** What the pass makes of one direction: a pair that had a direction is left as it is. *)
Definition peer_goal (s s' : NtKern) (x : Z * Z) : Prop :=
  (is_set want (normalize x) = false -> PeerPairs s' !! x = None) /\
  (is_set want (normalize x) = true -> linked s (normalize x) -> PeerPairs s' !! x = PeerPairs s !! x) /\
  (is_set want (normalize x) = true -> ~ linked s (normalize x) -> PeerPairs s' !! x = Some 1).

(** A state on the way: each direction is old or done, the rows are old. *)
Definition peer_between (s s' : NtKern) : Prop :=
  Networks s' = Networks s /\ forall x, PeerPairs s' !! x = PeerPairs s !! x \/ peer_goal s s' x.

Definition peers_done (s s' : NtKern) : Prop := Networks s' = Networks s /\ forall x, peer_goal s s' x.

Lemma want_le p : is_set want p = true -> p.1 <= p.2.
Proof.
  intros (l & Hl & <-)%(fold_set_spec (fun l => (l_a l, l_b l))). cbn. rewrite Forall_forall in Hlinks. by apply Hlinks.
Qed.

Lemma wp_Peers (I : NtKern -> Prop) (Q : result (gmap (Z * Z) bool) -> NtKern -> Prop) s :
  (forall n e, fault n = Some e -> Q (Err e) s) ->
  (forall current, (forall p, is_set current p = true <-> linked s p) ->
     (forall entries p, entries ≡ₚ map_to_list current -> p ∈ entries.*1 <-> linked s p) -> Q (Ok current) s) ->
  wp Peers I Q s.
Proof.
  intros He Hq. apply wp_bind, wp_Iterate; [done|]. intros l Hl. apply wp_ret.
  assert (forall p, is_set (fold_left (fun out e => <[normalize e.1:=true]> out) l ∅) p = true <-> linked s p) as Hc.
  { intros p. rewrite (fold_set_spec (fun e : Z * Z * Z => normalize e.1)). unfold linked. split.
    - intros ([x v] & Hx & <-). exists x. split; [done|]. rewrite Hl in Hx. apply elem_of_map_to_list in Hx. by exists v.
    - intros (x & <- & [v Hv]). exists (x, v). split; [|done]. rewrite Hl. by apply elem_of_map_to_list. }
  apply Hq; [done|]. intros entries p Hen. rewrite <-Hc. by apply (fold_set_keys (fun e : Z * Z * Z => normalize e.1)).
Qed.

(** While the obsolete pairs go, and while the missing ones come. *)
Definition severing (s : NtKern) (pre : list (Z * Z)) (s' : NtKern) : Prop :=
  Networks s' = Networks s /\ forall x, PeerPairs s' !! x =
    if decide (normalize x ∈ pre /\ is_set want (normalize x) = false) then None else PeerPairs s !! x.
Definition connecting (s : NtKern) (pre : list (Z * Z)) (s' : NtKern) : Prop :=
  Networks s' = Networks s /\
  forall x, (normalize x ∈ pre \/ is_set want (normalize x) = false -> peer_goal s s' x) /\
    (~ (normalize x ∈ pre \/ is_set want (normalize x) = false) -> PeerPairs s' !! x = PeerPairs s !! x).

Lemma wp_sever (obsolete : list (Z * Z * bool)) (I : NtKern -> Prop) (Q : result unit -> NtKern -> Prop) s :
  (forall p, p ∈ obsolete.*1 <-> linked s p) ->
  (forall s', peer_between s s' -> I s' /\ forall e, Q (Err e) s') ->
  (forall s', connecting s [] s' -> Q (Ok tt) s') ->
  wp (forM (fun '(p, _) => if is_set want p then mret tt else DelPeer p.1 p.2) obsolete) I Q s.
Proof.
  intros Ho Hb Hq. apply (wp_forM _ _ (fun (pre : list (Z * Z * bool)) s' => severing s pre.*1 s')).
  - split; [done|]. intros x. rewrite decide_False by set_solver. done.
  - intros pre [p b] post s1 E [Hn Hx]. rewrite fmap_app. cbn. destruct (is_set want p) eqn:Ep.
    { apply wp_ret. split; [done|]. intros x. rewrite Hx. apply decide_ext. set_unfold. naive_solver congruence. }
    assert (linked s p) as Hlp by (apply Ho; rewrite E, fmap_app; set_solver).
    destruct Hlp as (y & <- & _). apply wp_DelPeer; [apply normalize_le| |].
    + intros s2 [Hn2 Hx2]. apply Hb. split; [congruence|]. intros x. destruct (Hx2 x) as [E2|[E2 E3]].
      * rewrite E2, Hx. case_decide as Hd; [right|by left]. split_and!; [|naive_solver congruence|naive_solver congruence].
        intros _. rewrite E2, Hx, decide_True; done.
      * right. destruct (normalize y) as [u v] eqn:Ey. cbn in E2. rewrite <-E2 in Ep.
        split_and!; [done|congruence|congruence].
    + intros s2 [Hn2 Hx2]. split; [congruence|]. intros x. rewrite Hx2, Hx.
      destruct (normalize y) as [u v] eqn:Ey. cbn in *. destruct (decide (normalize x = (u, v))) as [Ex|Ex].
      * rewrite decide_True; [done|]. rewrite Ex. set_solver.
      * apply decide_ext. set_unfold. naive_solver.
  - intros s' [Hn Hx]. apply Hq. split; [done|]. intros x. split.
    + intros [?%not_elem_of_nil|Hw]; [done|]. split_and!; [|congruence|congruence]. intros _. rewrite Hx.
      case_decide as Hd; [done|]. destruct (PeerPairs s !! x) eqn:Ex; [|done]. contradict Hd. split; [|done].
      apply Ho. exists x. eauto.
    + intros Hw. rewrite Hx, decide_False; [done|]. naive_solver.
Qed.

Lemma wp_connect (current : gmap (Z * Z) bool) (missing : list (Z * Z * bool)) (I : NtKern -> Prop) (Q : result unit -> NtKern -> Prop) s s1 :
  (forall p, is_set current p = true <-> linked s p) -> (forall p, p ∈ missing.*1 <-> is_set want p = true) ->
  (forall s', peer_between s s' -> I s' /\ forall e, Q (Err e) s') ->
  (forall s', peers_done s s' -> Q (Ok tt) s') -> connecting s [] s1 ->
  wp (forM (fun '(p, _) => if is_set current p then mret tt else SetPeer cap_peers p.1 p.2) missing) I Q s1.
Proof.
  intros Hc Hm Hb Hq H1. apply (wp_forM _ _ (fun (pre : list (Z * Z * bool)) s' => connecting s pre.*1 s')); [done| |].
  - intros pre [p b] post s2 E [Hn Hx]. rewrite fmap_app. cbn [fmap list_fmap fst].
    assert (is_set want p = true) as Hw by (apply Hm; rewrite E, fmap_app; set_solver).
    destruct (is_set current p) eqn:Ep.
    { apply wp_ret. split; [done|]. intros x. destruct (Hx x) as [Ha Hb']. split.
      - intros [[Hin|Hp]%elem_snoc|Hf]; [by apply Ha; left| |by apply Ha; right].
        destruct (decide (normalize x ∈ pre.*1)); [by apply Ha; left|]. apply Hc in Ep. rewrite <-Hp in Ep, Hw.
        split_and!; [congruence| |tauto]. intros _ _. apply Hb'. rewrite Hw. naive_solver.
      - rewrite elem_snoc. tauto. }
    assert (~ linked s p) as Hnl by (rewrite <-Hc; congruence).
    pose proof (want_le p Hw) as Hle. destruct p as [u v]. cbn [fst snd] in *. apply wp_SetPeer; [done| |].
    + intros s3 [Hn3 Hx3]. apply Hb. split; [congruence|]. intros x. destruct (Hx3 x) as [E3|[E3 E4]].
      * destruct (decide (normalize x ∈ pre.*1 \/ is_set want (normalize x) = false)) as [Hd|Hd].
        -- right. apply Hx in Hd. unfold peer_goal in *. by rewrite E3.
        -- left. rewrite E3. by apply Hx.
      * right. rewrite <-E3 in Hw, Hnl. split_and!; [congruence|done|done].
    + intros s3 [Hn3 Hx3]. split; [congruence|]. intros x. specialize (Hx3 x). destruct (Hx x) as [Ha Hb'].
      case_decide as Ex.
      * rewrite <-Ex in Hw, Hnl. split; [|rewrite elem_snoc; tauto]. intros _. split_and!; [congruence|done|done].
      * split.
        -- rewrite elem_snoc. intros Hd. unfold peer_goal in *. rewrite Hx3. tauto.
        -- rewrite elem_snoc. intros Hd. rewrite Hx3. tauto.
  - intros s' [Hn Hx]. apply Hq. split; [done|]. intros x. apply Hx. rewrite Hm.
    destruct (is_set want (normalize x)); auto.
Qed.

(** The state a pass may leave at any point, and the one it leaves on success. *)
Definition transport_between (s s' : NtKern) : Prop :=
  (forall x, PeerPairs s' !! x = PeerPairs s !! x \/ peer_goal s s' x) /\
  same_part true s s' /\ rows_between (desiredPeerNetworks links) s s'.
Definition transport_done (s s' : NtKern) : Prop :=
  (forall x, peer_goal s s' x) /\ same_part true s s' /\ part_exact false (desiredPeerNetworks links) s'.

Lemma peer_goal_pairs s s1 s2 x : PeerPairs s1 = PeerPairs s2 -> peer_goal s s1 x -> peer_goal s s2 x.
Proof. unfold peer_goal. by intros ->. Qed.

Lemma same_rows s s' : Networks s' = Networks s -> same_part true s s' /\ rows_between (desiredPeerNetworks links) s s'.
Proof. intros E. split; [intros key net _|intros key net]; rewrite E; tauto. Qed.

Lemma wp_syncPeerTransport s :
  wp (syncPeerTransport cap_networks cap_peers links) (transport_between s)
    (fun r s' => match r with Ok _ => transport_done s s' | Err _ => transport_between s s' end) s.
Proof.
  assert (transport_between s s) as H0 by (split; [auto|by apply same_rows]).
  assert (forall s', peer_between s s' -> transport_between s s') as Hpb.
  { intros s' [Hn Hx]. split; [done|by apply same_rows]. }
  unfold syncPeerTransport. case_decide; [by apply wp_fail|].
  apply wp_bind, wp_Peers; [done|]. intros current Hc Hk.
  apply wp_bind, wp_arrange. intros obsolete Ho.
  apply wp_bind, wp_sever; [by intros p; apply Hk|auto|]. intros s1 Hs1.
  apply wp_bind, wp_arrange. intros missing Hm.
  apply wp_bind, (wp_connect current missing _ _ s); [done| |auto| |done].
  { intros p. by apply (fold_set_keys (fun l => (l_a l, l_b l))). }
  intros s2 [Hn2 Hx2]. apply wp_syncNetworkPartition.
  - intros s3 Hp Hs Hr. assert (transport_between s s3); [|by split].
    split; [intros x; right; by eapply peer_goal_pairs|].
    split; [intros key net; by rewrite <-Hn2; apply Hs|]. intros key net. rewrite <-Hn2. apply Hr.
  - intros s3 Hp Hs He. split; [intros x; by eapply peer_goal_pairs|]. split; [|done].
    intros key net. rewrite <-Hn2. apply Hs.
Qed.
End TransportPass.

(** ** The links are the mutual consents *)

Section Consent.
Context (IsDNS1123Label IsDNS1123Subdomain : string -> bool).
Context (peerings : list (option VPCPeering)) (vpc : string -> string -> option NetVPC).
Let live := live_half IsDNS1123Label IsDNS1123Subdomain.
Let index := consent_index IsDNS1123Label IsDNS1123Subdomain.

Definition lookup_ref (r : VPCRef) : option NetVPC := vpc (refNamespace r) (refName r).

(** Two distinct live halves that name each other. *)
Definition mutual (p q : VPCPeering) : Prop :=
  p ∈ omap live peerings /\ q ∈ omap live peerings /\ pr_Ptr p <> pr_Ptr q /\ Matches (Some p) (Some q) = true.

(** The two VPCs are eligible, and their CIDRs are there and disjoint. *)
Definition peerable (va vb : NetVPC) : Prop :=
  nv_CIDRs va <> [] /\ nv_CIDRs vb <> [] /\ CIDRsOverlap (nv_CIDRs va) (nv_CIDRs vb) = false.

(** The networks [a] and [b], with the VPCs behind them, are peered. *)
Definition consents (a b : Z) (va vb : NetVPC) : Prop := exists p q,
  mutual p q /\ eligible (lookup_ref (peering_LocalRef p)) = Some va /\ eligible (lookup_ref (pr_PeerRef p)) = Some vb /\
  peerable va vb /\ a = VNI (nv_VNI va) /\ b = VNI (nv_VNI vb).

Lemma live_half_live op p : live op = Some p -> op = Some p /\ pr_Deleting p = false.
Proof. unfold live, live_half. destruct op as [q|]; [|done]. destruct (pr_Deleting q) eqn:E; cbn; [done|]. case_if; [done|]. by intros [= <-]. Qed.

Lemma live_deleting (l : list (option VPCPeering)) p : p ∈ omap live l -> pr_Deleting p = false.
Proof. intros (op & _ & Hp%live_half_live)%list_elem_of_omap. apply Hp. Qed.

(** The index holds one of the halves of a direction, and knows of a second one. *)
Lemma consent_index_spec l key :
  match index l !! key with
  | None => forall p, p ∈ omap live l -> (peering_LocalRef p, pr_PeerRef p) <> key
  | Some (first, distinct) =>
      first ∈ omap live l /\ (peering_LocalRef first, pr_PeerRef first) = key /\
      (distinct = true <-> exists q, q ∈ omap live l /\ (peering_LocalRef q, pr_PeerRef q) = key /\ pr_Ptr q <> pr_Ptr first)
  end.
Proof.
  unfold index, consent_index. induction l as [|op l IH] using rev_ind; [cbn; rewrite lookup_empty; by intros p ?%not_elem_of_nil|].
  rewrite fold_left_app, omap_app. cbn [fold_left omap list_omap]. fold live. set (m := fold_left _ l ∅) in *. clearbody m.
  destruct (live op) as [p|]; [|by rewrite app_nil_r]. destruct (decide ((peering_LocalRef p, pr_PeerRef p) = key)) as [Ek|Hne].
  - rewrite Ek. destruct (m !! key) as [[f d]|].
    + rewrite lookup_insert_eq. destruct IH as (Hf & Hk & Hd). split; [set_solver|]. split; [done|].
      rewrite orb_true_iff, Hd, negb_true_iff, Nat.eqb_neq. split.
      * intros [(q & ? & ? & ?)|Hp]; [exists q|exists p]; rewrite elem_snoc; auto.
      * intros (q & [Hq| ->]%elem_snoc & ? & ?); [left; by exists q|by right].
    + rewrite lookup_insert_eq. split; [set_solver|]. split; [done|]. split; [done|].
      intros (q & [Hq| ->]%elem_snoc & Hk & ?); [by destruct (IH q Hq)|done].
  - assert (match m !! (peering_LocalRef p, pr_PeerRef p) with
      | Some (first, distinct) => <[(peering_LocalRef p, pr_PeerRef p):=(first, distinct || negb (pr_Ptr first =? pr_Ptr p)%nat)]> m
      | None => <[(peering_LocalRef p, pr_PeerRef p):=(p, false)]> m end !! key = m !! key) as ->.
    { destruct (m !! (peering_LocalRef p, pr_PeerRef p)) as [[??]|]; by rewrite lookup_insert_ne. }
    destruct (m !! key) as [[f d]|].
    + destruct IH as (Hf & Hk & Hd). split; [set_solver|]. split; [done|]. rewrite Hd. split.
      * intros (q & ? & ? & ?). exists q. rewrite elem_snoc. auto.
      * intros (q & [Hq| ->]%elem_snoc & ? & ?); [by exists q|done].
    + intros q [Hq| ->]%elem_snoc; [by apply IH|done].
Qed.

(** A half has its link exactly when a distinct half answers it. *)
Lemma reciprocal_spec p : p ∈ omap live peerings ->
  (exists first distinct, index peerings !! (pr_PeerRef p, peering_LocalRef p) = Some (first, distinct) /\
     (pr_Ptr first =? pr_Ptr p)%nat && negb distinct = false) <->
  exists q, mutual p q.
Proof.
  intros Hp. pose proof (consent_index_spec peerings (pr_PeerRef p, peering_LocalRef p)) as Hi.
  assert (forall q, q ∈ omap live peerings -> Matches (Some p) (Some q) = true <->
    (peering_LocalRef q, pr_PeerRef q) = (pr_PeerRef p, peering_LocalRef p)) as Hm.
  { intros q Hq. cbn. rewrite (live_deleting _ _ Hp), (live_deleting _ _ Hq). cbn.
    rewrite andb_true_iff, !bool_decide_eq_true. split; [intros [-> ->]|intros [= -> ->]]; done. }
  split.
  - intros (f & d & E & Hx). rewrite E in Hi. destruct Hi as (Hf & Hk & Hd). apply andb_false_iff in Hx as [Hx|Hx].
    + exists f. to_prop. split_and!; [done|done|congruence|by apply Hm].
    + apply negb_false_iff, Hd in Hx as (q & Hq & Hkq & Hne). destruct (decide (pr_Ptr f = pr_Ptr p)) as [Ep|Ep].
      * exists q. split_and!; [done|done|congruence|by apply Hm].
      * exists f. split_and!; [done|done|congruence|by apply Hm].
  - intros (q & _ & Hq & Hne & Hk). apply Hm in Hk; [|done].
    destruct (index peerings !! _) as [[f d]|]; [|by destruct (Hi q Hq)]. exists f, d. split; [done|].
    destruct Hi as (Hf & Hkf & Hd). apply andb_false_iff. destruct (Nat.eqb_spec (pr_Ptr f) (pr_Ptr p)); [right|by left].
    apply negb_false_iff, Hd. exists q. split_and!; [done|done|congruence].
Qed.

Definition link (a b : Z) (va vb : NetVPC) : peerLink :=
  if b <? a then MkPeerLink b a (nv_CIDRs vb) (nv_CIDRs va) else MkPeerLink a b (nv_CIDRs va) (nv_CIDRs vb).

Lemma link_of_spec p l : p ∈ omap live peerings ->
  link_of (index peerings) vpc p = Some l <->
  exists q va vb, mutual p q /\ eligible (lookup_ref (peering_LocalRef p)) = Some va /\
    eligible (lookup_ref (pr_PeerRef p)) = Some vb /\ peerable va vb /\ l = link (VNI (nv_VNI va)) (VNI (nv_VNI vb)) va vb.
Proof.
  intros Hp. pose proof (reciprocal_spec p Hp) as Hr. unfold link_of, peerable, lookup_ref. cbn [peering_LocalRef refNamespace refName].
  destruct (index peerings !! _) as [[f d]|].
  2:{ split; [done|]. intros (q & va & vb & Hm & _). destruct Hr as [_ Hr]. destruct (Hr (ex_intro _ q Hm)) as (? & ? & ? & _). done. }
  destruct (_ && negb d) eqn:Ed.
  { split; [done|]. intros (q & va & vb & Hm & _). destruct Hr as [_ Hr]. destruct (Hr (ex_intro _ q Hm)) as (? & ? & [= <- <-] & ?). congruence. }
  destruct Hr as [Hr _]. destruct (Hr ltac:(by eauto)) as (q0 & Hq0).
  destruct (eligible (vpc (pr_Namespace p) _)) as [va|]; [|split; [done|]; by intros (? & ? & ? & _ & ? & _)].
  destruct (eligible (vpc (refNamespace _) _)) as [vb|]; [|split; [done|]; by intros (? & ? & ? & _ & _ & ? & _)].
  case_decide as Hn; [split; [done|]; intros (? & ? & ? & _ & [= <-] & [= <-] & ? & _); tauto|].
  destruct (CIDRsOverlap _ _) eqn:Eo; [split; [done|]; intros (? & ? & ? & _ & [= <-] & [= <-] & (_ & _ & ?) & _); congruence|].
  split.
  - intros [= <-]. exists q0, va, vb. tauto.
  - intros (? & ? & ? & _ & [= <-] & [= <-] & _ & ->). done.
Qed.

(** The links are the consents, one per pair of networks. *)
Lemma desiredPeerLinks_spec :
  let links := desiredPeerLinks IsDNS1123Label IsDNS1123Subdomain peerings vpc in
  (forall l, l ∈ links -> exists a b va vb, consents a b va vb /\ l = link a b va vb) /\
  (forall a b va vb, consents a b va vb -> exists l, l ∈ links /\ (l_a l, l_b l) = normalize (a, b)) /\
  NoDup ((fun l => (l_a l, l_b l)) <$> links).
Proof.
  cbv zeta. unfold desiredPeerLinks. fold live index. set (f := fun '(seen, out) (p : option VPCPeering) => _).
  assert (forall l, (forall op, op ∈ l -> op ∈ peerings) ->
    let '(seen, out) := fold_left f l (∅, []) in
    (forall x, x ∈ out -> exists p, p ∈ omap live peerings /\ link_of (index peerings) vpc p = Some x) /\
    (forall p x, p ∈ omap live l -> link_of (index peerings) vpc p = Some x -> is_set seen (l_a x, l_b x) = true) /\
    (forall q, is_set seen q = true <-> q ∈ (fun x => (l_a x, l_b x)) <$> out) /\
    NoDup ((fun x => (l_a x, l_b x)) <$> out)) as Hfold.
  { induction l as [|op l IH] using rev_ind; intros Hsub.
    { cbn. split; [by intros ? ?%not_elem_of_nil|]. split; [by intros ? ? ?%not_elem_of_nil|].
      split; [|constructor]. intros q. split; [done|]. by intros ?%not_elem_of_nil. }
    rewrite fold_left_app. destruct (fold_left f l (∅, [])) as [seen out].
    destruct IH as (I1 & I2 & I3 & I4); [intros; apply Hsub; set_solver|]. cbn [fold_left]. unfold f at 1.
    rewrite omap_app. cbn [omap list_omap]. destruct (live op) as [p|] eqn:Ep; cbn [mbind option_bind]; [|by rewrite app_nil_r].
    assert (p ∈ omap live peerings) as Hp by (apply list_elem_of_omap; exists op; split; [apply Hsub; set_solver|done]).
    destruct (link_of (index peerings) vpc p) as [x|] eqn:Ex.
    2:{ split; [done|]. split; [|done]. intros q y [Hq| ->]%elem_snoc Hy; [by eapply I2|congruence]. }
    destruct (is_set seen (l_a x, l_b x)) eqn:Es.
    { split; [done|]. split; [|done]. intros q y [Hq| ->]%elem_snoc Hy; [by eapply I2|]. congruence. }
    rewrite fmap_app. cbn [fmap list_fmap]. split_and!.
    - intros y [Hy| ->]%elem_snoc; [by apply I1|by exists p].
    - intros q y Hq Hy. unfold is_set. destruct (decide ((l_a x, l_b x) = (l_a y, l_b y))) as [->|Hne]; [by rewrite lookup_insert_eq|].
      rewrite lookup_insert_ne by done. apply elem_snoc in Hq as [Hq| ->]; [by eapply I2|]. congruence.
    - intros q. rewrite elem_snoc, <-I3. unfold is_set. destruct (decide ((l_a x, l_b x) = q)) as [<-|Hne];
        [rewrite lookup_insert_eq; cbn; tauto|]. rewrite lookup_insert_ne by done. naive_solver.
    - apply NoDup_app. split; [done|]. split; [|apply NoDup_singleton]. intros q Hq Hx%list_elem_of_singleton.
      apply I3 in Hq. congruence. }
  specialize (Hfold peerings (fun op H => H)). destruct (fold_left f peerings (∅, [])) as [seen out]. cbn [snd].
  destruct Hfold as (I1 & I2 & I3 & I4). split_and!; [| |done].
  - intros x (p & Hp & Hx)%I1. apply (link_of_spec p x Hp) in Hx as (q & va & vb & ? & ? & ? & ? & ->).
    eexists _, _, va, vb. split; [|done]. exists p, q. done.
  - intros a b va vb (p & q & Hm & Ha & Hb & Hpe & -> & ->).
    assert (link_of (index peerings) vpc p = Some (link (VNI (nv_VNI va)) (VNI (nv_VNI vb)) va vb)) as Hl
      by (apply link_of_spec; [apply Hm|]; exists q, va, vb; done).
    apply I2, I3, list_elem_of_fmap in Hl as (l & El & Hl); [|apply Hm]. exists l. split; [done|]. rewrite <-El.
    unfold link, normalize. by case_if.
Qed.
End Consent.

(** The rows of the links: each side sees the other's CIDRs. *)
Lemma desiredPeerNetworks_spec links e : e ∈ desiredPeerNetworks links <->
  exists l, l ∈ links /\ ((pn_Scope e = l_a l /\ pn_Net e = l_b l /\ pn_CIDR e ∈ cidrsB l) \/
                          (pn_Scope e = l_b l /\ pn_Net e = l_a l /\ pn_CIDR e ∈ cidrsA l)).
Proof.
  unfold desiredPeerNetworks. induction links as [|l links IH] using rev_ind; cbn.
  - split; [by intros ?%not_elem_of_nil|]. by intros (? & ?%not_elem_of_nil & _).
  - rewrite fold_left_app. cbn [fold_left]. rewrite !elem_of_app, IH, !list_elem_of_fmap. destruct e as [sc ci ne]. cbn. split.
    + intros [(l' & Hl & Hx)|[(c & [= -> -> ->] & Hc)|(c & [= -> -> ->] & Hc)]].
      * exists l'. rewrite elem_snoc. auto.
      * exists l. rewrite elem_snoc. auto.
      * exists l. rewrite elem_snoc. auto 10.
    + intros (l' & [Hl| ->]%elem_snoc & Hx); [left; by exists l'|].
      destruct Hx as [(-> & -> & Hc)|(-> & -> & Hc)]; [right; left|right; right]; by exists ci.
Qed.

(** ** The own rows *)

(** The VPCs whose CIDRs are published. *)
Definition realized (v : NetVPC) : Prop :=
  nv_Deleting v = false /\ 0 < nv_VNI v < 2 ^ 22 /\ ValidateVPCCIDRs (nv_CIDRs v) = Ok tt.

#[local] Instance result_unit_dec : EqDecision (result unit).
Proof. solve_decision. Defined.
#[local] Instance realized_dec v : Decision (realized v).
Proof. unfold realized. apply _. Defined.

Definition own_rows (v : NetVPC) : list PeerNet :=
  if decide (realized v) then (fun cidr => MkPeerNet (nv_VNI v) cidr (nv_VNI v)) <$> nv_CIDRs v else [].

Lemma compileOwnNetworks_spec ctx vpcs rows : compileOwnNetworks ctx vpcs = Ok rows ->
  rows = flat_map (fun v => default [] (own_rows <$> v)) vpcs.
Proof.
  unfold compileOwnNetworks. case_if; [done|]. rewrite bind_ok. intros ([[n w] d] & Hf & [= <-]).
  change d with (n, w, d).2. revert Hf.
  apply (foldM_invariant _ (fun pre r => r.2 = flat_map (fun v => default [] (own_rows <$> v)) pre)); [done|].
  intros pre ov post [[n1 w1] d1] [[n2 w2] d2] _. cbn [snd]. intros ->. rewrite flat_map_app. cbn [flat_map]. rewrite app_nil_r.
  destruct (ctx n1); [done|]. destruct ov as [v|]; cbn [fmap option_fmap option_map default]; [|intros [= <- <- <-]; by rewrite app_nil_r].
  set (base := flat_map _ pre). assert (forall d', ~ realized v -> d' = base -> d' = base ++ own_rows v) as Hskip.
  { intros d' Hn ->. unfold own_rows. by rewrite decide_False, app_nil_r. }
  cbn [id]. destruct (_ || (2 ^ 22 <=? _)) eqn:Eg.
  { intros [= <- <- <-]. apply Hskip; [|done]. intros (Hd & Hv & _). rewrite Hd in Eg. cbn in Eg. to_prop. lia. }
  case_decide as Hlen.
  { intros [= <- <- <-]. apply Hskip; [|done]. intros (_ & _ & Hv). unfold ValidateVPCCIDRs in Hv.
    by rewrite decide_True in Hv. }
  case_if; [done|]. destruct (ValidateVPCCIDRs (nv_CIDRs v)) as [[]|e] eqn:Ev.
  2:{ intros [= <- <- <-]. apply Hskip; [|done]. intros (_ & _ & ?). congruence. }
  apply orb_false_iff in Eg as [Eg E3]. apply orb_false_iff in Eg as [E1 E2]. to_prop.
  unfold own_rows. rewrite decide_True by (split_and!; [done|lia|lia|done]).
  rewrite bind_ok. intros ([n3 d3] & Hi & [= <- <- <-]). revert Hi. unfold u32. rewrite Z.mod_small by lia.
  change d3 with (n3, d3).2.
  apply (foldM_invariant _ (fun dn r => r.2 = base ++ ((fun c => MkPeerNet (nv_VNI v) c (nv_VNI v)) <$> dn))); [by rewrite app_nil_r|].
  intros dn c rest [n4 d4] [n5 d5] _. cbn [snd]. intros ->. destruct (ctx n4); [done|]. intros [= <- <-]. by rewrite fmap_app, app_assoc.
Qed.

Lemma elem_of_own_rows ctx vpcs rows e : compileOwnNetworks ctx vpcs = Ok rows ->
  e ∈ rows <-> exists v, Some v ∈ vpcs /\ realized v /\ pn_Scope e = nv_VNI v /\ pn_Net e = nv_VNI v /\ pn_CIDR e ∈ nv_CIDRs v.
Proof.
  intros ->%compileOwnNetworks_spec. rewrite list_elem_of_In, in_flat_map. split.
  - intros ([v|] & Hv & He); [|done]. cbn in He. unfold own_rows in He. case_decide; [|done].
    apply list_elem_of_In, list_elem_of_fmap in He as (c & -> & Hc). exists v. split; [by apply list_elem_of_In|done].
  - intros (v & Hv & Hr & Hs & Hn & Hc). exists (Some v). split; [by apply list_elem_of_In|]. cbn. unfold own_rows.
    rewrite decide_True by done. apply list_elem_of_In, list_elem_of_fmap. exists (pn_CIDR e). split; [|done].
    destruct e. cbn in *. congruence.
Qed.

(** ** What the datapath resolves *)

(** The address is in the prefix the text denotes. *)
Definition cidr_covers (text : string) (x : Addr) : Prop := exists p, cidr_prefix text = Some p /\
  leading_match (map_bits p) (be_bytes 16 (enc (paddr p))) (be_bytes 16 (enc x)).

Lemma row_covers e key scope x : lpmKey (pn_Scope e) (pn_CIDR e) = Ok key -> tenant (pn_Scope e) -> tenant scope ->
  covers key (data (MkLpmKey (32 + 128) scope (be_bytes 16 (enc x)))) <-> pn_Scope e = scope /\ cidr_covers (pn_CIDR e) x.
Proof.
  unfold tenant. intros (p & Hp & ->)%lpmKey_spec Hs Hs'. destruct (cidr_prefix_wf _ _ Hp) as [Hw _].
  cbn [data overlayLpmKey_lpm lk_ScopeNet lk_Addr].
  rewrite (covers_head _ (le_bytes 4 (pn_Scope e)) (le_bytes 4 scope) p x); auto using le_bytes_byte.
  unfold cidr_covers. split.
  - intros [Hh Hl]. split; [|by exists p]. apply le_bytes_inj in Hh; [done| |]; change (256 ^ Z.of_nat 4) with (2 ^ 32); lia.
  - intros [-> (q & Hq & Hl)]. rewrite Hp in Hq. injection Hq as <-. done.
Qed.

(** A map that holds exactly the rows answers with a row that covers the address, and with 0
    exactly when there is none. *)
Lemma net_of_rows (networks : gmap overlayLpmKey Z) (rows : list PeerNet) scope x :
  (forall key net, networks !! key = Some net <-> row_of rows key net) ->
  Forall (fun e => tenant (pn_Scope e) /\ pn_Net e <> 0 /\ is_ok (lpmKey (pn_Scope e) (pn_CIDR e)) = true) rows ->
  tenant scope ->
  let n := net_of networks scope (be_bytes 16 (enc x)) in
  (n <> 0 -> exists e, e ∈ rows /\ pn_Scope e = scope /\ pn_Net e = n /\ cidr_covers (pn_CIDR e) x) /\
  (n = 0 -> forall e, e ∈ rows -> pn_Scope e = scope -> ~ cidr_covers (pn_CIDR e) x).
Proof.
  intros Hm Hr Hs n. rewrite Forall_forall in Hr. unfold n, net_of. set (q := data _). pose proof (lpm_find_spec networks q) as Hf.
  destruct (lpm_find networks q) as [v|]; cbn [default].
  - destruct Hf as (k & Hk & Hc & _). apply Hm in Hk as (e & He & Hk & <-). destruct (Hr e He) as (Ht & Hn & _).
    apply (row_covers e k scope x Hk Ht Hs) in Hc as [Hsc Hc]. split; [|done]. intros _. by exists e.
  - split; [done|]. intros _ e He Hsc Hc. destruct (Hr e He) as (Ht & _ & Hok).
    destruct (lpmKey (pn_Scope e) (pn_CIDR e)) as [k|] eqn:Ek; [|done].
    destruct (lpm_lookup_exists networks q k (pn_Net e)) as (v & Hv); [apply Hm; by exists e|by apply (row_covers e)|].
    by apply (Hf v).
Qed.

Lemma both_parts ownrows peerrows s :
  part_exact true ownrows s -> part_exact false peerrows s ->
  forall key net, Networks s !! key = Some net <-> row_of (ownrows ++ peerrows) key net.
Proof.
  unfold part_exact, rows_ok. rewrite !Forall_forall. intros [Hoe Ho] [Hpe Hp] key net.
  assert (row_of (ownrows ++ peerrows) key net <-> row_of ownrows key net \/ row_of peerrows key net) as ->.
  { unfold row_of. split.
    - intros (e & [He|He]%elem_of_app & ?); eauto.
    - intros [(e & ? & ?)|(e & ? & ?)]; exists e; rewrite elem_of_app; auto. }
  destruct (own_row (lk_ScopeNet key) net) eqn:E.
  - rewrite (Ho key net E). split; [auto|]. intros [?|(e & He & Hk & <-)]; [done|].
    rewrite (lpmKey_scope _ _ _ Hk) in E. apply Hpe in He as [He _]. congruence.
  - rewrite (Hp key net E). split; [auto|]. intros [(e & He & Hk & <-)|?]; [|done].
    rewrite (lpmKey_scope _ _ _ Hk) in E. apply Hoe in He as [He _]. congruence.
Qed.

(** ** Peering, end to end *)

Section Peering.
Context `{Runtime} (cap_networks cap_peers : nat).
Context (IsDNS1123Label IsDNS1123Subdomain : string -> bool).
Context (peerings : list (option VPCPeering)) (vpc : string -> string -> option NetVPC).
Let links := desiredPeerLinks IsDNS1123Label IsDNS1123Subdomain peerings vpc.
Let consents := consents IsDNS1123Label IsDNS1123Subdomain peerings vpc.

(** The two networks are peered, in either order of the halves. *)
Definition peered (a b : Z) (va vb : NetVPC) : Prop := consents a b va vb \/ consents b a vb va.

(** No two eligible VPCs share a VNI. *)
Definition vnis_unique : Prop := forall r r' v v',
  eligible (lookup_ref vpc r) = Some v -> eligible (lookup_ref vpc r') = Some v' -> nv_VNI v = nv_VNI v' -> v = v'.

Lemma eligible_spec o v : eligible o = Some v ->
  o = Some v /\ nv_Deleting v = false /\ 100 <= nv_VNI v < 2 ^ 22 /\ VNI (nv_VNI v) = nv_VNI v.
Proof.
  unfold eligible. destruct o as [w|]; [|done]. destruct (_ && _) eqn:E; [|done]. intros [= <-].
  apply andb_prop in E as [E _]. apply andb_prop in E as [Hd Hv]. apply negb_true_iff in Hd.
  unfold ValidVNI in Hv. apply andb_prop in Hv as [H1 H2]. unfold VNI, FirstVNI, LastVNI, u32 in *.
  change (Z.shiftl 1 22 - 1) with 4194303 in *. change (2 ^ 22) with 4194304. to_prop. split_and!; [done|done|lia|lia|].
  assert ((nv_VNI w <? 100) || (4194303 <? nv_VNI w) = false) as -> by (apply orb_false_iff; split; apply Z.ltb_ge; lia).
  apply Z.mod_small. change (2 ^ 32) with 4294967296. lia.
Qed.

Lemma consents_nets a b va vb : consents a b va vb ->
  (exists r, eligible (lookup_ref vpc r) = Some va) /\ (exists r, eligible (lookup_ref vpc r) = Some vb) /\
  a = nv_VNI va /\ b = nv_VNI vb /\ tenant a /\ tenant b /\ a <> 0 /\ b <> 0.
Proof.
  intros (p & q & _ & Ha & Hb & _ & -> & ->). destruct (eligible_spec _ _ Ha) as (_ & _ & ? & ->).
  destruct (eligible_spec _ _ Hb) as (_ & _ & ? & ->). unfold tenant. split_and!; eauto; lia.
Qed.

Lemma links_ordered : Forall (fun l => l_a l <= l_b l) links.
Proof.
  apply Forall_forall. intros l Hl. apply (desiredPeerLinks_spec IsDNS1123Label IsDNS1123Subdomain peerings vpc) in Hl as (a & b & va & vb & _ & ->).
  unfold link. case_if; to_prop; cbn; lia.
Qed.

Lemma want_consent p : is_set (want_pairs links) p = true -> exists va vb, consents p.1 p.2 va vb \/ consents p.2 p.1 va vb.
Proof.
  intros (l & Hl & <-)%(fold_set_spec (fun l => (l_a l, l_b l))).
  apply (desiredPeerLinks_spec IsDNS1123Label IsDNS1123Subdomain peerings vpc) in Hl as (a & b & va & vb & Hc & ->).
  exists va, vb. unfold link. case_if; cbn; auto.
Qed.

Lemma wanted_direction x : is_set (want_pairs links) (normalize x) = true -> exists va vb, peered x.1 x.2 va vb.
Proof.
  intros (va & vb & Hc)%want_consent. destruct x as [a b]. unfold normalize, peered in *.
  case_if; cbn in *; destruct Hc as [Hc|Hc]; eauto.
Qed.

(** A peer row carries a CIDR of a peered VPC. *)
Lemma peer_row e : e ∈ desiredPeerNetworks links ->
  exists va vb, peered (pn_Scope e) (pn_Net e) va vb /\ pn_CIDR e ∈ nv_CIDRs vb.
Proof.
  intros (l & Hl & Hx)%desiredPeerNetworks_spec.
  apply (desiredPeerLinks_spec IsDNS1123Label IsDNS1123Subdomain peerings vpc) in Hl as (a & b & va & vb & Hc & ->).
  unfold link, peered in *. case_if; cbn in Hx; destruct Hx as [(-> & -> & Hin)|(-> & -> & Hin)]; eauto.
Qed.

Lemma row_peer a b va vb c : vnis_unique -> peered a b va vb -> c ∈ nv_CIDRs vb ->
  MkPeerNet a c b ∈ desiredPeerNetworks links.
Proof.
  intros Hu Hp Hc. apply desiredPeerNetworks_spec.
  assert (exists l, l ∈ links /\ (l_a l, l_b l) = normalize (a, b)) as (l & Hl & En).
  { destruct (desiredPeerLinks_spec IsDNS1123Label IsDNS1123Subdomain peerings vpc) as (_ & Hin & _).
    destruct Hp as [Hp|Hp]; [by eapply Hin|]. rewrite normalize_swap. by eapply Hin. }
  exists l. split; [done|].
  apply (desiredPeerLinks_spec IsDNS1123Label IsDNS1123Subdomain peerings vpc) in Hl as (a' & b' & va' & vb' & Hc' & ->).
  apply consents_nets in Hc' as ([r1 H1] & [r2 H2] & -> & -> & _).
  assert ((exists r, eligible (lookup_ref vpc r) = Some va) /\ (exists r, eligible (lookup_ref vpc r) = Some vb) /\ a = nv_VNI va /\ b = nv_VNI vb)
    as ([r3 H3] & [r4 H4] & -> & ->) by (destruct Hp as [Hp|Hp]; apply consents_nets in Hp; naive_solver).
  unfold link, normalize in *. repeat case_if; cbn in *; to_prop; simplify_eq.
  all: repeat match goal with
    | Ha : eligible (lookup_ref vpc ?r) = Some ?v, Hb : eligible (lookup_ref vpc ?r') = Some ?v', E : nv_VNI ?v = nv_VNI ?v' |- _ =>
        pose proof (Hu r r' v v' Ha Hb E); subst; clear E end; auto.
Qed.

(** A wanted pair has a direction after the pass. *)
Lemma linked_after s0 s a b : (forall x, peer_goal links s0 s x) -> is_set (want_pairs links) (normalize (a, b)) = true ->
  is_Some (PeerPairs s !! (a, b)) \/ is_Some (PeerPairs s !! (b, a)).
Proof.
  intros Hx Hw. assert (linked s0 (normalize (a, b)) \/ ~ linked s0 (normalize (a, b))) as [Hl|Hl].
  { destruct (PeerPairs s0 !! (a, b)) eqn:E1; [left; exists (a, b); eauto|].
    destruct (PeerPairs s0 !! (b, a)) eqn:E2; [left; exists (b, a); rewrite normalize_swap; eauto|].
    right. intros (x & En & [v Hv]). pose proof (normalize_le (a, b)) as Hle.
    destruct (normalize (a, b)) as [u z] eqn:Eu. cbn in Hle. apply (normalize_fiber _ _ _ Hle) in En, Eu.
    destruct En as [-> | ->], Eu as [[= -> ->]|[= -> ->]]; congruence. }
  - destruct Hl as (x & En & Hs). destruct (Hx x) as (_ & Hg & _). rewrite En in Hg.
    assert (is_Some (PeerPairs s !! x)) as Hsx.
    { rewrite Hg; [done|done|]. exists x. done. }
    pose proof (normalize_le (a, b)) as Hle. destruct (normalize (a, b)) as [u z] eqn:Eu. cbn in Hle.
    apply (normalize_fiber _ _ _ Hle) in En, Eu. destruct En as [-> | ->], Eu as [[= -> ->]|[= -> ->]]; auto.
  - left. destruct (Hx (a, b)) as (_ & _ & Hg). rewrite Hg; [by eexists|done|done].
Qed.

Lemma rows_tenant ctx vpcs own s :
  compileOwnNetworks ctx vpcs = Ok own -> part_exact true own s -> part_exact false (desiredPeerNetworks links) s ->
  Forall (fun e => tenant (pn_Scope e) /\ pn_Net e <> 0 /\ is_ok (lpmKey (pn_Scope e) (pn_CIDR e)) = true)
    (own ++ desiredPeerNetworks links).
Proof.
  unfold part_exact, rows_ok. rewrite !Forall_forall. intros Hown [Ho _] [Hp _] e [He|He]%elem_of_app.
  - destruct (Ho e He) as [_ Hk]. apply (elem_of_own_rows _ _ _ _ Hown) in He as (v & _ & (_ & Hv & _) & Hs & Hn & _).
    unfold tenant. rewrite Hs, Hn in *. split_and!; [lia|lia|lia|done].
  - destruct (Hp e He) as [_ Hk]. apply peer_row in He as (va & vb & Hpe & _).
    split_and!; [| |done]; destruct Hpe as [Hpe|Hpe]; by apply consents_nets in Hpe as (_ & _ & _ & _ & ? & ? & ? & ?).
Qed.

(** What a pass may have done at any point: peers and peer rows are old or consented to. *)
Definition contained (s s' : NtKern) : Prop :=
  (forall a b, is_Some (PeerPairs s' !! (a, b)) -> is_Some (PeerPairs s !! (a, b)) \/ exists va vb, peered a b va vb) /\
  same_part true s s' /\
  (forall key net, Networks s' !! key = Some net -> Networks s !! key = Some net \/
     exists va vb c, peered (lk_ScopeNet key) net va vb /\ c ∈ nv_CIDRs vb /\ lpmKey (lk_ScopeNet key) c = Ok key).

Lemma row_contained key net : row_of (desiredPeerNetworks links) key net ->
  exists va vb c, peered (lk_ScopeNet key) net va vb /\ c ∈ nv_CIDRs vb /\ lpmKey (lk_ScopeNet key) c = Ok key.
Proof.
  intros (e & (va & vb & Hp & Hc)%peer_row & Hk & <-). rewrite (lpmKey_scope _ _ _ Hk). by exists va, vb, (pn_CIDR e).
Qed.

Lemma peer_goal_contained s s' a b : peer_goal links s s' (a, b) -> is_Some (PeerPairs s' !! (a, b)) ->
  exists va vb, peered a b va vb.
Proof.
  intros (H1 & _ & _) Hs. destruct (is_set (want_pairs links) (normalize (a, b))) eqn:E.
  - by apply wanted_direction in E.
  - rewrite H1 in Hs by done. by destruct Hs.
Qed.

(** Transport never outruns consent: whatever call fails, at every state of a pass over
    the peers and their rows a peer direction or a row is an old one or stands for two
    distinct live peerings that name each other between eligible VPCs with disjoint CIDRs,
    and the rows of the VPCs' own CIDRs are never touched. *)
Theorem peer_transport_contained s :
  wp (syncPeerTransport cap_networks cap_peers links) (contained s) (fun _ s' => contained s s') s.
Proof.
  assert (forall s', transport_between links s s' -> contained s s') as Hb.
  { intros s' (Hx & Hs & Hr). split_and!; [|done|].
    - intros a b Hab. destruct (Hx (a, b)) as [E|E]; [rewrite E in Hab; by left|right; by eapply peer_goal_contained].
    - intros key net Hk. apply Hr in Hk as [?|Hk]; [by left|right; by apply row_contained]. }
  eapply wp_mono; [by apply wp_syncPeerTransport, links_ordered|auto|].
  intros [[]|e] s'; [|auto]. intros (Hx & Hs & Hr). split_and!; [|done|].
  - intros a b Hab. right. by eapply peer_goal_contained.
  - intros key net Hk. destruct (own_row (lk_ScopeNet key) net) eqn:E.
    + left. by apply Hs.
    + right. apply row_contained. by apply Hr.
Qed.

(** The network [n] answers for [x] in [scope]: the scope itself, or a peer of it. *)
Definition answers (vpcs : list (option NetVPC)) (scope n : Z) (x : Addr) : Prop :=
  (n = scope /\ exists v c, Some v ∈ vpcs /\ realized v /\ nv_VNI v = scope /\ c ∈ nv_CIDRs v /\ cidr_covers c x) \/
  (exists va vb c, peered scope n va vb /\ c ∈ nv_CIDRs vb /\ cidr_covers c x).

(** C8. Peering end to end: after the two passes over the maps succeeded, traffic is
    permitted between two networks only under mutual consent, and an address looked up in a
    network resolves to the network itself when one of its CIDRs holds it, to a peer that
    holds it, and to no network exactly when neither does. *)
Theorem peering_enforced ctx vpcs own w :
  compileOwnNetworks ctx vpcs = Ok own -> vnis_unique ->
  let run := (_ ← SyncOwnNetworks cap_networks own; syncPeerTransport cap_networks cap_peers links) w in
  run.2 = Ok tt ->
  (forall a b, is_Some (PeerPairs (kern run.1) !! (a, b)) -> exists va vb, peered a b va vb) /\
  (forall a b va vb, peered a b va vb ->
     is_Some (PeerPairs (kern run.1) !! (a, b)) \/ is_Some (PeerPairs (kern run.1) !! (b, a))) /\
  (forall scope x, tenant scope ->
     let n := net_of (Networks (kern run.1)) scope (be_bytes 16 (enc x)) in
     (n <> 0 -> answers vpcs scope n x) /\ (n = 0 -> forall n', ~ answers vpcs scope n' x)).
Proof.
  intros Hown Hu run Hok.
  assert (wp (_ ← SyncOwnNetworks cap_networks own; syncPeerTransport cap_networks cap_peers links) (fun _ => True)
    (fun r s => r = Ok tt -> part_exact true own s /\ part_exact false (desiredPeerNetworks links) s /\
       exists s0, forall x, peer_goal links s0 s x) (kern w)) as Hw.
  { apply wp_bind, wp_syncNetworkPartition; [done|]. intros s1 _ _ Hs1.
    eapply wp_mono; [by apply wp_syncPeerTransport, links_ordered|done|]. intros [[]|] s2; [|done].
    intros (Hx & Hs & Hr) _. split; [by eapply same_part_exact|]. split; [done|]. by exists s1. }
  destruct (Hw w eq_refl) as [Hw' _]. fold run in Hw'. destruct (Hw' Hok) as (Ho & Hp & s0 & Hx). clear Hw Hw'.
  set (s := kern run.1) in *. clearbody s. split_and!.
  - intros a b. by apply (peer_goal_contained s0).
  - intros a b va vb Hab.
    assert (is_set (want_pairs links) (normalize (a, b)) = true) as Hs.
    { apply (fold_set_spec (fun l => (l_a l, l_b l))).
      destruct (desiredPeerLinks_spec IsDNS1123Label IsDNS1123Subdomain peerings vpc) as (_ & Hin & _).
      destruct Hab as [Hab|Hab]; [by eapply Hin|rewrite normalize_swap; by eapply Hin]. }
    by apply (linked_after s0).
  - intros scope x Ht n.
    pose proof (net_of_rows (Networks s) (own ++ desiredPeerNetworks links) scope x (both_parts _ _ _ Ho Hp)) as Hn.
    destruct Hn as [Hn1 Hn2]; [by eapply rows_tenant|done|]. split.
    + intros Hnz. destruct (Hn1 Hnz) as (e & [He|He]%elem_of_app & <- & Hnet & Hc).
      * left. apply (elem_of_own_rows _ _ _ _ Hown) in He as (v & Hv & Hr & Hs & Hn' & Hin). split; [by rewrite Hs, <-Hn', Hnet|]. exists v, (pn_CIDR e). done.
      * right. apply peer_row in He as (va & vb & Hpe & Hin). exists va, vb, (pn_CIDR e). unfold n. by rewrite <-Hnet.
    + intros Hz n' [(-> & v & c & Hv & Hr & Hs & Hin & Hc)|(va & vb & c & Hpe & Hin & Hc)].
      * apply (Hn2 Hz (MkPeerNet scope c scope)); [|done|done]. apply elem_of_app. left.
        apply (elem_of_own_rows _ _ _ _ Hown). by exists v.
      * apply (Hn2 Hz (MkPeerNet scope c n')); [|done|done]. apply elem_of_app. right. by eapply row_peer.
Qed.
End Peering.

(** The transport of a boundary is reported complete only when each peer it names is linked. *)
Lemma boundaryTransportComplete_spec vni rules byRef links : boundaryTransportComplete vni rules byRef links = true ->
  forall ref, ref ∈ rules -> exists p, byRef !! ref = Some p /\
    is_set (want_pairs links) (normalize (VNI vni, VNI (nv_VNI p))) = true.
Proof.
  unfold boundaryTransportComplete. case_if; [done|]. rewrite forallb_forall. intros Hf ref Hr.
  apply list_elem_of_In, Hf in Hr. destruct (byRef !! ref) as [p|]; [|done]. exists p. split; [done|].
  case_if; [done|]. destruct (normalize _) as [a b]. apply (fold_set_spec (fun l => (l_a l, l_b l))).
  apply existsb_exists in Hr as (l & Hl & Hab). apply andb_prop in Hab as [Ha Hb]. to_prop.
  exists l. split; [by apply list_elem_of_In|]. congruence.
Qed.

(** ** A run *)

Definition any_name (_ : string) : bool := true.
Definition demo_vpcs (name : string) : option NetVPC :=
  if decide (name = "a") then Some (MkNetVPC false 100 ["10.0.0.0/16"])
  else if decide (name = "b") then Some (MkNetVPC false 101 ["10.1.0.0/16"; "fd00:b::/64"])
  else if decide (name = "c") then Some (MkNetVPC false 102 ["10.1.0.0/16"])
  else None.
Definition demo_vpc (ns name : string) : option NetVPC := if decide (ns = "t") then demo_vpcs name else None.
Definition half (ptr : nat) (local peer : string) : option VPCPeering := Some (MkVPCPeering ptr "t" local (MkVPCRef "t" peer) false).

(** [a] and [b] name each other; [c] is named by [b] alone. *)
Definition demo_peerings : list (option VPCPeering) := [half 1 "a" "b"; half 2 "b" "a"; half 3 "b" "c"; None].
Definition demo_links : list peerLink := desiredPeerLinks any_name any_name demo_peerings demo_vpc.
Definition empty_nt : world NtKern := MkWorld 0 (MkNt ∅ ∅) [].
Definition demo_own : list (option NetVPC) := [demo_vpcs "a"; demo_vpcs "b"; demo_vpcs "c"].

Example demo_links_value : demo_links = [MkPeerLink 100 101 ["10.0.0.0/16"] ["10.1.0.0/16"; "fd00:b::/64"]].
Proof. vm_compute. reflexivity. Qed.

(** The run the theorem speaks about succeeds, with the two networks peered. *)
Lemma peering_enforced_witness : exists own s,
  compileOwnNetworks (fun _ => None) demo_own = Ok own /\ PeerPairs s = {[(100, 101) := 1; (101, 100) := 1]} /\
  (forall a b, is_Some (PeerPairs s !! (a, b)) -> exists va vb, peered any_name any_name demo_peerings demo_vpc a b va vb) /\
  (forall scope x, tenant scope ->
     let n := net_of (Networks s) scope (be_bytes 16 (enc x)) in
     n <> 0 -> answers any_name any_name demo_peerings demo_vpc demo_own scope n x).
Proof.
  destruct (compileOwnNetworks (fun _ => None) demo_own) as [own|] eqn:Eo; [|by vm_compute in Eo].
  assert (vnis_unique demo_vpc) as Hu.
  { unfold vnis_unique, lookup_ref, demo_vpc, demo_vpcs, eligible. intros r r' v v'.
    repeat case_decide; try done; repeat case_if; try done; intros [= <-] [= <-]; cbn; done. }
  pose proof (peering_enforced (H := quiet_runtime) 16 16 any_name any_name demo_peerings demo_vpc
    (fun _ => None) demo_own own empty_nt Eo Hu) as T. cbv zeta in T.
  set (run := _ empty_nt) in T. assert (run.2 = Ok tt /\ PeerPairs (kern run.1) = {[(100, 101) := 1; (101, 100) := 1]}) as [Hok Hp].
  { unfold run. clear T run. injection Eo as <-. split; vm_compute; reflexivity. }
  destruct (T Hok) as (T1 & T2 & T3). exists own, (kern run.1). split_and!; [done|done|done|].
  intros scope x Ht n Hn. by apply T3.
Defined.

(** A peering whose second direction was not written is not completed by a later pass: the
    pass sees the pair as present. *)
Example half_peering_stays :
  let R := faulty_runtime 5 in
  let pass := syncPeerTransport (H := R) 16 16 demo_links in
  let '(w, r) := pass empty_nt in
  let '(w', r') := pass w in
  is_ok r = false /\ PeerPairs (kern w) = {[(100, 101) := 1]} /\
  r' = Ok tt /\ PeerPairs (kern w') = {[(100, 101) := 1]}.
Proof. vm_compute. split_and!; reflexivity. Qed.

(** Two peers of one VPC with the same CIDR make the whole snapshot of peer rows invalid,
    the rows of every other peering of the node with it. *)
Example colliding_peers_block_all :
  let links := desiredPeerLinks any_name any_name
    [half 1 "a" "b"; half 2 "b" "a"; half 3 "a" "c"; half 4 "c" "a"] demo_vpc in
  length links = 2%nat /\
  network_want 16 (desiredPeerNetworks links) false = Err "conflicting scoped network destinations".
Proof. vm_compute. split; reflexivity. Qed.
