(* ===== verification/Services.v ===== *)
(** * Services inside a VPC (cmd/agent/servicevip_compile.go, internal/serviceidentity,
      datapath/services.go)

    The agent compiles the ServiceVIPs into entries, a virtual address and port of a network
    with at most sixteen backends, and keeps the tenants' part of the [svc_vips] map equal to
    them.  The entries of network 0 belong to another program and are never touched. *)
From S2P Require Import Prelude GoText GoNet AddrText AddrMap Grants ClaimNames KernelMap.
Local Open Scope Z_scope.

(** ** The identity of a VIP *)

(** [VPC] with the fields the services read, api/sdn/v1alpha1/vpc_types.go:35-50. *)
Record SvcVPC := MkSvcVPC { sv_Namespace : string; sv_Name : string; sv_UID : string; sv_Deleting : bool; sv_VNI : Z }.

(** [AnnotationServiceUID], api/sdn/v1alpha1/labels.go:78-78. *)
Definition AnnotationServiceUID : string := "sdn.cozystack.io/service-uid".
(** [AnnotationVPCUID], api/sdn/v1alpha1/labels.go:79-79. *)
Definition AnnotationVPCUID : string := "sdn.cozystack.io/vpc-uid".

(** [MaxPorts], internal/serviceidentity/budget.go:4-4. *)
Definition MaxPorts : Z := 4096.
(** [MaxBackends], internal/serviceidentity/budget.go:5-5. *)
Definition MaxBackends : Z := 4096.
(** [MaxWork], internal/serviceidentity/budget.go:6-6. *)
Definition MaxWork : Z := 65536.
(** [MaxSnapshotWork], internal/serviceidentity/budget.go:7-7. *)
Definition MaxSnapshotWork : Z := Z.shiftl 1 20.
(** [MaxEntries], internal/serviceidentity/budget.go:8-8. *)
Definition MaxEntries : Z := 16384.

(** [MatchesVPC], internal/serviceidentity/vip.go:17-23. *)
Definition MatchesVPC (vip : option ServiceVIP) (vpc : option SvcVPC) : bool :=
  match vip, vpc with
  | Some vip, Some vpc =>
      negb (bool_decide (sv_UID vpc = EmptyString)) && (0 <? sv_VNI vpc) && (sv_VNI vpc <? Z.shiftl 1 22) &&
      negb (m_Deleting (v_Meta vip)) && negb (sv_Deleting vpc) &&
      bool_decide (refNamespace (v_VPCRef (v_Spec vip)) = sv_Namespace vpc) &&
      bool_decide (refName (v_VPCRef (v_Spec vip)) = sv_Name vpc) &&
      bool_decide (at_key (m_Annotations (v_Meta vip)) AnnotationVPCUID = sv_UID vpc) &&
      bool_decide (v_Name vip = ServiceVIPName (sv_VNI vpc) (v_IP (v_Spec vip)))
  | _, _ => false
  end.

(** [MatchesPortVPC], internal/serviceidentity/port.go:12-18. *)
Definition MatchesPortVPC (port : option Port) (vpc : option SvcVPC) : bool :=
  match port, vpc with
  | Some port, Some vpc =>
      if bool_decide (sv_UID vpc = EmptyString) || m_Deleting (p_Meta port) || sv_Deleting vpc ||
         (sv_VNI vpc <=? 0) || (Z.shiftl 1 22 <=? sv_VNI vpc) ||
         negb (bool_decide (refNamespace (s_VPCRef (p_Spec port)) = sv_Namespace vpc)) ||
         negb (bool_decide (refName (s_VPCRef (p_Spec port)) = sv_Name vpc))
      then false
      else
        let ip := ParseIP (s_IP (p_Spec port)) in
        negb (bool_decide (ip = [])) && negb (IsReserved ip) &&
        bool_decide (IP_String ip = s_IP (p_Spec port)) &&
        bool_decide (p_Name port = PortName (sv_VNI vpc) (s_IP (p_Spec port)))
  | _, _ => false
  end.

(** ** Entries *)

(** [SvcMaxBackends], datapath/services.go:32-32. *)
Definition SvcMaxBackends : nat := 16.
(** [SvcBackend], datapath/services.go:35-38. *)
Record SvcBackend := MkSvcBackend { be_IP : IP; be_Port : Z }.
(** [svcFAffinity], datapath/services.go:41-41. *)
Definition svcFAffinity : Z := 1.
(** [SvcEntry], datapath/services.go:45-52. *)
Record SvcEntry := MkSvcEntry {
  se_Net : Z; se_VIP : IP; se_Proto : Z; se_Port : Z; se_Backends : list SvcBackend; se_Affinity : bool
}.

(** [servicePortKey], cmd/agent/servicevip_compile.go:14-17. *)
Abbreviation servicePortKey := (string * Z)%type.

(** [compileServiceVIPs], the budgets, cmd/agent/servicevip_compile.go:20-40. *)
Definition vip_budget (all : list ServiceVIP) : result unit :=
  if MaxWork <? Z.of_nat (length all) then Err "ServiceVIP object budget exceeded"
  else
    _ ← foldM (fun '(work, ports) sv =>
      let spec_ports := Z.of_nat (length (v_Ports (v_Spec sv))) in
      let backends := Z.of_nat (length (v_Backends sv)) in
      if (MaxPorts <? spec_ports) || (MaxBackends <? backends) then Err "ServiceVIP exceeds port/backend budget"
      else
        let ports := ports + spec_ports in
        work ← foldM (fun work b =>
          let work := work + Z.of_nat (length (bk_Ports b)) in
          if MaxSnapshotWork <? work then Err "ServiceVIP input work budget exceeded" else Ok work)
          (work + (spec_ports + backends)) (v_Backends sv);
        if (MaxSnapshotWork <? work) || (MaxEntries <? ports) then Err "ServiceVIP snapshot budget exceeded"
        else mret (work, ports)) (Z.of_nat (length all), 0) all;
    mret tt.

(** [compileServiceVIPs], the declared ports, cmd/agent/servicevip_compile.go:51-57. *)
Definition declared_ports (ports : list VIPPort) : gmap servicePortKey (list SvcBackend) :=
  fold_left (fun byPort p =>
    if bool_decide (vp_Protocol p = "TCP" \/ vp_Protocol p = "UDP") && (0 <? vp_Port p) && (vp_Port p <=? 65535)
    then <[(vp_Protocol p, vp_Port p) := []]> byPort else byPort) ports ∅.

(** [compileServiceVIPs], one port of a backend into its bucket, cmd/agent/servicevip_compile.go:63-76. *)
Definition add_backend (ip : IP) (byPort : gmap servicePortKey (list SvcBackend)) (bp : VIPBackendPort)
    : gmap servicePortKey (list SvcBackend) :=
  let key := (bp_Protocol bp, bp_Port bp) in
  match byPort !! key with
  | None => byPort
  | Some bucket =>
      if (bp_TargetPort bp <=? 0) || (65535 <? bp_TargetPort bp) then byPort
      else if (length bucket =? SvcMaxBackends)%nat then byPort
      else <[key := bucket ++ [MkSvcBackend ip (u16 (bp_TargetPort bp))]]> byPort
  end.

(** [compileServiceVIPs], the buckets of one VIP, cmd/agent/servicevip_compile.go:51-78. *)
Definition buckets (sv : ServiceVIP) : gmap servicePortKey (list SvcBackend) :=
  fold_left (fun byPort b =>
    let ip := ParseIP (bk_IP b) in
    if decide (ip = []) then byPort else fold_left (add_backend ip) (bk_Ports b) byPort)
    (v_Backends sv) (declared_ports (v_Ports (v_Spec sv))).

(** [compileServiceVIPs], the entries of one VIP, cmd/agent/servicevip_compile.go:43-93. *)
Definition vip_entries (lookup : VPCRef -> option SvcVPC) (sv : ServiceVIP) : list SvcEntry :=
  match lookup (v_VPCRef (v_Spec sv)) with
  | None => []
  | Some vpc =>
      if negb (MatchesVPC (Some sv) (Some vpc)) ||
         bool_decide (at_key (m_Annotations (v_Meta sv)) AnnotationServiceUID = EmptyString) then []
      else
        let vip := ParseIP (v_IP (v_Spec sv)) in
        if decide (vip = []) then []
        else
          let byPort := buckets sv in
          fold_left (fun entries p =>
            match byPort !! (vp_Protocol p, vp_Port p) with
            | None => entries
            | Some backends =>
                let proto := if decide (vp_Protocol p = "UDP") then 17 else 6 in
                entries ++ [MkSvcEntry (u32 (sv_VNI vpc)) vip proto (u16 (vp_Port p)) backends
                              (bool_decide (v_SessionAffinity (v_Spec sv) = "ClientIP"))]
            end) (v_Ports (v_Spec sv)) []
  end.

(** [compileServiceVIPs]; a VPC that is not found is [None], cmd/agent/servicevip_compile.go:19-96. *)
Definition compileServiceVIPs (all : list ServiceVIP) (lookup : VPCRef -> option SvcVPC) : result (list SvcEntry) :=
  _ ← vip_budget all;
  mret (fold_left (fun entries sv => entries ++ vip_entries lookup sv) all []).

(** ** The map *)

(** [overlaySvcKey], datapath/overlay_bpfel.go:421-428. *)
Record overlaySvcKey := MkSvcKey { sk_Net : Z; sk_Vip : list Z; sk_Proto : Z; sk_Port : Z }.
(** [overlaySvcVal]; the array of backends holds an address and a port each,
    datapath/overlay_bpfel.go:450-460. *)
Record overlaySvcVal := MkSvcVal { sx_N : Z; sx_Flags : Z; sx_Be : list (list Z * Z) }.

#[export] Instance overlaySvcKey_eq_dec : EqDecision overlaySvcKey. Proof. solve_decision. Defined.
#[export] Instance overlaySvcKey_countable : Countable overlaySvcKey.
Proof.
  apply (inj_countable' (fun k => (sk_Net k, sk_Vip k, sk_Proto k, sk_Port k)) (fun '(a, b, c, d) => MkSvcKey a b c d)).
  by intros [].
Defined.
#[export] Instance overlaySvcVal_eq_dec : EqDecision overlaySvcVal. Proof. solve_decision. Defined.

(** [SyncServiceVIPs], the backends of an entry, datapath/services.go:67-81. *)
Definition svc_backends (bs : list SvcBackend) : result (list (list Z * Z)) :=
  foldM (fun be b => a ← addr128 (be_IP b); mret (be ++ [(a, htons (be_Port b))])) [] (take SvcMaxBackends bs).

Definition no_backend : list Z * Z := (replicate 16 0, 0).

(** [SyncServiceVIPs], an entry of the map, datapath/services.go:62-85. *)
Definition svc_entry (e : SvcEntry) : result (overlaySvcKey * overlaySvcVal) :=
  vip ← addr128 (se_VIP e);
  be ← svc_backends (se_Backends e);
  mret (MkSvcKey (se_Net e) vip (se_Proto e) (htons (se_Port e)),
        MkSvcVal (Z.of_nat (length be)) (if se_Affinity e then svcFAffinity else 0)
          (be ++ replicate (SvcMaxBackends - length be) no_backend)).

Section Sync.
Context `{Runtime} (cap : nat).
Context {S : Type} (L : Lens S (gmap overlaySvcKey overlaySvcVal)).

Definition tenants_vip (e : overlaySvcKey * overlaySvcVal) : Prop := sk_Net e.1 <> 0.
#[local] Instance tenants_vip_dec e : Decision (tenants_vip e).
Proof. unfold tenants_vip. apply _. Defined.

Definition svc_want (entries : list SvcEntry) : result (gmap overlaySvcKey overlaySvcVal) :=
  foldM (fun want e => '(key, val) ← svc_entry e; putDesired cap want key val) ∅ entries.

(** [SyncServiceVIPs], datapath/services.go:58-118. *)
Definition SyncServiceVIPs (entries : list SvcEntry) : M S unit :=
  want ← lift (svc_want entries);
  current ← Iterate L;
  let stale := (filter (fun e => tenants_vip e /\ want !! e.1 = None) current).*1 in
  _ ← forM (DeleteIfExists L) stale;
  puts ← arrange want;
  forM (fun '(k, v) => Put L cap k v) puts.
End Sync.

(** ** The buckets *)

(** The backends offered for a port, in order. *)
Definition offers_of (ip : IP) (key : servicePortKey) (ports : list VIPBackendPort) : list SvcBackend :=
  omap (fun bp => if decide ((bp_Protocol bp, bp_Port bp) = key /\ 0 < bp_TargetPort bp <= 65535)
                  then Some (MkSvcBackend ip (bp_TargetPort bp)) else None) ports.
Definition offers (sv : ServiceVIP) (key : servicePortKey) : list SvcBackend :=
  flat_map (fun b => let ip := ParseIP (bk_IP b) in
    if decide (ip = []) then [] else offers_of ip key (bk_Ports b)) (v_Backends sv).

(** A port the VIP declares. *)
Definition declares (sv : ServiceVIP) (key : servicePortKey) : Prop :=
  (key.1 = "TCP" \/ key.1 = "UDP") /\ 0 < key.2 <= 65535 /\
  exists p, p ∈ v_Ports (v_Spec sv) /\ (vp_Protocol p, vp_Port p) = key.

Lemma declared_ports_spec ports key :
  match declared_ports ports !! key with
  | Some l => l = [] /\ (key.1 = "TCP" \/ key.1 = "UDP") /\ 0 < key.2 <= 65535 /\ exists p, p ∈ ports /\ (vp_Protocol p, vp_Port p) = key
  | None => ~ ((key.1 = "TCP" \/ key.1 = "UDP") /\ 0 < key.2 <= 65535 /\ exists p, p ∈ ports /\ (vp_Protocol p, vp_Port p) = key)
  end.
Proof.
  unfold declared_ports. induction ports as [|p ports IH] using rev_ind; cbn.
  { rewrite lookup_empty. by intros (_ & _ & p & ?%not_elem_of_nil & _). }
  rewrite fold_left_app. cbn [fold_left]. set (m := fold_left _ ports ∅) in *. clearbody m.
  destruct (_ && _) eqn:E.
  - apply andb_prop in E as [E E3]. apply andb_prop in E as [E1 E2]. apply bool_decide_eq_true in E1. to_prop.
    destruct (decide ((vp_Protocol p, vp_Port p) = key)) as [<-|Hne].
    + rewrite lookup_insert_eq. split_and!; [done|done|done|done|]. exists p. set_solver.
    + rewrite lookup_insert_ne by done. destruct (m !! key) as [l|].
      * destruct IH as (? & ? & ? & q & ? & ?). split_and!; try done; try lia. exists q. set_solver.
      * intros (? & ? & q & [Hq|Hq%list_elem_of_singleton]%elem_of_app & Hk); [|congruence]. apply IH. eauto.
  - destruct (m !! key) as [l|].
    + destruct IH as (? & ? & ? & q & ? & ?). split_and!; try done; try lia. exists q. set_solver.
    + intros (Hp & Hr & q & [Hq|Hq%list_elem_of_singleton]%elem_of_app & Hk); [apply IH; eauto|]. subst q key. cbn in *.
      rewrite bool_decide_true in E by done. cbn in E. apply andb_false_iff in E as [E|E]; to_prop; lia.
Qed.

Lemma take_snoc_full {A} n (l : list A) x : (n <= length l)%nat -> take n (l ++ [x]) = take n l.
Proof. intros Hl. by rewrite take_app_le. Qed.

Lemma add_backend_spec ip ports m0 (base : servicePortKey -> list SvcBackend) key :
  (forall k, m0 !! k = None \/ m0 !! k = Some (take SvcMaxBackends (base k))) ->
  fold_left (add_backend ip) ports m0 !! key =
  match m0 !! key with None => None | Some _ => Some (take SvcMaxBackends (base key ++ offers_of ip key ports)) end.
Proof.
  revert m0 base. induction ports as [|bp ports IH]; intros m0 base Hm; cbn [fold_left].
  { cbn. rewrite app_nil_r. by destruct (Hm key) as [->| ->]. }
  set (k := (bp_Protocol bp, bp_Port bp)).
  set (base' k' := base k' ++ offers_of ip k' [bp]).
  assert (forall k', add_backend ip m0 bp !! k' =
    match m0 !! k' with None => None | Some _ => Some (take SvcMaxBackends (base' k')) end) as Hstep.
  { intros k'. unfold add_backend. fold k. unfold base', offers_of. cbn [omap list_omap]. fold k.
    destruct (Hm k) as [En|En]; rewrite En.
    - destruct (decide (k = k')) as [<-|Hne]; [by rewrite En|]. rewrite decide_False by naive_solver.
      rewrite app_nil_r. by destruct (Hm k') as [->| ->].
    - destruct (_ || _) eqn:Et.
      + rewrite decide_False by (intros [_ ?]; apply orb_prop in Et as [?|?]; to_prop; lia).
        rewrite app_nil_r. by destruct (Hm k') as [->| ->].
      + apply orb_false_iff in Et as [Et1 Et2]. to_prop. destruct (decide (k = k')) as [<-|Hne].
        * rewrite decide_True by (split; [done|lia]). rewrite En. case_if; to_prop.
          -- rewrite En. f_equal. rewrite take_snoc_full; [done|]. rewrite length_take in E. lia.
          -- rewrite lookup_insert_eq. f_equal. rewrite length_take in E. unfold u16. rewrite Z.mod_small by lia.
             rewrite (take_ge (base k)) by lia. rewrite take_ge; [done|]. rewrite length_app. cbn. lia.
        * rewrite decide_False by naive_solver. rewrite app_nil_r. case_if; [by destruct (Hm k') as [->| ->]|].
          rewrite lookup_insert_ne by done. by destruct (Hm k') as [->| ->]. }
  rewrite (IH _ base'); [|intros k'; rewrite Hstep; destruct (m0 !! k'); auto].
  rewrite Hstep. destruct (m0 !! key); [|done]. f_equal. unfold base'. rewrite <-app_assoc.
  by unfold offers_of; rewrite <-omap_app.
Qed.

(** A declared port has the first sixteen backends offered for it. *)
Lemma buckets_spec sv key :
  match buckets sv !! key with
  | Some bs => declares sv key /\ bs = take SvcMaxBackends (offers sv key)
  | None => ~ declares sv key
  end.
Proof.
  unfold buckets, offers. pose proof (declared_ports_spec (v_Ports (v_Spec sv)) key) as Hd.
  assert (forall backends m0 (base : servicePortKey -> list SvcBackend),
    (forall k, m0 !! k = None \/ m0 !! k = Some (take SvcMaxBackends (base k))) ->
    fold_left (fun byPort b => let ip := ParseIP (bk_IP b) in
      if decide (ip = []) then byPort else fold_left (add_backend ip) (bk_Ports b) byPort) backends m0 !! key =
    match m0 !! key with None => None | Some _ => Some (take SvcMaxBackends (base key ++
      flat_map (fun b => let ip := ParseIP (bk_IP b) in if decide (ip = []) then [] else offers_of ip key (bk_Ports b)) backends)) end) as Hf.
  { induction backends as [|b backends IH]; intros m0 base Hm; cbn [fold_left flat_map].
    { rewrite app_nil_r. by destruct (Hm key) as [->| ->]. }
    cbv zeta. destruct (decide (ParseIP (bk_IP b) = [])); [by apply IH|].
    rewrite (IH _ (fun k => base k ++ offers_of (ParseIP (bk_IP b)) k (bk_Ports b))).
    - rewrite (add_backend_spec _ _ _ base) by done. destruct (m0 !! key); [|done]. by rewrite <-app_assoc.
    - intros k. rewrite (add_backend_spec _ _ _ base) by done. destruct (m0 !! k); auto. }
  rewrite (Hf _ _ (fun _ => [])).
  - destruct (declared_ports _ !! key) as [l|]; [|done]. destruct Hd as (-> & Hd). split; [done|]. done.
  - intros k. pose proof (declared_ports_spec (v_Ports (v_Spec sv)) k) as Hk.
    destruct (declared_ports _ !! k); [|by left]. destruct Hk as [-> _]. by right.
Qed.

(** ** What is published *)

(** The VIP is live in a live VPC that holds its claim, and declares the port. *)
Definition publishes (lookup : VPCRef -> option SvcVPC) (sv : ServiceVIP) (vpc : SvcVPC) (key : servicePortKey) : Prop :=
  lookup (v_VPCRef (v_Spec sv)) = Some vpc /\ MatchesVPC (Some sv) (Some vpc) = true /\
  at_key (m_Annotations (v_Meta sv)) AnnotationServiceUID <> EmptyString /\ ParseIP (v_IP (v_Spec sv)) <> [] /\ declares sv key.

Definition entry_of (sv : ServiceVIP) (vpc : SvcVPC) (key : servicePortKey) : SvcEntry :=
  MkSvcEntry (sv_VNI vpc) (ParseIP (v_IP (v_Spec sv))) (if decide (key.1 = "UDP") then 17 else 6) key.2
    (take SvcMaxBackends (offers sv key)) (bool_decide (v_SessionAffinity (v_Spec sv) = "ClientIP")).

Lemma MatchesVPC_vni sv vpc : MatchesVPC (Some sv) (Some vpc) = true -> 0 < sv_VNI vpc < 2 ^ 22.
Proof.
  cbn. rewrite !andb_true_iff. change (Z.shiftl 1 22) with (2 ^ 22). intros ((((((((_ & H1) & H2) & _) & _) & _) & _) & _) & _).
  to_prop. lia.
Qed.

Lemma vip_entries_spec lookup sv e : e ∈ vip_entries lookup sv <->
  exists vpc key, publishes lookup sv vpc key /\ e = entry_of sv vpc key.
Proof.
  unfold vip_entries, publishes. destruct (lookup _) as [vpc|].
  2:{ split; [by intros ?%not_elem_of_nil|]. by intros (? & ? & (? & _) & _). }
  destruct (negb _ || _) eqn:Eg.
  { split; [by intros ?%not_elem_of_nil|]. intros (? & ? & ([= <-] & Hm & Hu & _) & _). rewrite Hm in Eg. cbn in Eg.
    by apply bool_decide_eq_true in Eg. }
  apply orb_false_iff in Eg as [Hm Hu]. apply negb_false_iff in Hm. apply bool_decide_eq_false in Hu.
  case_decide as Hip. { split; [by intros ?%not_elem_of_nil|]. by intros (? & ? & (_ & _ & _ & ? & _) & _). }
  pose proof (MatchesVPC_vni _ _ Hm) as Hv.
  assert (forall ports, (forall p, p ∈ ports -> p ∈ v_Ports (v_Spec sv)) ->
    e ∈ fold_left (fun entries p => match buckets sv !! (vp_Protocol p, vp_Port p) with
      | None => entries
      | Some backends => entries ++ [MkSvcEntry (u32 (sv_VNI vpc)) (ParseIP (v_IP (v_Spec sv)))
          (if decide (vp_Protocol p = "UDP") then 17 else 6) (u16 (vp_Port p)) backends
          (bool_decide (v_SessionAffinity (v_Spec sv) = "ClientIP"))] end) ports [] <->
    exists p, p ∈ ports /\ declares sv (vp_Protocol p, vp_Port p) /\ e = entry_of sv vpc (vp_Protocol p, vp_Port p)) as Hf.
  { induction ports as [|p ports IH] using rev_ind; intros Hsub.
    { split; [by intros ?%not_elem_of_nil|]. by intros (? & ?%not_elem_of_nil & _). }
    rewrite fold_left_app. cbn [fold_left]. specialize (IH ltac:(intros; apply Hsub; set_solver)).
    pose proof (buckets_spec sv (vp_Protocol p, vp_Port p)) as Hb. destruct (buckets sv !! _) as [bs|].
    - rewrite elem_of_app, IH, list_elem_of_singleton. destruct Hb as [Hd ->]. unfold entry_of, u32, u16. cbn [fst snd].
      destruct (Hd) as (_ & Hr & _). cbn in Hr. rewrite !Z.mod_small by lia. split.
      + intros [(q & ? & ? & ->)| ->]; [exists q|exists p]; set_solver.
      + intros (q & [Hq|Hq%list_elem_of_singleton]%elem_of_app & Hd' & ->); [left; by exists q|]. subst q. by right.
    - rewrite IH. split.
      + intros (q & ? & ?). exists q. set_solver.
      + intros (q & [Hq|Hq%list_elem_of_singleton]%elem_of_app & Hd' & ->); [by exists q|]. by subst q. }
  cbv zeta. rewrite Hf by done. split.
  - intros (p & Hp & Hd & ->). by exists vpc, (vp_Protocol p, vp_Port p).
  - intros (? & key & ([= <-] & _ & _ & _ & Hd) & ->). destruct (Hd) as (_ & _ & p & Hp & <-). by exists p.
Qed.

Lemma compileServiceVIPs_spec all lookup entries e : compileServiceVIPs all lookup = Ok entries ->
  e ∈ entries <-> exists sv vpc key, sv ∈ all /\ publishes lookup sv vpc key /\ e = entry_of sv vpc key.
Proof.
  unfold compileServiceVIPs. rewrite bind_ok. intros (_ & _ & [= <-]).
  induction all as [|sv all IH] using rev_ind; cbn.
  { split; [by intros ?%not_elem_of_nil|]. by intros (? & ? & ? & ?%not_elem_of_nil & _). }
  rewrite fold_left_app. cbn [fold_left]. rewrite elem_of_app, IH, vip_entries_spec. split.
  - intros [(s & v & k & ? & ?)|(v & k & ?)]; [exists s, v, k|exists sv, v, k]; set_solver.
  - intros (s & v & k & [Hs|Hs%list_elem_of_singleton]%elem_of_app & ?); [left; by exists s, v, k|]. subst s. eauto.
Qed.

(** The map wanted: the last entry of each key. *)
Lemma svc_want_spec cap entries want : svc_want cap entries = Ok want ->
  (forall k v, want !! k = Some v -> exists e, e ∈ entries /\ svc_entry e = Ok (k, v)) /\
  (forall e, e ∈ entries -> exists k v, svc_entry e = Ok (k, v) /\ is_Some (want !! k)).
Proof.
  apply (foldM_invariant _ (fun pre want =>
    (forall k v, want !! k = Some v -> exists e, e ∈ pre /\ svc_entry e = Ok (k, v)) /\
    (forall e, e ∈ pre -> exists k v, svc_entry e = Ok (k, v) /\ is_Some (want !! k)))).
  { split; [done|]. by intros ? ?%not_elem_of_nil. }
  intros pre e post m m' _ [H1 H2]. rewrite bind_ok. intros ([key val] & He & Hp).
  unfold putDesired in Hp. case_decide; [done|]. injection Hp as <-. split.
  - intros k v. destruct (decide (k = key)) as [->|Hne].
    + rewrite lookup_insert_eq. intros [= <-]. exists e. set_solver.
    + rewrite lookup_insert_ne by done. intros (e' & ? & ?)%H1. exists e'. set_solver.
  - intros e' [Hin|Hin%list_elem_of_singleton]%elem_of_app.
    + destruct (H2 e' Hin) as (k & v & Hk & Hs). exists k, v. split; [done|].
      destruct (decide (k = key)) as [->|Hne]; [rewrite lookup_insert_eq; by eexists|by rewrite lookup_insert_ne].
    + subst e'. exists key, val. split; [done|]. rewrite lookup_insert_eq. by eexists.
Qed.

Lemma svc_entry_key e k v : svc_entry e = Ok (k, v) -> sk_Net k = se_Net e /\
  sx_N v = Z.of_nat (length (take SvcMaxBackends (se_Backends e))) /\ length (sx_Be v) = SvcMaxBackends.
Proof.
  unfold svc_entry. rewrite bind_ok. intros (vip & _ & Hb). apply bind_ok in Hb as (be & Hb & [= <- <-]). cbn.
  assert (length be = length (take SvcMaxBackends (se_Backends e))) as Hl.
  { revert Hb. apply (foldM_invariant _ (fun pre (be : list (list Z * Z)) => length be = length pre)); [done|].
    intros pre b post a a' _ Ha. rewrite bind_ok. intros (x & _ & [= <-]). rewrite !length_app. cbn. lia. }
  split; [done|]. split; [by rewrite Hl|]. rewrite length_app, length_replicate.
  assert (length be <= SvcMaxBackends)%nat by (rewrite Hl, length_take; lia). unfold SvcMaxBackends in *. lia.
Qed.

Section Pass.
Context `{Runtime} (cap : nat) {S : Type} (L : Lens S (gmap overlaySvcKey overlaySvcVal)) `{!LensLaws L}.
#[local] Existing Instance tenants_vip_dec.

Definition kpr_same (s s' : S) : Prop := forall key, sk_Net key = 0 -> view L s' !! key = view L s !! key.

(** C18. Services end to end: whatever call fails, the entries of network 0, which another
    program owns, never change; and once the pass over the compiled VIPs succeeded, a
    tenant's virtual port is in the map only on behalf of a live VIP that holds the claim of
    its address in a live VPC and declares the port, with the first sixteen valid backends
    offered for it, and every such port is there. *)
Theorem services_enforced all lookup entries s : compileServiceVIPs all lookup = Ok entries ->
  wp (SyncServiceVIPs cap L entries) (kpr_same s) (fun r s' => kpr_same s s' /\ (r = Ok tt ->
    (forall key val, sk_Net key <> 0 -> view L s' !! key = Some val -> exists sv vpc port, sv ∈ all /\
       publishes lookup sv vpc port /\ svc_entry (entry_of sv vpc port) = Ok (key, val) /\
       sk_Net key = sv_VNI vpc /\ sx_N val = Z.of_nat (length (take SvcMaxBackends (offers sv port)))) /\
    (forall sv vpc port, sv ∈ all -> publishes lookup sv vpc port -> exists key val,
       svc_entry (entry_of sv vpc port) = Ok (key, val) /\ is_Some (view L s' !! key)))) s.
Proof.
  intros Hc. assert (forall e, e ∈ entries -> se_Net e <> 0) as Hnz.
  { intros e He. apply (compileServiceVIPs_spec _ _ _ _ Hc) in He as (sv & vpc & key & _ & (_ & Hm & _) & ->).
    apply MatchesVPC_vni in Hm. cbn. lia. }
  apply wp_bind, wp_lift. destruct (svc_want cap entries) as [want|e] eqn:Ew; [|by split].
  destruct (svc_want_spec _ _ _ Ew) as [W1 W2].
  assert (forall k v, want !! k = Some v -> sk_Net k <> 0) as Wnz.
  { intros k v (e & He & Hk)%W1. apply svc_entry_key in Hk as [-> _]. auto. }
  apply wp_bind, wp_Iterate; [by split|]. intros l Hl. cbv zeta.
  assert (forall m, between (view L s) (merged tenants_vip (view L s) want) m -> kpr_same s (update L m s)) as Hsame.
  { intros m Hb key Hk. rewrite view_update. destruct (Hb key) as [->| ->]; [done|].
    unfold merged, others. destruct (want !! key) as [v|] eqn:E; [by apply Wnz in E|].
    rewrite lookup_union_r by done. apply option_eq. intros v. rewrite map_lookup_filter_Some. unfold tenants_vip. cbn. tauto. }
  apply (wp_merge L cap tenants_vip want); [done|done| | |].
  - intros k v Hk. right. by exists v.
  - intros m Hm. split; [by apply Hsame|]. intros e. split; [by apply Hsame|done].
  - split; [apply Hsame; intros k; by right|]. intros _. rewrite view_update. split.
    + intros key val Hk [Hv|[_ Hv]]%lookup_union_Some_raw.
      * destruct (W1 key val Hv) as (e & He & Hse). destruct (svc_entry_key _ _ _ Hse) as (Hn & HN & _).
        apply (compileServiceVIPs_spec _ _ _ _ Hc) in He as (sv & vpc & port & Hsv & Hp & ->).
        exists sv, vpc, port. split_and!; [done|done|done|done|]. rewrite HN. cbn [entry_of se_Backends].
        by rewrite take_take, Nat.min_id.
      * apply map_lookup_filter_Some in Hv as [_ Hv]. by destruct Hv.
    + intros sv vpc port Hsv Hp. destruct (W2 (entry_of sv vpc port)) as (k & v & Hk & [v' Hv]).
      { apply (compileServiceVIPs_spec _ _ _ _ Hc). by exists sv, vpc, port. }
      exists k, v. split; [done|]. exists v'. by apply lookup_union_Some_l.
Qed.
End Pass.

(** ** A run *)

Definition demo_vip : ServiceVIP := MkVIP
  (MkMeta "sv100.10-0-0-5" EmptyString "u" 1 false ∅
     {[AnnotationVPCUID := "vpc-1"; AnnotationServiceUID := "svc-1"]} [])
  (MkVIPSpec (MkVPCRef "t" "a") "10.0.0.5" ("t", "web") [MkVIPPort "http" "TCP" 80; MkVIPPort "odd" "SCTP" 9] "ClientIP")
  [MkVIPBackend "10.0.0.7" [MkVIPBackendPort "TCP" 80 8080]; MkVIPBackend "bad" [MkVIPBackendPort "TCP" 80 8080];
   MkVIPBackend "10.0.0.8" [MkVIPBackendPort "TCP" 80 0; MkVIPBackendPort "TCP" 443 8443]].
Definition demo_lookup (r : VPCRef) : option SvcVPC :=
  if decide (r = MkVPCRef "t" "a") then Some (MkSvcVPC "t" "a" "vpc-1" false 100) else None.
Definition demo_entries : list SvcEntry :=
  [MkSvcEntry 100 (ParseIP "10.0.0.5") 6 80 [MkSvcBackend (ParseIP "10.0.0.7") 8080] true].

(** The map starts with a stale tenant entry and one of network 0; the second call fails. *)
Definition demo_svc : gmap overlaySvcKey overlaySvcVal :=
  {[MkSvcKey 0 (replicate 16 9) 6 1 := MkSvcVal 0 0 []; MkSvcKey 7 (replicate 16 9) 6 1 := MkSvcVal 0 0 []]}.

Lemma services_enforced_witness :
  compileServiceVIPs [demo_vip] demo_lookup = Ok demo_entries /\
  (SyncServiceVIPs (H := quiet_runtime) 8 (lens_id _) demo_entries (MkWorld 0 demo_svc [])).2 = Ok tt /\
  wp (SyncServiceVIPs (H := faulty_runtime 2) 8 (lens_id _) demo_entries) (kpr_same (lens_id _) demo_svc)
    (fun _ s' => kpr_same (lens_id _) demo_svc s') demo_svc.
Proof.
  assert (compileServiceVIPs [demo_vip] demo_lookup = Ok demo_entries) as Hc by (vm_compute; reflexivity).
  split_and!; [done|vm_compute; reflexivity|].
  eapply wp_mono; [exact (services_enforced (H := faulty_runtime 2) 8 (lens_id _) [demo_vip] demo_lookup demo_entries demo_svc Hc)|done|].
  by intros r s' [Hk _].
Defined.
