(* ===== verification/Authority.v ===== *)
(** * Authority over shared networks (pkg/registry/sdn/authz, pkg/registry/sdn/vpcbinding,
      pkg/registry/sdn/vpcpeering, internal/vpnlimits/references.go)

    A VPCBinding lets a namespace use a VPC and a VPCPeering half connects a VPC to another.
    Both are ordinary objects of their consumer; the API server asks its authorizer for a verb
    on the VPC before it stores or changes one.  [run] is the life of one object under the
    writes of any principals: whatever is stored was authorized. *)
From S2P Require Import Prelude GoText GoNet AddrMap Grants SgIdentity ClaimNames Registry.
Local Open Scope Z_scope.

(** ** Verbs *)

(** The attributes a delegated authorizer decides on. *)
Record Attributes := MkAttributes { at_Verb : string; at_Resource : string; at_Namespace : string; at_Name : string }.

(** Without an authorizer nothing is checked; a request may carry no user; the answer is allow,
    anything else, or an error. *)
Record Request := MkRequest { rq_User : option string }.
Abbreviation Authorizer := (option (string -> Attributes -> result bool)).

(** [CheckResourceVerb], pkg/registry/sdn/authz/authz.go:54-90. *)
Definition CheckResourceVerb (auth : Authorizer) (rq : Request) (verb resource ns name path : string) : option ferror :=
  match auth with
  | None => None
  | Some authorize =>
      match rq_User rq with
      | None => Some (Forbidden path)
      | Some u =>
          match authorize u (MkAttributes verb resource ns name) with
          | Err _ => Some (Forbidden path)
          | Ok decision => if negb decision then Some (Forbidden path) else None
          end
      end
  end.

(** [CheckVPCVerb], pkg/registry/sdn/authz/authz.go:43-45. *)
Definition CheckVPCVerb (auth : Authorizer) (rq : Request) (verb ns name path : string) : option ferror :=
  CheckResourceVerb auth rq verb "vpcs" ns name path.

Definition err_list (e : option ferror) : ErrorList := match e with Some e => [e] | None => [] end.

(** [ManagedByLabel], pkg/registry/sdn/authz/managed.go:11-11. *)
Definition ManagedByLabel : string := "app.kubernetes.io/managed-by".
(** [PortalManager], pkg/registry/sdn/authz/managed.go:12-12. *)
Definition PortalManager : string := "neosequentia-portal".

(** [PortalManaged], pkg/registry/sdn/authz/managed.go:14-20. *)
Definition PortalManaged (obj : option ObjectMeta) : bool :=
  match obj with
  | None => false
  | Some m => bool_decide (at_key (m_Labels m) ManagedByLabel = PortalManager)
  end.

(** [CheckManaged], pkg/registry/sdn/authz/managed.go:22-31. *)
Definition CheckManaged (auth : Authorizer) (rq : Request) (resource : string) (obj : ObjectMeta) (old : option ObjectMeta) : option ferror :=
  if negb (PortalManaged (Some obj)) && negb (PortalManaged old) then None
  else CheckResourceVerb auth rq "manage-boundary" resource (m_Namespace obj) (m_Name obj) (Key "metadata.labels" ManagedByLabel).

Definition set_labels (m : ObjectMeta) (labels : gmap string string) : ObjectMeta :=
  MkMeta (m_Name m) (m_Namespace m) (m_UID m) (m_ResourceVersion m) (m_Deleting m) labels (m_Annotations m) (m_Finalizers m).
Definition set_finalizers (m : ObjectMeta) (fs : list string) : ObjectMeta :=
  MkMeta (m_Name m) (m_Namespace m) (m_UID m) (m_ResourceVersion m) (m_Deleting m) (m_Labels m) (m_Annotations m) fs.

(** [PreserveManager], its labels, pkg/registry/sdn/authz/managed.go:33-47. *)
Definition PreserveManager (obj old : ObjectMeta) : ObjectMeta :=
  set_labels obj (match m_Labels old !! ManagedByLabel with
    | Some value => <[ManagedByLabel := value]> (m_Labels obj)
    | None => delete ManagedByLabel (m_Labels obj)
    end).

Section Names.
Context (IsDNS1123Label IsDNS1123Subdomain : string -> bool).

(** [NamespaceReferenceErrors], internal/vpnlimits/references.go:31-36. *)
Definition NamespaceReferenceErrors (name path : string) : ErrorList :=
  check (bool_decide (name = EmptyString) || NamespaceName IsDNS1123Label name) (Invalid path).

(** [ReferenceErrors], internal/vpnlimits/references.go:39-50. *)
Definition ReferenceErrors (name path : string) (required : bool) : ErrorList :=
  if decide (name = EmptyString) then check (negb required) (Required path)
  else check (ObjectName IsDNS1123Subdomain name) (Invalid path).

(** [if errs := f(); len(errs) != 0 { return errs }]. *)
Definition orelse (errs rest : ErrorList) : ErrorList := match errs with [] => rest | _ => errs end.

(** ** Bindings *)

(** [VPCBindingSpec], api/sdn/v1alpha1/vpcbinding_types.go:25-59. *)
Record BindingSpec := MkBindingSpec { bs_VPCRef : VPCRef; bs_AllowForwarding : bool; bs_ForwardingCIDRs : list string }.
(** [VPCBinding], api/sdn/v1alpha1/vpcbinding_types.go:74-79. *)
Record Binding := MkBindingObj { b_Meta : ObjectMeta; b_Spec : BindingSpec }.

(** [ExportVerb], pkg/registry/sdn/vpcbinding/strategy.go:101-101. *)
Definition ExportVerb : string := "export".
(** [reapFinalizer], pkg/registry/sdn/vpcbinding/strategy.go:87-87. *)
Definition reapFinalizer : string := "sdn.cozystack.io/reap-ports".

(** [vpcBindingStrategy.PrepareForCreate], pkg/registry/sdn/vpcbinding/strategy.go:83-91. *)
Definition binding_PrepareForCreate (b : Binding) : Binding :=
  if decide (reapFinalizer ∈ m_Finalizers (b_Meta b)) then b
  else MkBindingObj (set_finalizers (b_Meta b) (m_Finalizers (b_Meta b) ++ [reapFinalizer])) (b_Spec b).

(** The namespace of the VPC a binding refers to. *)
Definition binding_ns (b : Binding) : string :=
  let ns := refNamespace (bs_VPCRef (b_Spec b)) in if decide (ns = EmptyString) then m_Namespace (b_Meta b) else ns.

(** [checkExport], pkg/registry/sdn/vpcbinding/strategy.go:122-132. *)
Definition checkExport (auth : Authorizer) (rq : Request) (b : Binding) : ErrorList :=
  err_list (CheckVPCVerb auth rq ExportVerb (binding_ns b) (refName (bs_VPCRef (b_Spec b))) "spec.vpcRef").

(** [vpcBindingStrategy.Validate], pkg/registry/sdn/vpcbinding/strategy.go:103-120. *)
Definition binding_Validate (auth : Authorizer) (rq : Request) (b : Binding) : ErrorList :=
  let s := b_Spec b in
  orelse (ReferenceErrors (refName (bs_VPCRef s)) "spec.vpcRef.name" true) (
  orelse (NamespaceReferenceErrors (refNamespace (bs_VPCRef s)) "spec.vpcRef.namespace") (
  if decide (MaxForwardingPrefixes < length (bs_ForwardingCIDRs s))%nat then [TooMany "spec.forwardingCIDRs"]
  else if bs_AllowForwarding s && negb (is_ok (ValidateForwardingPrefixes (bs_ForwardingCIDRs s))) then [Invalid "spec.forwardingCIDRs"]
  else checkExport auth rq b)).

#[export] Instance BindingSpec_eq_dec : EqDecision BindingSpec. Proof. solve_decision. Defined.

(** [vpcBindingStrategy.ValidateUpdate], pkg/registry/sdn/vpcbinding/strategy.go:150-173. *)
Definition binding_ValidateUpdate (auth : Authorizer) (rq : Request) (newB oldB : Binding) : ErrorList :=
  if negb (bool_decide (bs_VPCRef (b_Spec newB) = bs_VPCRef (b_Spec oldB))) then [Invalid "spec.vpcRef"]
  else
    let removesReap := bool_decide (reapFinalizer ∈ m_Finalizers (b_Meta oldB)) &&
                       negb (bool_decide (reapFinalizer ∈ m_Finalizers (b_Meta newB))) in
    if bool_decide (b_Spec newB = b_Spec oldB) then
      if removesReap then checkExport auth rq newB else []
    else if bs_AllowForwarding (b_Spec oldB) && negb (bs_AllowForwarding (b_Spec newB)) &&
            bool_decide (bs_ForwardingCIDRs (b_Spec oldB) = bs_ForwardingCIDRs (b_Spec newB))
    then checkExport auth rq newB
    else binding_Validate auth rq newB.

(** ** Peerings *)

(** [VPCPeeringSpec], api/sdn/v1alpha1/vpcpeering_types.go:58-64. *)
Record PeeringSpec := MkPeeringSpec { ps_VPCName : string; ps_PeerRef : VPCRef }.
#[export] Instance PeeringSpec_eq_dec : EqDecision PeeringSpec. Proof. solve_decision. Defined.

Section Peerings.
(** The status, which the strategies only copy and clear. *)
Context {Status : Type} (noStatus : Status).

Record Peering := MkPeeringObj { pe_Meta : ObjectMeta; pe_Spec : PeeringSpec; pe_Status : Status }.

(** [PeerVerb], pkg/registry/sdn/vpcpeering/strategy.go:66-66. *)
Definition PeerVerb : string := "peer".

(** [portalManaged], pkg/registry/sdn/vpcpeering/strategy.go:72-74. *)
Definition portalManaged (p : Peering) : bool := bool_decide (at_key (m_Labels (pe_Meta p)) ManagedByLabel = PortalManager).

(** [checkManagedPeering], pkg/registry/sdn/vpcpeering/strategy.go:76-78. *)
Definition checkManagedPeering (auth : Authorizer) (rq : Request) (p : Peering) : option ferror :=
  CheckResourceVerb auth rq "manage-boundary" "vpcpeerings" (m_Namespace (pe_Meta p)) (m_Name (pe_Meta p))
    (Key "metadata.labels" ManagedByLabel).

(** [vpcPeeringStrategy.PrepareForCreate], pkg/registry/sdn/vpcpeering/strategy.go:97-102. *)
Definition peering_PrepareForCreate (p : Peering) : Peering := MkPeeringObj (pe_Meta p) (pe_Spec p) noStatus.

(** [vpcPeeringStrategy.PrepareForUpdate], pkg/registry/sdn/vpcpeering/strategy.go:104-109. *)
Definition peering_PrepareForUpdate (p old : Peering) : Peering := MkPeeringObj (pe_Meta p) (pe_Spec p) (pe_Status old).

(** [vpcPeeringStrategy.Validate], pkg/registry/sdn/vpcpeering/strategy.go:111-145. *)
Definition peering_Validate (auth : Authorizer) (rq : Request) (p : Peering) : ErrorList :=
  let s := pe_Spec p in
  orelse (ReferenceErrors (ps_VPCName s) "spec.vpcRef.name" true) (
  if decide (refNamespace (ps_PeerRef s) = EmptyString) then [Required "spec.peerRef.namespace"]
  else
    orelse (NamespaceReferenceErrors (refNamespace (ps_PeerRef s)) "spec.peerRef.namespace") (
    orelse (ReferenceErrors (refName (ps_PeerRef s)) "spec.peerRef.name" true) (
    let errs := check (negb (bool_decide (refNamespace (ps_PeerRef s) = m_Namespace (pe_Meta p)) &&
                             bool_decide (refName (ps_PeerRef s) = ps_VPCName s))) (Invalid "spec.peerRef") in
    let errs := errs ++ (if decide (errs = []) then
      err_list (CheckVPCVerb auth rq PeerVerb (m_Namespace (pe_Meta p)) (ps_VPCName s) "spec.vpcRef") else []) in
    errs ++ (if portalManaged p then err_list (checkManagedPeering auth rq p) else [])))).

(** [vpcPeeringStrategy.ValidateUpdate], pkg/registry/sdn/vpcpeering/strategy.go:163-178. *)
Definition peering_ValidateUpdate (auth : Authorizer) (rq : Request) (p old : Peering) : ErrorList :=
  (if portalManaged old || portalManaged p then err_list (checkManagedPeering auth rq old) else []) ++
  check (bool_decide (pe_Spec p = pe_Spec old)) (Forbidden "spec").

(** [vpcPeeringStatusStrategy.PrepareForUpdate], pkg/registry/sdn/vpcpeering/strategy.go:196-210. *)
Definition peering_status_PrepareForUpdate (p old : Peering) : Peering :=
  MkPeeringObj
    (set_labels (pe_Meta p) (match m_Labels (pe_Meta old) !! ManagedByLabel with
       | Some value => <[ManagedByLabel := value]> (m_Labels (pe_Meta p))
       | None => delete ManagedByLabel (m_Labels (pe_Meta p))
       end)) (pe_Spec old) (pe_Status p).
End Peerings.
End Names.

(** ** Checks that pass *)

(** The principal may do this, as far as the server asks. *)
Definition allowed (auth : Authorizer) (rq : Request) (verb resource ns name : string) : Prop :=
  match auth with
  | None => True
  | Some authorize => exists u, rq_User rq = Some u /\ authorize u (MkAttributes verb resource ns name) = Ok true
  end.

Lemma CheckResourceVerb_None auth rq verb resource ns name path :
  CheckResourceVerb auth rq verb resource ns name path = None <-> allowed auth rq verb resource ns name.
Proof.
  unfold CheckResourceVerb, allowed. destruct auth as [authorize|]; [|done]. destruct (rq_User rq) as [u|]; [|naive_solver].
  destruct (authorize u _) as [[]|] eqn:E; cbn; split; intros Hx; try done; [by eauto| |];
    destruct Hx as (u' & [= <-] & Hu); congruence.
Qed.

Lemma err_list_nil e : err_list e = [] <-> e = None.
Proof. by destruct e. Qed.

Lemma orelse_nil errs rest : orelse errs rest = [] <-> errs = [] /\ rest = [].
Proof. destruct errs; cbn; naive_solver. Qed.

Lemma checkExport_nil auth rq b : checkExport auth rq b = [] <->
  allowed auth rq ExportVerb "vpcs" (binding_ns b) (refName (bs_VPCRef (b_Spec b))).
Proof. unfold checkExport, CheckVPCVerb. by rewrite err_list_nil, CheckResourceVerb_None. Qed.

Section Lives.
Context (IsDNS1123Label IsDNS1123Subdomain : string -> bool) (auth : Authorizer).
Let bv := binding_Validate IsDNS1123Label IsDNS1123Subdomain auth.
Let bvu := binding_ValidateUpdate IsDNS1123Label IsDNS1123Subdomain auth.

Lemma binding_Validate_export rq b : bv rq b = [] ->
  allowed auth rq ExportVerb "vpcs" (binding_ns b) (refName (bs_VPCRef (b_Spec b))).
Proof.
  unfold bv, binding_Validate. rewrite !orelse_nil. intros (_ & _ & Hx). case_decide; [done|]. case_if; [done|].
  by apply checkExport_nil.
Qed.

(** An accepted update keeps the grant and its finalizer, or its author may export the VPC. *)
Lemma binding_update_authorized rq newB oldB : bvu rq newB oldB = [] ->
  bs_VPCRef (b_Spec newB) = bs_VPCRef (b_Spec oldB) /\
  ((b_Spec newB = b_Spec oldB /\ (reapFinalizer ∈ m_Finalizers (b_Meta oldB) -> reapFinalizer ∈ m_Finalizers (b_Meta newB))) \/
   allowed auth rq ExportVerb "vpcs" (binding_ns newB) (refName (bs_VPCRef (b_Spec newB)))).
Proof.
  unfold bvu, binding_ValidateUpdate. destruct (negb _) eqn:Er; [done|]. apply negb_false_iff, bool_decide_eq_true in Er.
  split; [done|]. case_bool_decide as Hs.
  - destruct (_ && _) eqn:Ef; [right; by apply checkExport_nil|]. left. split; [done|]. intros Hin.
    apply andb_false_iff in Ef as [Ef|Ef]; [by apply bool_decide_eq_false in Ef|].
    by apply negb_false_iff, bool_decide_eq_true in Ef.
  - destruct (_ && _); [right; by apply checkExport_nil|]. right. by apply binding_Validate_export.
Qed.

(** ** The life of a binding *)

(** A write of a principal. *)
Inductive write :=
| WCreate (rq : Request) (b : Binding)
| WUpdate (rq : Request) (b : Binding)
| WDelete.

(** The store runs the strategy's preparation and validation, and an update addresses the
    stored object. *)
Definition binding_write (stored : option Binding) (w : write) : option Binding :=
  match w, stored with
  | WCreate rq b, None =>
      let b := binding_PrepareForCreate b in if decide (bv rq b = []) then Some b else None
  | WUpdate rq b, Some old =>
      if decide (m_Namespace (b_Meta b) = m_Namespace (b_Meta old) /\ m_Name (b_Meta b) = m_Name (b_Meta old) /\
                 bvu rq b old = []) then Some b else stored
  | WDelete, _ => None
  | _, _ => stored
  end.

(** The write came from a principal that may export the VPC the binding refers to. *)
Definition exported (b : Binding) (w : write) (wb : Binding) : Prop :=
  exists rq, (w = WCreate rq wb \/ w = WUpdate rq wb) /\
    allowed auth rq ExportVerb "vpcs" (binding_ns b) (refName (bs_VPCRef (b_Spec b))).

End Lives.

(** ** The life of a peering half *)

Section PeeringLives.
Context (IsDNS1123Label IsDNS1123Subdomain : string -> bool) (auth : Authorizer).
Context {Status : Type} (noStatus : Status).
Abbreviation half := (Peering (Status := Status)).
Let pv := peering_Validate (Status := Status) IsDNS1123Label IsDNS1123Subdomain auth.
Let pvu := peering_ValidateUpdate (Status := Status) auth.

Inductive pwrite :=
| PCreate (rq : Request) (p : half)
| PUpdate (rq : Request) (p : half)
| PStatus (rq : Request) (p : half)
| PDelete (rq : Request).

(** [ManagedREST.deletionCheck], pkg/registry/sdn/vpcpeering/etcd.go:72-85. *)
Definition peering_deletionCheck (rq : Request) (p : half) : option ferror :=
  if portalManaged p then checkManagedPeering auth rq p else None.

Definition same_object (m m' : ObjectMeta) : Prop := m_Namespace m = m_Namespace m' /\ m_Name m = m_Name m'.
#[local] Instance same_object_dec m m' : Decision (same_object m m').
Proof. unfold same_object. apply _. Defined.

(** The store runs the preparation and validation of the strategy of the endpoint. *)
Definition peering_write (stored : option half) (w : pwrite) : option half :=
  match w, stored with
  | PCreate rq p, None =>
      let p := peering_PrepareForCreate noStatus p in if decide (pv rq p = []) then Some p else None
  | PUpdate rq p, Some old =>
      let p := peering_PrepareForUpdate p old in
      if decide (same_object (pe_Meta p) (pe_Meta old) /\ pvu rq p old = []) then Some p else stored
  | PStatus rq p, Some old =>
      let p := peering_status_PrepareForUpdate p old in
      if decide (same_object (pe_Meta p) (pe_Meta old)) then Some p else stored
  | PDelete rq, Some old => if decide (peering_deletionCheck rq old = None) then None else stored
  | _, _ => stored
  end.

Definition may_manage (rq : Request) (p : half) : Prop :=
  allowed auth rq "manage-boundary" "vpcpeerings" (m_Namespace (pe_Meta p)) (m_Name (pe_Meta p)).

(** The principal of a write, when it is one of the main resource. *)
Definition main_request (w : pwrite) : option Request :=
  match w with PCreate rq _ | PUpdate rq _ | PDelete rq => Some rq | PStatus _ _ => None end.

Lemma checkManagedPeering_nil rq p : err_list (checkManagedPeering auth rq p) = [] <-> may_manage rq p.
Proof. unfold checkManagedPeering. by rewrite err_list_nil, CheckResourceVerb_None. Qed.

Lemma peering_Validate_spec rq p : pv rq p = [] ->
  allowed auth rq PeerVerb "vpcs" (m_Namespace (pe_Meta p)) (ps_VPCName (pe_Spec p)) /\
  (portalManaged p = true -> may_manage rq p) /\
  ps_PeerRef (pe_Spec p) <> MkVPCRef (m_Namespace (pe_Meta p)) (ps_VPCName (pe_Spec p)) /\
  ObjectName IsDNS1123Subdomain (ps_VPCName (pe_Spec p)) = true /\
  NamespaceName IsDNS1123Label (refNamespace (ps_PeerRef (pe_Spec p))) = true /\
  ObjectName IsDNS1123Subdomain (refName (ps_PeerRef (pe_Spec p))) = true.
Proof.
  assert (forall name path, ReferenceErrors IsDNS1123Subdomain name path true = [] -> ObjectName IsDNS1123Subdomain name = true) as Href.
  { intros name path. unfold ReferenceErrors. case_decide; [done|]. by rewrite check_nil. }
  unfold pv, peering_Validate. rewrite orelse_nil. case_decide as Hn; [by intros [_ ?]|]. rewrite !orelse_nil.
  intros (H1 & H2 & H3 & H4). apply app_nil in H4 as [H4 Hm]. apply app_nil in H4 as [Hself Hv].
  rewrite decide_True in Hv by done. apply err_list_nil, CheckResourceVerb_None in Hv.
  split_and!; [done| | |by eapply Href| |by eapply Href].
  - intros Hp. rewrite Hp in Hm. by apply checkManagedPeering_nil.
  - intros E. apply check_nil, negb_true_iff in Hself. rewrite E in Hself. cbn in Hself.
    by rewrite !bool_decide_true in Hself.
  - unfold NamespaceReferenceErrors in H2. apply check_nil in H2. by rewrite bool_decide_false in H2.
Qed.

Lemma preserved_manager (p old : half) : portalManaged (peering_status_PrepareForUpdate p old) = portalManaged old.
Proof.
  unfold portalManaged, peering_status_PrepareForUpdate, at_key. cbn. destruct (m_Labels (pe_Meta old) !! ManagedByLabel).
  - by rewrite lookup_insert_eq.
  - by rewrite lookup_delete_eq.
Qed.

(** What a stored half owes to its creation. *)
Definition consented (ws : list pwrite) (p : half) : Prop :=
  (exists rq cp, PCreate rq cp ∈ ws /\ pe_Spec cp = pe_Spec p /\ same_object (pe_Meta cp) (pe_Meta p) /\
     allowed auth rq PeerVerb "vpcs" (m_Namespace (pe_Meta p)) (ps_VPCName (pe_Spec p))) /\
  ps_PeerRef (pe_Spec p) <> MkVPCRef (m_Namespace (pe_Meta p)) (ps_VPCName (pe_Spec p)) /\
  ObjectName IsDNS1123Subdomain (ps_VPCName (pe_Spec p)) && NamespaceName IsDNS1123Label (refNamespace (ps_PeerRef (pe_Spec p))) &&
  ObjectName IsDNS1123Subdomain (refName (ps_PeerRef (pe_Spec p))) = true.

Lemma consented_kept ws w old p : consented ws old -> same_object (pe_Meta p) (pe_Meta old) -> pe_Spec p = pe_Spec old ->
  consented (ws ++ [w]) p.
Proof.
  intros ((rq & cp & Hin & Hcs & [Hc1 Hc2] & Ha) & Hself & Hnames) [Hns Hnm] Hs. unfold consented.
  rewrite Hs, Hns. split; [|done]. exists rq, cp. split; [set_solver|]. split; [done|]. split; [split; congruence|done].
Qed.

Lemma stored_consented ws p : fold_left peering_write ws None = Some p -> consented ws p.
Proof.
  revert p. induction ws as [|w ws IH] using rev_ind; intros p; [done|]. rewrite fold_left_app. cbn [fold_left].
  destruct (fold_left peering_write ws None) as [old|]; destruct w as [rq q|rq q|rq q|rq]; cbn [peering_write]; try done.
  - intros [= <-]. apply (consented_kept ws _ old); by auto.
  - case_decide as Hd; [|intros [= <-]; apply (consented_kept ws _ old); by auto]. intros [= <-]. destruct Hd as [Hso Hd].
    apply app_nil in Hd as [_ Hd]. apply check_nil, bool_decide_eq_true in Hd. apply (consented_kept ws _ old); auto.
  - case_decide as Hd; [|intros [= <-]; apply (consented_kept ws _ old); by auto]. intros [= <-].
    apply (consented_kept ws _ old); auto.
  - case_decide; [done|]. intros [= <-]. apply (consented_kept ws _ old); by auto.
  - case_decide as Hd; [|done]. intros [= <-]. apply peering_Validate_spec in Hd as (Ha & _ & Hself & Hn1 & Hn2 & Hn3).
    unfold consented. rewrite Hn1, Hn2, Hn3. split; [|done]. exists rq, q. split; [set_solver|done].
Qed.

End PeeringLives.

(** ** Runs *)

(** The owner may do anything, the tenant nothing. *)
Definition demo_auth : Authorizer := Some (fun u _ => Ok (bool_decide (u = "owner"))).
Definition owner : Request := MkRequest (Some "owner").
Definition tenant_rq : Request := MkRequest (Some "tenant").
Definition plain_meta (labels : gmap string string) (fs : list string) : ObjectMeta :=
  MkMeta "x" "app" "uid" 1 false labels ∅ fs.
Definition demo_binding (fwd : bool) (fs : list string) : Binding :=
  MkBindingObj (plain_meta ∅ fs) (MkBindingSpec (MkVPCRef "net" "a") fwd []).
Definition all_names (_ : string) : bool := true.

(** The tenant's attempts to create, widen and unhook a binding change nothing. *)
Definition demo_writes : list write :=
  [WCreate tenant_rq (demo_binding true []); WCreate owner (demo_binding false []);
   WUpdate tenant_rq (demo_binding true [reapFinalizer]); WUpdate tenant_rq (demo_binding false [])].


Definition demo_half (managed : bool) (status : nat) : Peering (Status := nat) :=
  MkPeeringObj (plain_meta (if managed then {[ManagedByLabel := PortalManager]} else ∅) [])
    (MkPeeringSpec "a" (MkVPCRef "net" "b")) status.

(** The owner's half is managed; the tenant strips the marker through the status, rewrites the
    half and deletes it, in vain. *)
Definition demo_pwrites : list (pwrite (Status := nat)) :=
  [PCreate tenant_rq (demo_half false 0); PCreate owner (demo_half true 0); PStatus tenant_rq (demo_half false 7);
   PUpdate tenant_rq (demo_half false 0); PDelete tenant_rq].

