(* ===== verification/VpcStrategy.v ===== *)
(** * The registry strategy of VPCs (pkg/registry/sdn/vpc)

    The API server is the only validation layer of a VPC.  What it stores is a working network
    whose boundary the agents can compile, and the boundary, an operator's ceiling over the
    tenant, changes only by a principal that may manage it. *)
From S2P Require Import Prelude GoText GoNet CidrOverlap AddrMap Grants Boundary BoundaryCompile SgIdentity ClaimNames Registry Authority.
Local Open Scope Z_scope.

(** ** Objects *)

(** [VPCBoundaryRule]; a nil slice is [None], as deep equality tells it from an empty one,
    api/sdn/types.go:65-72. *)
Record RuleRes := MkRuleRes {
  rr_PeerRef : VPCRef; rr_Direction : string; rr_Protocol : string;
  rr_Ports : option (list Z); rr_ICMPType : option Z; rr_ICMPCode : option Z
}.
(** [VPCBoundary], api/sdn/types.go:58-62. *)
Record BoundaryRes := MkBoundaryRes { br_Revision : Z; br_Internet : bool; br_Peers : option (list RuleRes) }.
(** [VPCSpec], api/sdn/types.go:46-55. *)
Record VPCSpec := MkVPCSpec { vs_CIDRs : option (list string); vs_MTU : Z; vs_Boundary : option BoundaryRes }.

#[export] Instance RuleRes_eq_dec : EqDecision RuleRes. Proof. solve_decision. Defined.
#[export] Instance BoundaryRes_eq_dec : EqDecision BoundaryRes. Proof. solve_decision. Defined.
#[export] Instance VPCSpec_eq_dec : EqDecision VPCSpec. Proof. solve_decision. Defined.

Definition slice {A} (l : option (list A)) : list A := default [] l.

(** [VPC]; [Rest] is the part of the status no strategy reads. *)
Record VPCRes {Rest : Type} := MkVPCRes { rv_Meta : ObjectMeta; rv_Generation : Z; rv_Spec : VPCSpec; rv_VNI : Z; rv_Rest : Rest }.
Arguments VPCRes _ : clear implicits.
Arguments MkVPCRes {_} _ _ _ _ _.

(** ** Validation *)

(** [validateBoundary], one port of a rule; the ports before it are the ones seen,
    pkg/registry/sdn/vpc/boundary.go:35-41. *)
Fixpoint boundary_ports (path : string) (i : nat) (seen ports : list Z) : ErrorList :=
  match ports with
  | [] => []
  | n :: ports =>
      check (negb ((n <? 1) || (65535 <? n) || bool_decide (n ∈ seen))) (Invalid (Index path i)) ++
      boundary_ports path (S i) (n :: seen) ports
  end.

(** [validateBoundary], one rule: its errors and its entries, pkg/registry/sdn/vpc/boundary.go:22-51. *)
Definition boundary_rule (ns name : string) (p : string) (i : nat) (r : RuleRes) : ErrorList * Z :=
  let q := Index (Child p "peers") i in
  let ref := rr_PeerRef r in
  let errs :=
    check (negb (bool_decide (refName ref = EmptyString) || bool_decide (refNamespace ref = EmptyString) ||
                 (bool_decide (refName ref = name) && bool_decide (refNamespace ref = ns)))) (Invalid (Child q "peerRef")) ++
    check (bool_decide (rr_Direction r = "ingress") || bool_decide (rr_Direction r = "egress")) (NotSupported (Child q "direction")) in
  let ports := slice (rr_Ports r) in
  if bool_decide (rr_Protocol r = "TCP") || bool_decide (rr_Protocol r = "UDP") then
    (errs ++
     check (negb ((Z.of_nat (length ports) <? 1) || (32 <? Z.of_nat (length ports)) ||
                  bool_decide (is_Some (rr_ICMPType r)) || bool_decide (is_Some (rr_ICMPCode r)))) (Invalid q) ++
     boundary_ports (Child q "ports") 0 [] ports, Z.of_nat (length ports))
  else if bool_decide (rr_Protocol r = "ICMP") then
    (errs ++
     check (match rr_ICMPType r, rr_ICMPCode r with
            | Some t, Some c =>
                bool_decide (length ports = 0%nat) && negb ((t <? 0) || (255 <? t) || (c <? 0) || (255 <? c))
            | _, _ => false
            end) (Invalid q), 2)
  else (errs ++ [NotSupported (Child q "protocol")], 0).

(** [validateBoundary], pkg/registry/sdn/vpc/boundary.go:8-56. *)
Definition validateBoundary (ns name : string) (b : option BoundaryRes) : ErrorList :=
  match b with
  | None => []
  | Some b =>
      let p := "spec.boundary" in
      let peers := slice (br_Peers b) in
      let rules := imap (boundary_rule ns name p) peers in
      check (1 <=? br_Revision b) (Invalid (Child p "revision")) ++
      check (Z.of_nat (length peers) <=? 256) (TooMany (Child p "peers")) ++
      concat (rules.*1) ++
      check (fold_left Z.add (rules.*2) 0 <=? 4096) (TooMany (Child p "peers"))
  end.

(** [validateVPCSpec], the host bits: the first such CIDR, pkg/registry/sdn/vpc/strategy.go:135-140. *)
Definition host_bits (cidrs : list string) : ErrorList :=
  match head (each (fun i cidr =>
    match ParseCIDR cidr with
    | Some (ip, net) => check (IP_Equal ip (inIP net)) (Invalid (Index "spec.cidrs" i))
    | None => []
    end) cidrs) with
  | Some e => [e]
  | None => []
  end.

(** [validateVPCSpec], pkg/registry/sdn/vpc/strategy.go:124-148. *)
Definition validateVPCSpec (ns name : string) (s : VPCSpec) : ErrorList :=
  let cidrs := slice (vs_CIDRs s) in
  orelse (check (is_ok (ValidateVPCCIDRs cidrs)) (Invalid "spec.cidrs")) (
  orelse (check (negb (bool_decide (cidrs = []))) (Required "spec.cidrs")) (
  orelse (host_bits cidrs) (
  check ((vs_MTU s =? 0) || negb ((vs_MTU s <? 576) || (65535 <? vs_MTU s))) (Invalid "spec.mtu") ++
  validateBoundary ns name (vs_Boundary s)))).

Section Strategy.
Context {Rest : Type} (noRest : Rest) (auth : Authorizer).
Abbreviation vpc := (VPCRes Rest).

Definition rv_ns (v : vpc) : string := m_Namespace (rv_Meta v).
Definition rv_name (v : vpc) : string := m_Name (rv_Meta v).

(** [vpcStrategy.PrepareForCreate], pkg/registry/sdn/vpc/strategy.go:84-90. *)
Definition vpc_PrepareForCreate (v : vpc) : vpc := MkVPCRes (rv_Meta v) 1 (rv_Spec v) 0 noRest.

(** [vpcStrategy.PrepareForUpdate], pkg/registry/sdn/vpc/strategy.go:92-101. *)
Definition vpc_PrepareForUpdate (v old : vpc) : vpc :=
  MkVPCRes (rv_Meta v)
    (if bool_decide (rv_Spec v = rv_Spec old) then rv_Generation old else rv_Generation old + 1)
    (rv_Spec v) (rv_VNI old) (rv_Rest old).

(** [vpcStrategy.Validate], pkg/registry/sdn/vpc/strategy.go:103-112. *)
Definition vpc_Validate (rq : Request) (v : vpc) : ErrorList :=
  validateVPCSpec (rv_ns v) (rv_name v) (rv_Spec v) ++
  match vs_Boundary (rv_Spec v) with
  | None => []
  | Some _ => err_list (CheckVPCVerb auth rq "manage-boundary" (rv_ns v) (rv_name v) "spec.boundary")
  end.

(** [vpcStrategy.ValidateUpdate], pkg/registry/sdn/vpc/strategy.go:169-189. *)
Definition vpc_ValidateUpdate (rq : Request) (newV oldV : vpc) : ErrorList :=
  let newS := rv_Spec newV in let oldS := rv_Spec oldV in
  let boundaryChanged := negb (bool_decide (vs_Boundary newS = vs_Boundary oldS)) in
  let networkChanged := negb (bool_decide (slice (vs_CIDRs newS) = slice (vs_CIDRs oldS))) || negb (vs_MTU newS =? vs_MTU oldS) in
  let errs :=
    (if boundaryChanged || (bool_decide (is_Some (vs_Boundary oldS)) && networkChanged)
     then err_list (CheckVPCVerb auth rq "manage-boundary" (rv_ns oldV) (rv_name oldV) "spec") else []) ++
    (if boundaryChanged then
       match vs_Boundary newS, vs_Boundary oldS with
       | Some nb, Some ob => check (negb (br_Revision nb <=? br_Revision ob)) (Invalid "spec.boundary.revision")
       | _, _ => []
       end else []) in
  if negb networkChanged && negb boundaryChanged then []
  else errs ++ validateVPCSpec (rv_ns newV) (rv_name newV) newS.

(** [vpcStatusStrategy.PrepareForUpdate], pkg/registry/sdn/vpc/strategy.go:207-212. *)
Definition vpc_status_PrepareForUpdate (v old : vpc) : vpc :=
  MkVPCRes (rv_Meta v) (rv_Generation old) (rv_Spec old) (rv_VNI v) (rv_Rest v).

(** [vpcStatusStrategy.ValidateUpdate], pkg/registry/sdn/vpc/strategy.go:214-220. *)
Definition vpc_status_ValidateUpdate (v : vpc) : ErrorList :=
  check ((rv_VNI v =? 0) || ValidVNI (rv_VNI v)) (Invalid "status.vni").

(** ** The life of a VPC *)

Inductive vwrite :=
| VCreate (rq : Request) (v : vpc)
| VUpdate (rq : Request) (v : vpc)
| VStatus (rq : Request) (v : vpc).

(** The store runs the preparation and validation of the strategy of the endpoint. *)
Definition vpc_write (stored : option vpc) (w : vwrite) : option vpc :=
  match w, stored with
  | VCreate rq v, None =>
      let v := vpc_PrepareForCreate v in if decide (vpc_Validate rq v = []) then Some v else None
  | VUpdate rq v, Some old =>
      let v := vpc_PrepareForUpdate v old in
      if decide (rv_ns v = rv_ns old /\ rv_name v = rv_name old /\ vpc_ValidateUpdate rq v old = []) then Some v else stored
  | VStatus rq v, Some old =>
      let v := vpc_status_PrepareForUpdate v old in
      if decide (rv_ns v = rv_ns old /\ rv_name v = rv_name old /\ vpc_status_ValidateUpdate v = []) then Some v else stored
  | _, _ => stored
  end.

Definition may_manage_vpc (rq : Request) (v : vpc) : Prop := allowed auth rq "manage-boundary" "vpcs" (rv_ns v) (rv_name v).
Definition vpc_request (w : vwrite) : option Request := match w with VCreate rq _ | VUpdate rq _ => Some rq | VStatus _ _ => None end.

(** What a stored VPC is. *)
Definition vpc_ok (v : vpc) : Prop :=
  validateVPCSpec (rv_ns v) (rv_name v) (rv_Spec v) = [] /\ ((rv_VNI v =? 0) || ValidVNI (rv_VNI v) = true) /\ 1 <= rv_Generation v.

(** Two specs that validation cannot tell apart. *)
Lemma validateVPCSpec_network ns name s s' : slice (vs_CIDRs s) = slice (vs_CIDRs s') -> vs_MTU s = vs_MTU s' ->
  vs_Boundary s = vs_Boundary s' -> validateVPCSpec ns name s = validateVPCSpec ns name s'.
Proof. unfold validateVPCSpec. by intros -> -> ->. Qed.

Lemma vpc_write_ok old w v : (forall v0, old = Some v0 -> vpc_ok v0) -> vpc_write old w = Some v -> vpc_ok v.
Proof.
  intros Hold. destruct w as [rq x|rq x|rq x]; destruct old as [o|]; cbn [vpc_write]; try (by intros [= <-]; auto).
  - case_decide as Hd; [|done]. intros [= <-]. apply app_nil in Hd as [Hd _]. split_and!; [done|done|cbn; lia].
  - destruct (Hold o eq_refl) as (Hs & Hv & Hg). case_decide as Hd; [|by intros [= <-]]. intros [= <-].
    destruct Hd as (Hns & Hnm & Hd). split_and!; [|done|cbn; case_bool_decide; lia]. unfold vpc_ValidateUpdate in Hd.
    destruct (_ && _) eqn:E in Hd; [|by apply app_nil in Hd as [_ Hd]].
    apply andb_prop in E as [E1 E2]. apply negb_true_iff in E1, E2. apply orb_false_iff in E1 as [E1 E3].
    apply negb_false_iff in E1, E2, E3. apply bool_decide_eq_true in E1, E2. to_prop.
    rewrite Hns, Hnm. by rewrite (validateVPCSpec_network _ _ _ (rv_Spec o)).
  - destruct (Hold o eq_refl) as (Hs & Hv & Hg). case_decide as Hd; [|by intros [= <-]]. intros [= <-].
    destruct Hd as (Hns & Hnm & Hd). apply check_nil in Hd. split_and!; [|done|done]. by rewrite Hns, Hnm.
Qed.

Definition same_network (s s' : VPCSpec) : Prop := slice (vs_CIDRs s) = slice (vs_CIDRs s') /\ vs_MTU s = vs_MTU s'.

(** A write that moves the boundary, or the network under one, is the operator's; the
    revision of a boundary grows and the generation counts the changes of the spec. *)
Definition step_ok (w : vwrite) (v v' : vpc) : Prop :=
  rv_ns v' = rv_ns v /\ rv_name v' = rv_name v /\
  (vs_Boundary (rv_Spec v') <> vs_Boundary (rv_Spec v) \/
     is_Some (vs_Boundary (rv_Spec v)) /\ ~ same_network (rv_Spec v') (rv_Spec v) ->
   exists rq, vpc_request w = Some rq /\ may_manage_vpc rq v) /\
  (forall b b', vs_Boundary (rv_Spec v) = Some b -> vs_Boundary (rv_Spec v') = Some b' -> b <> b' -> br_Revision b < br_Revision b') /\
  rv_Generation v' = rv_Generation v + (if bool_decide (rv_Spec v' = rv_Spec v) then 0 else 1).

Lemma step_ok_same w v v' : rv_ns v' = rv_ns v -> rv_name v' = rv_name v -> rv_Spec v' = rv_Spec v ->
  rv_Generation v' = rv_Generation v -> step_ok w v v'.
Proof.
  intros Hns Hnm Hs Hg. unfold step_ok. rewrite Hs, bool_decide_true, Hg by done. split_and!; [done|done| | |lia].
  - intros [?|[_ []]]; [done|by split].
  - intros b b' -> [= <-]. done.
Qed.

Lemma vpc_write_authorized v w v' : vpc_write (Some v) w = Some v' -> step_ok w v v'.
Proof.
  destruct w as [rq x|rq x|rq x]; cbn [vpc_write]; [by intros [= <-]; apply step_ok_same| |];
    (case_decide as Hd; [|by intros [= <-]; apply step_ok_same]); intros [= <-]; destruct Hd as (Hns & Hnm & Hd);
    [|by apply step_ok_same].
  unfold vpc_ValidateUpdate in Hd. unfold step_ok.
    cbn [rv_Spec vpc_PrepareForUpdate rv_Generation] in *.
    set (bc := negb (bool_decide (vs_Boundary _ = _))) in Hd. set (nc := negb _ || _) in Hd.
    assert (bc = false -> vs_Boundary (rv_Spec x) = vs_Boundary (rv_Spec v)) as Hbc
      by (intros E; apply negb_false_iff, bool_decide_eq_true in E; done).
    assert (nc = false -> same_network (rv_Spec x) (rv_Spec v)) as Hnc.
    { intros E. apply orb_false_iff in E as [E1 E2]. apply negb_false_iff in E1, E2. apply bool_decide_eq_true in E1.
      to_prop. by split. }
    split_and!; [done|done| | |cbn; repeat case_bool_decide; first [lia|done]].
    + intros Hch. exists rq. split; [done|]. apply CheckResourceVerb_None with (path := "spec"%string), err_list_nil.
      destruct (negb nc && negb bc) eqn:E.
      { apply andb_prop in E as [E1 E2]. apply negb_true_iff in E1, E2. destruct Hch as [Hch|[_ Hch]]; [by destruct Hch; apply Hbc|by destruct Hch; apply Hnc]. }
      apply app_nil in Hd as [Hd _]. apply app_nil in Hd as [Hd _]. destruct (bc || _) eqn:E2; [done|].
      apply orb_false_iff in E2 as [E2 E3]. destruct Hch as [Hch|[Hs Hch]]; [by destruct Hch; apply Hbc|].
      rewrite bool_decide_true in E3 by done. by destruct Hch; apply Hnc.
    + intros b b' Hb Hb' Hne. assert (bc = true) as Ebc.
      { destruct bc eqn:E; [done|]. rewrite Hbc in Hb' by done. congruence. }
      rewrite Ebc, andb_false_r in Hd. apply app_nil in Hd as [Hd _]. apply app_nil in Hd as [_ Hd].
      rewrite Hb, Hb' in Hd. apply check_nil, negb_true_iff in Hd. to_prop. lia.
Qed.

Lemma stored_vpc_ok ws v : fold_left vpc_write ws None = Some v -> vpc_ok v.
Proof.
  revert v. induction ws as [|w ws IH] using rev_ind; [done|]. intros v. rewrite fold_left_app. cbn [fold_left].
  apply vpc_write_ok. apply IH.
Qed.

Lemma stored_boundary ws v : fold_left vpc_write ws None = Some v -> is_Some (vs_Boundary (rv_Spec v)) ->
  exists w rq wv, w ∈ ws /\ (w = VCreate rq wv \/ w = VUpdate rq wv) /\ may_manage_vpc rq v /\
    vs_Boundary (rv_Spec wv) = vs_Boundary (rv_Spec v).
Proof.
  revert v. induction ws as [|w ws IH] using rev_ind; intros v; [done|]. rewrite fold_left_app. cbn [fold_left].
  destruct (fold_left vpc_write ws None) as [old|].
  - intros Hw Hb. pose proof (vpc_write_authorized _ _ _ Hw) as (Hns & Hnm & Hch & _).
    destruct (decide (vs_Boundary (rv_Spec v) = vs_Boundary (rv_Spec old))) as [E|E].
    + rewrite E in Hb. destruct (IH old eq_refl Hb) as (w0 & rq & wv & Hin & Hk & Hm & Hwb). exists w0, rq, wv.
      split; [set_solver|]. unfold may_manage_vpc in *. by rewrite Hns, Hnm, E.
    + destruct (Hch (or_introl E)) as (rq & Hrq & Hm). unfold may_manage_vpc in *. rewrite <-Hns, <-Hnm in Hm.
      destruct w as [rq0 x|rq0 x|rq0 x]; cbn in Hrq; [by cbn in Hw; injection Hw as <-| |done].
      injection Hrq as ->. exists (VUpdate rq x), rq, x. split; [set_solver|]. split; [by right|]. split; [done|].
      cbn in Hw. case_decide; injection Hw as <-; done.
  - destruct w as [rq x|rq x|rq x]; cbn [vpc_write]; [|done|done]. case_decide as Hd; [|done]. intros [= <-] [b Hb].
    exists (VCreate rq x), rq, x. split; [set_solver|]. split; [by left|]. split; [|done].
    apply app_nil in Hd as [_ Hd]. rewrite Hb in Hd. by apply err_list_nil, CheckResourceVerb_None in Hd.
Qed.

(** C13. The operator's ceiling: in every history of writes of a VPC by any principals, what
    is stored is a valid network with a network identifier that is pending or in range; its
    boundary was written, as it stands, by a principal that may manage it; and every further
    write that changes the boundary, or the network under a boundary, comes from such a
    principal, with a revision that grows, and each change of the spec counts as one
    generation. *)
Theorem vpc_authorized ws v : fold_left vpc_write ws None = Some v ->
  vpc_ok v /\
  (is_Some (vs_Boundary (rv_Spec v)) -> exists w rq wv, w ∈ ws /\ (w = VCreate rq wv \/ w = VUpdate rq wv) /\
     may_manage_vpc rq v /\ vs_Boundary (rv_Spec wv) = vs_Boundary (rv_Spec v)) /\
  (forall w v', vpc_write (Some v) w = Some v' -> step_ok w v v').
Proof.
  intros Hrun. split; [by eapply stored_vpc_ok|]. split; [by apply stored_boundary|]. intros w v'. apply vpc_write_authorized.
Qed.
End Strategy.

(** ** What the agents make of it *)

Definition to_rule (r : RuleRes) : VPCBoundaryRule :=
  MkVPCBoundaryRule (rr_PeerRef r) (rr_Direction r) (rr_Protocol r) (slice (rr_Ports r)) (rr_ICMPType r) (rr_ICMPCode r).
Definition to_boundary (b : BoundaryRes) : VPCBoundary := MkVPCBoundary (br_Revision b) (br_Internet b) (to_rule <$> slice (br_Peers b)).

(** The stored object as the agents read it. *)
Definition to_vpc {Rest} (v : VPCRes Rest) : VPC :=
  MkVPC (rv_ns v) (rv_name v) (m_UID (rv_Meta v)) (vs_CIDRs (rv_Spec v)) (to_boundary <$> vs_Boundary (rv_Spec v)) (rv_VNI v).

Lemma boundary_ports_nil path i seen ports : boundary_ports path i seen ports = [] ->
  Forall (fun n => 1 <= n <= 65535) ports /\ NoDup ports.
Proof.
  revert i seen. induction ports as [|n ports IH]; intros i seen; cbn; [by split; constructor|].
  intros [Hc Hr]%app_nil. apply check_nil, negb_true_iff in Hc. apply orb_false_iff in Hc as [Hc Hs]. apply orb_false_iff in Hc as [H1 H2].
  to_prop. destruct (IH _ _ Hr) as [Hf Hn]. split; constructor; [lia|done| |done].
  clear -Hr. assert (forall i seen, n ∈ seen -> boundary_ports path i seen ports = [] -> n ∉ ports) as Hx.
  { clear. induction ports as [|m ports IH]; intros i seen Hin; cbn; [set_solver|]. intros [Hc Hr]%app_nil.
    apply check_nil, negb_true_iff in Hc. apply orb_false_iff in Hc as [_ Hs]. apply bool_decide_eq_false in Hs.
    apply not_elem_of_cons. split; [congruence|]. eapply IH; [|done]. set_solver. }
  eapply Hx; [|done]. set_solver.
Qed.

(** A valid rule compiles, to as many entries as it was charged. *)
Lemma boundary_rule_compiles ns name p i r peer : (boundary_rule ns name p i r).1 = [] ->
  (rr_Direction r = "ingress" \/ rr_Direction r = "egress") /\ rr_PeerRef r <> MkVPCRef ns name /\
  exists rules, compile_ports peer (bool_decide (rr_Direction r = "ingress")) (to_rule r) = Ok rules /\
    Z.of_nat (length rules) = (boundary_rule ns name p i r).2.
Proof.
  unfold boundary_rule, compile_ports. cbn [br_Protocol to_rule br_Ports BoundaryCompile.ICMPType BoundaryCompile.ICMPCode].
  assert (forall e1 e2 rest, (check (negb (bool_decide (refName (rr_PeerRef r) = EmptyString) || bool_decide (refNamespace (rr_PeerRef r) = EmptyString) ||
                 (bool_decide (refName (rr_PeerRef r) = name) && bool_decide (refNamespace (rr_PeerRef r) = ns)))) e1 ++
    check (bool_decide (rr_Direction r = "ingress") || bool_decide (rr_Direction r = "egress")) e2) ++ rest = [] ->
    (rr_Direction r = "ingress" \/ rr_Direction r = "egress") /\ rr_PeerRef r <> MkVPCRef ns name /\ rest = []) as Hhead.
  { intros e1 e2 rest [[Hp Hd]%app_nil Hr]%app_nil. apply check_nil in Hp, Hd. apply orb_prop in Hd. rewrite !bool_decide_eq_true in Hd.
    split_and!; [done| |done]. intros E. rewrite E in Hp. cbn in Hp. rewrite (bool_decide_true (name = name)), (bool_decide_true (ns = ns)) in Hp by done.
    by rewrite andb_true_r, orb_true_r in Hp. }
  set (ports := slice (rr_Ports r)). destruct (decide (rr_Protocol r = "TCP" \/ rr_Protocol r = "UDP")) as [Hpr|Hpr].
  - assert (bool_decide (rr_Protocol r = "TCP") || bool_decide (rr_Protocol r = "UDP") = true) as ->
      by (apply orb_true_iff; rewrite !bool_decide_eq_true; done).
    cbn [fst snd]. intros (Hd & Hp & Hr)%Hhead. split; [done|]. split; [done|]. apply app_nil in Hr as [Hc Hports].
    apply boundary_ports_nil in Hports as [Hf _]. apply check_nil, negb_true_iff in Hc.
    apply orb_false_iff in Hc as [Hc Hc4]. apply orb_false_iff in Hc as [Hc Hc3]. apply orb_false_iff in Hc as [Hc1 Hc2]. to_prop.
    rewrite (bool_decide_false (ports = [])) by (intros E; rewrite E in Hc1; cbn in Hc1; lia).
    rewrite !bool_decide_false by done. assert ((32 <? Z.of_nat (length ports)) = false) as -> by lia. cbn [orb].
    set (proto := if decide (rr_Protocol r = "UDP") then 17 else 6).
    assert (forall acc ports, Forall (fun n => 1 <= n <= 65535) ports -> foldM (fun rules p =>
      if (p <? 1) || (65535 <? p) then Err "invalid boundary port"
      else Ok (rules ++ [MkBoundaryRule peer (bool_decide (rr_Direction r = "ingress")) proto (u16 p)])) acc ports =
      Ok (acc ++ ((fun p => MkBoundaryRule peer (bool_decide (rr_Direction r = "ingress")) proto (u16 p)) <$> ports))) as Hfold.
    { intros acc ps. revert acc. induction ps as [|n ps IH]; intros acc Hps; cbn; [by rewrite app_nil_r|].
      apply Forall_cons in Hps as [Hn Hps]. assert ((n <? 1) || (65535 <? n) = false) as -> by (apply orb_false_iff; lia).
      cbn. rewrite IH by done. by rewrite <-app_assoc. }
    eexists. split; [by apply Hfold|]. cbn. by rewrite length_fmap.
  - assert (bool_decide (rr_Protocol r = "TCP") || bool_decide (rr_Protocol r = "UDP") = false) as ->
      by (apply orb_false_iff; rewrite !bool_decide_eq_false; tauto).
    destruct (bool_decide (rr_Protocol r = "ICMP")) eqn:Hic; [apply bool_decide_eq_true in Hic|]; cbn [fst snd].
    + intros (Hd & Hp & Hr)%Hhead. split; [done|]. split; [done|]. apply check_nil in Hr. rewrite decide_True by done.
      destruct (rr_ICMPType r) as [t|]; [|done]. destruct (rr_ICMPCode r) as [c|]; [|done]. apply andb_prop in Hr as [Hl Hr].
      apply bool_decide_eq_true, length_zero_iff_nil in Hl. apply negb_true_iff in Hr. fold ports. rewrite Hl, Hr. by eexists.
    + intros (_ & _ & Hr)%Hhead. done.
Qed.

Lemma foldM_err {A B} (f : B -> A -> result B) acc l e : foldM f acc l = Err e -> exists x a, x ∈ l /\ f a x = Err e.
Proof.
  revert acc. induction l as [|x l IH]; intros acc; cbn; [done|]. destruct (f acc x) as [a|] eqn:E.
  - intros (y & a' & Hy & Hf)%IH. exists y, a'. set_solver.
  - intros [= <-]. exists x, acc. set_solver.
Qed.

Lemma rules_nil ns name p peers : concat ((imap (boundary_rule ns name p) peers).*1) = [] ->
  forall i r, peers !! i = Some r -> (boundary_rule ns name p i r).1 = [].
Proof. rewrite fmap_imap. intros Hr i r Hi. by apply (each_nil (fun i r => (boundary_rule ns name p i r).1) peers) with (i := i). Qed.

Lemma rule_error ns name p peers byRef i v r a e : concat ((imap (boundary_rule ns name p) peers).*1) = [] -> r ∈ peers ->
  (rs ← compile_peer byRef i v (to_rule r); mret (a ++ rs)) = Err e ->
  e = "boundary peer not realized" \/ e = "invalid boundary peer address space".
Proof.
  intros Hn (j & Hj)%list_elem_of_lookup. pose proof (rules_nil _ _ _ _ Hn j r Hj) as Hr. unfold compile_peer.
  cbn [BoundaryCompile.PeerRef to_rule Direction]. destruct (byRef !! _) as [[k peer]|]; [|intros [= <-]; by left].
  case_if; [intros [= <-]; by left|]. case_if; [intros [= <-]; by right|].
  destruct (boundary_rule_compiles _ _ _ _ _ (VNI (vpc_VNI peer)) Hr) as (Hd & _ & rules & Hc & _).
  assert (negb (bool_decide (rr_Direction r = "ingress")) && negb (bool_decide (rr_Direction r = "egress")) = false) as ->.
  { destruct Hd as [-> | ->]; done. }
  by rewrite Hc.
Qed.

Lemma compiled_length ns name p peers byRef i v rules : concat ((imap (boundary_rule ns name p) peers).*1) = [] ->
  foldM (fun out r => rs ← compile_peer byRef i v r; mret (out ++ rs)) [] (to_rule <$> peers) = Ok rules ->
  Z.of_nat (length rules) = fold_left Z.add ((imap (boundary_rule ns name p) peers).*2) 0.
Proof.
  revert rules. induction peers as [|r peers IH] using rev_ind; intros rules Hn Hf; [by injection Hf as <-|].
  rewrite fmap_app, foldM_app in Hf. apply bind_ok in Hf as (out & Ho & Hf). cbn in Hf.
  rewrite imap_app, fmap_app, concat_app in Hn. apply app_nil in Hn as [Hn Hr]. cbn in Hr. rewrite app_nil_r in Hr.
  rewrite imap_app, fmap_app, fold_left_app, <-(IH out) by done. cbn [imap fmap list_fmap fold_left].
  unfold compile_peer in Hf. destruct (byRef !! _) as [[k peer]|]; [|done]. case_if; [done|]. case_if; [done|]. case_if; [done|].
  destruct (boundary_rule_compiles _ _ _ _ _ (VNI (vpc_VNI peer)) Hr) as (_ & _ & rs & Hc & Hl).
  cbn [Direction to_rule] in Hf. rewrite Hc in Hf. injection Hf as <-. rewrite length_app, Nat2Z.inj_add, Hl. done.
Qed.

(** C37. A stored boundary is one the agents can compile: whatever the peers are, the compiler
    refuses the boundary of a valid VPC only because a peer is not realized or shares its
    address space, and otherwise yields at most 4096 rules, as many as it was charged. *)
Theorem valid_vpc_compiles {Rest} (v : VPCRes Rest) b byRef i :
  validateVPCSpec (rv_ns v) (rv_name v) (rv_Spec v) = [] -> vs_Boundary (rv_Spec v) = Some b ->
  match compile_vpc byRef i (to_vpc v) (to_boundary b) with
  | Err e => e = "boundary peer not realized" \/ e = "invalid boundary peer address space"
  | Ok c => Z.of_nat (length (b_Rules c)) <= 4096
  end.
Proof.
  unfold validateVPCSpec. rewrite !orelse_nil. intros (Hc & _ & _ & Hm) Hb. rewrite Hb in Hm. apply app_nil in Hm as [_ Hm].
  apply check_nil in Hc. unfold validateBoundary in Hm. apply app_nil in Hm as [Hrev Hm]. apply app_nil in Hm as [_ Hm].
  apply app_nil in Hm as [Hrules Hn]. apply check_nil in Hrev, Hn. to_prop.
  unfold compile_vpc. cbn [vb_Revision to_boundary]. assert ((br_Revision b <? 1) = false) as -> by lia.
  assert (exists out, foldM (fun out c => match ParseCIDR c with None => Err "invalid VPC CIDR" | Some (_, n) => Ok (out ++ [Some n]) end)
    [] (cidrs_of (to_vpc v)) = Ok out) as [out ->].
  { destruct (foldM _ [] _) as [o|e] eqn:E; [by eexists|]. apply foldM_err in E as (c & a & Hin & E).
    unfold ValidateVPCCIDRs in Hc. case_decide; [done|]. rewrite validate_texts_ok, forallb_forall in Hc.
    apply list_elem_of_In, Hc, andb_prop in Hin as [_ Hp]. apply bool_decide_eq_true in Hp as [[ip net] Hp]. by rewrite Hp in E. }
  cbn [mbind result_mbind]. destruct (foldM _ [] (vb_Peers (to_boundary b))) as [rules|e] eqn:E; cbn.
  - by rewrite (compiled_length _ _ _ _ _ _ _ _ Hrules E).
  - apply foldM_err in E as (r & a & Hin & E). cbn in Hin. apply list_elem_of_fmap in Hin as (r0 & -> & Hin).
    by eapply rule_error.
Qed.

(** ** A run *)

Definition web_rule : RuleRes := MkRuleRes (MkVPCRef "net" "b") "egress" "TCP" (Some [80; 443]) None None.
Definition demo_vpc (cidrs : list string) (b : option BoundaryRes) (vni : Z) : VPCRes unit :=
  MkVPCRes (MkMeta "a" "net" "uid" 1 false ∅ ∅ []) 0 (MkVPCSpec (Some cidrs) 0 b) vni tt.
Definition demo_ceiling (rev : Z) : option BoundaryRes := Some (MkBoundaryRes rev false (Some [web_rule])).

(** The tenant creates a VPC, the operator bounds it, the controller numbers it; the tenant's
    attempts to lift the boundary, to widen the network and to take a bad number fail. *)
Definition demo_vwrites : list (vwrite (Rest := unit)) :=
  [VCreate tenant_rq (demo_vpc ["10.0.0.1/16"] None 0); VCreate tenant_rq (demo_vpc ["10.0.0.0/16"] None 5);
   VUpdate owner (demo_vpc ["10.0.0.0/16"] (demo_ceiling 3) 0); VStatus tenant_rq (demo_vpc [] None 100);
   VUpdate tenant_rq (demo_vpc ["10.0.0.0/16"] None 0); VUpdate tenant_rq (demo_vpc ["10.0.0.0/8"] (demo_ceiling 3) 0);
   VUpdate owner (demo_vpc ["10.0.0.0/16"] (demo_ceiling 2) 0); VStatus tenant_rq (demo_vpc [] None 5)].
Definition demo_stored : VPCRes unit := MkVPCRes (MkMeta "a" "net" "uid" 1 false ∅ ∅ []) 2 (MkVPCSpec (Some ["10.0.0.0/16"]) 0 (demo_ceiling 3)) 100 tt.

Lemma vpc_authorized_witness :
  fold_left (vpc_write tt demo_auth) demo_vwrites None = Some demo_stored /\ vpc_ok demo_stored /\
  exists w rq wv, w ∈ demo_vwrites /\ (w = VCreate rq wv \/ w = VUpdate rq wv) /\ may_manage_vpc demo_auth rq demo_stored /\
    vs_Boundary (rv_Spec wv) = demo_ceiling 3.
Proof.
  assert (fold_left (vpc_write tt demo_auth) demo_vwrites None = Some demo_stored) as E by (vm_compute; reflexivity).
  destruct (vpc_authorized tt demo_auth demo_vwrites demo_stored E) as (Hok & Hb & _).
  split; [done|]. split; [done|]. apply Hb. by eexists.
Defined.

Lemma valid_vpc_compiles_witness :
  validateVPCSpec "net" "a" (rv_Spec demo_stored) = [] /\
  match compile_vpc (byRef_of [MkVPC "net" "b" "u" (Some ["10.1.0.0/16"]) None 101]) 7 (to_vpc demo_stored)
          (to_boundary (MkBoundaryRes 3 false (Some [web_rule]))) with
  | Err e => False
  | Ok c => Z.of_nat (length (b_Rules c)) <= 4096
  end.
Proof.
  assert (validateVPCSpec "net" "a" (rv_Spec demo_stored) = []) as E by (vm_compute; reflexivity). split; [done|].
  pose proof (valid_vpc_compiles demo_stored (MkBoundaryRes 3 false (Some [web_rule]))
    (byRef_of [MkVPC "net" "b" "u" (Some ["10.1.0.0/16"]) None 101]) 7 E eq_refl) as T.
  destruct (compile_vpc _ _ _ _) as [c|e] eqn:Ec; [done|]. vm_compute in Ec. done.
Defined.
