(* ===== verification/SgCompile.v ===== *)
(** * Compilation of SecurityGroups (cmd/agent/main.go, cmd/agent/securitygroup_members.go,
      cmd/agent/policy_limits.go, pkg/registry/sdn/securitygroup)

    The agent turns the groups of all VPCs into rules between numbered groups, after a
    preflight that bounds the expansion.  A rule is compiled only when the group it names is
    allocated in the VPC it names; the registry admits only rules the compiler serves. *)
From S2P Require Import Prelude GoText GoNet Sha256 AddrMap Warnings Grants Packet SecurityGroups SgIdentity ClaimNames Registry Authority.
Local Open Scope Z_scope.

(** ** Objects *)

(** [SecurityGroupPort], api/sdn/v1alpha1/securitygroup_types.go:129-138. *)
Record SGPort := MkSGPort { sp_Protocol : string; sp_Port : Z }.
(** [SecurityGroupPeer], api/sdn/v1alpha1/securitygroup_types.go:110-126. *)
Record SGPeer := MkSGPeer { sp_Group : string; sp_VPC : option VPCRef; sp_CIDR : string }.
(** [SecurityGroupRule], the egress rule has the same fields,
    api/sdn/v1alpha1/securitygroup_types.go:95-104. *)
Record SGRuleSpec := MkSGRuleSpec { sr_Peer : SGPeer; sr_Ports : list SGPort }.
(** [SecurityGroup], with its selector of the Kubernetes library,
    api/sdn/v1alpha1/securitygroup_types.go:174-180. *)
Record SGObj {Selector : Type} := MkSGObj {
  sg_Meta : ObjectMeta; sg_VPCName : string; sg_PodSelector : Selector;
  sg_Ingress : list SGRuleSpec; sg_Egress : list SGRuleSpec; sg_ID : Z
}.
Arguments SGObj _ : clear implicits.
Arguments MkSGObj {_} _ _ _ _ _ _.

Definition sg_Name {S} (g : SGObj S) : string := m_Name (sg_Meta g).
Definition sg_Namespace {S} (g : SGObj S) : string := m_Namespace (sg_Meta g).

(** ** Ports *)

(** [compileSGPort], cmd/agent/main.go:2823-2835. *)
Definition compileSGPort (pp : SGPort) : option (Z * Z) :=
  if (sp_Port pp <? 0) || (65535 <? sp_Port pp) then None
  else if decide (sp_Protocol pp = "TCP") then Some (6, u16 (sp_Port pp))
  else if decide (sp_Protocol pp = "UDP") then Some (17, u16 (sp_Port pp))
  else None.

(** [compileRulePorts], cmd/agent/main.go:2461-2477. *)
Definition compileRulePorts (net srcNet group allowed : Z) (ports : list SGPort) : list SGRule :=
  if decide (ports = []) then (fun proto => MkSGRule net srcNet group proto 0 allowed) <$> [6; 17]
  else omap (fun pp => '(proto, port) ← compileSGPort pp; Some (MkSGRule net srcNet group proto port allowed)) ports.

(** [compileEgressPorts], cmd/agent/main.go:2481-2497. *)
Definition compileEgressPorts (srcNet dstNet group allowedDst : Z) (ports : list SGPort) : list SGEgress :=
  if decide (ports = []) then (fun proto => MkSGEgress srcNet dstNet group proto 0 allowedDst) <$> [6; 17]
  else omap (fun pp => '(proto, port) ← compileSGPort pp; Some (MkSGEgress srcNet dstNet group proto port allowedDst)) ports.

(** [compileEgressCidrPorts], cmd/agent/main.go:2502-2518. *)
Definition compileEgressCidrPorts (srcNet : Z) (cidr : IPNet) (allowedSrc : Z) (ports : list SGPort) : list SGEgressCidr :=
  if decide (ports = []) then (fun proto => MkSGEgressCidr srcNet proto 0 (Some cidr) allowedSrc) <$> [6; 17]
  else omap (fun pp => '(proto, port) ← compileSGPort pp; Some (MkSGEgressCidr srcNet proto port (Some cidr) allowedSrc)) ports.

(** [isAnyCIDR], cmd/agent/main.go:2522-2524. *)
Definition isAnyCIDR (c : string) : bool := bool_decide (c = "0.0.0.0/0") || bool_decide (c = "::/0").

(** [compileCidrPorts], cmd/agent/main.go:2529-2545. *)
Definition compileCidrPorts (net : Z) (cidr : IPNet) (allowedGroups : Z) (ports : list SGPort) : list SGCidr :=
  if decide (ports = []) then (fun proto => MkSGCidr net proto 0 (Some cidr) allowedGroups) <$> [6; 17]
  else omap (fun pp => '(proto, port) ← compileSGPort pp; Some (MkSGCidr net proto port (Some cidr) allowedGroups)) ports.

(** ** The compiler *)

Section Compile.
Context (IsDNS1123Label IsDNS1123Subdomain : string -> bool) {Selector : Type}.
(** The VNI of a VPC, when the lister has it. *)
Context (vpc_vni : string -> string -> option Z).

(** [GroupReference], internal/vpnlimits/references.go:26-28. *)
Definition GroupReference (group namespace name : string) : bool :=
  ObjectName IsDNS1123Subdomain group &&
  ((bool_decide (namespace = EmptyString) && bool_decide (name = EmptyString)) ||
   (NamespaceName IsDNS1123Label namespace && ObjectName IsDNS1123Subdomain name)).

(** [securityGroupPeerReference], cmd/agent/securitygroup_members.go:12-17. *)
Definition securityGroupPeerReference (peer : SGPeer) : bool :=
  match sp_VPC peer with
  | None => GroupReference (sp_Group peer) EmptyString EmptyString
  | Some v => NamespaceName IsDNS1123Label (refNamespace v) && GroupReference (sp_Group peer) (refNamespace v) (refName v)
  end.

(** [watchSecurityGroups], the groups that take part, cmd/agent/main.go:2316-2318. *)
Definition live_group (g : SGObj Selector) : bool :=
  negb (m_Deleting (sg_Meta g) || (sg_ID g <=? 0) || (SGWorldGroup <=? sg_ID g) ||
        negb (NamespaceName IsDNS1123Label (sg_Namespace g)) || negb (ObjectName IsDNS1123Subdomain (sg_VPCName g))).

Definition group_vpc (g : SGObj Selector) : string * string := (sg_Namespace g, sg_VPCName g).

(** [nameID], the numbers of the groups of each VPC, cmd/agent/main.go:2314-2324. *)
Definition nameID (groups : list (SGObj Selector)) : gmap (string * string) (gmap string Z) :=
  fold_left (fun m g => if live_group g
    then <[group_vpc g := <[sg_Name g := Group (sg_ID g)]> (default ∅ (m !! group_vpc g))]> m else m) groups ∅.

(** The VPC a peer is looked up in, with its network: the group's own, or the one it names. *)
Definition peer_vpc (k : string * string) (net : Z) (peer : SGPeer) : option ((string * string) * Z) :=
  match sp_VPC peer with
  | None => Some (k, net)
  | Some v =>
      vni ← vpc_vni (refNamespace v) (refName v);
      if ValidVNI vni then Some ((refNamespace v, refName v), VNI vni) else None
  end.

(** The number and the network of the group a peer names. *)
Definition resolve_group (ids : gmap (string * string) (gmap string Z)) (k : string * string) (net : Z) (peer : SGPeer) : option (Z * Z) :=
  if negb (securityGroupPeerReference peer) then None
  else
    '(key, pnet) ← peer_vpc k net peer;
    id ← (ids !! key ≫= fun m => m !! sp_Group peer);
    Some (id, pnet).

(** [watchSecurityGroups], one ingress rule, cmd/agent/main.go:2343-2390. *)
Definition compile_ingress (ids : gmap (string * string) (gmap string Z)) (k : string * string) (net id : Z) (ing : SGRuleSpec)
    : list SGRule * list SGCidr :=
  let from := sr_Peer ing in
  if decide (sp_Group from <> EmptyString) then
    match resolve_group ids k net from with
    | None => ([], [])
    | Some (src, srcNet) => (compileRulePorts net srcNet (Group id) (Z.shiftl 1 src) (sr_Ports ing), [])
    end
  else if isAnyCIDR (sp_CIDR from) then
    (compileRulePorts net net (Group id) (Z.shiftl 1 SGWorldGroup) (sr_Ports ing), [])
  else if decide (sp_CIDR from <> EmptyString) then
    match ParseCIDR (sp_CIDR from) with
    | None => ([], [])
    | Some (_, ipnet) => ([], compileCidrPorts net ipnet (Z.shiftl 1 (Group id)) (sr_Ports ing))
    end
  else ([], []).

(** [watchSecurityGroups], one egress rule, cmd/agent/main.go:2394-2430. *)
Definition compile_egress (ids : gmap (string * string) (gmap string Z)) (k : string * string) (net id : Z) (eg : SGRuleSpec)
    : list SGEgress * list SGEgressCidr :=
  let to := sr_Peer eg in
  if decide (sp_CIDR to <> EmptyString) then
    match ParseCIDR (sp_CIDR to) with
    | None => ([], [])
    | Some (_, ipnet) => ([], compileEgressCidrPorts net ipnet (Z.shiftl 1 (Group id)) (sr_Ports eg))
    end
  else if decide (sp_Group to = EmptyString) then ([], [])
  else
    match resolve_group ids k net to with
    | None => ([], [])
    | Some (dst, dstNet) => (compileEgressPorts net dstNet (Group id) (Z.shiftl 1 dst) (sr_Ports eg), [])
    end.

(** What a snapshot compiles to. *)
Record SgSnapshot := MkSgSnapshot {
  sn_Rules : list SGRule; sn_Cidr : list SGCidr; sn_Egress : list SGEgress; sn_EgressCidr : list SGEgressCidr
}.
Definition no_rules : SgSnapshot := MkSgSnapshot [] [] [] [].

(** [watchSecurityGroups], one group, cmd/agent/main.go:2331-2431. *)
Definition compile_group (ids : gmap (string * string) (gmap string Z)) (sn : SgSnapshot) (g : SGObj Selector) : SgSnapshot :=
  if negb (live_group g) then sn
  else
    match vpc_vni (sg_Namespace g) (sg_VPCName g) with
    | None => sn
    | Some vni =>
        if negb (ValidVNI vni) then sn
        else
          let ing := compile_ingress ids (group_vpc g) (VNI vni) (sg_ID g) <$> sg_Ingress g in
          let eg := compile_egress ids (group_vpc g) (VNI vni) (sg_ID g) <$> sg_Egress g in
          MkSgSnapshot (sn_Rules sn ++ concat ing.*1) (sn_Cidr sn ++ concat ing.*2)
            (sn_Egress sn ++ concat eg.*1) (sn_EgressCidr sn ++ concat eg.*2)
    end.

(** [watchSecurityGroups], the rules of all groups, cmd/agent/main.go:2314-2431. *)
Definition compileSecurityGroups (groups : list (SGObj Selector)) : SgSnapshot :=
  fold_left (compile_group (nameID groups)) groups no_rules.

(** ** The preflight *)

(** [validateSGCompilation], the rows one rule is charged, cmd/agent/policy_limits.go:81-81. *)
Definition rule_rows (r : SGRuleSpec) : Z := Z.max (Z.of_nat (length (sr_Ports r))) 2.

(** [validateSGCompilation], cmd/agent/policy_limits.go:73-95. *)
Definition validateSGCompilation (groups : list (SGObj Selector)) (nports : nat) : result unit :=
  if (policyRowLimit <? Z.of_nat (length groups)) || (policyRowLimit <? Z.of_nat nports)
  then Err "SecurityGroup input exceeds 65536 objects"
  else
    _ ← foldM (fun '(ingress, egress, work) g =>
      let '(ingress, work) := fold_left (fun '(ingress, work) r => (u64 (ingress + rule_rows r), u64 (work + rule_rows r)))
        (sg_Ingress g) (ingress, u64 (work + 1)) in
      let '(egress, work) := fold_left (fun '(egress, work) r => (u64 (egress + rule_rows r), u64 (work + rule_rows r)))
        (sg_Egress g) (egress, work) in
      if (policyRowLimit <? ingress) || (policyRowLimit <? egress) || (policyWorkLimit <? work)
      then Err "SecurityGroup compilation exceeds resource budget"
      else Ok (ingress, egress, work)) (0, 0, 0) groups;
    mret tt.
End Compile.

(** ** Members *)

(** [SGEndpointOwner], the bytes that are hashed, datapath/securitygroup.go:75-80. *)
Definition owner_bytes (portUID containerID ifName : string) : list Z :=
  bytes_of portUID ++ [0] ++ bytes_of containerID ++ [0] ++ bytes_of ifName.

(** [SGEndpointOwner], datapath/securitygroup.go:65-83. *)
Definition SGEndpointOwner (portUID containerID ifName : string) : list Z :=
  if decide (portUID = EmptyString \/ containerID = EmptyString \/ ifName = EmptyString) then replicate 4 0
  else if decide (255 < String.length portUID \/ 255 < String.length containerID \/ 255 < String.length ifName \/
                  255 < String.length portUID + String.length containerID + String.length ifName + 2)%nat then replicate 4 0
  else
    let digest := Sum256 (owner_bytes portUID containerID ifName) in
    (fun i => le (take 8 (drop (8 * i) digest))) <$> seq 0 4.

(** [AnnotationContainerID], api/sdn/v1alpha1/labels.go:95-95. *)
Definition AnnotationContainerID : string := "sdn.cozystack.io/container-id".
(** [AnnotationCNIIfName], api/sdn/v1alpha1/labels.go:96-96. *)
Definition AnnotationCNIIfName : string := "sdn.cozystack.io/cni-ifname".
(** [LabelPodUID], api/sdn/v1alpha1/labels.go:86-86. *)
Definition LabelPodUID : string := "sdn.cozystack.io/pod-uid".

(** A Port as the group index reads it. *)
Definition index_port (p : Port) : SgIdentity.Port :=
  SgIdentity.MkPort (refNamespace (s_VPCRef (p_Spec p)), refName (s_VPCRef (p_Spec p))) (at_key (m_Labels (p_Meta p)) LabelPodUID)
    (st_GroupPodUID (p_Status p)) (st_Groups (p_Status p)) ((fun '(id, uid) => MkMembership id uid) <$> st_GroupRefs (p_Status p)).

Definition index_group {S} (g : SGObj S) : option SecurityGroup :=
  Some (MkSecurityGroup (m_Deleting (sg_Meta g)) (sg_Namespace g) (sg_VPCName g) (sg_ID g) (m_UID (sg_Meta g))).

(** [securityGroupMembers], cmd/agent/securitygroup_members.go:19-35. *)
Definition securityGroupMembers (IsDNS1123Label IsDNS1123Subdomain : string -> bool) {S} (ports : list Port) (groups : list (SGObj S)) : list SGMember :=
  let index := NewIndex IsDNS1123Label IsDNS1123Subdomain (index_group <$> groups) in
  omap (fun p =>
    if decide (s_IP (p_Spec p) = EmptyString) then None
    else
      net ← vniFromPortName (p_Name p);
      Some (MkSGMember net (ParseIP (s_IP (p_Spec p))) (Bitmap index (index_port p))
        (SGEndpointOwner (m_UID (p_Meta p)) (at_key (m_Annotations (p_Meta p)) AnnotationContainerID)
          (at_key (m_Annotations (p_Meta p)) AnnotationCNIIfName)))) ports.

Lemma bytes_of_inj s s' : bytes_of s = bytes_of s' -> s = s'.
Proof.
  revert s'. induction s as [|c s IH]; intros [|c' s'] E; cbn in E; simplify_eq; [done|]. f_equal; [|by apply IH].
  unfold code in *. apply N2Z.inj in H. rewrite <-(ascii_N_embedding c), <-(ascii_N_embedding c'). by f_equal.
Qed.

(** The hashed bytes name one Port, one sandbox and one interface, when no text has a zero byte. *)
Lemma owner_bytes_inj u c i u' c' i' : Forall (fun s => 0 ∉ bytes_of s) [u; c; i; u'; c'; i'] ->
  owner_bytes u c i = owner_bytes u' c' i' -> (u, c, i) = (u', c', i').
Proof.
  assert (forall a b a' b' : list Z, 0 ∉ a -> 0 ∉ a' -> a ++ 0 :: b = a' ++ 0 :: b' -> a = a' /\ b = b') as Hcut.
  { induction a as [|x a IH]; intros b a' b' Ha Ha' E; destruct a' as [|y a']; cbn in E; simplify_eq; [done|set_solver|set_solver|].
    destruct (IH b a' b') as [-> ->]; [set_solver|set_solver|done|done]. }
  rewrite !Forall_cons. intros (Hu & Hc & Hi & Hu' & Hc' & Hi' & _). unfold owner_bytes. cbn.
  intros E. apply Hcut in E as [E1 E]; [|done|done]. apply Hcut in E as [E2 E3]; [|done|done].
  apply bytes_of_inj in E1, E2, E3. congruence.
Qed.

(** ** The registry *)

Section Registry.
Context (IsDNS1123Label IsDNS1123Subdomain : string -> bool) {Selector : Type} `{EqDecision Selector}.
(** [LabelSelectorAsSelector] of the Kubernetes library: whether the selector is valid. *)
Context (selector_ok : Selector -> bool).

(** [validateRulePorts]: the first bad port, pkg/registry/sdn/securitygroup/strategy.go:254-264. *)
Definition validateRulePorts (ports : list SGPort) (path : string) : ErrorList :=
  match head (each (fun i pp =>
    orelse (check (bool_decide (sp_Protocol pp = "TCP") || bool_decide (sp_Protocol pp = "UDP")) (Invalid (Child (Index path i) "protocol")))
           (check (negb ((sp_Port pp <? 0) || (65535 <? sp_Port pp))) (Invalid (Child (Index path i) "port")))) ports) with
  | Some e => [e]
  | None => []
  end.

(** [validateRulePeer], pkg/registry/sdn/securitygroup/strategy.go:135-173. *)
Definition validateRulePeer (peer : SGPeer) (path : string) (unchanged : bool) : ErrorList :=
  let hasGroup := negb (bool_decide (sp_Group peer = EmptyString)) in
  let hasCIDR := negb (bool_decide (sp_CIDR peer = EmptyString)) in
  if hasGroup && hasCIDR then [Invalid path]
  else if negb hasGroup && negb hasCIDR then [Required path]
  else
    orelse (if hasGroup && negb unchanged then ReferenceErrors IsDNS1123Subdomain (sp_Group peer) (Child path "group") true else []) (
    orelse (if hasCIDR then
              orelse (check (Z.of_nat (String.length (sp_CIDR peer)) <=? 64) (Invalid (Child path "cidr")))
                     (check (bool_decide (is_Some (ParseCIDR (sp_CIDR peer)))) (Invalid (Child path "cidr")))
            else []) (
    match sp_VPC peer with
    | None => []
    | Some v =>
        if bool_decide (refNamespace v = EmptyString) || bool_decide (refName v = EmptyString) then [Invalid (Child path "vpc")]
        else if negb hasGroup then [Required (Child path "group")]
        else if negb unchanged then
          if negb (NamespaceName IsDNS1123Label (refNamespace v)) then [Invalid (Child path "vpc.namespace")]
          else ReferenceErrors IsDNS1123Subdomain (refName v) (Child path "vpc.name") true
        else []
    end)).

Definition validate_rule (path peer : string) (unchanged : bool) (i : nat) (r : SGRuleSpec) : ErrorList :=
  orelse (validateRulePorts (sr_Ports r) (Child (Index path i) "ports"))
         (validateRulePeer (sr_Peer r) (Child (Index path i) peer) unchanged).

(** The errors of the first rule that has any. *)
Fixpoint first_errors (f : nat -> SGRuleSpec -> ErrorList) (i : nat) (l : list SGRuleSpec) : ErrorList :=
  match l with
  | [] => []
  | r :: l => orelse (f i r) (first_errors f (S i) l)
  end.

(** [validateSecurityGroup], pkg/registry/sdn/securitygroup/strategy.go:101-133. *)
Definition validateSecurityGroup (g : SGObj Selector) (unchanged : bool) : ErrorList :=
  orelse (if negb unchanged then ReferenceErrors IsDNS1123Subdomain (sg_VPCName g) "spec.vpcRef.name" true else []) (
  orelse (check (selector_ok (sg_PodSelector g)) (Invalid "spec.podSelector")) (
  orelse (check (negb (bool_decide (sg_VPCName g = EmptyString))) (Required "spec.vpcRef.name")) (
  orelse (first_errors (validate_rule "spec.ingress" "from" unchanged) 0 (sg_Ingress g))
         (first_errors (validate_rule "spec.egress" "to" unchanged) 0 (sg_Egress g))))).

(** [securityGroupStrategy.PrepareForCreate], pkg/registry/sdn/securitygroup/strategy.go:80-84. *)
Definition sg_PrepareForCreate (g : SGObj Selector) : SGObj Selector :=
  MkSGObj (sg_Meta g) (sg_VPCName g) (sg_PodSelector g) (sg_Ingress g) (sg_Egress g) 0.

(** [securityGroupStrategy.PrepareForUpdate], pkg/registry/sdn/securitygroup/strategy.go:86-90. *)
Definition sg_PrepareForUpdate (g old : SGObj Selector) : SGObj Selector :=
  MkSGObj (sg_Meta g) (sg_VPCName g) (sg_PodSelector g) (sg_Ingress g) (sg_Egress g) (sg_ID old).

(** [securityGroupStrategy.Validate], pkg/registry/sdn/securitygroup/strategy.go:92-99. *)
Definition sg_Validate (auth : Authorizer) (rq : Request) (g : SGObj Selector) : ErrorList :=
  validateSecurityGroup g false ++ err_list (CheckManaged auth rq "securitygroups" (sg_Meta g) None).

#[local] Instance SGPort_eq_dec : EqDecision SGPort. Proof. solve_decision. Defined.
#[local] Instance SGPeer_eq_dec : EqDecision SGPeer. Proof. solve_decision. Defined.
#[local] Instance SGRuleSpec_eq_dec : EqDecision SGRuleSpec. Proof. solve_decision. Defined.

Definition sg_same_spec (g old : SGObj Selector) : bool :=
  bool_decide (sg_VPCName g = sg_VPCName old) && bool_decide (sg_PodSelector g = sg_PodSelector old) &&
  bool_decide (sg_Ingress g = sg_Ingress old) && bool_decide (sg_Egress g = sg_Egress old).

(** [securityGroupStrategy.ValidateUpdate], pkg/registry/sdn/securitygroup/strategy.go:206-219. *)
Definition sg_ValidateUpdate (auth : Authorizer) (rq : Request) (g old : SGObj Selector) : ErrorList :=
  validateSecurityGroup g (sg_same_spec g old) ++
  err_list (CheckManaged auth rq "securitygroups" (sg_Meta g) (Some (sg_Meta old))) ++
  check (bool_decide (sg_VPCName g = sg_VPCName old)) (Forbidden "spec.vpcRef").

(** [securityGroupStatusStrategy.PrepareForUpdate], pkg/registry/sdn/securitygroup/strategy.go:236-241. *)
Definition sg_status_PrepareForUpdate (g old : SGObj Selector) : SGObj Selector :=
  MkSGObj (PreserveManager (sg_Meta g) (sg_Meta old)) (sg_VPCName old) (sg_PodSelector old) (sg_Ingress old) (sg_Egress old) (sg_ID g).

(** [securityGroupStatusStrategy.ValidateUpdate], pkg/registry/sdn/securitygroup/strategy.go:243-249. *)
Definition sg_status_ValidateUpdate (g : SGObj Selector) : ErrorList :=
  check ((sg_ID g =? 0) || ValidGroup (sg_ID g)) (Invalid "status.id").
End Registry.

(** ** What is compiled *)

Section Exact.
Context (IsDNS1123Label IsDNS1123Subdomain : string -> bool) {Selector : Type} (vpc_vni : string -> string -> option Z).
Context (groups : list (SGObj Selector)).
Let live := live_group IsDNS1123Label IsDNS1123Subdomain (Selector := Selector).
Let ids := nameID IsDNS1123Label IsDNS1123Subdomain groups.
Let reference := securityGroupPeerReference IsDNS1123Label IsDNS1123Subdomain.

(** A group's name is unique in its namespace. *)
Definition names_unique : Prop := forall g h, g ∈ groups -> h ∈ groups ->
  sg_Namespace g = sg_Namespace h -> sg_Name g = sg_Name h -> g = h.

(** The ports a rule covers; 0 is any port. *)
Definition port_listed (ports : list SGPort) (proto port : Z) : Prop :=
  (ports = [] /\ port = 0 /\ (proto = 6 \/ proto = 17)) \/
  exists pp, pp ∈ ports /\ 0 <= sp_Port pp <= 65535 /\ port = sp_Port pp /\
    ((sp_Protocol pp = "TCP" /\ proto = 6) \/ (sp_Protocol pp = "UDP" /\ proto = 17)).

Lemma compileSGPort_spec pp proto port : compileSGPort pp = Some (proto, port) <->
  0 <= sp_Port pp <= 65535 /\ port = sp_Port pp /\
  ((sp_Protocol pp = "TCP" /\ proto = 6) \/ (sp_Protocol pp = "UDP" /\ proto = 17)).
Proof.
  unfold compileSGPort. destruct (_ || _) eqn:E.
  { split; [done|]. intros (? & _). apply orb_prop in E as [?|?]; to_prop; lia. }
  apply orb_false_iff in E as [E1 E2]. to_prop. unfold u16. rewrite Z.mod_small by lia.
  case_decide as Ht; [|case_decide as Hu].
  - split; [intros [= <- <-]; split; [lia|auto]|]. intros (_ & -> & [[_ ->]|[? _]]); [done|congruence].
  - split; [intros [= <- <-]; split; [lia|auto]|]. intros (_ & -> & [[? _]|[_ ->]]); [congruence|done].
  - split; [done|]. intros (_ & _ & [[? _]|[? _]]); done.
Qed.

Lemma ports_spec {A} (f : Z -> Z -> A) ports a :
  a ∈ (if decide (ports = []) then (fun proto => f proto 0) <$> [6; 17]
       else omap (fun pp => '(proto, port) ← compileSGPort pp; Some (f proto port)) ports) <->
  exists proto port, port_listed ports proto port /\ a = f proto port.
Proof.
  unfold port_listed. case_decide as Hp.
  - rewrite list_elem_of_fmap. split.
    + intros (proto & -> & Hin). exists proto, 0. split; [|done]. left. set_solver.
    + intros (proto & port & [(_ & -> & Hpr)|(pp & Hin & _)] & ->); [exists proto; set_solver|]. subst. by apply not_elem_of_nil in Hin.
  - rewrite list_elem_of_omap. split.
    + intros (pp & Hin & Hb). apply bind_Some in Hb as ([proto port] & Hc & [= <-]). exists proto, port. split; [|done].
      right. apply compileSGPort_spec in Hc. by exists pp.
    + intros (proto & port & [(? & _)|(pp & Hin & Hc)] & ->); [done|]. exists pp. split; [done|].
      apply compileSGPort_spec in Hc. by rewrite Hc.
Qed.

(** A live group with the VPC and the network it is in. *)
Definition located (g : SGObj Selector) (net : Z) : Prop :=
  g ∈ groups /\ live g = true /\ exists vni, vpc_vni (sg_Namespace g) (sg_VPCName g) = Some vni /\ ValidVNI vni = true /\ net = VNI vni.

Lemma live_spec g : live g = true -> m_Deleting (sg_Meta g) = false /\ 0 < sg_ID g < 63 /\ Group (sg_ID g) = sg_ID g.
Proof.
  unfold live, live_group, SGWorldGroup. rewrite negb_true_iff, !orb_false_iff. intros ((((Hd & H1) & H2) & _) & _). to_prop.
  split; [done|]. split; [lia|]. unfold Group, LastGroup, u16.
  assert ((sg_ID g <? 1) || (62 <? sg_ID g) = false) as -> by (apply orb_false_iff; lia). apply Z.mod_small. lia.
Qed.

Lemma nameID_spec key name id : names_unique -> (ids !! key ≫= fun m => m !! name) = Some id <->
  exists h, h ∈ groups /\ live h = true /\ group_vpc h = key /\ sg_Name h = name /\ id = sg_ID h.
Proof.
  intros Hu. unfold ids.
  assert (forall l, (forall g, g ∈ l -> g ∈ groups) ->
    (nameID IsDNS1123Label IsDNS1123Subdomain l !! key ≫= fun m => m !! name) = Some id <->
    exists h, h ∈ l /\ live h = true /\ group_vpc h = key /\ sg_Name h = name /\ id = sg_ID h) as Hf; [|by apply Hf].
  induction l as [|g l IH] using rev_ind; intros Hsub.
  { cbn. rewrite lookup_empty. split; [done|]. by intros (? & ?%not_elem_of_nil & _). }
  unfold nameID in *. rewrite fold_left_app. cbn [fold_left]. fold live in IH |- *. set (m := fold_left _ l ∅) in *. clearbody m.
  specialize (IH ltac:(intros; apply Hsub; set_solver)).
  assert ((exists h, h ∈ l ++ [g] /\ live h = true /\ group_vpc h = key /\ sg_Name h = name /\ id = sg_ID h) <->
    (exists h, h ∈ l /\ live h = true /\ group_vpc h = key /\ sg_Name h = name /\ id = sg_ID h) \/
    (live g = true /\ group_vpc g = key /\ sg_Name g = name /\ id = sg_ID g)) as ->.
  { split.
    - intros (h & [Hh|Hh%list_elem_of_singleton]%elem_of_app & Hx); [left; by exists h|]. subst h. by right.
    - intros [(h & ? & ?)|Hx]; [exists h; set_solver|exists g; set_solver]. }
  destruct (live g) eqn:El; [|rewrite IH; naive_solver].
  destruct (decide (group_vpc g = key)) as [Ek|Ek]; [|rewrite lookup_insert_ne by done; rewrite IH; naive_solver].
  rewrite Ek, lookup_insert_eq. cbn [mbind option_bind]. destruct (decide (sg_Name g = name)) as [En|En].
  - rewrite En, lookup_insert_eq. destruct (live_spec _ El) as (_ & _ & ->). split.
    + intros [= <-]. by right.
    + intros [(h & Hh & Hl & Hk & Hn & ->)|(_ & _ & _ & ->)]; [|done]. f_equal.
      rewrite (Hu g h); [done|apply Hsub; set_solver|apply Hsub; set_solver| |congruence].
      unfold group_vpc in *. congruence.
  - rewrite lookup_insert_ne by done.
    assert (default ∅ (m !! key) !! name = (m !! key ≫= fun m => m !! name)) as -> by (destruct (m !! key); [done|]; cbn; by rewrite lookup_empty).
    rewrite IH. split; [auto|]. intros [?|(_ & _ & ? & _)]; done.
Qed.

(** The group a peer names, seen from a group in [net]. *)
Definition names_group (g : SGObj Selector) (net : Z) (peer : SGPeer) (h : SGObj Selector) (hnet : Z) : Prop :=
  sp_Group peer <> EmptyString /\ reference peer = true /\ h ∈ groups /\ live h = true /\ sg_Name h = sp_Group peer /\
  match sp_VPC peer with
  | None => group_vpc h = group_vpc g /\ hnet = net
  | Some v => group_vpc h = (refNamespace v, refName v) /\
      exists vni, vpc_vni (refNamespace v) (refName v) = Some vni /\ ValidVNI vni = true /\ hnet = VNI vni
  end.

Lemma resolve_group_spec g net peer id hnet : names_unique -> sp_Group peer <> EmptyString ->
  resolve_group IsDNS1123Label IsDNS1123Subdomain vpc_vni ids (group_vpc g) net peer = Some (id, hnet) <->
  exists h, names_group g net peer h hnet /\ id = sg_ID h.
Proof.
  intros Hu Hg. unfold resolve_group, names_group, peer_vpc. fold reference. destruct (reference peer) eqn:Er; cbn [negb].
  2:{ split; [done|]. by intros (h & (_ & ? & _) & _). }
  rewrite bind_Some. split.
  - intros ([key pnet] & Hp & Hb). apply bind_Some in Hb as (i & Hi & [= <- <-]). apply (nameID_spec _ _ _ Hu) in Hi as (h & ? & ? & Hk & ? & ->).
    exists h. split; [|done]. do 5 (split; [done|]). destruct (sp_VPC peer) as [v|].
    + apply bind_Some in Hp as (vni & Hv & Hp). case_if; [|done]. injection Hp as <- <-. split; [done|]. by exists vni.
    + injection Hp as <- <-. done.
  - intros (h & (_ & _ & Hin & Hl & Hn & Hv) & ->). destruct (sp_VPC peer) as [v|].
    + destruct Hv as (Hk & vni & Hvni & Hval & ->). exists (group_vpc h, VNI vni). rewrite Hvni. cbn. rewrite Hval, Hk. split; [done|].
      rewrite <-Hk. assert ((ids !! group_vpc h ≫= fun m => m !! sp_Group peer) = Some (sg_ID h)) as Hi by (apply (nameID_spec _ _ _ Hu); by exists h).
      by rewrite Hi.
    + destruct Hv as (Hk & ->). exists (group_vpc g, net). split; [done|]. rewrite <-Hk.
      assert ((ids !! group_vpc h ≫= fun m => m !! sp_Group peer) = Some (sg_ID h)) as Hi by (apply (nameID_spec _ _ _ Hu); by exists h).
      by rewrite Hi.
Qed.

(** What one group adds to the snapshot. *)
Let ingress (g : SGObj Selector) (net : Z) := compile_ingress IsDNS1123Label IsDNS1123Subdomain vpc_vni ids (group_vpc g) net (sg_ID g).
Let egress (g : SGObj Selector) (net : Z) := compile_egress IsDNS1123Label IsDNS1123Subdomain vpc_vni ids (group_vpc g) net (sg_ID g).
Let snapshot := compileSecurityGroups IsDNS1123Label IsDNS1123Subdomain vpc_vni groups.

Lemma concat_elem {A B C} (f : A -> list B * list C) (l : list A) :
  (forall b, b ∈ concat (f <$> l).*1 <-> exists a, a ∈ l /\ b ∈ (f a).1) /\
  (forall c, c ∈ concat (f <$> l).*2 <-> exists a, a ∈ l /\ c ∈ (f a).2).
Proof.
  split; intros x; rewrite list_elem_of_In, in_concat; setoid_rewrite <-list_elem_of_In; setoid_rewrite list_elem_of_fmap;
    setoid_rewrite list_elem_of_fmap; naive_solver.
Qed.

Lemma snapshot_elem :
  (forall r, r ∈ sn_Rules snapshot <-> exists g net ing, located g net /\ ing ∈ sg_Ingress g /\ r ∈ (ingress g net ing).1) /\
  (forall r, r ∈ sn_Cidr snapshot <-> exists g net ing, located g net /\ ing ∈ sg_Ingress g /\ r ∈ (ingress g net ing).2) /\
  (forall r, r ∈ sn_Egress snapshot <-> exists g net eg, located g net /\ eg ∈ sg_Egress g /\ r ∈ (egress g net eg).1) /\
  (forall r, r ∈ sn_EgressCidr snapshot <-> exists g net eg, located g net /\ eg ∈ sg_Egress g /\ r ∈ (egress g net eg).2).
Proof.
  set (at_ (l : list (SGObj Selector)) (g : SGObj Selector) net := g ∈ l /\ live g = true /\
    exists vni, vpc_vni (sg_Namespace g) (sg_VPCName g) = Some vni /\ ValidVNI vni = true /\ net = VNI vni).
  set (sn (l : list (SGObj Selector)) := fold_left (compile_group IsDNS1123Label IsDNS1123Subdomain vpc_vni ids) l no_rules).
  assert (forall l,
    (forall r, r ∈ sn_Rules (sn l) <-> exists g net ing, at_ l g net /\ ing ∈ sg_Ingress g /\ r ∈ (ingress g net ing).1) /\
    (forall r, r ∈ sn_Cidr (sn l) <-> exists g net ing, at_ l g net /\ ing ∈ sg_Ingress g /\ r ∈ (ingress g net ing).2) /\
    (forall r, r ∈ sn_Egress (sn l) <-> exists g net eg, at_ l g net /\ eg ∈ sg_Egress g /\ r ∈ (egress g net eg).1) /\
    (forall r, r ∈ sn_EgressCidr (sn l) <-> exists g net eg, at_ l g net /\ eg ∈ sg_Egress g /\ r ∈ (egress g net eg).2)) as Hf; [|exact (Hf groups)].
  induction l as [|g l IH] using rev_ind.
  { unfold sn, at_. cbn. split_and!; intros r; (split; [by intros ?%not_elem_of_nil|]); by intros (? & ? & ? & (?%not_elem_of_nil & _) & _). }
  unfold sn in *. rewrite fold_left_app. cbn [fold_left]. set (s := fold_left _ l no_rules) in *. clearbody s.
  assert (forall h net, at_ (l ++ [g]) h net <-> at_ l h net \/ (h = g /\ at_ [g] g net)) as Hat.
  { intros h net. unfold at_. rewrite elem_of_app, !list_elem_of_singleton. naive_solver. }
  setoid_rewrite Hat. clear Hat. unfold compile_group. fold live.
  assert ((forall net, ~ at_ [g] g net) \/ exists net, forall net', at_ [g] g net' <-> net' = net) as [Hno|[net Hnet]].
  { unfold at_. destruct (live g); [|by left; intros net (_ & ? & _)].
    destruct (vpc_vni _ _) as [vni|]; [|left; by intros net (_ & _ & ? & ? & _)].
    destruct (ValidVNI vni) eqn:Ev; [right|left; intros net (_ & _ & ? & [= <-] & ? & _); congruence].
    exists (VNI vni). intros net'. rewrite list_elem_of_singleton. naive_solver. }
  - assert (compile_group IsDNS1123Label IsDNS1123Subdomain vpc_vni ids s g = s) as Hs.
    { unfold compile_group. fold live. destruct (live g) eqn:El; [|done]. destruct (vpc_vni _ _) as [vni|] eqn:Ev; [|done].
      destruct (ValidVNI vni) eqn:Evv; [|done]. cbn [negb]. destruct (Hno (VNI vni)). split; [set_solver|]. eauto. }
    unfold compile_group in Hs. fold live in Hs. rewrite Hs.
    destruct IH as (I1 & I2 & I3 & I4). split_and!; intros r; [rewrite I1|rewrite I2|rewrite I3|rewrite I4]; clear -Hno; naive_solver.
  - destruct (proj2 (Hnet net) eq_refl) as (_ & Hl & vni & Hv & Hval & ->). rewrite Hl, Hv, Hval. cbn [negb sn_Rules sn_Cidr sn_Egress sn_EgressCidr].
    destruct IH as (I1 & I2 & I3 & I4).
    destruct (concat_elem (ingress g (VNI vni)) (sg_Ingress g)) as [C1 C2]. destruct (concat_elem (egress g (VNI vni)) (sg_Egress g)) as [C3 C4].
    unfold ingress, egress in *. split_and!; intros r; rewrite elem_of_app; [rewrite I1, C1|rewrite I2, C2|rewrite I3, C3|rewrite I4, C4]; clear -Hnet; naive_solver.
Qed.

Lemma ParseCIDR_empty : ParseCIDR EmptyString = None.
Proof. vm_compute. reflexivity. Qed.

Lemma located_id g net : located g net -> Group (sg_ID g) = sg_ID g.
Proof. intros (_ & Hl & _). by apply live_spec in Hl as (_ & _ & ?). Qed.

Lemma resolve_named g net peer h hnet : names_unique -> names_group g net peer h hnet ->
  resolve_group IsDNS1123Label IsDNS1123Subdomain vpc_vni ids (group_vpc g) net peer = Some (sg_ID h, hnet).
Proof. intros Hu Hh. destruct (Hh) as (Hgr & _). apply resolve_group_spec; [done|done|by exists h]. Qed.

(** The rows of one rule. *)
Lemma ingress_rule_spec g net ing r : names_unique -> located g net -> r ∈ (ingress g net ing).1 <->
  exists proto port, port_listed (sr_Ports ing) proto port /\
    ((exists h hnet, names_group g net (sr_Peer ing) h hnet /\ r = MkSGRule net hnet (sg_ID g) proto port (2 ^ sg_ID h)) \/
     (sp_Group (sr_Peer ing) = EmptyString /\ isAnyCIDR (sp_CIDR (sr_Peer ing)) = true /\
      r = MkSGRule net net (sg_ID g) proto port (2 ^ SGWorldGroup))).
Proof.
  intros Hu Hg. unfold ingress, compile_ingress. rewrite (located_id _ _ Hg), Z.shiftl_1_l. split.
  - case_decide as Hgr.
    + destruct (resolve_group _ _ _ _ _ _ _) as [[src srcNet]|] eqn:Er; [|by intros ?%not_elem_of_nil].
      apply (resolve_group_spec _ _ _ _ _ Hu Hgr) in Er as (h & Hh & ->). rewrite Z.shiftl_1_l.
      intros (proto & port & Hp & ->)%(ports_spec (fun proto port => MkSGRule _ _ _ proto port _)). exists proto, port. eauto 10.
    + destruct (isAnyCIDR _) eqn:Ea.
      * intros (proto & port & Hp & ->)%(ports_spec (fun proto port => MkSGRule _ _ _ proto port _)). exists proto, port. auto.
      * case_decide; [|by intros ?%not_elem_of_nil]. destruct (ParseCIDR _) as [[??]|]; by intros ?%not_elem_of_nil.
  - intros (proto & port & Hp & [(h & hnet & Hh & ->)|(Hgr & Ha & ->)]).
    + rewrite decide_True by apply Hh. rewrite (resolve_named _ _ _ _ _ Hu Hh), Z.shiftl_1_l.
      apply (ports_spec (fun proto port => MkSGRule _ _ _ proto port _)). eauto.
    + rewrite decide_False by (rewrite Hgr; tauto). rewrite Ha. apply (ports_spec (fun proto port => MkSGRule _ _ _ proto port _)). eauto.
Qed.

Lemma ingress_cidr_spec g net ing r : located g net -> r ∈ (ingress g net ing).2 <->
  exists proto port ip ipnet, port_listed (sr_Ports ing) proto port /\ sp_Group (sr_Peer ing) = EmptyString /\
    isAnyCIDR (sp_CIDR (sr_Peer ing)) = false /\ ParseCIDR (sp_CIDR (sr_Peer ing)) = Some (ip, ipnet) /\
    r = MkSGCidr net proto port (Some ipnet) (2 ^ sg_ID g).
Proof.
  intros Hg. unfold ingress, compile_ingress. rewrite (located_id _ _ Hg). rewrite !Z.shiftl_1_l. split.
  - case_decide as Hgr; [destruct (resolve_group _ _ _ _ _ _ _) as [[??]|]; by intros ?%not_elem_of_nil|].
    destruct (isAnyCIDR _) eqn:Ea; [by intros ?%not_elem_of_nil|].
    case_decide; [|by intros ?%not_elem_of_nil]. destruct (ParseCIDR _) as [[ip ipnet]|] eqn:Ec; [|by intros ?%not_elem_of_nil].
    intros (proto & port & Hp & ->)%(ports_spec (fun proto port => MkSGCidr _ proto port _ _)). by exists proto, port, ip, ipnet.
  - intros (proto & port & ip & ipnet & Hp & Hgr & Ha & Hc & ->). rewrite decide_False by (rewrite Hgr; tauto).
    rewrite Ha, decide_True by (intros E; rewrite E, ParseCIDR_empty in Hc; congruence). rewrite Hc.
    apply (ports_spec (fun proto port => MkSGCidr _ proto port _ _)). eauto.
Qed.

Lemma egress_rule_spec g net eg r : names_unique -> located g net -> r ∈ (egress g net eg).1 <->
  exists proto port h hnet, port_listed (sr_Ports eg) proto port /\ sp_CIDR (sr_Peer eg) = EmptyString /\
    names_group g net (sr_Peer eg) h hnet /\ r = MkSGEgress net hnet (sg_ID g) proto port (2 ^ sg_ID h).
Proof.
  intros Hu Hg. unfold egress, compile_egress. rewrite (located_id _ _ Hg). split.
  - case_decide as Hc; [destruct (ParseCIDR _) as [[??]|]; by intros ?%not_elem_of_nil|].
    case_decide as Hgr; [by intros ?%not_elem_of_nil|].
    destruct (resolve_group _ _ _ _ _ _ _) as [[dst dstNet]|] eqn:Er; [|by intros ?%not_elem_of_nil].
    apply (resolve_group_spec _ _ _ _ _ Hu Hgr) in Er as (h & Hh & ->). rewrite Z.shiftl_1_l.
    intros (proto & port & Hp & ->)%(ports_spec (fun proto port => MkSGEgress _ _ _ proto port _)). by exists proto, port, h, dstNet.
  - intros (proto & port & h & hnet & Hp & Hc & Hh & ->). rewrite decide_False by (rewrite Hc; tauto).
    rewrite decide_False by apply Hh. rewrite (resolve_named _ _ _ _ _ Hu Hh), Z.shiftl_1_l.
    apply (ports_spec (fun proto port => MkSGEgress _ _ _ proto port _)). eauto.
Qed.

Lemma egress_cidr_spec g net eg r : located g net -> r ∈ (egress g net eg).2 <->
  exists proto port ip ipnet, port_listed (sr_Ports eg) proto port /\ ParseCIDR (sp_CIDR (sr_Peer eg)) = Some (ip, ipnet) /\
    r = MkSGEgressCidr net proto port (Some ipnet) (2 ^ sg_ID g).
Proof.
  intros Hg. unfold egress, compile_egress. rewrite (located_id _ _ Hg), Z.shiftl_1_l. split.
  - case_decide as Hc.
    + destruct (ParseCIDR _) as [[ip ipnet]|] eqn:Ec; [|by intros ?%not_elem_of_nil].
      intros (proto & port & Hp & ->)%(ports_spec (fun proto port => MkSGEgressCidr _ proto port _ _)). by exists proto, port, ip, ipnet.
    + case_decide; [by intros ?%not_elem_of_nil|]. destruct (resolve_group _ _ _ _ _ _ _) as [[??]|]; by intros ?%not_elem_of_nil.
  - intros (proto & port & ip & ipnet & Hp & Hc & ->).
    rewrite decide_True by (intros E; rewrite E, ParseCIDR_empty in Hc; congruence). rewrite Hc.
    apply (ports_spec (fun proto port => MkSGEgressCidr _ proto port _ _)). eauto.
Qed.

End Exact.

(** ** The budget *)

Definition rows_of (rules : list SGRuleSpec) : Z := foldr (fun r n => rule_rows r + n) 0 rules.

Lemma rule_rows_pos r : 2 <= rule_rows r.
Proof. unfold rule_rows. lia. Qed.

Lemma rows_of_cons r rules : rows_of (r :: rules) = rule_rows r + rows_of rules.
Proof. done. Qed.

Lemma rows_of_nonneg rules : 0 <= rows_of rules.
Proof. induction rules as [|r rules IH]; [done|]. rewrite rows_of_cons. pose proof (rule_rows_pos r). lia. Qed.

Lemma count_rows rules a w : 0 <= a -> 0 <= w -> a + rows_of rules < 2 ^ 64 -> w + rows_of rules < 2 ^ 64 ->
  fold_left (fun '(a, w) r => (u64 (a + rule_rows r), u64 (w + rule_rows r))) rules (a, w) = (a + rows_of rules, w + rows_of rules).
Proof.
  revert a w. induction rules as [|r rules IH]; intros a w Ha Hw Hb1 Hb2; [cbn; f_equal; lia|].
  rewrite rows_of_cons in *. cbn [fold_left]. pose proof (rule_rows_pos r). pose proof (rows_of_nonneg rules). unfold u64. rewrite !Z.mod_small by lia.
  rewrite IH by lia. f_equal; lia.
Qed.

Lemma ports_length {A} (f : Z -> Z -> A) ports :
  Z.of_nat (length (if decide (ports = []) then (fun proto => f proto 0) <$> [6; 17]
    else omap (fun pp => '(proto, port) ← compileSGPort pp; Some (f proto port)) ports)) <= Z.max (Z.of_nat (length ports)) 2.
Proof.
  case_decide; [cbn; lia|]. assert (length (omap (fun pp => '(proto, port) ← compileSGPort pp; Some (f proto port)) ports) <= length ports)%nat; [|lia].
  clear. induction ports as [|pp ports IH]; cbn; [lia|]. destruct (compileSGPort pp) as [[??]|]; cbn; lia.
Qed.

Section Bounds.
Context (IsDNS1123Label IsDNS1123Subdomain : string -> bool) {Selector : Type} (vpc_vni : string -> string -> option Z).

Lemma compile_ingress_length ids k net id ing :
  let c := compile_ingress IsDNS1123Label IsDNS1123Subdomain vpc_vni ids k net id ing in
  Z.of_nat (length c.1) + Z.of_nat (length c.2) <= rule_rows ing.
Proof.
  cbv zeta. pose proof (rule_rows_pos ing). unfold compile_ingress, rule_rows in *. case_decide.
  - destruct (resolve_group _ _ _ _ _ _ _) as [[src srcNet]|]; [|cbn; lia]. cbn [fst snd length].
    pose proof (ports_length (fun proto port => MkSGRule net srcNet (Group id) proto port (Z.shiftl 1 src)) (sr_Ports ing)). unfold compileRulePorts. lia.
  - case_if; [|case_decide; [destruct (ParseCIDR _) as [[ip ipnet]|]|]]; cbn [fst snd length]; try lia.
    + pose proof (ports_length (fun proto port => MkSGRule net net (Group id) proto port (Z.shiftl 1 SGWorldGroup)) (sr_Ports ing)). unfold compileRulePorts. lia.
    + pose proof (ports_length (fun proto port => MkSGCidr net proto port (Some ipnet) (Z.shiftl 1 (Group id))) (sr_Ports ing)). unfold compileCidrPorts. lia.
Qed.

Lemma compile_egress_length ids k net id eg :
  let c := compile_egress IsDNS1123Label IsDNS1123Subdomain vpc_vni ids k net id eg in
  Z.of_nat (length c.1) + Z.of_nat (length c.2) <= rule_rows eg.
Proof.
  cbv zeta. pose proof (rule_rows_pos eg). unfold compile_egress, rule_rows in *. case_decide.
  - destruct (ParseCIDR _) as [[ip ipnet]|]; cbn [fst snd length]; [|lia].
    pose proof (ports_length (fun proto port => MkSGEgressCidr net proto port (Some ipnet) (Z.shiftl 1 (Group id))) (sr_Ports eg)). unfold compileEgressCidrPorts. lia.
  - case_decide; [cbn; lia|]. destruct (resolve_group _ _ _ _ _ _ _) as [[dst dstNet]|]; cbn [fst snd length]; [|lia].
    pose proof (ports_length (fun proto port => MkSGEgress net dstNet (Group id) proto port (Z.shiftl 1 dst)) (sr_Ports eg)). unfold compileEgressPorts. lia.
Qed.

Lemma concat_length {A B} (f : SGRuleSpec -> list A * list B) rules :
  (forall r, Z.of_nat (length (f r).1) + Z.of_nat (length (f r).2) <= rule_rows r) ->
  Z.of_nat (length (concat (f <$> rules).*1)) + Z.of_nat (length (concat (f <$> rules).*2)) <= rows_of rules.
Proof.
  intros Hf. induction rules as [|r rules IH]; [done|]. rewrite rows_of_cons. cbn. rewrite !length_app. specialize (Hf r). lia.
Qed.

Definition snapshot_in (sn : SgSnapshot) : Z := Z.of_nat (length (sn_Rules sn)) + Z.of_nat (length (sn_Cidr sn)).
Definition snapshot_out (sn : SgSnapshot) : Z := Z.of_nat (length (sn_Egress sn)) + Z.of_nat (length (sn_EgressCidr sn)).

Lemma compile_group_length ids sn (g : SGObj Selector) :
  let sn' := compile_group IsDNS1123Label IsDNS1123Subdomain vpc_vni ids sn g in
  snapshot_in sn' <= snapshot_in sn + rows_of (sg_Ingress g) /\ snapshot_out sn' <= snapshot_out sn + rows_of (sg_Egress g).
Proof.
  cbv zeta. pose proof (rows_of_nonneg (sg_Ingress g)). pose proof (rows_of_nonneg (sg_Egress g)). unfold compile_group.
  case_if; [lia|]. destruct (vpc_vni _ _) as [vni|]; [|lia]. case_if; [lia|]. unfold snapshot_in, snapshot_out.
  cbn [sn_Rules sn_Cidr sn_Egress sn_EgressCidr]. rewrite !length_app.
  pose proof (concat_length (compile_ingress IsDNS1123Label IsDNS1123Subdomain vpc_vni ids (group_vpc g) (VNI vni) (sg_ID g)) (sg_Ingress g) (compile_ingress_length _ _ _ _)).
  pose proof (concat_length (compile_egress IsDNS1123Label IsDNS1123Subdomain vpc_vni ids (group_vpc g) (VNI vni) (sg_ID g)) (sg_Egress g) (compile_egress_length _ _ _ _)).
  lia.
Qed.

(** C38. The preflight bounds the compilation: a snapshot it accepts compiles to at most 65536
    ingress and 65536 egress rows, whatever the rules resolve to.  The hypothesis says that
    the rules of one group fit in memory, so that the 64-bit counters do not wrap. *)
Theorem sg_compile_bounded (groups : list (SGObj Selector)) nports :
  Forall (fun g => rows_of (sg_Ingress g) + rows_of (sg_Egress g) < 2 ^ 62) groups ->
  validateSGCompilation groups nports = Ok tt ->
  let sn := compileSecurityGroups IsDNS1123Label IsDNS1123Subdomain vpc_vni groups in
  snapshot_in sn <= policyRowLimit /\ snapshot_out sn <= policyRowLimit.
Proof.
  intros Hsz. unfold validateSGCompilation. case_if; [done|]. rewrite bind_ok. intros ([[ing eg] wk] & Hf & _). cbv zeta.
  unfold compileSecurityGroups. set (ids := nameID _ _ groups). clearbody ids.
  assert (let sn := fold_left (compile_group IsDNS1123Label IsDNS1123Subdomain vpc_vni ids) groups no_rules in
    snapshot_in sn <= (ing, eg, wk).1.1 /\ snapshot_out sn <= (ing, eg, wk).1.2 /\
    0 <= (ing, eg, wk).1.1 <= policyRowLimit /\ 0 <= (ing, eg, wk).1.2 <= policyRowLimit /\ 0 <= (ing, eg, wk).2 <= policyWorkLimit) as (? & ? & ? & ? & _);
    [|cbn in *; lia].
  revert Hf. rewrite Forall_forall in Hsz.
  apply (foldM_invariant _ (fun pre c => let sn := fold_left (compile_group IsDNS1123Label IsDNS1123Subdomain vpc_vni ids) pre no_rules in
    snapshot_in sn <= c.1.1 /\ snapshot_out sn <= c.1.2 /\
    0 <= c.1.1 <= policyRowLimit /\ 0 <= c.1.2 <= policyRowLimit /\ 0 <= c.2 <= policyWorkLimit)).
  { vm_compute. split_and!; done. }
  intros pre g post [[i e] w] [[i' e'] w'] Hpre. cbv zeta. cbn [fst snd]. intros (H1 & H2 & H3 & H4 & H5).
  specialize (Hsz g ltac:(rewrite Hpre; set_solver)). pose proof (rows_of_nonneg (sg_Ingress g)). pose proof (rows_of_nonneg (sg_Egress g)).
  unfold policyRowLimit, policyWorkLimit in *. change (Z.shiftl 1 20) with (2 ^ 20) in *.
  assert (u64 (w + 1) = w + 1) as -> by (unfold u64; apply Z.mod_small; lia).
  rewrite count_rows by lia. cbv beta iota. rewrite count_rows by lia. cbv beta iota. clear E. case_if; [done|]. intros [= <- <- <-].
  apply orb_false_iff in E as [E Eb3]. apply orb_false_iff in E as [Eb1 Eb2]. to_prop.
  rewrite fold_left_app. cbn [fold_left]. destruct (compile_group_length ids (fold_left (compile_group IsDNS1123Label IsDNS1123Subdomain vpc_vni ids) pre no_rules) g) as [L1 L2].
  cbv zeta in *. lia.
Qed.
End Bounds.

(** ** The registry admits only what is served *)

Section Served.
Context (IsDNS1123Label IsDNS1123Subdomain : string -> bool) {Selector : Type} (selector_ok : Selector -> bool).

Lemma first_errors_nil f i l : first_errors f i l = [] -> forall r, r ∈ l -> exists j, f j r = [].
Proof.
  revert i. induction l as [|r l IH]; intros i; cbn; [by intros _ r ?%not_elem_of_nil|]. rewrite orelse_nil.
  intros [Hr Hl] r' [->|Hin]%elem_of_cons; [by exists i|by eapply IH].
Qed.

Lemma head_each_nil {A} (f : nat -> A -> ErrorList) l :
  match head (each f l) with Some e => [e] | None => [] end = [] -> forall i x, l !! i = Some x -> f i x = [].
Proof. destruct (each f l) eqn:E; [|done]. intros _. by apply each_nil. Qed.

(** A rule's source or destination is usable, and its ports are all compiled. *)
Definition served (r : SGRuleSpec) : Prop :=
  (forall pp, pp ∈ sr_Ports r -> is_Some (compileSGPort pp)) /\
  ((sp_Group (sr_Peer r) <> EmptyString /\ sp_CIDR (sr_Peer r) = EmptyString /\
      securityGroupPeerReference IsDNS1123Label IsDNS1123Subdomain (sr_Peer r) = true) \/
   (sp_Group (sr_Peer r) = EmptyString /\ sp_VPC (sr_Peer r) = None /\ is_Some (ParseCIDR (sp_CIDR (sr_Peer r))))).

Lemma validate_rule_served path peer i r : validate_rule IsDNS1123Label IsDNS1123Subdomain path peer false i r = [] -> served r.
Proof.
  unfold validate_rule. rewrite orelse_nil. intros [Hp Hr]. split.
  - intros pp (j & Hj)%list_elem_of_lookup. pose proof (head_each_nil _ _ Hp j pp Hj) as He. cbn in He.
    apply orelse_nil in He as [H1 H2]. apply check_nil in H1, H2. apply negb_true_iff in H2. unfold compileSGPort. rewrite H2.
    apply orb_prop in H1. rewrite !bool_decide_eq_true in H1. repeat case_decide; [by eexists|by eexists|naive_solver].
  - unfold validateRulePeer in Hr. unfold securityGroupPeerReference, GroupReference.
    destruct (decide (sp_Group (sr_Peer r) = EmptyString)) as [Hg|Hg]; [rewrite (bool_decide_true _ Hg) in Hr|rewrite (bool_decide_false _ Hg) in Hr];
    (destruct (decide (sp_CIDR (sr_Peer r) = EmptyString)) as [Hc|Hc]; [rewrite (bool_decide_true _ Hc) in Hr|rewrite (bool_decide_false _ Hc) in Hr]);
      cbn [negb andb] in Hr; try done; rewrite ?orelse_nil in Hr.
    + right. destruct Hr as (_ & [_ Hr] & Hv). apply check_nil, bool_decide_eq_true in Hr. split_and!; [done| |done].
      destruct (sp_VPC (sr_Peer r)); [|done]. case_if; done.
    + left. destruct Hr as (Ho & _ & Hv). split; [done|]. split; [done|]. unfold ReferenceErrors in Ho. rewrite decide_False in Ho by done.
      apply check_nil in Ho. rewrite Ho. destruct (sp_VPC (sr_Peer r)) as [v|]; [|done].
      destruct (_ || _) eqn:Eb in Hv; [done|]. destruct (NamespaceName IsDNS1123Label (refNamespace v)) eqn:En; [|done]. cbn in Hv.
      unfold ReferenceErrors in Hv. case_decide; [done|]. apply check_nil in Hv. by rewrite Hv, orb_true_r.
Qed.

(** What the registry stores the agent serves: no rule of a group accepted with its
    spec is dropped for its form.  Every listed port compiles, a group it names passes the
    agent's own check of references, and a range it names parses; only a group or a VPC that
    does not exist yet leaves a rule without rows. *)
Theorem valid_sg_served (g : SGObj Selector) :
  validateSecurityGroup IsDNS1123Label IsDNS1123Subdomain selector_ok g false = [] ->
  ObjectName IsDNS1123Subdomain (sg_VPCName g) = true /\ forall r, r ∈ sg_Ingress g ++ sg_Egress g -> served r.
Proof.
  unfold validateSecurityGroup. rewrite !orelse_nil. intros (Hv & _ & _ & Hi & He). split.
  - cbn in Hv. unfold ReferenceErrors in Hv. case_decide; [done|]. by apply check_nil in Hv.
  - intros r [Hr|Hr]%elem_of_app.
    + destruct (first_errors_nil _ _ _ Hi r Hr) as [j Hj]. by eapply validate_rule_served.
    + destruct (first_errors_nil _ _ _ He r Hr) as [j Hj]. by eapply validate_rule_served.
Qed.
End Served.

(** ** A run *)

Definition demo_group (ns name vpc : string) (id : Z) (ing eg : list SGRuleSpec) : SGObj unit :=
  MkSGObj (MkMeta name ns "u" 1 false ∅ ∅ []) vpc tt ing eg id.
Definition from_group (name : string) (v : option VPCRef) (ports : list SGPort) : SGRuleSpec := MkSGRuleSpec (MkSGPeer name v EmptyString) ports.
Definition from_cidr (c : string) (ports : list SGPort) : SGRuleSpec := MkSGRuleSpec (MkSGPeer EmptyString None c) ports.

(** [web] takes HTTP from [app] of the peer VPC, from anywhere, and from a range; [app] may
    reach [web]; a group of an unknown VPC gives nothing. *)
Definition web : SGObj unit := demo_group "t" "web" "a" 1
  [from_group "app" (Some (MkVPCRef "p" "b")) [MkSGPort "TCP" 80]; from_cidr "0.0.0.0/0" []; from_cidr "192.0.2.0/24" [MkSGPort "UDP" 53];
   from_group "ghost" None []] [].
Definition app : SGObj unit := demo_group "p" "app" "b" 4 [] [from_group "web" (Some (MkVPCRef "t" "a")) [MkSGPort "TCP" 80]].
Definition lost : SGObj unit := demo_group "p" "lost" "zz" 5 [from_cidr "::/0" []] [].
Definition demo_vnis (ns name : string) : option Z :=
  if decide (ns = "t" /\ name = "a") then Some 100 else if decide (ns = "p" /\ name = "b") then Some 101 else None.
Definition demo_snapshot : SgSnapshot := compileSecurityGroups all_names all_names demo_vnis [web; app; lost].

Example demo_snapshot_rules :
  sn_Rules demo_snapshot = [MkSGRule 100 101 1 6 80 16; MkSGRule 100 100 1 6 0 (2 ^ 63); MkSGRule 100 100 1 17 0 (2 ^ 63)] /\
  sn_Egress demo_snapshot = [MkSGEgress 101 100 4 6 80 2].
Proof. vm_compute. split; reflexivity. Qed.


Lemma sg_compile_bounded_witness :
  validateSGCompilation [web; app; lost] 7 = Ok tt /\ snapshot_in demo_snapshot <= policyRowLimit /\ snapshot_out demo_snapshot <= policyRowLimit.
Proof.
  assert (validateSGCompilation [web; app; lost] 7 = Ok tt) as E by (vm_compute; reflexivity). split; [done|].
  apply (sg_compile_bounded all_names all_names demo_vnis [web; app; lost] 7); [|done].
  repeat (apply Forall_cons; split; [vm_compute; reflexivity|]). apply Forall_nil. done.
Defined.

Lemma valid_sg_served_witness :
  validateSecurityGroup all_names all_names (fun _ : unit => true) web false = [] /\
  forall r, r ∈ sg_Ingress web ++ sg_Egress web -> served all_names all_names r.
Proof.
  assert (validateSecurityGroup all_names all_names (fun _ : unit => true) web false = []) as E by (vm_compute; reflexivity).
  split; [done|]. exact (proj2 (valid_sg_served all_names all_names (fun _ => true) web E)).
Defined.
