(* ===== verification/ApiCalls.v ===== *)
(** * Programs of API calls (internal/ipam/claims.go)

    A reconciler is a program of calls to the API server: each call has an answer, and between
    two calls the other clients of the server may change everything it holds.  The file has the
    programs, the paged scan every allocator uses, and a rely-guarantee logic: a relation [R]
    says what no client ever undoes, each call of a program keeps to it, and an assertion of the
    logic holds whatever the others do meanwhile. *)
From S2P Require Import Prelude GoText.
Local Open Scope Z_scope.

(** ** Errors *)

(** The reason [apierrors] finds in an error or in one it wraps. *)
Inductive reason := NotFound | Conflict | AlreadyExists | OtherReason.
#[export] Instance reason_eq_dec : EqDecision reason. Proof. solve_decision. Defined.
Record apierr := MkErr { er_Reason : reason; er_Text : string }.
(** [fmt.Errorf] without and with [%w]. *)
Definition errorf (text : string) : apierr := MkErr OtherReason text.
Definition wrap (text : string) (e : apierr) : apierr := MkErr (er_Reason e) (text +:+ ": " +:+ er_Text e).
Definition has_reason (x : reason) (e : apierr) : bool := bool_decide (er_Reason e = x).

Inductive outcome (A : Type) := Good (a : A) | Bad (e : apierr).
Arguments Good {A}. Arguments Bad {A}.

(** What a reconcile returns when it does not fail; a [time.Duration] in nanoseconds. *)
Definition Second : Z := 1000000000.
Inductive reconciled := Done | Requeue | RequeueAfter (wait : Z).

(** ** Programs *)

Section Programs.
Context {call : Type} {answer : call -> Type}.

Inductive prog (A : Type) :=
| Ret (a : A)
| Do (c : call) (k : answer c -> prog A).

Fixpoint pbind {A B} (p : prog A) (f : A -> prog B) : prog B :=
  match p with
  | Ret _ a => f a
  | Do _ c k => Do _ c (fun x => pbind (k x) f)
  end.
End Programs.
Arguments prog {call} answer A.
Arguments Ret {call answer A}. Arguments Do {call answer A}.

(** A program that may fail. *)
Definition eprog {call} (answer : call -> Type) (A : Type) : Type := prog answer (outcome A).
Definition good {call} {answer : call -> Type} {A} (a : A) : eprog answer A := Ret (Good a).
Definition fail {call} {answer : call -> Type} {A} (e : apierr) : eprog answer A := Ret (Bad e).
Definition ebind {call} {answer : call -> Type} {A B} (p : eprog answer A) (f : A -> eprog answer B) : eprog answer B :=
  pbind p (fun x => match x with Good a => f a | Bad e => fail e end).
(** [if err != nil { return fmt.Errorf(text, err) }]. *)
Definition wrapped {call} {answer : call -> Type} {A} (text : string) (p : eprog answer A) : eprog answer A :=
  pbind p (fun x => match x with Good a => good a | Bad e => fail (wrap text e) end).

Declare Scope api_scope.
Delimit Scope api_scope with api.
Notation "x <~ p ;; q" := (ebind p (fun x => q)) (at level 100, p at next level, right associativity) : api_scope.
Notation "p ;;; q" := (ebind p (fun _ => q)) (at level 100, right associativity) : api_scope.
Notation "x <- 'try' p ;; q" := (pbind p (fun x => q)) (at level 100, p at next level, right associativity) : api_scope.
Local Open Scope api_scope.

(** ** The scan of claims *)

(** [ClaimPageSize], internal/ipam/claims.go:9-9. *)
Definition ClaimPageSize : Z := 128.
(** [MaxClaimScan], internal/ipam/claims.go:10-10. *)
Definition MaxClaimScan : Z := 65536.
(** [maxClaimPages], internal/ipam/claims.go:11-11. *)
Definition maxClaimPages : nat := Z.to_nat (MaxClaimScan / ClaimPageSize).

Section Walk.
Context {call : Type} {answer : call -> Type} {Item Acc : Type}.
(** [ctx.Err()], and the page read of the caller. *)
Context (ctxErr : eprog answer unit) (list : Z -> string -> eprog answer (list Item * string)) (visit : Acc -> Item -> Acc).

(** [WalkClaims], the visits of one page, internal/ipam/claims.go:31-36. *)
Fixpoint visit_page (items : Datatypes.list Item) (acc : Acc) : eprog answer Acc :=
  match items with
  | [] => good acc
  | x :: items => ctxErr ;;; visit_page items (visit acc x)
  end.

(** [WalkClaims], internal/ipam/claims.go:16-49: the pages left, the token and the total. *)
Fixpoint walk_pages (pages : nat) (token : string) (total : Z) (acc : Acc) : eprog answer Acc :=
  match pages with
  | O => fail (errorf "IPAM claim scan exceeds pages")
  | S pages =>
      ctxErr ;;;
      got <~ list ClaimPageSize token ;;
      let '(items, next) := got in
      let n := Z.of_nat (length items) in
      if (ClaimPageSize <? n) || (MaxClaimScan - total <? n) then fail (errorf "IPAM claim scan exceeds page or object budget")
      else
        acc <~ visit_page items acc ;;
        ctxErr ;;;
        if bool_decide (next = EmptyString) then good acc
        else if bool_decide (next = token) then fail (errorf "IPAM claim scan continuation made no progress")
        else walk_pages pages next (total + n) acc
  end.

Definition WalkClaims (acc : Acc) : eprog answer Acc := walk_pages maxClaimPages EmptyString 0 acc.
End Walk.

(** ** What a program may return *)

Section Returns.
Context {call : Type} {answer : call -> Type} (P : forall c : call, answer c -> Prop).

(** [returns p a]: with answers that satisfy [P], [p] may end with [a]. *)
Fixpoint returns {A} (p : prog answer A) (a : A) : Prop :=
  match p with
  | Ret a' => a' = a
  | Do c k => exists x, P c x /\ returns (k x) a
  end.

Lemma returns_bind {A B} (p : prog answer A) (f : A -> prog answer B) b :
  returns (pbind p f) b <-> exists a, returns p a /\ returns (f a) b.
Proof.
  induction p as [a|c k IH]; cbn [pbind returns].
  - split; [by exists a|]. by intros (a' & <- & ?).
  - setoid_rewrite IH. split.
    + intros (x & HP & a & H1 & H2). exists a. split; [by exists x|done].
    + intros (a & (x & HP & H1) & H2). exists x. split; [done|by exists a].
Qed.

Lemma returns_ebind {A B} (p : eprog answer A) (f : A -> eprog answer B) b :
  returns (ebind p f) (Good b) <-> exists a, returns p (Good a) /\ returns (f a) (Good b).
Proof.
  unfold ebind. rewrite returns_bind. split.
  - intros ([a|e] & H1 & H2); [by exists a|done].
  - intros (a & H1 & H2). by exists (Good a).
Qed.

Lemma returns_wrapped {A} text (p : eprog answer A) a : returns (wrapped text p) (Good a) <-> returns p (Good a).
Proof.
  unfold wrapped. rewrite returns_bind. split.
  - intros ([x|e] & H1 & H2); [by injection H2 as ->|done].
  - intros H. by exists (Good a).
Qed.

(** A run with fixed answers. *)
Fixpoint feed {A} (oracle : forall c : call, answer c) (p : prog answer A) : A :=
  match p with
  | Ret a => a
  | Do c k => feed oracle (k (oracle c))
  end.

Lemma feed_returns {A} (oracle : forall c : call, answer c) (p : prog answer A) : (forall c, P c (oracle c)) -> returns p (feed oracle p).
Proof. intros HP. induction p as [a|c k IH]; cbn [feed returns]; [done|]. exists (oracle c). split; [apply HP|apply IH]. Qed.

(** A completed scan folded the snapshot its pages were cut from; [rest] of a token is the part
    of it still to come. *)
Section WalkReturns.
Context {Item Acc : Type} (ctxErr : eprog answer unit) (list : Z -> string -> eprog answer (list Item * string)) (visit : Acc -> Item -> Acc).
Context (rest : string -> Datatypes.list Item).
Hypothesis list_pages : forall limit token got, returns (list limit token) (Good got) -> exists tail,
  rest token = got.1 ++ tail /\ (got.2 = EmptyString /\ tail = [] \/ got.2 <> EmptyString /\ rest got.2 = tail).

Lemma visit_returns items acc acc' : returns (visit_page ctxErr visit items acc) (Good acc') -> acc' = fold_left visit items acc.
Proof.
  revert acc. induction items as [|x items IH]; intros acc; cbn [visit_page fold_left]; [by intros [= ->]|].
  rewrite returns_ebind. intros (_ & _ & Hr). by apply IH.
Qed.

Lemma walk_returns pages token total acc acc' :
  returns (walk_pages ctxErr list visit pages token total acc) (Good acc') -> acc' = fold_left visit (rest token) acc.
Proof.
  revert token total acc. induction pages as [|pages IH]; intros token total acc; cbn [walk_pages]; [done|].
  rewrite returns_ebind. intros (_ & _ & Hr). rewrite returns_ebind in Hr. destruct Hr as ([items next] & Hl & Hr).
  apply list_pages in Hl as (tail & Ht & Hn). cbn [fst snd] in *. destruct (_ || _); [done|]. rewrite returns_ebind in Hr.
  destruct Hr as (acc1 & ->%visit_returns & Hr). rewrite returns_ebind in Hr. destruct Hr as (_ & _ & Hr). rewrite Ht, fold_left_app.
  case_bool_decide as E.
  - destruct Hn as [[_ ->]|[? _]]; [by injection Hr as ->|done].
  - case_bool_decide; [done|]. destruct Hn as [[? _]|[_ <-]]; [done|]. by eapply IH.
Qed.
End WalkReturns.
End Returns.

(** ** The logic *)

Section Logic.
Context {call : Type} {answer : call -> Type} {state : Type}.
(** What the server may answer, and do, to a call of this client. *)
Context (serve : state -> forall c : call, answer c -> state -> Prop).
Context (R : state -> state -> Prop) `{!PreOrder R} (inv : state -> Prop).

(** [rg p Q s]: from [s], with others changing the state along [R] at any time, every call of
    [p] keeps to [R] and to the invariant, and what [p] returns satisfies [Q] from then on. *)
Fixpoint rg {A} (p : prog answer A) (Q : A -> state -> Prop) (s : state) : Prop :=
  match p with
  | Ret a => forall s', R s s' -> inv s' -> Q a s'
  | Do c k => forall s1 x s2, R s s1 -> inv s1 -> serve s1 c x s2 -> R s1 s2 /\ inv s2 /\ rg (k x) Q s2
  end.

Lemma rg_stable {A} (p : prog answer A) Q s s' : R s s' -> rg p Q s -> rg p Q s'.
Proof. destruct p as [a|c k]; cbn; intros HR H; intros; apply H; (done || by etrans). Qed.

(** The post-condition of a call also holds at every later state. *)
Lemma rg_mono {A} (p : prog answer A) (Q Q' : A -> state -> Prop) s :
  (forall a s', R s s' -> inv s' -> (forall s2, R s' s2 -> inv s2 -> Q a s2) -> Q' a s') -> rg p Q s -> rg p Q' s.
Proof.
  revert s. induction p as [a|c k IH]; intros s HQ; cbn [rg].
  - intros H s' HR Hi. apply HQ; [done|done|]. intros s2 HR2. apply H. by etrans.
  - intros H s1 x s2 HR Hi Hs. destruct (H s1 x s2 HR Hi Hs) as (Hg & Hi2 & Hk). split_and!; [done|done|].
    revert Hk. apply IH. intros a s' HR'. apply HQ. by repeat (etrans; [eassumption|]).
Qed.

Lemma rg_bind {A B} (p : prog answer A) (f : A -> prog answer B) Q s :
  inv s -> rg p (fun a => rg (f a) Q) s -> rg (pbind p f) Q s.
Proof.
  revert s. induction p as [a|c k IH]; intros s Hi; cbn [pbind rg].
  - intros H. by apply H.
  - intros H s1 x s2 HR Hi1 Hs. destruct (H s1 x s2 HR Hi1 Hs) as (Hg & Hi2 & Hk). split_and!; [done|done|]. by apply IH.
Qed.

(** A post-condition of the success alone. *)
Definition on_good {A} (Q : A -> state -> Prop) (x : outcome A) (s : state) : Prop :=
  match x with Good a => Q a s | Bad _ => True end.
Definition erg {A} (p : eprog answer A) (Q : A -> state -> Prop) (s : state) : Prop := rg p (on_good Q) s.

Lemma erg_good {A} (a : A) Q s : (forall s', R s s' -> inv s' -> Q a s') -> erg (good a) Q s.
Proof. done. Qed.
Lemma erg_fail {A} e (Q : A -> state -> Prop) s : erg (fail e) Q s.
Proof. done. Qed.
Lemma erg_bind {A B} (p : eprog answer A) (f : A -> eprog answer B) Q s :
  inv s -> erg p (fun a => erg (f a) Q) s -> erg (ebind p f) Q s.
Proof.
  intros Hi H. apply rg_bind; [done|]. revert H. apply rg_mono. intros [a|e] s' HR Hi' H; [by apply H|by apply erg_fail].
Qed.
Lemma erg_mono {A} (p : eprog answer A) (Q Q' : A -> state -> Prop) s :
  (forall a s', R s s' -> inv s' -> (forall s2, R s' s2 -> inv s2 -> Q a s2) -> Q' a s') -> erg p Q s -> erg p Q' s.
Proof. intros HQ. apply rg_mono. intros [a|e] s' HR Hi H; [by apply HQ|done]. Qed.
Lemma erg_wrapped {A} text (p : eprog answer A) Q s : inv s -> erg p Q s -> erg (wrapped text p) Q s.
Proof.
  intros Hi H. apply rg_bind; [done|]. revert H. apply rg_mono. intros [a|e] s' HR Hi' H; [|done].
  intros s2 HR2 Hi2. by apply H.
Qed.

(** The scan: [J acc rest] relates what was gathered to the items of the snapshot still to
    come, which [left_] of the token names; [P] is what the first page finds. *)
Section WalkLogic.
Context {Item Acc : Type} (ctxErr : eprog answer unit) (list : Z -> string -> eprog answer (list Item * string)).
Context (visit : Acc -> Item -> Acc) (init : Acc) (P : state -> Prop) (J : Acc -> Datatypes.list Item -> state -> Prop).
Context (left_ : string -> Datatypes.list Item -> state -> Prop).
Definition page_post (acc : Acc) (got : Datatypes.list Item * string) (s : state) : Prop := exists rest,
  J acc (got.1 ++ rest) s /\ (if decide (got.2 = EmptyString) then rest = [] else left_ got.2 rest s).
Hypothesis ctx_ok : forall s (P : state -> Prop), inv s -> (forall s', R s s' -> inv s' -> P s') -> erg ctxErr (fun _ => P) s.
Hypothesis list_first : forall s, inv s -> P s -> erg (list ClaimPageSize EmptyString) (page_post init) s.
Hypothesis list_next : forall token rest acc s, inv s -> token <> EmptyString -> left_ token rest s -> J acc rest s ->
  erg (list ClaimPageSize token) (page_post acc) s.
Hypothesis P_stable : forall s s', R s s' -> inv s' -> P s -> P s'.
Hypothesis J_stable : forall acc rest s s', R s s' -> inv s' -> J acc rest s -> J acc rest s'.
Hypothesis left_stable : forall token rest s s', R s s' -> left_ token rest s -> left_ token rest s'.
Hypothesis J_visit : forall acc x rest s, J acc (x :: rest) s -> J (visit acc x) rest s.

Lemma visit_page_ok items rest acc s : inv s -> J acc (items ++ rest) s ->
  erg (visit_page ctxErr visit items acc) (fun acc' => J acc' rest) s.
Proof.
  revert acc s. induction items as [|x items IH]; intros acc s Hi HJ; cbn [visit_page].
  - apply erg_good. intros s' HR Hi'. by apply (J_stable _ _ s).
  - apply erg_bind; [done|]. apply ctx_ok; [done|]. intros s' HR Hi'. apply IH; [done|].
    apply J_visit. by apply (J_stable _ _ s).
Qed.

Definition walking (token : string) (acc : Acc) (s : state) : Prop :=
  token = EmptyString /\ acc = init /\ P s \/ token <> EmptyString /\ exists rest, left_ token rest s /\ J acc rest s.

Lemma walking_page token acc s s' : R s s' -> inv s' -> walking token acc s -> erg (list ClaimPageSize token) (page_post acc) s'.
Proof.
  intros HR Hi [(-> & -> & HP)|(Hne & rest & Hl & HJ)]; [apply list_first|apply (list_next token rest)]; eauto.
Qed.

Lemma walk_pages_ok pages token total acc s : inv s -> walking token acc s ->
  erg (walk_pages ctxErr list visit pages token total acc) (fun acc' => J acc' []) s.
Proof.
  revert token total acc s. induction pages as [|pages IH]; intros token total acc s Hi Hw; cbn [walk_pages]; [done|].
  apply erg_bind; [done|]. apply ctx_ok; [done|]. intros s1 HR1 Hi1.
  apply erg_bind; [done|]. eapply erg_mono; [|by apply (walking_page token acc s s1)].
  intros [items next] s2 HR2 Hi2 H. destruct (H s2) as (rest' & HJ' & Hn); [done|done|]. cbn [fst snd] in *. clear H.
  case_if; [apply erg_fail|]. apply erg_bind; [done|]. eapply erg_mono; [|by apply (visit_page_ok items rest')].
  intros acc' s3 HR3 Hi3 HJ3. apply erg_bind; [done|]. apply ctx_ok; [done|]. intros s4 HR4 Hi4.
  assert (HJ4 : J acc' rest' s4) by by apply HJ3.
  case_bool_decide as Hnx.
  - rewrite decide_True in Hn by done. subst rest'. apply erg_good. intros s5 HR5 Hi5. by eapply J_stable.
  - rewrite decide_False in Hn by done. case_bool_decide; [apply erg_fail|]. apply IH; [done|]. right. split; [done|].
    exists rest'. split; [|done]. eapply left_stable; [|exact Hn]. by etrans.
Qed.

Lemma WalkClaims_ok s : inv s -> P s -> erg (WalkClaims ctxErr list visit init) (fun acc => J acc []) s.
Proof. intros Hi HP. apply walk_pages_ok; [done|]. by left. Qed.
End WalkLogic.
End Logic.
