(* ===== verification/Vni.v ===== *)
(** * The VPC reconciler (internal/controller/sdn/vpc_controller.go)

    A VPC gets its network identifier from a counter kept in a Lease; the controllers of several
    managers may run at once, their caches lag and their writes may fail after they were applied.
    The file has the reconciler as a program of API calls: the allocation and its bootstrap, the
    repair of duplicates, and the acknowledgements of the boundary. *)
From S2P Require Import Prelude GoText GoNet AddrText AddrMap Grants ClaimNames Claims Boundary BoundaryCompile Authority VpcStrategy ApiCalls.
Local Open Scope Z_scope.
Local Open Scope api_scope.

(** ** Objects *)

(** [VPCBoundaryNode], api/sdn/v1alpha1/vpc_types.go:106-114. *)
Record VPCBoundaryNode := MkNode {
  bn_Node : string; bn_AgentUID : string; bn_Revision : Z; bn_ObservedGeneration : Z;
  bn_PrimaryPortsDigest : string; bn_TransportReady : bool
}.
#[export] Instance VPCBoundaryNode_eq_dec : EqDecision VPCBoundaryNode. Proof. solve_decision. Defined.
(** [metav1.Condition]. *)
Record Condition := MkCondition {
  cd_Type : string; cd_Status : bool; cd_ObservedGeneration : Z; cd_LastTransition : Z; cd_Reason : string; cd_Message : string
}.
#[export] Instance Condition_eq_dec : EqDecision Condition. Proof. solve_decision. Defined.
(** [VPCStatus] without its VNI, api/sdn/v1alpha1/vpc_types.go:83-103. *)
Record StatusRest := MkRest { sr_Phase : string; sr_Conditions : list Condition; sr_Nodes : list VPCBoundaryNode }.
#[export] Instance StatusRest_eq_dec : EqDecision StatusRest. Proof. solve_decision. Defined.

(** A VPC as the API server returns it. *)
Record vobj := MkObj { o_Created : Z; o_Vpc : VPCRes StatusRest }.
Definition o_Meta (o : vobj) : ObjectMeta := rv_Meta (o_Vpc o).
Definition o_Key (o : vobj) : VPCRef := MkVPCRef (m_Namespace (o_Meta o)) (m_Name (o_Meta o)).
Definition o_RV (o : vobj) : Z := m_ResourceVersion (o_Meta o).
Definition o_VNI (o : vobj) : Z := rv_VNI (o_Vpc o).
Definition o_Status (o : vobj) : Z * StatusRest := (o_VNI o, rv_Rest (o_Vpc o)).
Definition set_status (vni : Z) (rest : StatusRest) (o : vobj) : vobj :=
  MkObj (o_Created o) (MkVPCRes (o_Meta o) (rv_Generation (o_Vpc o)) (rv_Spec (o_Vpc o)) vni rest).
Definition set_VNI (vni : Z) (o : vobj) : vobj := set_status vni (rv_Rest (o_Vpc o)) o.
Definition set_rest (f : StatusRest -> StatusRest) (o : vobj) : vobj := set_status (o_VNI o) (f (rv_Rest (o_Vpc o))) o.
Definition set_RV (rv : Z) (o : vobj) : vobj :=
  MkObj (o_Created o) (MkVPCRes (meta_rv rv (o_Meta o)) (rv_Generation (o_Vpc o)) (rv_Spec (o_Vpc o)) (o_VNI o) (rv_Rest (o_Vpc o))).

(** [coordinationv1.Lease]. *)
Record lease := MkLease { le_RV : Z; le_Deleting : bool; le_Annotations : gmap string string }.
(** [appsv1.DaemonSet], [corev1.Pod] and its owners. *)
Record DaemonSet := MkDS { ds_UID : string; ds_Desired : Z; ds_Selector : string }.
Record OwnerRef := MkOwner { or_UID : string; or_Kind : string; or_Controller : option bool }.
Record AgentPod := MkPod {
  pd_UID : string; pd_Node : string; pd_Deleting : bool; pd_Owners : list OwnerRef; pd_Phase : string;
  pd_Conditions : list (string * string)
}.

(** ** Calls *)

Inductive vcall :=
| CtxErr
| GetVPC (key : VPCRef)
| ListVPCs (limit : Z) (token : string)
| ListPorts (limit : Z) (token : string)
| ListVIPs (limit : Z) (token : string)
| GetLease
| CreateLease (annotations : gmap string string)
| UpdateLease (l : lease)
| UpdateStatus (o : vobj)
| GetDaemonSet (namespace name : string)
| ListPods (namespace selector : string)
(** The decision of the retry helper after a retriable error: another attempt, or the error it
    returns, which may be none. *)
| GiveUp.

Definition vanswer (c : vcall) : Type :=
  match c with
  | CtxErr => option apierr
  | GetVPC _ => outcome vobj
  | ListVPCs _ _ => outcome (list vobj * string)
  | ListPorts _ _ => outcome (list Port * string)
  | ListVIPs _ _ => outcome (list ServiceVIP * string)
  | GetLease => outcome lease
  | CreateLease _ | UpdateLease _ | UpdateStatus _ => outcome unit
  | GetDaemonSet _ _ => outcome DaemonSet
  | ListPods _ _ => outcome (list AgentPod)
  | GiveUp => option (option apierr)
  end.
Abbreviation vprog := (eprog vanswer).

(** [if err := ctx.Err(); err != nil { return err }]. *)
Definition ctxErr : vprog unit := Do CtxErr (fun e => match e with Some e => fail e | None => good tt end).
Definition listVPCs (limit : Z) (token : string) : vprog (list vobj * string) := Do (ListVPCs limit token) Ret.
Definition listPorts (limit : Z) (token : string) : vprog (list Port * string) := Do (ListPorts limit token) Ret.
Definition listVIPs (limit : Z) (token : string) : vprog (list ServiceVIP * string) := Do (ListVIPs limit token) Ret.

(** ** Allocation *)

(** [lastVNI], internal/controller/sdn/vpc_controller.go:52-52. *)
Definition lastVNI : Z := Z.shiftl 1 22 - 1.
(** [vniCounterAnnotation], internal/controller/sdn/vpc_controller.go:55-55. *)
Definition vniCounterAnnotation : string := "sdn.cozystack.io/last-vni".

(** [initialVNIHighWater], internal/controller/sdn/vpc_controller.go:313-351. *)
Definition initialVNIHighWater : vprog Z :=
  high <~ wrapped "list VPC VNI claims"
    (WalkClaims ctxErr listVPCs (fun high v => if ValidVNI (o_VNI v) then Z.max high (o_VNI v) else high) (FirstVNI - 1)) ;;
  high <~ wrapped "list Port VNI claims"
    (WalkClaims ctxErr listPorts (fun high p =>
       match ParseClaim ClaimPrefixPort (p_Name p) with Some (vni, _) => Z.max high vni | None => high end) high) ;;
  wrapped "list ServiceVIP VNI claims"
    (WalkClaims ctxErr listVIPs (fun high v =>
       match ParseClaim ClaimPrefixServiceVIP (v_Name v) with Some (vni, _) => Z.max high vni | None => high end) high).

(** [allocateVNI], one attempt, internal/controller/sdn/vpc_controller.go:249-295. *)
Definition vni_attempt : vprog Z :=
  ctxErr ;;;
  Do GetLease (fun got =>
    match got with
    | Bad e =>
        if has_reason NotFound e then
          high <~ initialVNIHighWater ;;
          if lastVNI <=? high then fail (errorf "VNI range exhausted")
          else
            let candidate := high + 1 in
            Do (CreateLease {[vniCounterAnnotation := fmt_d candidate]}) (fun r =>
              match r with Good _ => good candidate | Bad e => fail e end)
        else fail (wrap "read durable VNI counter" e)
    | Good counter =>
        if le_Deleting counter then fail (errorf "durable VNI counter is being deleted")
        else
          match parse_int32 (at_key (le_Annotations counter) vniCounterAnnotation) with
          | None => fail (errorf "durable VNI counter is invalid")
          | Some high =>
              if (high <? FirstVNI - 1) || (lastVNI <? high) then fail (errorf "durable VNI counter is invalid")
              else if high =? lastVNI then fail (errorf "VNI range exhausted")
              else
                let candidate := high + 1 in
                Do (UpdateLease (MkLease (le_RV counter) false (<[vniCounterAnnotation := fmt_d candidate]> (le_Annotations counter)))) (fun r =>
                  match r with Good _ => good candidate | Bad e => fail e end)
          end
    end).

(** [retry.OnError]: up to [steps] attempts while the error is retriable.  The last attempt's
    result and the helper's own error. *)
Fixpoint OnError {A} (retriable : apierr -> bool) (fn : vprog A) (steps : nat) (last : option (outcome A)) :
  prog vanswer (option (outcome A) * option apierr) :=
  match steps with
  | O => Ret (last, match last with Some (Bad e) => Some e | _ => None end)
  | S steps =>
      pbind fn (fun r =>
        match r with
        | Good a => Ret (Some (Good a), None)
        | Bad e =>
            if retriable e then
              Do GiveUp (fun d => match d with
                | Some err => Ret (Some (Bad e), err)
                | None => OnError retriable fn steps (Some (Bad e))
                end)
            else Ret (Some (Bad e), Some e)
        end)
  end.

Section Reconciler.
(** The attempts of [retry.DefaultRetry], [LabelSelectorAsSelector] and [SetStatusCondition] of
    the Kubernetes libraries, and the namespace of the agents. *)
Context (steps : nat) (LabelSelectorAsSelector : string -> outcome string).
Context (SetStatusCondition : list Condition -> Condition -> list Condition) (AgentNamespace : string).

(** [allocateVNI], internal/controller/sdn/vpc_controller.go:242-309. *)
Definition allocateVNI : vprog Z :=
  done <- try OnError (fun e => has_reason Conflict e || has_reason AlreadyExists e) vni_attempt steps None ;;
  ctxErr ;;;
  match done with
  | (Some (Bad e), _) => fail e
  | (_, Some e) => fail e
  | (last, None) =>
      let allocated := match last with Some (Good v) => v | _ => 0 end in
      if (allocated <? FirstVNI) || (lastVNI <? allocated)
      then fail (errorf "VNI reservation completed without a confirmed counter write")
      else good allocated
  end.

(** [vpcClaim], internal/controller/sdn/vpc_controller.go:380-383. *)
Definition vpcClaim : Type := Z * string.
(** [vpcClaimKey], internal/controller/sdn/vpc_controller.go:385-387. *)
Definition vpcClaimKey (v : vobj) : vpcClaim := (o_Created v, refNamespace (o_Key v) +:+ "/" +:+ refName (o_Key v)).
(** [vpcClaimOlder], internal/controller/sdn/vpc_controller.go:390-395. *)
Definition vpcClaimOlder (a b : vpcClaim) : bool := if a.1 =? b.1 then str_ltb a.2 b.2 else a.1 <? b.1.

(** [lostVNIToDuplicate], one claim of the scan, internal/controller/sdn/vpc_controller.go:366-373. *)
Definition lost_visit (vpc : vobj) (lost : bool) (o : vobj) : bool :=
  if negb (o_VNI o =? o_VNI vpc) || bool_decide (o_Key o = o_Key vpc) then lost
  else if vpcClaimOlder (vpcClaimKey o) (vpcClaimKey vpc) then true else lost.

(** [lostVNIToDuplicate], internal/controller/sdn/vpc_controller.go:357-378. *)
Definition lostVNIToDuplicate (vpc : vobj) : vprog bool :=
  wrapped "list duplicate VPC VNI claims" (WalkClaims ctxErr listVPCs (lost_visit vpc) false).

(** ** Acknowledgements of the boundary *)

Definition owned_by (ds : DaemonSet) (pod : AgentPod) : bool :=
  existsb (fun o => bool_decide (or_UID o = ds_UID ds) && bool_decide (or_Kind o = "DaemonSet") && default false (or_Controller o)) (pd_Owners pod).
Definition running (pod : AgentPod) : bool :=
  negb (bool_decide (pd_Node pod = EmptyString)) && bool_decide (pd_Phase pod = "Running") &&
  existsb (fun c => bool_decide (c = ("Ready", "True"))) (pd_Conditions pod).

(** The acknowledgement an agent writes for this revision, generation and set of primary ports. *)
Definition acks (revision generation : Z) (digest : string) (pod : AgentPod) (a : VPCBoundaryNode) : bool :=
  bool_decide (bn_Node a = pd_Node pod) && bool_decide (bn_AgentUID a = pd_UID pod) && (bn_Revision a =? revision) &&
  (bn_ObservedGeneration a =? generation) && bool_decide (bn_PrimaryPortsDigest a = digest).

Record tally := MkTally { ty_policy : bool; ty_transport : bool; ty_nodes : gset string; ty_current : gmap string string }.

(** [boundaryApplied], one pod, internal/controller/sdn/vpc_controller.go:208-228. *)
Definition tally_pod (ds : DaemonSet) (revision generation : Z) (digest : string) (acked : list VPCBoundaryNode) (t : tally) (pod : AgentPod) : tally :=
  if pd_Deleting pod || negb (owned_by ds pod) then t
  else
    let current := <[pd_Node pod := pd_UID pod]> (ty_current t) in
    if negb (running pod) then MkTally false false (ty_nodes t) current
    else
      let nodes := {[pd_Node pod]} ∪ ty_nodes t in
      match list_find (fun a => acks revision generation digest pod a) acked with
      | None => MkTally false false nodes current
      | Some (_, a) => MkTally (ty_policy t) (ty_transport t && bn_TransportReady a) nodes current
      end.

(** [boundaryApplied], from the pods of the agents, internal/controller/sdn/vpc_controller.go:205-238:
    the two verdicts and the acknowledgements that are kept. *)
Definition boundary_tally (ds : DaemonSet) (revision generation : Z) (digest : string) (acked : list VPCBoundaryNode) (pods : list AgentPod) :
  bool * bool * list VPCBoundaryNode :=
  let t := fold_left (tally_pod ds revision generation digest acked) pods (MkTally true true ∅ ∅) in
  let kept := filter (fun a => at_key (ty_current t) (bn_Node a) = bn_AgentUID a) acked in
  if negb (Z.of_nat (size (ty_nodes t)) =? ds_Desired ds) then (false, false, kept)
  else (ty_policy t, ty_transport t, kept).

(** [boundaryApplied], one Port of the scan, internal/controller/sdn/vpc_controller.go:189-193. *)
Definition primary_visit (key : VPCRef) (ids : list PrimaryId) (p : Port) : list PrimaryId :=
  if s_Primary (p_Spec p) && bool_decide (s_VPCRef (p_Spec p) = key)
  then ids ++ [MkPrimaryId (m_UID (p_Meta p)) (s_IP (p_Spec p))] else ids.

(** [boundaryApplied], internal/controller/sdn/vpc_controller.go:166-239. *)
Definition boundaryApplied (vpc : vobj) (revision : Z) : vprog (bool * bool * list VPCBoundaryNode) :=
  let acked := sr_Nodes (rv_Rest (o_Vpc vpc)) in
  if bool_decide (AgentNamespace = EmptyString) then good (false, false, acked)
  else
    Do (GetDaemonSet AgentNamespace "cozyplane-agent") (fun got =>
      match got with
      | Bad e => if has_reason NotFound e then good (false, false, acked) else fail e
      | Good ds =>
          if ds_Desired ds <? 1 then good (false, false, acked)
          else
            identities <~ WalkClaims ctxErr listPorts (primary_visit (o_Key vpc)) [] ;;
            let digest := Digest identities in
            selector <~ Ret (LabelSelectorAsSelector (ds_Selector ds)) ;;
            pods <~ Do (ListPods AgentNamespace selector) Ret ;;
            good (boundary_tally ds revision (rv_Generation (o_Vpc vpc)) digest acked pods)
      end).

(** ** Reconcile *)

Definition boundary_condition (vpc : vobj) (kind : string) (ready : bool) (conditions : list Condition) : list Condition :=
  let reason := if ready then "AllAgentsApplied" else "AgentsPending" in
  SetStatusCondition conditions (MkCondition kind ready (rv_Generation (o_Vpc vpc)) 0 reason reason).

(** [Reconcile], the conditions of a boundary, internal/controller/sdn/vpc_controller.go:131-146. *)
Definition boundary_status (vpc : vobj) : vprog vobj :=
  match vs_Boundary (rv_Spec (o_Vpc vpc)) with
  | None => good vpc
  | Some b =>
      applied <~ boundaryApplied vpc (br_Revision b) ;;
      let '(policy, transport, kept) := applied in
      good (set_rest (fun r => MkRest (sr_Phase r)
        (boundary_condition vpc "BoundaryTransportReady" transport (boundary_condition vpc "BoundaryReady" policy (sr_Conditions r))) kept) vpc)
  end.

(** [Reconcile], the identifier, internal/controller/sdn/vpc_controller.go:110-129. *)
Definition ensure_vni (vpc : vobj) : vprog vobj :=
  if negb (ValidVNI (o_VNI vpc)) then vni <~ allocateVNI ;; good (set_VNI vni vpc)
  else
    lost <~ lostVNIToDuplicate vpc ;;
    if (lost : bool) then vni <~ allocateVNI ;; good (set_VNI vni vpc) else good vpc.

(** [Reconcile], internal/controller/sdn/vpc_controller.go:96-162. *)
Definition Reconcile (key : VPCRef) : vprog reconciled :=
  Do (GetVPC key) (fun got =>
    match got with
    | Bad e => if has_reason NotFound e then good Done else fail (wrap "fetch VPC" e)
    | Good vpc0 =>
        if m_Deleting (o_Meta vpc0) then good Done
        else
          vpc <~ ensure_vni vpc0 ;;
          vpc <~ boundary_status (set_rest (fun r => MkRest "Ready" (sr_Conditions r) (sr_Nodes r)) vpc) ;;
          let finish := good (if vs_Boundary (rv_Spec (o_Vpc vpc)) then RequeueAfter (5 * Second) else Done) in
          if decide (o_Status vpc0 = o_Status vpc) then finish
          else
            Do (UpdateStatus vpc) (fun r =>
              match r with
              | Good _ => finish
              | Bad e => if has_reason Conflict e then good Requeue else fail (wrap "update VPC status" e)
              end)
    end).
End Reconciler.
