(* ===== verification/VniSafety.v ===== *)
(** * Network identifiers are never shared (internal/controller/sdn/vpc_controller.go)

    Any number of reconciles run at once, of any managers, over an API server that answers as
    Kubernetes documents: resource versions guard updates, a paged list reads one snapshot, a
    cached read may be old, and a failed write may have been applied.  Users create, change and
    delete VPCs through the strategy of the VPC registry meanwhile. *)
From S2P Require Import Prelude GoText GoNet AddrText AddrMap Grants ClaimNames Claims Boundary BoundaryCompile Authority VpcStrategy ApiCalls Vni.
Local Open Scope Z_scope.
Local Open Scope api_scope.

(** ** The API server *)

Record server := MkServer {
  sv_rev : Z;
  sv_vpcs : gmap VPCRef vobj;
  (** Every version stored so far: what a cache may still return. *)
  sv_seen : list vobj;
  sv_ports : list Port;
  sv_vips : list ServiceVIP;
  sv_lease : option lease;
  sv_leases : list lease;
  (** The rest of the snapshot a continuation token stands for. *)
  sv_vpc_pages : gmap string (list vobj);
  sv_port_pages : gmap string (list Port);
  sv_vip_pages : gmap string (list ServiceVIP);
  (** The run whose write of the counter reserved an identifier. *)
  sv_granted : gmap Z nat;
  (** The identifiers that were in use, or reserved before, when they were reserved. *)
  sv_reused : list Z
}.

Definition set_vpcs (rev : Z) (m : gmap VPCRef vobj) (seen : list vobj) (s : server) : server :=
  MkServer rev m seen (sv_ports s) (sv_vips s) (sv_lease s) (sv_leases s) (sv_vpc_pages s) (sv_port_pages s) (sv_vip_pages s) (sv_granted s) (sv_reused s).
Definition set_claims (ports : list Port) (vips : list ServiceVIP) (s : server) : server :=
  MkServer (sv_rev s) (sv_vpcs s) (sv_seen s) ports vips (sv_lease s) (sv_leases s) (sv_vpc_pages s) (sv_port_pages s) (sv_vip_pages s) (sv_granted s) (sv_reused s).
Definition set_lease (rev : Z) (l : lease) (granted : gmap Z nat) (reused : list Z) (s : server) : server :=
  MkServer rev (sv_vpcs s) (sv_seen s) (sv_ports s) (sv_vips s) (Some l) (l :: sv_leases s) (sv_vpc_pages s) (sv_port_pages s) (sv_vip_pages s) granted reused.
Definition set_pages vpcs ports vips (s : server) : server :=
  MkServer (sv_rev s) (sv_vpcs s) (sv_seen s) (sv_ports s) (sv_vips s) (sv_lease s) (sv_leases s) vpcs ports vips (sv_granted s) (sv_reused s).

(** A write stores the object under a new resource version. *)
Definition store (o : vobj) (s : server) : server :=
  let o := set_RV (sv_rev s + 1) o in set_vpcs (sv_rev s + 1) (<[o_Key o := o]> (sv_vpcs s)) (o :: sv_seen s) s.
Definition counter_of (l : lease) : option Z := parse_int32 (at_key (le_Annotations l) vniCounterAnnotation).
Definition in_use (s : server) (v : Z) : bool :=
  existsb (fun o => o_VNI o =? v) (map_to_list (sv_vpcs s)).*2 ||
  existsb (fun p => bool_decide (fst <$> ParseClaim ClaimPrefixPort (p_Name p) = Some v)) (sv_ports s) ||
  existsb (fun x => bool_decide (fst <$> ParseClaim ClaimPrefixServiceVIP (v_Name x) = Some v)) (sv_vips s) ||
  bool_decide (is_Some (sv_granted s !! v)).
(** The run that writes the counter reserves its value. *)
Definition grant (r : nat) (deleting : bool) (annotations : gmap string string) (s : server) : server :=
  let l := MkLease (sv_rev s + 1) deleting annotations in
  match counter_of l with
  | None => set_lease (sv_rev s + 1) l (sv_granted s) (sv_reused s) s
  | Some v => set_lease (sv_rev s + 1) l (<[v := r]> (sv_granted s)) (if in_use s v then v :: sv_reused s else sv_reused s) s
  end.

(** A page: a prefix of the snapshot, taken now or named by the token; the next token stands for
    the rest of it. *)
Definition paged {T} (pages : gmap string (list T)) (current : list T) (token : string) (x : list T * string) (pages' : gmap string (list T)) : Prop :=
  exists src rest, (if decide (token = EmptyString) then src ≡ₚ current else pages !! token = Some src) /\ src = x.1 ++ rest /\
    (x.2 = EmptyString /\ rest = [] /\ pages' = pages \/ x.2 <> EmptyString /\ pages !! x.2 = None /\ pages' = <[x.2 := rest]> pages).

(** What the server may answer to a call of run [r]. *)
Definition serve (r : nat) (s : server) (c : vcall) : vanswer c -> server -> Prop :=
  match c return vanswer c -> server -> Prop with
  | CtxErr | GiveUp | GetDaemonSet _ _ | ListPods _ _ => fun _ s' => s' = s
  | GetVPC key => fun x s' => s' = s /\ forall o, x = Good o -> o ∈ sv_seen s /\ o_Key o = key
  | ListVPCs _ token => fun x s' => (exists e, x = Bad e) /\ s' = s \/
      exists got pages, x = Good got /\ paged (sv_vpc_pages s) (map_to_list (sv_vpcs s)).*2 token got pages /\
        s' = set_pages pages (sv_port_pages s) (sv_vip_pages s) s
  | ListPorts _ token => fun x s' => (exists e, x = Bad e) /\ s' = s \/
      exists got pages, x = Good got /\ paged (sv_port_pages s) (sv_ports s) token got pages /\
        s' = set_pages (sv_vpc_pages s) pages (sv_vip_pages s) s
  | ListVIPs _ token => fun x s' => (exists e, x = Bad e) /\ s' = s \/
      exists got pages, x = Good got /\ paged (sv_vip_pages s) (sv_vips s) token got pages /\
        s' = set_pages (sv_vpc_pages s) (sv_port_pages s) pages s
  | GetLease => fun x s' => s' = s /\
      match x with Good l => sv_lease s = Some l | Bad e => has_reason NotFound e = true -> sv_lease s = None end
  | CreateLease annotations => fun x s' => (exists e, x = Bad e) /\ s' = s \/
      sv_lease s = None /\ s' = grant r false annotations s
  | UpdateLease l => fun x s' => (exists e, x = Bad e) /\ s' = s \/
      exists l0, sv_lease s = Some l0 /\ le_RV l0 = le_RV l /\ s' = grant r (le_Deleting l0) (le_Annotations l) s
  | UpdateStatus o => fun x s' => (exists e, x = Bad e) /\ s' = s \/
      exists live, sv_vpcs s !! o_Key o = Some live /\ o_RV live = o_RV o /\
        let v := vpc_status_PrepareForUpdate (o_Vpc o) (o_Vpc live) in
        vpc_status_ValidateUpdate v = [] /\ s' = store (MkObj (o_Created live) v) s
  end.

(** ** The system *)

Section System.
Context (auth : Authorizer) (key_of : nat -> VPCRef).
Context (steps : nat) (LabelSelectorAsSelector : string -> outcome string).
Context (SetStatusCondition : list Condition -> Condition -> list Condition) (AgentNamespace : string).

Definition noStatus : StatusRest := MkRest EmptyString [] [].

(** The identifiers of VPCs and of address claims. *)
Definition carried (s : server) (v : Z) : Prop := exists k o, sv_vpcs s !! k = Some o /\ o_VNI o = v /\ ValidVNI v = true.
Definition port_claimed (s : server) (v : Z) : Prop :=
  exists p esc, p ∈ sv_ports s /\ ParseClaim ClaimPrefixPort (p_Name p) = Some (v, esc).
Definition vip_claimed (s : server) (v : Z) : Prop :=
  exists x esc, x ∈ sv_vips s /\ ParseClaim ClaimPrefixServiceVIP (v_Name x) = Some (v, esc).
Definition claimed (s : server) (v : Z) : Prop := port_claimed s v \/ vip_claimed s v.

(** The other clients: users through the registry strategy, deletion, status writers that leave
    the identifier alone, allocators of addresses in the network of a VPC, and metadata of the
    counter. *)
Inductive env : server -> server -> Prop :=
| env_create s created rq v new : sv_vpcs s !! MkVPCRef (rv_ns v) (rv_name v) = None ->
    vpc_write noStatus auth None (VCreate rq v) = Some new -> env s (store (MkObj created new) s)
| env_update s key old rq v new : sv_vpcs s !! key = Some old ->
    vpc_write noStatus auth (Some (o_Vpc old)) (VUpdate rq v) = Some new -> env s (store (MkObj (o_Created old) new) s)
| env_status s key old rq v new : sv_vpcs s !! key = Some old -> rv_VNI v = o_VNI old ->
    vpc_write noStatus auth (Some (o_Vpc old)) (VStatus rq v) = Some new -> env s (store (MkObj (o_Created old) new) s)
| env_delete s key : env s (set_vpcs (sv_rev s + 1) (delete key (sv_vpcs s)) (sv_seen s) s)
| env_claims s ports vips : (forall v, port_claimed (set_claims ports vips s) v -> port_claimed s v \/ carried s v) ->
    (forall v, vip_claimed (set_claims ports vips s) v -> vip_claimed s v \/ carried s v) -> env s (set_claims ports vips s)
| env_lease s l l' : sv_lease s = Some l -> le_RV l' = sv_rev s + 1 -> counter_of l' = counter_of l ->
    env s (set_lease (sv_rev s + 1) l' (sv_granted s) (sv_reused s) s).

Abbreviation run := (vprog reconciled).
Record sys := MkSys { y_srv : server; y_runs : gmap nat run }.

Inductive step : sys -> sys -> Prop :=
| step_start s runs r : runs !! r = None ->
    step (MkSys s runs) (MkSys s (<[r := Reconcile steps LabelSelectorAsSelector SetStatusCondition AgentNamespace (key_of r)]> runs))
| step_call s s' runs r c k x : runs !! r = Some (Do c k) -> serve r s c x s' -> step (MkSys s runs) (MkSys s' (<[r := k x]> runs))
| step_crash s runs r p e : runs !! r = Some p -> step (MkSys s runs) (MkSys s (<[r := fail e]> runs))
| step_env s s' runs : env s s' -> step (MkSys s runs) (MkSys s' runs).

(** Every stored version has its own resource version. *)
Record versions (s : server) : Prop := MkVersions {
  vs_seen o : o ∈ sv_seen s -> o_RV o <= sv_rev s;
  vs_lease l : l ∈ sv_leases s -> le_RV l <= sv_rev s;
  vs_seen_inj o o' : o ∈ sv_seen s -> o' ∈ sv_seen s -> o_RV o = o_RV o' -> o = o';
  vs_lease_inj l l' : l ∈ sv_leases s -> l' ∈ sv_leases s -> le_RV l = le_RV l' -> l = l';
  vs_live k o : sv_vpcs s !! k = Some o -> o ∈ sv_seen s /\ o_Key o = k
}.

(** A cluster that has no counter yet: its VPCs and claims are whatever an older release left. *)
Definition initial (s : server) : Prop := versions s /\ sv_lease s = None /\ sv_leases s = [] /\ sv_granted s = ∅ /\ sv_reused s = [].
Definition reachable (s0 : server) : sys -> Prop := rtc step (MkSys s0 ∅).

(** ** What no client undoes *)

Record evolves (s s' : server) : Prop := MkEvolves {
  ev_lease : sv_lease s' = None -> sv_lease s = None;
  ev_granted : sv_granted s ⊆ sv_granted s';
  ev_seen : sv_seen s ⊆ sv_seen s';
  ev_leases : sv_leases s ⊆ sv_leases s';
  ev_vpc_pages : sv_vpc_pages s ⊆ sv_vpc_pages s';
  ev_port_pages : sv_port_pages s ⊆ sv_port_pages s';
  ev_vip_pages : sv_vip_pages s ⊆ sv_vip_pages s';
  ev_carried v : sv_lease s' = None -> carried s' v -> carried s v;
  ev_port_claimed v : sv_lease s' = None -> port_claimed s' v -> port_claimed s v \/ carried s v;
  ev_vip_claimed v : sv_lease s' = None -> vip_claimed s' v -> vip_claimed s v \/ carried s v
}.

#[local] Instance evolves_preorder : PreOrder evolves.
Proof.
  split.
  - intros s. by split; auto.
  - intros s s1 s2 [] []. split; eauto; try by etrans.
    + intros v Hn Hc. destruct (ev_port_claimed1 v Hn Hc) as [?|?]; eauto.
    + intros v Hn Hc. destruct (ev_vip_claimed1 v Hn Hc) as [?|?]; eauto.
Qed.

Section Invariant.
Context (s0 : server).
Definition before (k : VPCRef) (v : Z) : Prop := exists o, sv_vpcs s0 !! k = Some o /\ o_VNI o = v.

(** The counter is above every identifier in use or ever reserved. *)
Definition counter_above (s : server) (l : lease) (h : Z) : Prop :=
  counter_of l = Some h /\ FirstVNI - 1 <= h <= lastVNI /\ (forall v, carried s v -> v <= h) /\ (forall v, claimed s v -> v <= h) /\
  (forall v r, sv_granted s !! v = Some r -> FirstVNI <= v <= h).

(** An identifier belongs to the VPC of the run that reserved it, or was there before. *)
Definition owned (s : server) : Prop := forall k o, sv_vpcs s !! k = Some o -> ValidVNI (o_VNI o) = true ->
  before k (o_VNI o) /\ sv_granted s !! o_VNI o = None \/ exists r, sv_granted s !! o_VNI o = Some r /\ key_of r = k.

Record inv (s : server) : Prop := MkInv {
  iv_versions : versions s;
  iv_none : sv_lease s = None -> sv_granted s = ∅;
  iv_some l : sv_lease s = Some l -> l ∈ sv_leases s /\ exists h, counter_above s l h;
  iv_owned : owned s;
  iv_reused : sv_reused s = []
}.

Lemma initial_inv : initial s0 -> inv s0.
Proof.
  intros (Hv & Hl & Hls & Hg & Hu). split; [done|done|by rewrite Hl| |done]. intros k o Hk _. left. rewrite Hg. split; [by exists o|done].
Qed.

(** ** Stores *)

Lemma store_versions o s : versions s -> versions (store o s).
Proof.
  intros [H1 H2 H3 H4 H5]. unfold store. set (o' := set_RV _ o).
  assert (Ho : o_RV o' = sv_rev s + 1) by done.
  split; cbn [sv_seen sv_rev sv_leases sv_vpcs set_vpcs]; [| | |done|].
  - intros x [->|Hx]%elem_of_cons; [lia|]. specialize (H1 x Hx). lia.
  - intros l Hl. specialize (H2 l Hl). lia.
  - intros x y [->|Hx]%elem_of_cons [->|Hy]%elem_of_cons E; [done| | |by apply H3].
    + specialize (H1 y Hy). lia.
    + specialize (H1 x Hx). lia.
  - intros k x. rewrite lookup_insert_Some. intros [[<- <-]|[Hne Hk]]; [by split; [left|]|].
    destruct (H5 k x Hk). by split; [right|].
Qed.

Lemma store_carried o s v : carried (store o s) v -> v = o_VNI o /\ ValidVNI v = true \/ carried s v.
Proof.
  intros (k & x & Hk & Hv & Hok). unfold store in Hk. cbn [sv_vpcs set_vpcs] in Hk.
  apply lookup_insert_Some in Hk as [[<- <-]|[Hne Hk]]; [left|right; by exists k, x].
  by split; [rewrite <- Hv|].
Qed.

(** A write of a VPC whose identifier is unset, unchanged, or reserved by a run of its key. *)
Definition may_store (s : server) (o : vobj) : Prop := ValidVNI (o_VNI o) = true ->
  (exists live, sv_vpcs s !! o_Key o = Some live /\ o_VNI live = o_VNI o) \/
  exists r, sv_granted s !! o_VNI o = Some r /\ key_of r = o_Key o.

Lemma granted_lease s v r : inv s -> sv_granted s !! v = Some r -> exists l h, sv_lease s = Some l /\ counter_above s l h.
Proof.
  intros [_ Hn Hs _ _] Hg. destruct (sv_lease s) as [l|] eqn:E.
  - destruct (Hs l eq_refl) as [_ [h Hh]]. by exists l, h.
  - by rewrite Hn in Hg.
Qed.

Lemma store_ok o s : inv s -> may_store s o -> evolves s (store o s) /\ inv (store o s).
Proof.
  intros Hi Hm. assert (Hc : forall v, carried (store o s) v -> carried s v \/ exists r, sv_granted s !! v = Some r).
  { intros v [[-> Hv]|?]%store_carried; [|by left]. destruct (Hm Hv) as [(live & Hl & E)|(r & Hr & _)]; [left|right; eauto].
    by exists (o_Key o), live. }
  split; [split; try done|split].
  - by apply list_subseteq_cons.
  - intros v Hn Hv. destruct (Hc v Hv) as [?|[r Hr]]; [done|]. destruct (granted_lease _ _ _ Hi Hr) as (l & h & Hl & _).
    cbn in Hn. congruence.
  - intros v _ Hv. by left.
  - intros v _ Hv. by left.
  - apply store_versions, Hi.
  - apply Hi.
  - intros l Hl. destruct (iv_some s Hi l Hl) as [Hin (h & H1 & H2 & H3 & H4 & H5)]. split; [done|]. exists h. split_and!; try done; try apply H2.
    intros v Hv. destruct (Hc v Hv) as [?|[r Hr]]; [by apply H3|by apply (H5 v r)].
  - intros k x Hk Hv. cbn [store sv_vpcs set_vpcs sv_granted] in *. apply lookup_insert_Some in Hk as [[<- <-]|[Hne Hk]]; [|by apply Hi].
    destruct (Hm Hv) as [(live & Hl & E)|(r & Hr & Hk)]; [|right; by exists r].
    change (o_VNI (set_RV (sv_rev s + 1) o)) with (o_VNI o) in *. rewrite <- E. apply Hi; [done|by rewrite E].
  - apply Hi.
Qed.

(** ** The counter *)

Lemma set_lease_versions l g u s : versions s -> le_RV l = sv_rev s + 1 -> versions (set_lease (sv_rev s + 1) l g u s).
Proof.
  intros [H1 H2 H3 H4 H5] Hl. split; cbn [sv_seen sv_rev sv_leases sv_vpcs set_lease]; [| |done| |done].
  - intros o Ho. specialize (H1 o Ho). lia.
  - intros x [->|Hx]%elem_of_cons; [lia|]. specialize (H2 x Hx). lia.
  - intros x y [->|Hx]%elem_of_cons [->|Hy]%elem_of_cons E; [done| | |by apply H4].
    + specialize (H2 y Hy). lia.
    + specialize (H2 x Hx). lia.
Qed.

(** Raising the counter above everything reserves the new value for the run that wrote it. *)
Definition counts_below (s : server) (high : Z) : Prop :=
  (forall v, carried s v -> v <= high) /\ (forall v, claimed s v -> v <= high) /\
  (forall v r, sv_granted s !! v = Some r -> FirstVNI <= v <= high).

Lemma in_use_above s high v : counts_below s high -> ValidVNI v = true -> high < v -> in_use s v = false.
Proof.
  intros (Hc & Hcl & Hg) Hv Hlt. apply not_true_iff_false. unfold in_use. rewrite !orb_true_iff, !existsb_exists, bool_decide_eq_true.
  intros [[[(o & Ho & E)|(p & Hp & E)]|(x & Hx & E)]|[r E]].
  - apply list_elem_of_In, list_elem_of_fmap in Ho as ([k o'] & -> & Hk%elem_of_map_to_list). to_prop.
    assert (v <= high) by (apply Hc; by exists k, o'). lia.
  - apply list_elem_of_In in Hp. apply bool_decide_eq_true in E. destruct (ParseClaim _ _) as [[w esc]|] eqn:Ep; [|done]. injection E as ->.
    assert (v <= high) by (apply Hcl; left; by exists p, esc). lia.
  - apply list_elem_of_In in Hx. apply bool_decide_eq_true in E. destruct (ParseClaim _ _) as [[w esc]|] eqn:Ep; [|done]. injection E as ->.
    assert (v <= high) by (apply Hcl; right; by exists x, esc). lia.
  - specialize (Hg v r E). lia.
Qed.

Lemma grant_ok r high deleting annotations s : inv s -> FirstVNI - 1 <= high < lastVNI -> counts_below s high ->
  at_key annotations vniCounterAnnotation = fmt_d (high + 1) ->
  let s' := grant r deleting annotations s in evolves s s' /\ inv s' /\ sv_granted s' !! (high + 1) = Some r.
Proof.
  intros Hi Hh Hb Ha s'. pose proof Hb as (Hc & Hcl & Hg). set (l := MkLease (sv_rev s + 1) deleting annotations).
  assert (Hv : ValidVNI (high + 1) = true).
  { apply ValidVNI_range. unfold FirstVNI, lastVNI in Hh. change (Z.shiftl 1 22 - 1) with 4194303 in Hh. lia. }
  assert (Hl : counter_of l = Some (high + 1)).
  { unfold counter_of. cbn. rewrite Ha, fmt_vni by done. rewrite ValidVNI_range in Hv. apply parse_int32_fmt. lia. }
  assert (E : s' = set_lease (sv_rev s + 1) l (<[high + 1 := r]> (sv_granted s)) (sv_reused s) s).
  { unfold s', grant. fold l. by rewrite Hl, (in_use_above s high) by (done || lia). }
  assert (Hfresh : sv_granted s !! (high + 1) = None).
  { destruct (sv_granted s !! (high + 1)) as [x|] eqn:Ex; [|done]. specialize (Hg _ _ Ex). lia. }
  rewrite E. clear E s'. split_and!; [|split|by apply lookup_insert_eq].
  - split; try done; try (by left); first [by apply insert_subseteq|by apply list_subseteq_cons].
  - by apply set_lease_versions; [apply Hi|].
  - done.
  - cbn [sv_lease set_lease]. intros ? [= <-]. split; [by left|]. exists (high + 1). split_and!; [done|lia|lia| | |].
    + intros v Hx. specialize (Hc v Hx). lia.
    + intros v Hx. specialize (Hcl v Hx). lia.
    + intros v x. cbn [sv_granted set_lease]. rewrite lookup_insert_Some. intros [[<- <-]|[Hne Hx]]; [lia|]. specialize (Hg v x Hx). lia.
  - intros k o Hk Hvo. cbn [sv_vpcs sv_granted set_lease] in *.
    assert (Hne : high + 1 <> o_VNI o). { assert (o_VNI o <= high) by (apply Hc; by exists k, o). lia. }
    rewrite lookup_insert_ne by done. by apply (iv_owned s Hi).
  - apply Hi.
Qed.

(** ** Environment *)

Lemma create_VNI s0' rq v new : vpc_write noStatus auth None (VCreate rq v) = Some new -> s0' = new -> rv_VNI s0' = 0.
Proof. cbn [vpc_write]. case_decide; [|done]. by intros [= <-] ->. Qed.

Lemma write_kept old w new : (forall rq v, w = VStatus rq v -> rv_VNI v = rv_VNI old) -> (forall rq v, w <> VCreate rq v) ->
  vpc_write noStatus auth (Some old) w = Some new -> rv_ns new = rv_ns old /\ rv_name new = rv_name old /\ rv_VNI new = rv_VNI old.
Proof.
  destruct w as [rq v|rq v|rq v]; cbn [vpc_write]; intros Hs Hc; [by destruct (Hc rq v)|..].
  - case_decide as Hd; intros [= <-]; [|done]. by destruct Hd as (? & ? & _).
  - case_decide as Hd; intros [= <-]; [|done]. destruct Hd as (? & ? & _). split_and!; [done|done|]. by apply (Hs rq v).
Qed.

Lemma env_write_ok s key old w new : inv s -> sv_vpcs s !! key = Some old ->
  (forall rq v, w = VStatus rq v -> rv_VNI v = o_VNI old) -> (forall rq v, w <> VCreate rq v) ->
  vpc_write noStatus auth (Some (o_Vpc old)) w = Some new -> may_store s (MkObj (o_Created old) new).
Proof.
  intros Hi Hk Hs Hc Hw Hv. left. destruct (write_kept _ _ _ Hs Hc Hw) as (E1 & E2 & E3). exists old. split; [|done].
  destruct (vs_live s (iv_versions s Hi) _ _ Hk) as [_ Hkey]. unfold o_Key, o_Meta, rv_ns, rv_name in *. cbn. by rewrite E1, E2, Hkey.
Qed.

Lemma delete_carried key rev s v : carried (set_vpcs rev (delete key (sv_vpcs s)) (sv_seen s) s) v -> carried s v.
Proof. intros (k & o & Hk & Hv). cbn in Hk. apply lookup_delete_Some in Hk as [_ Hk]. by exists k, o. Qed.

Lemma env_ok s s' : inv s -> env s s' -> evolves s s' /\ inv s'.
Proof.
  intros Hi He. destruct He as [s created rq v new Hk Hw|s key old rq v new Hk Hw|s key old rq v new Hk Hv Hw|s key|s ports vips Hp Hx|s l l' Hl HRV Hc].
  - apply store_ok; [done|]. intros Hv. unfold o_VNI in Hv. cbn in Hv. by rewrite (create_VNI _ _ _ _ Hw eq_refl) in Hv.
  - apply store_ok; [done|]. by apply (env_write_ok s key old (VUpdate rq v)).
  - apply store_ok; [done|]. eapply (env_write_ok s key old (VStatus rq v)); [done|done| |done|done]. by intros ? ? [= <- <-].
  - destruct Hi as [[H1 H2 H3 H4 H5] Hn Hs Ho Hu]. split; [split; try done|split]; [..|split| | | |]; cbn; try done.
    + intros w _. apply delete_carried.
    + by left.
    + by left.
    + intros o Hin. specialize (H1 o Hin). lia.
    + intros l Hin. specialize (H2 l Hin). lia.
    + intros k o [_ Hk]%lookup_delete_Some. by apply H5.
    + intros l Hl. destruct (Hs l Hl) as [Hin (h & E1 & E2 & E3 & E4 & E5)]. split; [done|]. exists h. split_and!; try done; try apply E2.
      intros w Hw. by apply E3, (delete_carried key (sv_rev s + 1)).
    + intros k o Hk. cbn in Hk. apply lookup_delete_Some in Hk as [_ Hk]. by apply Ho.
  - destruct Hi as [[H1 H2 H3 H4 H5] Hn Hs Ho Hu]. split; [split; try done|split; [done|done| |done|done]].
    + intros w _. apply Hp.
    + intros w _. apply Hx.
    + intros l Hl. destruct (Hs l Hl) as [Hin (h & E1 & E2 & E3 & E4 & E5)]. split; [done|]. exists h. split_and!; try done; try apply E2.
      intros w [Hw|Hw]; [destruct (Hp w Hw)|destruct (Hx w Hw)]; [by apply E4; left|by apply E3|by apply E4; right|by apply E3].
  - destruct (iv_some s Hi l Hl) as [Hin (h & E1 & E2 & E3 & E4 & E5)]. split; [split; try done|split].
    + by apply list_subseteq_cons.
    + by apply set_lease_versions; [apply Hi|].
    + done.
    + intros ? [= <-]. split; [by left|]. exists h. split_and!; try done; try apply E2. by rewrite Hc.
    + apply Hi.
    + apply Hi.
Qed.

(** ** Calls *)

Lemma pages_ok vp pp xp s : inv s -> sv_vpc_pages s ⊆ vp -> sv_port_pages s ⊆ pp -> sv_vip_pages s ⊆ xp ->
  evolves s (set_pages vp pp xp s) /\ inv (set_pages vp pp xp s).
Proof. intros [[] Hn Hs Ho Hu] H1 H2 H3. split; [split; try done; by left|by split]. Qed.

Lemma paged_grows {T} (pages : gmap string (list T)) current token x pages' : paged pages current token x pages' -> pages ⊆ pages'.
Proof. intros (src & rest & _ & _ & [(_ & _ & ->)|(_ & Hn & ->)]); [done|by apply insert_subseteq]. Qed.

Section Run.
Context (r : nat).
Abbreviation ok := (erg (serve r) evolves inv).

Lemma ctx_ok s (P : server -> Prop) : inv s -> (forall s', evolves s s' -> inv s' -> P s') -> ok ctxErr (fun _ => P) s.
Proof.
  intros Hi HP s1 [e|] s2 HR Hi1 Hs; cbn in Hs; subst s2; (split_and!; [done|done|]); [done|].
  intros s3 HR3 Hi3. apply HP; [by etrans|done].
Qed.

Definition ok_mono {A} := erg_mono (serve r) evolves inv (A := A).
Definition ok_bind {A B} := erg_bind (serve r) evolves inv (A := A) (B := B).
Definition ok_wrapped {A} := erg_wrapped (serve r) evolves inv (A := A).

(** A completed scan folded one snapshot of the list, taken while it ran. *)
Section Scan.
Context {T Acc : Type} (listT : Z -> string -> vprog (list T * string)) (pages : server -> gmap string (list T)) (current : server -> list T).
Hypothesis pages_stable : forall s s', evolves s s' -> pages s ⊆ pages s'.
Hypothesis list_serves : forall limit token s (Q : list T * string -> server -> Prop), inv s ->
  (forall s1 got s2, evolves s s1 -> inv s1 -> evolves s1 s2 -> inv s2 -> paged (pages s1) (current s1) token got (pages s2) ->
     forall s3, evolves s2 s3 -> inv s3 -> Q got s3) ->
  ok (listT limit token) Q s.
Context (visit : Acc -> T -> Acc) (init : Acc) (s : server).

Definition snapshot (acc : Acc) (s' : server) : Prop := exists s1 l,
  evolves s s1 /\ inv s1 /\ evolves s1 s' /\ l ≡ₚ current s1 /\ acc = fold_left visit l init.
Definition folding (acc : Acc) (rest : list T) (s' : server) : Prop := exists s1 pre,
  evolves s s1 /\ inv s1 /\ evolves s1 s' /\ pre ++ rest ≡ₚ current s1 /\ acc = fold_left visit pre init.
Definition left_at (token : string) (rest : list T) (s' : server) : Prop := pages s' !! token = Some rest.

Lemma scan_ok : inv s -> ok (WalkClaims ctxErr listT visit init) snapshot s.
Proof.
  intros Hi. eapply ok_mono; [|apply (WalkClaims_ok (serve r) evolves inv ctxErr listT visit init (evolves s) folding left_at); try done].
  - intros acc s' HR Hi' H. destruct (H s') as (s1 & pre & H1 & H2 & H3 & H4 & H5); [done|done|]. rewrite app_nil_r in H4. by exists s1, pre.
  - apply ctx_ok.
  - intros s1 Hi1 HR1. apply list_serves; [done|].
    intros s2 [items next] s3 HR2 Hi2 HR3 Hi3 (src & rest & Hsrc & Hsplit & Hnext) s4 HR4 Hi4. cbn [fst snd] in *.
    rewrite decide_True in Hsrc by done. subst src. exists rest. split.
    + exists s2, []. split_and!; [by etrans|done|by etrans|done|done].
    + destruct Hnext as [(-> & -> & _)|(Hne & _ & Hp)]; [by rewrite decide_True|]. cbn [fst snd]. rewrite decide_False by done.
      eapply lookup_weaken; [|by apply pages_stable]. by rewrite Hp, lookup_insert_eq.
  - intros token rest acc s1 Hi1 Ht Hl (s0' & pre & E1 & E2 & E3 & E4 & E5). apply list_serves; [done|].
    intros s2 [items next] s3 HR2 Hi2 HR3 Hi3 (src & rest' & Hsrc & Hsplit & Hnext) s4 HR4 Hi4. cbn [fst snd] in *.
    rewrite decide_False in Hsrc by done. pose proof (lookup_weaken _ _ _ _ Hl (pages_stable _ _ HR2)) as E. rewrite Hsrc in E. injection E as ->.
    exists rest'. split.
    + exists s0', pre. cbn [fst]. rewrite <- Hsplit. split_and!; [done|done| |done|done]. by repeat (etrans; [eassumption|]).
    + destruct Hnext as [(-> & -> & _)|(Hne & _ & Hp)]; [by rewrite decide_True|]. cbn [fst snd]. rewrite decide_False by done.
      eapply lookup_weaken; [|by apply pages_stable]. by rewrite Hp, lookup_insert_eq.
  - intros s1 s2 HR _ H. by etrans.
  - intros acc rest s1 s2 HR _ (s0' & pre & E1 & E2 & E3 & E4 & E5). exists s0', pre. split_and!; [done|done|by etrans|done|done].
  - intros token rest s1 s2 HR Hl. eapply lookup_weaken; [exact Hl|by apply pages_stable].
  - intros acc x rest s1 (s0' & pre & E1 & E2 & E3 & E4 & E5). exists s0', (pre ++ [x]). split_and!; [done|done|done| |].
    + by rewrite <- app_assoc.
    + by rewrite fold_left_app, <- E5.
Qed.
End Scan.

Definition below (p : server -> Z -> Prop) (high : Z) (s : server) : Prop := sv_lease s = None -> forall v, p s v -> v <= high.

Lemma below_raise p s high high' : high <= high' -> below p high s -> below p high' s.
Proof. intros Hle H Hn v Hv. specialize (H Hn v Hv). lia. Qed.
Lemma carried_stable s s' high : evolves s s' -> below carried high s -> below carried high s'.
Proof. intros HR H Hn v Hv. apply H; [by apply (ev_lease s s')|by apply (ev_carried s s')]. Qed.
Lemma port_stable s s' high : evolves s s' -> below carried high s -> below port_claimed high s -> below port_claimed high s'.
Proof.
  intros HR Hc H Hn v Hv. assert (sv_lease s = None) by by apply (ev_lease s s').
  destruct (ev_port_claimed s s' HR v Hn Hv); [by apply H|by apply Hc].
Qed.

Lemma vip_stable s s' high : evolves s s' -> below carried high s -> below vip_claimed high s -> below vip_claimed high s'.
Proof.
  intros HR Hc H Hn v Hv. assert (sv_lease s = None) by by apply (ev_lease s s').
  destruct (ev_vip_claimed s s' HR v Hn Hv); [by apply H|by apply Hc].
Qed.

Ltac serve_page HQ Hok := destruct Hok as [Hev Hi2]; [try done; by eapply paged_grows..|];
  split_and!; [done|done|]; intros s3 HR3 Hi3; by eapply HQ.

Lemma listVPCs_serves limit token s (Q : list vobj * string -> server -> Prop) : inv s ->
  (forall s1 got s2, evolves s s1 -> inv s1 -> evolves s1 s2 -> inv s2 -> paged (sv_vpc_pages s1) (map_to_list (sv_vpcs s1)).*2 token got (sv_vpc_pages s2) -> forall s3, evolves s2 s3 -> inv s3 -> Q got s3) ->
  ok (listVPCs limit token) Q s.
Proof.
  intros Hi HQ s1 x s2 HR Hi1 [[[e ->] ->]|(got & pages' & -> & Hp & ->)]; [by split_and!|].
  serve_page HQ (pages_ok pages' (sv_port_pages s1) (sv_vip_pages s1) s1 Hi1).
Qed.
Lemma listPorts_serves limit token s (Q : list Port * string -> server -> Prop) : inv s ->
  (forall s1 got s2, evolves s s1 -> inv s1 -> evolves s1 s2 -> inv s2 -> paged (sv_port_pages s1) (sv_ports s1) token got (sv_port_pages s2) -> forall s3, evolves s2 s3 -> inv s3 -> Q got s3) ->
  ok (listPorts limit token) Q s.
Proof.
  intros Hi HQ s1 x s2 HR Hi1 [[[e ->] ->]|(got & pages' & -> & Hp & ->)]; [by split_and!|].
  serve_page HQ (pages_ok (sv_vpc_pages s1) pages' (sv_vip_pages s1) s1 Hi1).
Qed.
Lemma listVIPs_serves limit token s (Q : list ServiceVIP * string -> server -> Prop) : inv s ->
  (forall s1 got s2, evolves s s1 -> inv s1 -> evolves s1 s2 -> inv s2 -> paged (sv_vip_pages s1) (sv_vips s1) token got (sv_vip_pages s2) -> forall s3, evolves s2 s3 -> inv s3 -> Q got s3) ->
  ok (listVIPs limit token) Q s.
Proof.
  intros Hi HQ s1 x s2 HR Hi1 [[[e ->] ->]|(got & pages' & -> & Hp & ->)]; [by split_and!|].
  serve_page HQ (pages_ok (sv_vpc_pages s1) (sv_port_pages s1) pages' s1 Hi1).
Qed.

Lemma fold_high {T} (vni_of : T -> option Z) (visit : Z -> T -> Z) high l :
  (forall high x, visit high x = match vni_of x with Some v => Z.max high v | None => high end) ->
  high <= fold_left visit l high /\ forall x v, x ∈ l -> vni_of x = Some v -> v <= fold_left visit l high.
Proof.
  intros Hv. revert high. induction l as [|y l IH]; intros high; cbn [fold_left]; [split; [lia|by intros x v ?%elem_of_nil]|].
  destruct (IH (visit high y)) as [IH1 IH2]. assert (high <= visit high y) by (rewrite Hv; destruct (vni_of y); lia).
  split; [lia|]. intros x v [->|Hx]%elem_of_cons E; [|by apply IH2 with x]. rewrite Hv, E in IH1 |- *. lia.
Qed.

Lemma vpc_scan_ok high s : inv s -> FirstVNI - 1 <= high ->
  ok (WalkClaims ctxErr listVPCs (fun high v => if ValidVNI (o_VNI v) then Z.max high (o_VNI v) else high) high)
    (fun high s' => FirstVNI - 1 <= high /\ below carried high s') s.
Proof.
  intros Hi Hh. eapply ok_mono; [|apply (scan_ok listVPCs sv_vpc_pages (fun s => (map_to_list (sv_vpcs s)).*2)); [by intros ? ? []|apply listVPCs_serves|done]].
  intros h s' HR Hi' H. destruct (H s') as (s1 & l & _ & _ & HR1 & Hl & ->); [done|done|].
  destruct (fold_high (fun o => if ValidVNI (o_VNI o) then Some (o_VNI o) else None)
    (fun high v => if ValidVNI (o_VNI v) then Z.max high (o_VNI v) else high) high l) as [H1 H2]; [intros ? x; by destruct (ValidVNI _)|].
  split; [lia|]. intros Hn v Hv. apply (ev_carried _ _ HR1 v Hn) in Hv as (k & o & Hk & <- & Hv). apply (H2 o); [|by rewrite Hv].
  rewrite Hl. apply list_elem_of_fmap. exists (k, o). by rewrite elem_of_map_to_list.
Qed.

Lemma port_scan_ok high s : inv s -> FirstVNI - 1 <= high -> below carried high s ->
  ok (WalkClaims ctxErr listPorts (fun high p =>
        match ParseClaim ClaimPrefixPort (p_Name p) with Some (vni, _) => Z.max high vni | None => high end) high)
    (fun high s' => FirstVNI - 1 <= high /\ below carried high s' /\ below port_claimed high s') s.
Proof.
  intros Hi Hh Hc. eapply ok_mono; [|apply (scan_ok listPorts sv_port_pages sv_ports); [by intros ? ? []|apply listPorts_serves|done]].
  intros h s' HR Hi' H. destruct (H s') as (s1 & l & HR0 & _ & HR1 & Hl & ->); [done|done|].
  destruct (fold_high (fun p => fst <$> ParseClaim ClaimPrefixPort (p_Name p)) (fun high p =>
    match ParseClaim ClaimPrefixPort (p_Name p) with Some (vni, _) => Z.max high vni | None => high end) high l) as [H1 H2].
  { intros ? x. by destruct (ParseClaim _ _) as [[? ?]|]. }
  split_and!; [lia|apply (below_raise _ _ high); [done|by apply (carried_stable s)]|]. apply (port_stable s1 s'); [done|apply (below_raise _ _ high); [done|by apply (carried_stable s)]|].
  intros _ v (p & esc & Hp & E). apply (H2 p); [by rewrite Hl|by rewrite E].
Qed.

Lemma vip_scan_ok high s : inv s -> FirstVNI - 1 <= high -> below carried high s -> below port_claimed high s ->
  ok (WalkClaims ctxErr listVIPs (fun high v =>
        match ParseClaim ClaimPrefixServiceVIP (v_Name v) with Some (vni, _) => Z.max high vni | None => high end) high)
    (fun high s' => FirstVNI - 1 <= high /\ below carried high s' /\ below port_claimed high s' /\ below vip_claimed high s') s.
Proof.
  intros Hi Hh Hc Hpc. eapply ok_mono; [|apply (scan_ok listVIPs sv_vip_pages sv_vips); [by intros ? ? []|apply listVIPs_serves|done]].
  intros h s' HR Hi' H. destruct (H s') as (s1 & l & HR0 & _ & HR1 & Hl & ->); [done|done|].
  destruct (fold_high (fun p => fst <$> ParseClaim ClaimPrefixServiceVIP (v_Name p)) (fun high v =>
    match ParseClaim ClaimPrefixServiceVIP (v_Name v) with Some (vni, _) => Z.max high vni | None => high end) high l) as [H1 H2].
  { intros ? x. by destruct (ParseClaim _ _) as [[? ?]|]. }
  split_and!; [lia|apply (below_raise _ _ high); [done|by apply (carried_stable s)]|apply (below_raise _ _ high); [done|by apply (port_stable s)]|].
  apply (vip_stable s1 s'); [done|apply (below_raise _ _ high); [done|by apply (carried_stable s)]|].
  intros _ v (p & esc & Hp & E). apply (H2 p); [by rewrite Hl|by rewrite E].
Qed.

Lemma initialVNIHighWater_ok s : inv s -> ok initialVNIHighWater (fun high s' =>
  FirstVNI - 1 <= high /\ below carried high s' /\ below port_claimed high s' /\ below vip_claimed high s') s.
Proof.
  intros Hi. apply ok_bind; [done|]. apply ok_wrapped; [done|].
  eapply ok_mono; [|by apply vpc_scan_ok]. intros high s1 HR1 Hi1 H1. destruct (H1 s1) as [Hh Hc]; [done|done|].
  apply ok_bind; [done|]. apply ok_wrapped; [done|].
  eapply ok_mono; [|by apply port_scan_ok]. intros high2 s2 HR2 Hi2 H2. destruct (H2 s2) as (Hh2 & Hc2 & Hp2); [done|done|].
  apply ok_wrapped; [done|]. by apply vip_scan_ok.
Qed.

(** ** Allocation *)

Definition mine (v : Z) (s : server) : Prop := sv_granted s !! v = Some r.

Lemma mine_stable v s s' : evolves s s' -> mine v s -> mine v s'.
Proof. intros HR H. eapply lookup_weaken; [exact H|apply HR]. Qed.

Lemma reserve_ok (x : outcome unit) high s : mine (high + 1) s ->
  ok (match x with Good _ => good (high + 1) | Bad e => fail e end) mine s.
Proof. intros Hm. destruct x as [[]|e]; [|done]. intros s' HR _. by eapply mine_stable. Qed.

Lemma create_ok high s : inv s -> FirstVNI - 1 <= high < lastVNI -> below carried high s -> below port_claimed high s -> below vip_claimed high s ->
  ok (Do (CreateLease {[vniCounterAnnotation := fmt_d (high + 1)]}) (fun x =>
        match x with Good _ => good (high + 1) | Bad e => fail e end)) mine s.
Proof.
  intros Hi Hh Hc Hp Hx s1 x s2 HR Hi1 [[[e ->] ->]|[Hn ->]]; [by split_and!|].
  destruct (grant_ok r high false {[vniCounterAnnotation := fmt_d (high + 1)]} s1 Hi1 Hh) as (Hev & Hi2 & Hg); [|done|].
  - split_and!.
    + by apply (carried_stable s s1).
    + intros v [Hv|Hv]; revert v Hv; [by apply (port_stable s s1)|by apply (vip_stable s s1)].
    + intros v x'. by rewrite (iv_none s1 Hi1 Hn).
  - split_and!; [done|done|]. by apply reserve_ok.
Qed.

Lemma update_ok l high s : inv s -> l ∈ sv_leases s -> counter_of l = Some high -> FirstVNI - 1 <= high < lastVNI ->
  ok (Do (UpdateLease (MkLease (le_RV l) false (<[vniCounterAnnotation := fmt_d (high + 1)]> (le_Annotations l)))) (fun x =>
        match x with Good _ => good (high + 1) | Bad e => fail e end)) mine s.
Proof.
  intros Hi Hin Hl Hh s1 x s2 HR Hi1 [[[e ->] ->]|(l0 & Hl0 & HRV & ->)]; [by split_and!|].
  destruct (iv_some s1 Hi1 l0 Hl0) as [Hin0 (h & E1 & E2 & E3 & E4 & E5)].
  assert (l = l0) as <-. { eapply vs_lease_inj; [apply Hi1|by apply (ev_leases s s1)|done|done]. }
  rewrite Hl in E1. injection E1 as <-.
  destruct (grant_ok r high (le_Deleting l) (<[vniCounterAnnotation := fmt_d (high + 1)]> (le_Annotations l)) s1 Hi1 Hh) as (Hev & Hi2 & Hg).
  - by split_and!.
  - unfold at_key. by rewrite lookup_insert_eq.
  - split_and!; [done|done|]. by apply reserve_ok.
Qed.

Lemma vni_attempt_ok s : inv s -> ok vni_attempt mine s.
Proof.
  intros Hi. apply ok_bind; [done|]. apply ctx_ok; [done|]. intros s' _ Hi' s1 got s2 HR Hi1 [-> Hgot].
  split_and!; [done|done|]. destruct got as [l|e].
  - destruct (le_Deleting l); [done|]. destruct (parse_int32 _) as [high|] eqn:E; [|done].
    case_if; [done|]. case_if; [done|]. to_prop. apply update_ok; [done|by apply (iv_some s1 Hi1)|done|]. lia.
  - case_if; [|done]. apply ok_bind; [done|]. eapply ok_mono; [|by apply initialVNIHighWater_ok].
    intros high s2 HR2 Hi2 H2. destruct (H2 s2) as (Hh & Hc & Hp & Hx); [done|done|]. case_if; [done|]. to_prop. by apply create_ok.
Qed.

Lemma OnError_ok retriable n last s : inv s -> (forall v, last <> Some (Good v)) ->
  rg (serve r) evolves inv (OnError retriable vni_attempt n last) (fun x s' => forall v, x.1 = Some (Good v) -> mine v s') s.
Proof.
  revert last s. induction n as [|n IH]; intros last s Hi Hl; cbn [OnError].
  - intros s' HR _ v E. by destruct (Hl v).
  - apply rg_bind; [apply _|done|]. eapply rg_mono; [apply _| |by apply vni_attempt_ok].
    intros [v|e] s1 HR1 Hi1 H1.
    + intros s2 HR2 Hi2 v' [= <-]. by apply H1.
    + case_if; [|by intros s2 HR2 Hi2 v']. intros s2 [err|] s3 HR2 Hi2 Hs; cbn in Hs; subst s3; (split_and!; [done|done|]).
      * by intros s3 HR3 Hi3 v'.
      * by apply IH.
Qed.

Lemma allocateVNI_ok s : inv s -> ok (allocateVNI steps) mine s.
Proof.
  intros Hi. apply rg_bind; [apply _|done|]. eapply rg_mono; [apply _| |by apply OnError_ok].
  intros [last err] s1 HR1 Hi1 H1. cbn [fst] in H1. apply ok_bind; [done|]. apply ctx_ok; [done|]. intros s2 HR2 Hi2.
  destruct last as [[v|e]|], err as [e'|]; try done; cbn [Z.ltb orb]; case_if; try done.
  intros s3 HR3 Hi3. apply (H1 s3); [by etrans|done|done].
Qed.

(** ** Reconcile *)

Lemma ensure_vni_ok vpc s : inv s ->
  ok (ensure_vni steps vpc) (fun v s' => o_Meta v = o_Meta vpc /\ (o_VNI v = o_VNI vpc \/ mine (o_VNI v) s')) s.
Proof.
  intros Hi. unfold ensure_vni.
  assert (Ha : forall s', inv s' -> ok (vni <~ allocateVNI steps ;; good (set_VNI vni vpc))
    (fun v s' => o_Meta v = o_Meta vpc /\ (o_VNI v = o_VNI vpc \/ mine (o_VNI v) s')) s').
  { intros s' Hi'. apply ok_bind; [done|]. eapply ok_mono; [|by apply allocateVNI_ok]. intros v s1 _ Hi1 H s2 HR2 Hi2. split; [done|right].
    by apply H. }
  case_if; [by apply Ha|]. apply ok_bind; [done|]. apply ok_wrapped; [done|].
  eapply ok_mono; [|apply (scan_ok listVPCs sv_vpc_pages (fun s => (map_to_list (sv_vpcs s)).*2)); [by intros ? ? []|apply listVPCs_serves|done]].
  intros lost s1 _ Hi1 _. destruct lost; [by apply Ha|]. intros s2 _ _. split; [done|by left].
Qed.

Lemma boundary_status_ok vpc s : inv s ->
  ok (boundary_status LabelSelectorAsSelector SetStatusCondition AgentNamespace vpc) (fun v _ => o_Meta v = o_Meta vpc /\ o_VNI v = o_VNI vpc) s.
Proof.
  intros Hi. unfold boundary_status. destruct (vs_Boundary _) as [b|]; [|done].
  apply ok_bind; [done|]. eapply (ok_mono _ (fun _ _ => True)); [by intros [[policy transport] kept] s1 _ Hi1 _|].
  unfold boundaryApplied. case_if; [done|]. intros s1 got s2 _ Hi1 ->. split_and!; [done|done|].
  destruct got as [ds|e]; [|by case_if]. case_if; [done|]. apply ok_bind; [done|].
  eapply ok_mono; [|apply (scan_ok listPorts sv_port_pages sv_ports); [by intros ? ? []|apply listPorts_serves|done]].
  intros ids s3 _ Hi3 _. apply ok_bind; [done|]. destruct (LabelSelectorAsSelector _) as [sel|e]; [|done]. intros s4 _ Hi4.
  apply ok_bind; [done|]. intros s5 pods s6 _ Hi5 ->. split_and!; [done|done|]. by destruct pods.
Qed.

Lemma UpdateStatus_ok vpc0 vpc s s1 s2 x : inv s1 -> vpc0 ∈ sv_seen s1 -> o_Key vpc0 = key_of r ->
  o_Meta vpc = o_Meta vpc0 -> (o_VNI vpc = o_VNI vpc0 \/ mine (o_VNI vpc) s) -> evolves s s1 -> serve r s1 (UpdateStatus vpc) x s2 ->
  evolves s1 s2 /\ inv s2.
Proof.
  intros Hi Hin Hk Hm Hv HR [[_ ->]|(live & Hl & HRV & Hok & ->)]; [done|]. apply store_ok; [done|]. intros Hvalid.
  assert (Hkey : o_Key vpc = o_Key vpc0) by (unfold o_Key; by rewrite Hm).
  assert (live = vpc0) as ->.
  { apply (vs_seen_inj s1); [apply Hi|by apply (vs_live s1 (iv_versions s1 Hi) _ _ Hl)|done|]. rewrite HRV. unfold o_RV. by rewrite Hm. }
  destruct Hv as [Hv|Hv]; [left|right].
  - exists vpc0. split; [exact Hl|]. by rewrite <- Hv.
  - exists r. split; [by apply (mine_stable _ s)|]. rewrite <- Hk. by symmetry.
Qed.

Lemma Reconcile_ok s : inv s ->
  rg (serve r) evolves inv (Reconcile steps LabelSelectorAsSelector SetStatusCondition AgentNamespace (key_of r)) (fun _ _ => True) s.
Proof.
  intros Hi. apply (rg_mono _ _ _ _ (on_good (fun _ _ => True))); [done|]. change (ok (Reconcile steps LabelSelectorAsSelector
    SetStatusCondition AgentNamespace (key_of r)) (fun _ _ => True) s). intros s1 got s2 HR Hi1 [-> Hgot]. split_and!; [done|done|]. destruct got as [vpc0|e]; [|by case_if].
  destruct (Hgot vpc0 eq_refl) as [Hseen Hkey]. case_if; [done|].
  apply ok_bind; [done|]. eapply ok_mono; [|by apply ensure_vni_ok]. intros vpc s2 HR2 Hi2 H2. destruct (H2 s2) as [Hm Hv]; [done|done|].
  apply ok_bind; [done|]. eapply ok_mono; [|by apply boundary_status_ok]. intros vpc2 s3 HR3 Hi3 H3. destruct (H3 s3) as [Hm3 Hv3]; [done|done|].
  cbn zeta. case_if; [done|]. intros s4 x s5 HR4 Hi4 Hs.
  destruct (UpdateStatus_ok vpc0 vpc2 s2 s4 s5 x) as [Hev Hi5]; try done.
  - assert (Hev : evolves s1 s4) by by repeat (etrans; [eassumption|]). by apply (ev_seen _ _ Hev).
  - by rewrite Hm3.
  - rewrite Hv3. exact Hv.
  - by etrans.
  - split_and!; [done|done|]. destruct x as [?|e]; [done|by case_if].
Qed.
End Run.

(** ** Every reachable state *)

Definition sys_ok (y : sys) : Prop := inv (y_srv y) /\
  forall r p, y_runs y !! r = Some p -> rg (serve r) evolves inv p (fun _ _ => True) (y_srv y).

Lemma step_ok y y' : sys_ok y -> step y y' -> sys_ok y'.
Proof.
  intros [Hi Hr] Hs. destruct Hs as [s runs r Hn|s s' runs r c k x Hp Hs|s runs r p e Hp|s s' runs He]; cbn [y_srv y_runs] in *.
  - split; [done|]. intros r' p. cbn. rewrite lookup_insert_Some. intros [[<- <-]|[_ Hp]]; [by apply Reconcile_ok|by apply Hr].
  - destruct (Hr r _ Hp s x s') as (Hev & Hi' & Hk); [done|done|done|]. split; [done|]. intros r' p'. cbn.
    rewrite lookup_insert_Some. intros [[<- <-]|[_ Hp']]; [done|]. apply (rg_stable _ _ _ _ _ s); [done|by apply Hr].
  - split; [done|]. intros r' p'. cbn. rewrite lookup_insert_Some. intros [[<- <-]|[_ Hp']]; [done|by apply Hr].
  - destruct (env_ok s s' Hi He) as [Hev Hi']. split; [done|]. intros r p Hp. apply (rg_stable _ _ _ _ _ s); [done|by apply Hr].
Qed.

Lemma reachable_ok y : initial s0 -> reachable s0 y -> sys_ok y.
Proof.
  intros H0 Hr. assert (H : sys_ok (MkSys s0 ∅)) by (split; [by apply initial_inv|done]).
  revert H. unfold reachable in Hr. induction Hr as [|y y' y'' Hs _ IH]; [done|]. intros H. by apply IH, (step_ok y).
Qed.
End Invariant.

(** C3. Network identifiers are never reused or shared: however many reconciles run at once, on
    stale caches, with failed and lost writes and restarts, no identifier is reserved that a VPC,
    a Port or a ServiceVIP carries or that was reserved before; and two VPCs hold one identifier
    only if both already held it before the first allocation. *)
Theorem vni_never_shared s0 y : initial s0 -> reachable s0 y ->
  sv_reused (y_srv y) = [] /\
  forall k k' o o', sv_vpcs (y_srv y) !! k = Some o -> sv_vpcs (y_srv y) !! k' = Some o' -> k <> k' ->
    ValidVNI (o_VNI o) = true -> o_VNI o' = o_VNI o -> before s0 k (o_VNI o) /\ before s0 k' (o_VNI o).
Proof.
  intros H0 Hr. destruct (reachable_ok s0 y H0 Hr) as [Hi _]. split; [apply Hi|].
  intros k k' o o' Hk Hk' Hne Hv E. destruct (iv_owned _ _ Hi k o Hk Hv) as [[Hb Hn]|(r & Hg & <-)];
    destruct (iv_owned _ _ Hi k' o' Hk') as [[Hb' Hn']|(r' & Hg' & <-)]; rewrite ?E in *; try done; congruence.
Qed.
End System.
