(* ===== verification/VniRun.v ===== *)
(** * The VPC reconciler runs (internal/controller/sdn/vpc_controller.go)

    A server that is up answers every call at once.  On it a reconcile completes: a cluster with
    at most 65536 VPCs, Ports and ServiceVIPs bootstraps its counter, and each VPC without an
    identifier gets the next one.  The file also settles the repair of duplicates and the
    acknowledgement of a boundary, and runs the reconciler on a small cluster. *)
From S2P Require Import Prelude GoText GoNet AddrText AddrMap Grants ClaimNames Claims ClaimSafety ClaimServe Boundary BoundaryCompile Authority VpcStrategy ApiCalls Vni VniSafety.
Local Open Scope Z_scope.
Local Open Scope api_scope.

(** ** A server that is up *)

(** One page of at most [limit] items; the next token is new. *)
Definition honest_page {T} (pages : gmap string (list T)) (current : list T) (limit : Z) (token : string) :
  outcome (list T * string) * gmap string (list T) :=
  match (if decide (token = EmptyString) then Some current else pages !! token) with
  | None => (Bad (errorf "the continue token is unknown"), pages)
  | Some src =>
      let items := take (Z.to_nat limit) src in
      match drop (Z.to_nat limit) src with
      | [] => (Good (items, EmptyString), pages)
      | rest =>
          let next := fresh ({[EmptyString]} ∪ dom pages : gset string) in
          (Good (items, next), <[next := rest]> pages)
      end
  end.

Definition honest (r : nat) (s : server) (c : vcall) : vanswer c * server :=
  match c return vanswer c * server with
  | CtxErr => (None, s)
  | GetVPC key => (match sv_vpcs s !! key with Some o => Good o | None => Bad (MkErr NotFound "not found") end, s)
  | ListVPCs limit token => let '(x, p) := honest_page (sv_vpc_pages s) (map_to_list (sv_vpcs s)).*2 limit token in
      (x, set_pages p (sv_port_pages s) (sv_vip_pages s) s)
  | ListPorts limit token => let '(x, p) := honest_page (sv_port_pages s) (sv_ports s) limit token in
      (x, set_pages (sv_vpc_pages s) p (sv_vip_pages s) s)
  | ListVIPs limit token => let '(x, p) := honest_page (sv_vip_pages s) (sv_vips s) limit token in
      (x, set_pages (sv_vpc_pages s) (sv_port_pages s) p s)
  | GetLease => (match sv_lease s with Some l => Good l | None => Bad (MkErr NotFound "not found") end, s)
  | CreateLease a => match sv_lease s with
      | None => (Good tt, grant r false a s)
      | Some _ => (Bad (MkErr AlreadyExists "already exists"), s)
      end
  | UpdateLease l => match sv_lease s with
      | Some l0 => if le_RV l0 =? le_RV l then (Good tt, grant r (le_Deleting l0) (le_Annotations l) s) else (Bad (MkErr Conflict "conflict"), s)
      | None => (Bad (MkErr NotFound "not found"), s)
      end
  | UpdateStatus o => match sv_vpcs s !! o_Key o with
      | None => (Bad (MkErr NotFound "not found"), s)
      | Some live =>
          let v := vpc_status_PrepareForUpdate (o_Vpc o) (o_Vpc live) in
          if negb (o_RV live =? o_RV o) then (Bad (MkErr Conflict "conflict"), s)
          else if decide (vpc_status_ValidateUpdate v = []) then (Good tt, store (MkObj (o_Created live) v) s)
          else (Bad (errorf "invalid"), s)
      end
  | GetDaemonSet _ _ => (Bad (MkErr NotFound "not found"), s)
  | ListPods _ _ => (Good [], s)
  | GiveUp => (None, s)
  end.

Fixpoint exec {A} (r : nat) (p : prog vanswer A) (s : server) : A * server :=
  match p with
  | Ret a => (a, s)
  | Do c k => let '(x, s') := honest r s c in exec r (k x) s'
  end.

Lemma exec_bind {A B} r (p : prog vanswer A) (f : A -> prog vanswer B) s :
  exec r (pbind p f) s = let '(a, s') := exec r p s in exec r (f a) s'.
Proof.
  revert s. induction p as [a|c k IH]; intros s; cbn [pbind exec]; [done|]. destruct (honest r s c) as [x s']. apply IH.
Qed.
Lemma exec_ebind {A B} r (p : vprog A) (f : A -> vprog B) s a s' :
  exec r p s = (Good a, s') -> exec r (ebind p f) s = exec r (f a) s'.
Proof. intros E. unfold ebind. by rewrite exec_bind, E. Qed.
Lemma exec_wrapped {A} r text (p : vprog A) s a s' : exec r p s = (Good a, s') -> exec r (wrapped text p) s = (Good a, s').
Proof. intros E. unfold wrapped. by rewrite exec_bind, E. Qed.

Lemma honest_page_paged {T} (pages : gmap string (list T)) current limit token got pages' :
  honest_page pages current limit token = (Good got, pages') -> paged pages current token got pages'.
Proof.
  unfold honest_page. destruct (if decide _ then _ else _) as [src|] eqn:E; [|done].
  pose proof (take_drop (Z.to_nat limit) src) as Hs. set (next := fresh _).
  assert (Hn : next ∉ ({[EmptyString]} ∪ dom pages : gset string)) by apply is_fresh. clearbody next.
  rewrite elem_of_union, elem_of_singleton, elem_of_dom in Hn.
  assert (Hsrc : if decide (token = EmptyString) then src ≡ₚ current else pages !! token = Some src).
  { case_decide; [by injection E as ->|done]. }
  destruct (drop _ _) as [|x rest] eqn:Ed; intros [= <- <-]; cbn [fst snd].
  - exists src, []. split_and!; [done|done|by left].
  - exists src, (x :: rest). split_and!; [done|done|right]. split_and!; [tauto| |done]. apply eq_None_not_Some. tauto.
Qed.

Lemma honest_page_bad {T} (pages : gmap string (list T)) current limit token e pages' :
  honest_page pages current limit token = (Bad e, pages') -> pages' = pages.
Proof. unfold honest_page. destruct (if decide _ then _ else _); [by destruct (drop _ _)|]. by intros [= _ <-]. Qed.

Lemma honest_serves r s c : (forall k o, sv_vpcs s !! k = Some o -> o ∈ sv_seen s /\ o_Key o = k) ->
  serve r s c (honest r s c).1 (honest r s c).2.
Proof.
  intros Hv. destruct c as [|key|limit token|limit token|limit token| |a|l|o|? ?|? ?|]; cbn [honest]; try done.
  - destruct (sv_vpcs s !! key) as [o|] eqn:E; cbn; (split; [done|]); [|done]. intros ? [= <-]. by apply Hv.
  - destruct (honest_page _ _ _ _) as [[got|e] p] eqn:E; cbn [fst snd serve].
    + right. exists got, p. split_and!; [done|by eapply honest_page_paged|done].
    + left. split; [eauto|]. apply honest_page_bad in E as ->. by destruct s.
  - destruct (honest_page _ _ _ _) as [[got|e] p] eqn:E; cbn [fst snd serve].
    + right. exists got, p. split_and!; [done|by eapply honest_page_paged|done].
    + left. split; [eauto|]. apply honest_page_bad in E as ->. by destruct s.
  - destruct (honest_page _ _ _ _) as [[got|e] p] eqn:E; cbn [fst snd serve].
    + right. exists got, p. split_and!; [done|by eapply honest_page_paged|done].
    + left. split; [eauto|]. apply honest_page_bad in E as ->. by destruct s.
  - cbn. destruct (sv_lease s); by split.
  - destruct (sv_lease s) eqn:E; [left; split; [eauto|done]|right; done].
  - destruct (sv_lease s) as [l0|] eqn:E; [|left; split; [eauto|done]]. destruct (Z.eqb_spec (le_RV l0) (le_RV l)) as [HRV|]; [|left; split; [eauto|done]].
    right. by exists l0.
  - destruct (sv_vpcs s !! o_Key o) as [live|] eqn:E; [|left; split; [eauto|done]].
    destruct (Z.eqb_spec (o_RV live) (o_RV o)); [|left; split; [eauto|done]]. cbn [negb]. case_decide; [|left; split; [eauto|done]].
    right. by exists live.
Qed.

(** ** Scans complete *)

Section ExecWalk.
Context {T Acc : Type} (r : nat) (listT : Z -> string -> vprog (list T * string)) (pages : server -> gmap string (list T)).
Context (current : server -> list T) (set : gmap string (list T) -> server -> server).
Hypothesis exec_list : forall limit token s, exec r (listT limit token) s =
  let '(x, p) := honest_page (pages s) (current s) limit token in (x, set p s).
Hypothesis pages_set : forall p s, pages (set p s) = p.
Hypothesis current_set : forall p s, current (set p s) = current s.
Hypothesis set_set : forall p q s, set p (set q s) = set p s.
Context (visit : Acc -> T -> Acc).

Lemma exec_visit items acc s : exec r (visit_page ctxErr visit items acc) s = (Good (fold_left visit items acc), s).
Proof.
  revert acc. induction items as [|x items IH]; intros acc; cbn [visit_page fold_left]; [done|].
  rewrite (exec_ebind _ _ _ s tt s) by done. apply IH.
Qed.

Lemma exec_walk n token total acc s l : (if decide (token = EmptyString) then l = current s else pages s !! token = Some l) ->
  Z.of_nat (length l) <= ClaimPageSize * Z.of_nat (S n) -> total + Z.of_nat (length l) <= MaxClaimScan ->
  exists p, exec r (walk_pages ctxErr listT visit (S n) token total acc) s = (Good (fold_left visit l acc), set p s).
Proof.
  revert token total acc s l. induction n as [|n IH]; intros token total acc s l Hl Hn Ht; unfold ClaimPageSize, MaxClaimScan in Hn, Ht;
    cbn [walk_pages]; rewrite (exec_ebind _ _ _ s tt s) by done.
  all: assert (Hsrc : (if decide (token = EmptyString) then Some (current s) else pages s !! token) = Some l) by (case_decide; [by rewrite Hl|done]).
  all: destruct (drop (Z.to_nat ClaimPageSize) l) as [|x rest] eqn:Ed.
  1, 3: exists (pages s); assert (Hlen : (length l <= Z.to_nat ClaimPageSize)%nat) by
      (apply (f_equal length) in Ed; rewrite length_drop in Ed; cbn [length] in Ed; lia);
    erewrite exec_ebind; [|by rewrite exec_list; unfold honest_page; rewrite Hsrc, Ed];
    cbn iota beta; rewrite take_ge by done; unfold ClaimPageSize, MaxClaimScan in *;
    rewrite (proj2 (Z.ltb_ge _ _)), (proj2 (Z.ltb_ge _ _)) by lia; cbn [orb];
    rewrite (exec_ebind _ _ _ _ _ _ (exec_visit _ _ _)), (exec_ebind _ _ _ _ tt (set (pages s) s)) by done; by rewrite bool_decide_true.
  - exfalso. apply (f_equal length) in Ed. rewrite length_drop in Ed. cbn [length] in Ed. unfold ClaimPageSize in Ed. lia.
  - set (next := fresh ({[EmptyString]} ∪ dom (pages s) : gset string)).
    assert (Hf : next ∉ ({[EmptyString]} ∪ dom (pages s) : gset string)) by apply is_fresh.
    rewrite elem_of_union, elem_of_singleton, elem_of_dom in Hf.
    erewrite exec_ebind; [|by rewrite exec_list; unfold honest_page; rewrite Hsrc, Ed]. fold next. clearbody next.
    assert (Hlen : (128 < length l)%nat). { apply (f_equal length) in Ed. rewrite length_drop in Ed. cbn [length] in Ed. unfold ClaimPageSize in Ed. lia. }
    cbn iota beta. rewrite length_take. unfold ClaimPageSize, MaxClaimScan in *.
    rewrite (proj2 (Z.ltb_ge _ _)), (proj2 (Z.ltb_ge _ _)) by lia. cbn [orb].
    rewrite (exec_ebind _ _ _ _ _ _ (exec_visit _ _ _)). set (s' := set _ s). rewrite (exec_ebind _ _ _ _ tt s') by done.
    rewrite bool_decide_false by tauto. rewrite bool_decide_false.
    2: { intros ->. rewrite decide_False in Hl by tauto. apply Hf. right. by exists l. }
    destruct (IH next (total + Z.of_nat (Z.to_nat 128 `min` length l)) (fold_left visit (take (Z.to_nat 128) l) acc) s' (x :: rest)) as [p Hp].
    + rewrite decide_False by tauto. unfold s'. by rewrite pages_set, lookup_insert_eq.
    + rewrite <- Ed, length_drop. lia.
    + rewrite <- Ed, length_drop. unfold MaxClaimScan. lia.
    + exists p. etrans; [exact Hp|]. unfold s'. rewrite set_set, <- Ed, <- fold_left_app, take_drop. done.
Qed.

Lemma exec_WalkClaims acc s : Z.of_nat (length (current s)) <= MaxClaimScan ->
  exists p, exec r (WalkClaims ctxErr listT visit acc) s = (Good (fold_left visit (current s) acc), set p s).
Proof.
  intros Hn. unfold WalkClaims. change maxClaimPages with (S 511). apply exec_walk; [done| |lia]. unfold MaxClaimScan, ClaimPageSize in *. lia.
Qed.
End ExecWalk.

(** ** A reconcile assigns the next identifier *)

(** The highest identifier of a VPC, a Port claim or a ServiceVIP claim. *)
Definition high_water (s : server) : Z :=
  let high := fold_left (fun high v => if ValidVNI (o_VNI v) then Z.max high (o_VNI v) else high) (map_to_list (sv_vpcs s)).*2 (FirstVNI - 1) in
  let high := fold_left (fun high p =>
    match ParseClaim ClaimPrefixPort (p_Name p) with Some (vni, _) => Z.max high vni | None => high end) (sv_ports s) high in
  fold_left (fun high v =>
    match ParseClaim ClaimPrefixServiceVIP (v_Name v) with Some (vni, _) => Z.max high vni | None => high end) (sv_vips s) high.

(** At most [MaxClaimScan] objects of each kind. *)
Definition scannable (s : server) : Prop :=
  Z.of_nat (size (sv_vpcs s)) <= MaxClaimScan /\ Z.of_nat (length (sv_ports s)) <= MaxClaimScan /\ Z.of_nat (length (sv_vips s)) <= MaxClaimScan.

Lemma exec_initialVNIHighWater r s : scannable s ->
  exists vp pp xp, exec r initialVNIHighWater s = (Good (high_water s), set_pages vp pp xp s).
Proof.
  intros (H1 & H2 & H3). unfold initialVNIHighWater.
  destruct (exec_WalkClaims (Acc := Z) r listVPCs sv_vpc_pages (fun s => (map_to_list (sv_vpcs s)).*2) (fun p s => set_pages p (sv_port_pages s) (sv_vip_pages s) s))
    with (visit := fun high v => if ValidVNI (o_VNI v) then Z.max high (o_VNI v) else high) (acc := FirstVNI - 1) (s := s) as [vp Hv]; try done.
  { intros limit token s'. cbn [exec listVPCs honest]. by destruct (honest_page _ _ _ _). }
  { by rewrite length_fmap, length_map_to_list. }
  rewrite (exec_ebind _ _ _ _ _ _ (exec_wrapped _ _ _ _ _ _ Hv)). set (h1 := fold_left _ _ _). set (s1 := set_pages _ _ _ s).
  destruct (exec_WalkClaims (Acc := Z) r listPorts sv_port_pages sv_ports (fun p s => set_pages (sv_vpc_pages s) p (sv_vip_pages s) s))
    with (visit := fun high p => match ParseClaim ClaimPrefixPort (p_Name p) with Some (vni, _) => Z.max high vni | None => high end)
    (acc := h1) (s := s1) as [pp Hp]; try done.
  { intros limit token s'. cbn [exec listPorts honest]. by destruct (honest_page _ _ _ _). }
  rewrite (exec_ebind _ _ _ _ _ _ (exec_wrapped _ _ _ _ _ _ Hp)). set (h2 := fold_left _ _ h1). set (s2 := set_pages _ _ _ s1).
  destruct (exec_WalkClaims (Acc := Z) r listVIPs sv_vip_pages sv_vips (fun p s => set_pages (sv_vpc_pages s) (sv_port_pages s) p s))
    with (visit := fun high v => match ParseClaim ClaimPrefixServiceVIP (v_Name v) with Some (vni, _) => Z.max high vni | None => high end)
    (acc := h2) (s := s2) as [xp Hx]; try done.
  { intros limit token s'. cbn [exec listVIPs honest]. by destruct (honest_page _ _ _ _). }
  exists vp, pp, xp. by rewrite (exec_wrapped _ _ _ _ _ _ Hx).
Qed.

(** Where the counter stands, or will when it is created. *)
Definition stands (s : server) : option Z :=
  match sv_lease s with Some l => if le_Deleting l then None else counter_of l | None => Some (high_water s) end.

(** The counter moved and no VPC did. *)
Definition counted (s s' : server) (v : Z) : Prop :=
  sv_vpcs s' = sv_vpcs s /\ exists l, sv_lease s' = Some l /\ counter_of l = Some v.

Lemma counter_text l v : ValidVNI v = true -> at_key (le_Annotations l) vniCounterAnnotation = fmt_d v -> counter_of l = Some v.
Proof.
  intros Hv E. unfold counter_of. rewrite E, fmt_vni by done. apply ValidVNI_range in Hv. apply parse_int32_fmt. lia.
Qed.

Lemma counted_grant r d a s h : ValidVNI (h + 1) = true -> at_key a vniCounterAnnotation = fmt_d (h + 1) -> counted s (grant r d a s) (h + 1).
Proof.
  intros Hv E. assert (Hc : counter_of (MkLease (sv_rev s + 1) d a) = Some (h + 1)) by by apply counter_text.
  unfold grant. rewrite Hc. split; [done|]. by eexists.
Qed.

Lemma exec_attempt r s h : scannable s -> stands s = Some h -> FirstVNI - 1 <= h < lastVNI ->
  exists s', exec r vni_attempt s = (Good (h + 1), s') /\ counted s s' (h + 1).
Proof.
  intros Hsc Hst Hh. assert (Hv : ValidVNI (h + 1) = true).
  { apply ValidVNI_range. unfold FirstVNI, lastVNI in Hh. change (Z.shiftl 1 22 - 1) with 4194303 in Hh. lia. }
  unfold vni_attempt. rewrite (exec_ebind _ _ _ s tt s) by done. cbn [exec honest]. unfold stands in Hst.
  destruct (sv_lease s) as [l|] eqn:El.
  - destruct (le_Deleting l) eqn:Ed; [done|]. unfold counter_of in Hst. rewrite Hst.
    rewrite (proj2 (Z.ltb_ge _ _)), (proj2 (Z.ltb_ge _ _)), (proj2 (Z.eqb_neq _ _)) by lia. cbn [orb exec honest].
    rewrite El. cbn [le_RV le_Annotations]. rewrite Z.eqb_refl, Ed. eexists. split; [done|]. apply counted_grant; [done|].
    unfold at_key. by rewrite lookup_insert_eq.
  - change (has_reason NotFound (MkErr NotFound "not found")) with true. cbn iota.
    destruct (exec_initialVNIHighWater r s Hsc) as (vp & pp & xp & Hx). injection Hst as Hst. rewrite Hst in Hx.
    rewrite (exec_ebind _ _ _ _ _ _ Hx), (proj2 (Z.leb_gt _ _)) by lia. cbn [exec honest]. cbn [sv_lease set_pages]. rewrite El.
    eexists. split; [done|]. apply (counted_grant r false _ (set_pages vp pp xp s)); [done|]. unfold at_key. by rewrite lookup_singleton_eq.
Qed.

Section Assign.
Context (n : nat) (LabelSelectorAsSelector : string -> outcome string).
Context (SetStatusCondition : list Condition -> Condition -> list Condition) (AgentNamespace : string).

Lemma exec_allocateVNI r s h : scannable s -> stands s = Some h -> FirstVNI - 1 <= h < lastVNI ->
  exists s', exec r (allocateVNI (S n)) s = (Good (h + 1), s') /\ counted s s' (h + 1).
Proof.
  intros Hsc Hst Hh. destruct (exec_attempt r s h Hsc Hst Hh) as (s' & He & Hc). exists s'. split; [|done].
  unfold allocateVNI. cbn [OnError]. rewrite !exec_bind, He. cbn [exec]. rewrite (exec_ebind _ _ _ s' tt s') by done.
  unfold FirstVNI, lastVNI in *. rewrite (proj2 (Z.ltb_ge _ _)), (proj2 (Z.ltb_ge _ _)) by lia. done.
Qed.

End Assign.

(** ** Duplicates *)

(** The names of the API server have no slash. *)
Definition slash_free (k : VPCRef) : Prop := str_any (fun c => bool_decide (c = "/"%char)) (refNamespace k) = false.

Lemma claim_name_inj k k' : slash_free k -> slash_free k' ->
  refNamespace k +:+ "/" +:+ refName k = refNamespace k' +:+ "/" +:+ refName k' -> k = k'.
Proof.
  intros H H' E. apply (f_equal (cut "/"%char)) in E. cbn [String.append] in E. rewrite !cut_app in E by done. by destruct k, k'; injection E as -> ->.
Qed.

Definition older (a b : vobj) : bool := vpcClaimOlder (vpcClaimKey a) (vpcClaimKey b).

Lemma older_irrefl a : older a a = false.
Proof. unfold older, vpcClaimOlder. rewrite Z.eqb_refl. apply str_ltb_irrefl. Qed.
Lemma older_trans a b c : older a b = true -> older b c = true -> older a c = true.
Proof.
  unfold older, vpcClaimOlder. destruct (Z.eqb_spec (vpcClaimKey a).1 (vpcClaimKey b).1) as [E|], (Z.eqb_spec (vpcClaimKey b).1 (vpcClaimKey c).1) as [E'|];
    intros H1 H2; to_prop.
  - rewrite (proj2 (Z.eqb_eq _ _)) by lia. by eapply str_ltb_trans.
  - rewrite (proj2 (Z.eqb_neq _ _)) by lia. lia.
  - rewrite (proj2 (Z.eqb_neq _ _)) by lia. lia.
  - rewrite (proj2 (Z.eqb_neq _ _)) by lia. lia.
Qed.
Lemma older_total a b : slash_free (o_Key a) -> slash_free (o_Key b) -> older a b = false -> older b a = false -> o_Key a = o_Key b.
Proof.
  unfold older, vpcClaimOlder. intros Ha Hb. rewrite (Z.eqb_sym (vpcClaimKey b).1).
  destruct (Z.eqb_spec (vpcClaimKey a).1 (vpcClaimKey b).1); intros H1 H2; to_prop; [|lia].
  destruct (str_ltb_total _ _ H1) as [E|?]; [by apply claim_name_inj|congruence].
Qed.

(** A non-empty list has a claim no other one precedes. *)
Lemma oldest (l : list vobj) : l <> [] -> exists m, m ∈ l /\ forall x, x ∈ l -> older x m = false.
Proof.
  induction l as [|a l IH]; [done|]. intros _. destruct (decide (l = [])) as [->|Hne].
  { exists a. split; [by left|]. intros x [->|?%elem_of_nil]%elem_of_cons; [apply older_irrefl|done]. }
  destruct (IH Hne) as (m & Hm & Hmin). destruct (older a m) eqn:E.
  - exists a. split; [by left|]. intros x [->|Hx]%elem_of_cons; [apply older_irrefl|]. apply not_true_iff_false. intros Hxa.
    pose proof (older_trans _ _ _ Hxa E). rewrite Hmin in *; done.
  - exists m. split; [by right|]. intros x [->|Hx]%elem_of_cons; [done|by apply Hmin].
Qed.

Lemma lost_fold vpc l lost : fold_left (lost_visit vpc) l lost =
  lost || existsb (fun o => (o_VNI o =? o_VNI vpc) && negb (bool_decide (o_Key o = o_Key vpc)) && older o vpc) l.
Proof.
  revert lost. induction l as [|o l IH]; intros lost; cbn [fold_left existsb]; [by rewrite orb_false_r|]. rewrite IH. unfold lost_visit, older.
  destruct (_ =? _), (bool_decide _), (vpcClaimOlder _ _), lost; done.
Qed.

Lemma exec_lost r vpc s : scannable s -> exists s',
  exec r (lostVNIToDuplicate vpc) s = (Good (fold_left (lost_visit vpc) (map_to_list (sv_vpcs s)).*2 false), s').
Proof.
  intros (H1 & _ & _). unfold lostVNIToDuplicate.
  destruct (exec_WalkClaims (Acc := bool) r listVPCs sv_vpc_pages (fun s => (map_to_list (sv_vpcs s)).*2) (fun p s => set_pages p (sv_port_pages s) (sv_vip_pages s) s))
    with (visit := lost_visit vpc) (acc := false) (s := s) as [vp Hv]; try done.
  { intros limit token s'. cbn [exec listVPCs honest]. by destruct (honest_page _ _ _ _). }
  { by rewrite length_fmap, length_map_to_list. }
  eexists. by apply exec_wrapped.
Qed.

(** Repair converges: of the VPCs that share an identifier exactly one keeps it, and every
    other one yields. *)
Theorem duplicate_one_keeps r s v : scannable s -> (forall k o, sv_vpcs s !! k = Some o -> o_Key o = k /\ slash_free k) ->
  (exists k o, sv_vpcs s !! k = Some o /\ o_VNI o = v) ->
  exists k o, (sv_vpcs s !! k = Some o /\ o_VNI o = v /\ (exec r (lostVNIToDuplicate o) s).1 = Good false) /\
    forall k' o', sv_vpcs s !! k' = Some o' -> o_VNI o' = v -> k' <> k -> (exec r (lostVNIToDuplicate o') s).1 = Good true.
Proof.
  intros Hsc Hkey (k0 & o0 & Hk0 & Hv0). set (l := filter (fun o => o_VNI o = v) (map_to_list (sv_vpcs s)).*2).
  assert (Hl : forall o, o ∈ l <-> o_VNI o = v /\ sv_vpcs s !! o_Key o = Some o).
  { intros o. unfold l. rewrite list_elem_of_filter, list_elem_of_fmap. split.
    - intros [? ([k o'] & -> & Hk%elem_of_map_to_list)]. split; [done|]. cbn. by rewrite (proj1 (Hkey k o' Hk)).
    - intros [? Hk]. split; [done|]. exists (o_Key o, o). by rewrite elem_of_map_to_list. }
  destruct (oldest l) as (m & [Hm Hmk]%Hl & Hmin).
  { intros E. assert (o0 ∈ l) as Hin. { apply Hl. by rewrite (proj1 (Hkey k0 o0 Hk0)). } rewrite E in Hin. by apply elem_of_nil in Hin. }
  exists (o_Key m), m. split_and!; [done|done| |].
  - destruct (exec_lost r m s Hsc) as [s' ->]. cbn [fst]. f_equal. rewrite lost_fold. cbn [orb]. apply not_true_iff_false. rewrite existsb_exists.
    intros (x & Hx & E). apply list_elem_of_In in Hx. apply andb_prop in E as [[E1 _]%andb_prop E3]. to_prop. rewrite Hmin in E3; [done|].
    apply list_elem_of_filter. split; [by rewrite E1|done].
  - intros k' o' Hk' Hv' Hne. destruct (exec_lost r o' s Hsc) as [s' ->]. cbn [fst]. f_equal. rewrite lost_fold. cbn [orb]. apply existsb_exists.
    destruct (Hkey k' o' Hk') as [Ek Hsf]. exists m. split.
    + apply list_elem_of_In, list_elem_of_fmap. exists (o_Key m, m). by rewrite elem_of_map_to_list.
    + rewrite Hm, Hv', Z.eqb_refl, bool_decide_false by congruence. cbn [andb negb]. apply not_false_iff_true. intros Ho. apply Hne.
      rewrite <- Ek. apply older_total; [by rewrite Ek|by apply (Hkey _ _ Hmk)| |done]. apply Hmin, Hl. by rewrite Ek.
Qed.

(** ** The acknowledgement of a boundary *)

Section Acknowledged.
Context (ds : DaemonSet) (revision generation : Z) (digest : string) (acked : list VPCBoundaryNode).

(** A pod of the agents' DaemonSet that is not being deleted. *)
Definition current_agent (pod : AgentPod) : bool := negb (pd_Deleting pod) && owned_by ds pod.
Definition applied (pod : AgentPod) : Prop :=
  running pod = true /\ exists a, a ∈ acked /\ acks revision generation digest pod a = true.
Definition transported (pod : AgentPod) : Prop :=
  exists a, a ∈ acked /\ acks revision generation digest pod a = true /\ bn_TransportReady a = true.
Definition agent_nodes (pods : list AgentPod) : gset string :=
  list_to_set (pd_Node <$> filter (fun pod => current_agent pod = true /\ running pod = true) pods).
(** The agent of a node, the last one listed. *)
Definition agent_of (pods : list AgentPod) (node : string) : string :=
  default EmptyString (last (pd_UID <$> filter (fun pod => current_agent pod = true /\ pd_Node pod = node) pods)).

Definition tally_of (pods : list AgentPod) (t : tally) : Prop :=
  (ty_policy t = true <-> forall pod, pod ∈ pods -> current_agent pod = true -> applied pod) /\
  (ty_transport t = true -> forall pod, pod ∈ pods -> current_agent pod = true -> applied pod /\ transported pod) /\
  ty_nodes t = agent_nodes pods /\ forall node, at_key (ty_current t) node = agent_of pods node.

Lemma agent_nodes_snoc pods pod : agent_nodes (pods ++ [pod]) =
  if current_agent pod && running pod then {[pd_Node pod]} ∪ agent_nodes pods else agent_nodes pods.
Proof.
  unfold agent_nodes. rewrite filter_app, fmap_app, list_to_set_app_L. destruct (current_agent pod && running pod) eqn:E.
  - apply andb_prop in E as E'. rewrite filter_cons_True by done. cbn. set_solver.
  - rewrite filter_cons_False by (intros [H1 H2]; by rewrite H1, H2 in E). cbn. set_solver.
Qed.

Lemma agent_of_snoc pods pod node : agent_of (pods ++ [pod]) node =
  if current_agent pod && bool_decide (pd_Node pod = node) then pd_UID pod else agent_of pods node.
Proof.
  unfold agent_of. rewrite filter_app, fmap_app. destruct (current_agent pod && _) eqn:E.
  - apply andb_prop in E as [E1 E2%bool_decide_eq_true]. rewrite filter_cons_True by done. cbn. by rewrite last_snoc.
  - rewrite filter_cons_False; [by rewrite app_nil_r|]. intros [H1 H2]. by rewrite H1, bool_decide_true in E.
Qed.

Lemma snoc_all (P : AgentPod -> Prop) pods pod : (forall x, x ∈ pods ++ [pod] -> current_agent x = true -> P x) <->
  (forall x, x ∈ pods -> current_agent x = true -> P x) /\ (current_agent pod = true -> P pod).
Proof.
  split.
  - intros H. split; [intros x Hx; apply H, elem_of_app; by left|apply H, elem_of_app; right; by apply list_elem_of_singleton].
  - intros [H1 H2] x [Hx| ->%list_elem_of_singleton]%elem_of_app; [by apply H1|done].
Qed.

Lemma tally_pod_ok pods pod t : tally_of pods t -> tally_of (pods ++ [pod]) (tally_pod ds revision generation digest acked t pod).
Proof.
  intros (H1 & H2 & H3 & H4). unfold tally_pod. fold (current_agent pod).
  replace (pd_Deleting pod || negb (owned_by ds pod)) with (negb (current_agent pod)) by (unfold current_agent; by destruct (pd_Deleting pod), (owned_by ds pod)).
  assert (Hcur : current_agent pod = true -> forall node, at_key (<[pd_Node pod := pd_UID pod]> (ty_current t)) node = agent_of (pods ++ [pod]) node).
  { intros E node. rewrite agent_of_snoc, E. unfold at_key. case_bool_decide as En; cbn.
    - subst node. by rewrite lookup_insert_eq.
    - rewrite lookup_insert_ne by done. apply H4. }
  unfold tally_of. rewrite !snoc_all, agent_nodes_snoc, <- H3. destruct (current_agent pod) eqn:E; cbn [negb andb].
  2: { split_and!; [split; [intros Hp; split; [exact (proj1 H1 Hp)|done]|intros [Hp _]; exact (proj2 H1 Hp)]|intros Ht; split; [by apply H2|done]|done|].
       intros node. rewrite agent_of_snoc, E. apply H4. }
  destruct (running pod) eqn:Er; cbn [negb].
  2: { split_and!; cbn; [|done|done|by apply Hcur]. split; [done|]. intros [_ Ha]. destruct (Ha eq_refl). congruence. }
  destruct (list_find _ acked) as [[i a]|] eqn:Ef; cbn [ty_policy ty_transport ty_nodes ty_current].
  - apply list_find_Some in Ef as (Ha & Hk & _). apply list_elem_of_lookup_2 in Ha. apply Is_true_true in Hk.
    assert (Hap : applied pod) by (split; [done|eauto]). split_and!; [split; [intros Hp; split; [exact (proj1 H1 Hp)|done]|intros [Hp _]; exact (proj2 H1 Hp)]| |done|by apply Hcur].
    intros [Ht Hr]%andb_prop. split; [by apply H2|]. intros _. split; [done|]. by exists a.
  - apply list_find_None in Ef. split_and!; [|done|done|by apply Hcur]. split; [done|]. intros [_ Ha]. destruct (Ha eq_refl) as (_ & a & Hin & Hk).
    rewrite Forall_forall in Ef. destruct (Ef a Hin). by rewrite Hk.
Qed.

Lemma tally_ok pods : tally_of pods (fold_left (tally_pod ds revision generation digest acked) pods (MkTally true true ∅ ∅)).
Proof.
  induction pods as [|pod pods IH] using rev_ind.
  - split_and!; cbn; [|by intros _ pod ?%elem_of_nil|done|done]. split; [by intros _ pod ?%elem_of_nil|done].
  - rewrite fold_left_app. by apply tally_pod_ok.
Qed.

End Acknowledged.

(** ** A small cluster *)

Definition live_seen (s : server) : Prop := forall k o, sv_vpcs s !! k = Some o -> o ∈ sv_seen s /\ o_Key o = k.

Lemma store_live o s : live_seen s -> live_seen (store o s).
Proof.
  intros H k x. unfold store. cbn [sv_vpcs sv_seen set_vpcs]. rewrite lookup_insert_Some. intros [[<- <-]|[_ Hk]]; [by split; [left|]|].
  destruct (H k x Hk). by split; [right|].
Qed.

Lemma grant_live r d a s : live_seen s -> live_seen (grant r d a s).
Proof. unfold grant. by destruct (counter_of _). Qed.

Lemma honest_live r s c : live_seen s -> live_seen (honest r s c).2.
Proof.
  intros H. destruct c; cbn [honest]; try done.
  1-3: by destruct (honest_page _ _ _ _).
  - destruct (sv_lease s); [done|]. by apply grant_live.
  - destruct (sv_lease s); [|done]. case_if; [|done]. by apply grant_live.
  - destruct (sv_vpcs s !! _); [|done]. case_if; [done|]. case_decide; [|done]. by apply store_live.
Qed.

Section Runs.
Context (auth : Authorizer) (key_of : nat -> VPCRef) (n : nat) (sel : string -> outcome string).
Context (set : list Condition -> Condition -> list Condition) (ns : string).
Abbreviation steps_to := (rtc (step auth key_of n sel set ns)).

Lemma exec_steps r p s runs : live_seen s -> runs !! r = Some p ->
  steps_to (MkSys s runs) (MkSys (exec r p s).2 (<[r := Ret (exec r p s).1]> runs)) /\ live_seen (exec r p s).2.
Proof.
  revert s runs. induction p as [a|c k IH]; intros s runs Hl Hr; cbn [exec].
  - rewrite insert_id by done. by split; [apply rtc_refl|].
  - pose proof (honest_serves r s c Hl) as Hs. pose proof (honest_live r s c Hl) as Hl'. destruct (honest r s c) as [x s'] eqn:E. cbn [fst snd] in *.
    destruct (IH x s' (<[r := k x]> runs)) as [IH1 IH2]; [done|by rewrite lookup_insert_eq|]. split; [|done].
    eapply rtc_l; [by apply (step_call auth key_of n sel set ns s s' runs r c k x)|]. by rewrite insert_insert_eq in IH1.
Qed.

(** A run that nobody else disturbs. *)
Definition after (r : nat) (s : server) : server := (exec r (Reconcile n sel set ns (key_of r)) s).2.

Lemma after_reachable s0 r s runs : live_seen s -> runs !! r = None -> reachable auth key_of n sel set ns s0 (MkSys s runs) ->
  exists runs', reachable auth key_of n sel set ns s0 (MkSys (after r s) runs') /\ live_seen (after r s) /\ forall r', r' <> r -> runs' !! r' = runs !! r'.
Proof.
  intros Hl Hn Hr. set (p := Reconcile n sel set ns (key_of r)).
  destruct (exec_steps r p s (<[r := p]> runs)) as [Hs Hl']; [done|by rewrite lookup_insert_eq|].
  exists (<[r := Ret (exec r p s).1]> (<[r := p]> runs)). split_and!; [|exact Hl'|].
  - unfold reachable. etrans; [exact Hr|]. eapply rtc_l; [|exact Hs]. by apply step_start.
  - intros r' Hne. by rewrite !lookup_insert_ne.
Qed.
End Runs.

Definition demo_spec : VPCSpec := MkVPCSpec (Some ["10.0.0.0/16"]) 0 None.
Definition demo_obj (name : string) (rv vni : Z) : vobj :=
  MkObj rv (MkVPCRes (MkMeta name "net" name rv false ∅ ∅ []) 1 demo_spec vni noStatus).
Definition demo_ref (name : string) : VPCRef := MkVPCRef "net" name.
(** Two VPCs without an identifier, and two an older release gave the same one. *)
Definition demo_objs : list vobj := [demo_obj "a" 1 0; demo_obj "b" 2 0; demo_obj "c" 3 150; demo_obj "d" 4 150].
Definition demo_server : server :=
  MkServer 4 (list_to_map ((fun o => (o_Key o, o)) <$> demo_objs)) demo_objs [] [] None [] ∅ ∅ ∅ ∅ [].
Definition demo_key (r : nat) : VPCRef := demo_ref (match r with O => "a" | 1%nat => "b" | _ => "d" end).
Definition demo_after (s : server) : server :=
  after demo_key 5 (fun x => Good x) (fun l c => l ++ [c]) EmptyString 2
    (after demo_key 5 (fun x => Good x) (fun l c => l ++ [c]) EmptyString 1
      (after demo_key 5 (fun x => Good x) (fun l c => l ++ [c]) EmptyString 0 s)).

Lemma demo_live : live_seen demo_server.
Proof.
  intros k o Hk. apply elem_of_list_to_map_2, list_elem_of_fmap in Hk as (x & [= -> ->] & Hx). by split.
Qed.

Lemma demo_initial : initial demo_server.
Proof.
  split_and!; [|done..]. split; cbn [sv_seen sv_leases sv_vpcs demo_server sv_rev]; [| | | |apply demo_live]; try by intros ? ?%elem_of_nil.
  - apply Forall_forall. repeat (apply Forall_cons; split; [cbn; lia|]). by apply Forall_nil.
  - intros o o' Ho Ho' E. unfold demo_objs in Ho, Ho'. rewrite !elem_of_cons in Ho, Ho'.
    destruct Ho as [->|[->|[->|[->|?%elem_of_nil]]]]; [..|done]; destruct Ho' as [->|[->|[->|[->|?%elem_of_nil]]]]; done.
  - by intros l l' ?%elem_of_nil.
Qed.

(** The three reconciles give [a] and [b] identifiers past the one in use, and [d], the younger
    of the duplicates, yields. *)
Example demo_vnis : (fun name => o_VNI <$> sv_vpcs (demo_after demo_server) !! demo_ref name) <$> ["a"; "b"; "c"; "d"] =
  [Some 151; Some 152; Some 150; Some 153].
Proof. vm_compute. reflexivity. Qed.

Lemma demo_reachable : exists runs, reachable demo_auth demo_key 5 (fun x => Good x) (fun l c => l ++ [c]) EmptyString demo_server (MkSys (demo_after demo_server) runs).
Proof.
  destruct (after_reachable demo_auth demo_key 5 (fun x => Good x) (fun l c => l ++ [c]) EmptyString demo_server 0 demo_server ∅)
    as (r1 & H1 & L1 & E1); [apply demo_live|done|apply rtc_refl|].
  eapply (after_reachable _ _ _ _ _ _ _ 1) in H1 as (r2 & H2 & L2 & E2); [|done|by rewrite E1].
  eapply (after_reachable _ _ _ _ _ _ _ 2) in H2 as (r3 & H3 & L3 & E3); [|done|by rewrite E2, E1]. by exists r3.
Qed.

Lemma vni_never_shared_witness : sv_reused (demo_after demo_server) = [] /\
  forall k k' o o', sv_vpcs (demo_after demo_server) !! k = Some o -> sv_vpcs (demo_after demo_server) !! k' = Some o' -> k <> k' ->
    ValidVNI (o_VNI o) = true -> o_VNI o' = o_VNI o -> before demo_server k (o_VNI o) /\ before demo_server k' (o_VNI o).
Proof.
  destruct demo_reachable as [runs Hr].
  exact (vni_never_shared demo_auth demo_key 5 (fun x => Good x) (fun l c => l ++ [c]) EmptyString demo_server _ demo_initial Hr).
Defined.

Lemma demo_scannable : scannable demo_server.
Proof. split_and!; vm_compute; done. Qed.


Lemma duplicate_one_keeps_witness : exists k o,
  (sv_vpcs demo_server !! k = Some o /\ o_VNI o = 150 /\ (exec 7 (lostVNIToDuplicate o) demo_server).1 = Good false) /\
  forall k' o', sv_vpcs demo_server !! k' = Some o' -> o_VNI o' = 150 -> k' <> k -> (exec 7 (lostVNIToDuplicate o') demo_server).1 = Good true.
Proof.
  apply (duplicate_one_keeps 7 demo_server 150); [apply demo_scannable| |exists (demo_ref "c"), (demo_obj "c" 3 150); by split; [vm_compute|]].
  intros k o Hk. apply elem_of_list_to_map_2, list_elem_of_fmap in Hk as (x & [= -> ->] & Hx). split; [done|].
  unfold demo_objs in Hx. rewrite !elem_of_cons in Hx. by destruct Hx as [->|[->|[->|[->|?%elem_of_nil]]]].
Defined.
