(* ===== verification/PodLabels.v ===== *)
(** * Snapshots of pod labels (internal/podlabels, internal/controller/sdn/securitygroup_controller.go)

    The plugin stores the labels of a pod on its Port as JSON, and the membership controller
    reads them back when the pod is gone.  The file has [json.Unmarshal] into a map of strings,
    the bounded encoder and the decoder, and that a snapshot is read back whole. *)
From S2P Require Import Prelude GoText GoNet Sha256 GoJson.
Local Open Scope Z_scope.

(** ** [json.Unmarshal] into [map[string]string]

    A value that is neither a string nor [null] is an error whatever its own syntax, as the
    caller takes nothing from a failed call. *)

Definition is_space (b : Z) : bool := (b =? 32) || (b =? 9) || (b =? 10) || (b =? 13).
Fixpoint skip_space (l : list Z) : list Z :=
  match l with b :: r => if is_space b then skip_space r else l | [] => [] end.

(** Four hexadecimal digits. *)
Definition hex4 (l : list Z) : option (Z * list Z) :=
  match l with
  | a :: b :: c :: d :: r =>
      a ← hex_val (chr a); b ← hex_val (chr b); c ← hex_val (chr c); d ← hex_val (chr d);
      Some (((a * 16 + b) * 16 + c) * 16 + d, r)
  | _ => None
  end.

(** [utf8.AppendRune]. *)
Definition rune_bytes (r : Z) : list Z :=
  if r <? 0x80 then [r]
  else if r <? 0x800 then [0xc0 + r / 64; 0x80 + r mod 64]
  else if r <? 0x10000 then [0xe0 + r / 4096; 0x80 + r / 64 mod 64; 0x80 + r mod 64]
  else [0xf0 + r / 262144; 0x80 + r / 4096 mod 64; 0x80 + r / 64 mod 64; 0x80 + r mod 64].
Definition RuneError : list Z := rune_bytes 0xfffd.
Definition surrogate (r : Z) : bool := in_range 0xd800 0xdfff r.
(** [utf16.DecodeRune] on a pair of surrogates. *)
Definition decode_pair (r r' : Z) : option Z :=
  if in_range 0xd800 0xdbff r && in_range 0xdc00 0xdfff r' then Some ((r - 0xd800) * 1024 + (r' - 0xdc00) + 0x10000) else None.

Definition simple_escape (e : Z) : option Z :=
  if (e =? 34) || (e =? 92) || (e =? 47) then Some e
  else if e =? 98 then Some 8 else if e =? 102 then Some 12 else if e =? 110 then Some 10
  else if e =? 114 then Some 13 else if e =? 116 then Some 9 else None.

Definition put (bytes : list Z) (rest : option (list Z * list Z)) : option (list Z * list Z) :=
  '(s, r) ← rest; Some (bytes ++ s, r).

(** The body of a string literal up to its closing quote, and what follows it.  A byte that is
    not part of well-formed UTF-8 and an unpaired surrogate become the replacement character. *)
Fixpoint unquote (fuel : nat) (l : list Z) : option (list Z * list Z) :=
  match fuel with
  | O => None
  | S fuel =>
      match l with
      | [] => None
      | b0 :: r0 =>
          if b0 =? 34 then Some ([], r0)
          else if b0 <? 32 then None
          else if b0 =? 92 then
            match r0 with
            | [] => None
            | e :: r1 =>
                if e =? 117 then
                  '(r, rest) ← hex4 r1;
                  if surrogate r then
                    match rest with
                    | 92 :: 117 :: rest2 =>
                        '(r', rest') ← hex4 rest2;
                        match decode_pair r r' with
                        | Some c => put (rune_bytes c) (unquote fuel rest')
                        | None => put RuneError (unquote fuel rest)
                        end
                    | _ => put RuneError (unquote fuel rest)
                    end
                  else put (rune_bytes r) (unquote fuel rest)
                else c ← simple_escape e; put [c] (unquote fuel r1)
            end
          else if b0 <? 0x80 then put [b0] (unquote fuel r0)
          else
            match r0 with
            | b1 :: r1 =>
                if in_range 0xc2 0xdf b0 && continuation b1 then put [b0; b1] (unquote fuel r1)
                else
                  match r1 with
                  | b2 :: r2 =>
                      if in_range 0xe0 0xef b0 && second_ok b0 b1 && continuation b2 then put [b0; b1; b2] (unquote fuel r2)
                      else
                        match r2 with
                        | b3 :: r3 =>
                            if in_range 0xf0 0xf4 b0 && second_ok b0 b1 && continuation b2 && continuation b3
                            then put [b0; b1; b2; b3] (unquote fuel r3) else put RuneError (unquote fuel r0)
                        | [] => put RuneError (unquote fuel r0)
                        end
                  | [] => put RuneError (unquote fuel r0)
                  end
            | [] => put RuneError (unquote fuel r0)
            end
      end
  end.

(** A string literal. *)
Definition parse_string (l : list Z) : option (string * list Z) :=
  match l with
  | 34 :: r => '(s, rest) ← unquote (length l) r; Some (to_text s, rest)
  | _ => None
  end.

(** A member's value: a string, or [null], which leaves the element zero. *)
Definition parse_value (l : list Z) : option (string * list Z) :=
  match l with
  | 110 :: 117 :: 108 :: 108 :: r => Some (EmptyString, r)
  | _ => parse_string l
  end.

(** The members after an opening brace or a comma; a repeated key keeps its last value. *)
Fixpoint parse_members (fuel : nat) (l : list Z) (acc : gmap string string) : option (gmap string string * list Z) :=
  match fuel with
  | O => None
  | S fuel =>
      '(key, l) ← parse_string (skip_space l);
      match skip_space l with
      | 58 :: l =>
          '(value, l) ← parse_value (skip_space l);
          let acc := <[key := value]> acc in
          match skip_space l with
          | 44 :: l => parse_members fuel l acc
          | 125 :: l => Some (acc, l)
          | _ => None
          end
      | _ => None
      end
  end.

Definition unmarshal_labels (text : list Z) : option (gmap string string) :=
  let l := skip_space text in
  '(m, rest) ←
    match l with
    | 123 :: l =>
        match skip_space l with
        | 125 :: l => Some (∅, l)
        | l => parse_members (length l) l ∅
        end
    | 110 :: 117 :: 108 :: 108 :: l => Some (∅, l)
    | _ => None
    end;
  match skip_space rest with [] => Some m | _ => None end.

(** [decodePodLabels], internal/controller/sdn/securitygroup_controller.go:440-449; an absent map reads as an
    empty one. *)
Definition decodePodLabels (s : string) : gmap string string :=
  if decide (s = EmptyString) then ∅ else default ∅ (unmarshal_labels (bytes_of s)).

(** ** The bounded encoder *)

(** [MaxLabels], internal/podlabels/snapshot.go:10-10. *)
Definition MaxLabels : Z := 4096.
(** [MaxBytes], internal/podlabels/snapshot.go:11-11. *)
Definition MaxBytes : Z := 128 * 1024.

(** [Encode], the preflight of one entry, internal/podlabels/snapshot.go:26-33. *)
Definition encode_entry (size : Z) (e : string * string) : result Z :=
  let key := Z.of_nat (String.length e.1) in let value := Z.of_nat (String.length e.2) in
  if (MaxBytes - size - 6 <? key) || (MaxBytes - size - 6 - key <? value) then Err "pod-label snapshot exceeds byte limit"
  else Ok (size + key + value + 6).

(** [json.Marshal] of a map writes its keys in order. *)
Definition label_le (a b : string * string) : Prop := String.le a.1 b.1.
#[export] Instance label_le_dec a b : Decision (label_le a b). Proof. unfold label_le. apply _. Defined.
Definition marshal_labels (labels : gmap string string) : list Z :=
  marshal (JObj ((fun e => (e.1, JStr e.2)) <$> merge_sort label_le (map_to_list labels))).

(** [Encode], internal/podlabels/snapshot.go:18-42. *)
Definition Encode (labels : gmap string string) : result string :=
  if MaxLabels <? Z.of_nat (size labels) then Err "pod-label snapshot exceeds label count limit"
  else if decide (labels = ∅) then Ok EmptyString
  else
    _ ← foldM encode_entry 1 (map_to_list labels);
    let encoded := marshal_labels labels in
    if MaxBytes <? Z.of_nat (length encoded) then Err "pod-label snapshot exceeds encoded byte limit"
    else Ok (to_text encoded).

(** ** A snapshot is read back whole *)

Definition ascii_text (s : string) : Prop := Forall (fun b => b < 128) (bytes_of s).

Lemma unquote_byte fuel b r : 0 <= b < 128 -> unquote (S fuel) (quote_ascii b ++ r) = put [b] (unquote fuel r).
Proof.
  intros Hb. assert (Forall (fun b => unquote (S fuel) (quote_ascii b ++ r) = put [b] (unquote fuel r)) (seqZ 0 128)) as H.
  { cbn [seqZ]. vm_compute seqZ. repeat (apply Forall_cons; split; [reflexivity|]). apply Forall_nil_2. }
  rewrite Forall_forall in H. apply H, elem_of_seqZ. lia.
Qed.

Lemma unquote_quote fuel l r : Forall (fun b => 0 <= b < 128) l -> (length l < fuel)%nat ->
  unquote fuel (quote_bytes l ++ 34 :: r) = Some (l, r).
Proof.
  revert fuel. induction l as [|b l IH]; intros [|fuel] Hl Hf; cbn [length] in Hf; try lia; [done|].
  apply Forall_cons in Hl as [Hb Hl]. cbn [quote_bytes]. rewrite (proj2 (Z.ltb_lt _ _)) by lia.
  rewrite <- app_assoc, unquote_byte, IH by (done || lia). done.
Qed.

Lemma quote_ascii_length b : (1 <= length (quote_ascii b))%nat.
Proof. unfold quote_ascii. repeat case_if; cbn; lia. Qed.

Lemma quote_bytes_length l : Forall (fun b => 0 <= b < 128) l -> (length l <= length (quote_bytes l))%nat.
Proof.
  induction 1 as [|b l Hb _ IH]; cbn [quote_bytes length]; [lia|]. rewrite (proj2 (Z.ltb_lt _ _)), length_app by lia.
  pose proof (quote_ascii_length b). lia.
Qed.

Lemma chr_code c : chr (code c) = c.
Proof. unfold chr, code. rewrite N2Z.id. apply ascii_N_embedding. Qed.
Lemma to_text_bytes s : to_text (bytes_of s) = s.
Proof. unfold to_text. induction s as [|c s IH]; cbn; [done|]. by rewrite chr_code, IH. Qed.
Lemma bytes_to_text l : Forall byte l -> bytes_of (to_text l) = l.
Proof.
  unfold to_text. induction 1 as [|b l Hb _ IH]; cbn; [done|]. f_equal; [|done]. unfold chr, code, byte in *.
  rewrite N_ascii_embedding; lia.
Qed.

Lemma ascii_bytes s : ascii_text s -> Forall (fun b => 0 <= b < 128) (bytes_of s).
Proof.
  intros H. pose proof (bytes_of_byte s) as Hb. unfold ascii_text in H. rewrite Forall_forall in *. intros b Hin.
  specialize (H b Hin). specialize (Hb b Hin). unfold byte in Hb. lia.
Qed.

Lemma parse_string_quote s r : ascii_text s -> parse_string (quote_string s ++ r) = Some (s, r).
Proof.
  intros Hs%ascii_bytes. unfold quote_string. rewrite <- !app_assoc. cbn [app parse_string].
  rewrite unquote_quote; [|done|]; [cbn; by rewrite to_text_bytes|]. cbn [length]. rewrite length_app.
  pose proof (quote_bytes_length _ Hs). lia.
Qed.

Definition member (e : string * string) : list Z := quote_string e.1 ++ [58] ++ quote_string e.2.
Definition ascii_entry (e : string * string) : Prop := ascii_text e.1 /\ ascii_text e.2.
Definition put_entry (m : gmap string string) (e : string * string) : gmap string string := <[e.1 := e.2]> m.

Lemma parse_value_quote s r : ascii_text s -> parse_value (quote_string s ++ r) = Some (s, r).
Proof. apply parse_string_quote. Qed.

Lemma skip_quote s r : skip_space (quote_string s ++ r) = quote_string s ++ r.
Proof. done. Qed.

Lemma parse_members_ok fuel e es acc r : Forall ascii_entry (e :: es) -> (length es < fuel)%nat ->
  parse_members fuel (member e ++ mjoin ((fun x => 44 :: member x) <$> es) ++ 125 :: r) acc = Some (fold_left put_entry (e :: es) acc, r).
Proof.
  revert fuel e acc. induction es as [|e' es IH]; intros [|fuel] e acc Ha Hf; cbn [length] in Hf; try lia;
    apply Forall_cons in Ha as [[H1 H2] Ha]; unfold member; cbn [parse_members]; rewrite <- !app_assoc, skip_quote, parse_string_quote by done;
    cbn [mbind option_bind app skip_space is_space Z.eqb orb Pos.eqb]; rewrite skip_quote, parse_value_quote by done; cbn [mbind option_bind].
  - done.
  - cbn [fmap list_fmap mjoin list_join app]. cbn [skip_space is_space Z.eqb orb Pos.eqb]. fold (member e').
    change (list_join ((fun x => 44 :: member x) <$> es)) with (mjoin ((fun x => 44 :: member x) <$> es)).
    rewrite <- app_assoc, (IH fuel e') by (done || lia). done.
Qed.

Lemma quote_byte_bytes b : 0 <= b < 128 -> Forall byte (quote_ascii b).
Proof.
  intros Hb. assert (Forall (fun b => Forall byte (quote_ascii b)) (seqZ 0 128)) as H.
  { vm_compute seqZ. repeat (apply Forall_cons; split; [vm_compute quote_ascii; repeat (apply Forall_cons; split; [unfold byte; lia|]); apply Forall_nil_2|]).
    apply Forall_nil_2. }
  rewrite Forall_forall in H. apply H, elem_of_seqZ. lia.
Qed.

Lemma quote_string_bytes s : ascii_text s -> Forall byte (quote_string s).
Proof.
  intros Hs%ascii_bytes. apply Forall_cons; split; [unfold byte; lia|]. apply Forall_app; split; [|apply Forall_singleton; unfold byte; lia].
  induction Hs as [|b l Hb _ IH]; cbn [quote_bytes]; [done|]. rewrite (proj2 (Z.ltb_lt _ _)) by lia.
  apply Forall_app; split; [by apply quote_byte_bytes|done].
Qed.

Lemma member_bytes e : ascii_entry e -> Forall byte (member e).
Proof.
  intros [H1 H2]. apply Forall_app; split; [by apply quote_string_bytes|]. apply Forall_cons; split; [unfold byte; lia|]. by apply quote_string_bytes.
Qed.

Lemma put_entries es acc : fold_left put_entry es acc = list_to_map (reverse es) ∪ acc.
Proof.
  revert acc. induction es as [|e es IH]; intros acc; cbn [fold_left]; [rewrite reverse_nil; cbn; by rewrite (left_id_L ∅ (∪))|].
  rewrite IH, reverse_cons, list_to_map_app. cbn. unfold put_entry. rewrite insert_empty, <- (assoc_L (∪)). f_equal.
  by rewrite insert_union_singleton_l.
Qed.

Lemma sorted_labels (labels : gmap string string) : fold_left put_entry (merge_sort label_le (map_to_list labels)) ∅ = labels.
Proof.
  rewrite put_entries, (right_id_L ∅ (∪)). etrans; [|apply list_to_map_to_list]. apply list_to_map_proper.
  - rewrite reverse_Permutation, merge_sort_Permutation. apply NoDup_fst_map_to_list.
  - by rewrite reverse_Permutation, merge_sort_Permutation.
Qed.

Lemma marshal_members e es : marshal (JObj ((fun e => (e.1, JStr e.2)) <$> e :: es)) =
  123 :: member e ++ mjoin ((fun x => 44 :: member x) <$> es) ++ [125].
Proof.
  cbn [marshal fmap list_fmap commas app]. rewrite <- app_assoc. do 3 f_equal. cbn. f_equal. f_equal.
  induction es as [|x es IH]; cbn; [done|]. by rewrite IH.
Qed.

Lemma joined_length (es : list (string * string)) : (length es <= length (mjoin ((fun x => 44%Z :: member x) <$> es)))%nat.
Proof. induction es as [|x es IH]; [done|]. cbn [fmap list_fmap mjoin list_join]. rewrite length_app. cbn [length]. unfold mjoin in *. lia. Qed.

Lemma joined_bytes es : Forall ascii_entry es -> Forall byte (mjoin ((fun x => 44 :: member x) <$> es)).
Proof.
  induction 1 as [|x es Hx _ IH]; [done|]. cbn [fmap list_fmap mjoin list_join app].
  apply Forall_cons; split; [unfold byte; lia|]. apply Forall_app; split; [by apply member_bytes|done].
Qed.

Lemma decode_members e es : Forall ascii_entry (e :: es) ->
  decodePodLabels (to_text (marshal (JObj ((fun e => (e.1, JStr e.2)) <$> e :: es)))) = fold_left put_entry (e :: es) ∅.
Proof.
  intros Ha. rewrite marshal_members. unfold decodePodLabels. rewrite decide_False by done.
  pose proof Ha as [He Hes]%Forall_cons. rewrite bytes_to_text.
  2: { apply Forall_cons; split; [unfold byte; lia|]. apply Forall_app; split; [by apply member_bytes|].
       apply Forall_app; split; [by apply joined_bytes|apply Forall_singleton; unfold byte; lia]. }
  set (body := member e ++ mjoin ((fun x => 44 :: member x) <$> es) ++ [125]).
  assert (Hp : parse_members (length body) body ∅ = Some (fold_left put_entry (e :: es) ∅, [])).
  { apply parse_members_ok; [done|]. unfold body. rewrite !length_app. pose proof (joined_length es). cbn [length]. lia. }
  unfold unmarshal_labels. cbn [skip_space is_space Z.eqb orb Pos.eqb]. replace (skip_space body) with body by done.
  assert (exists x, body = 34 :: x) as [x Hx] by by eexists. rewrite Hx in Hp |- *. by rewrite Hp.
Qed.

(** C39. A label snapshot is never truncated: when the encoder accepts the labels of a pod, the
    membership controller reads back exactly those labels. *)
Theorem snapshot_read_back (labels : gmap string string) (text : string) :
  map_Forall (fun k v => ascii_text k /\ ascii_text v) labels -> Encode labels = Ok text -> decodePodLabels text = labels.
Proof.
  intros Ha. unfold Encode. case_if; [done|]. case_decide as He; [by intros [= <-]; rewrite He|].
  rewrite bind_ok. intros (total & _ & Ht). case_if; [done|]. injection Ht as <-. unfold marshal_labels.
  pose proof (sorted_labels labels) as Hs.
  assert (Hall : Forall ascii_entry (merge_sort label_le (map_to_list labels))).
  { rewrite Forall_forall. intros [k v]. rewrite merge_sort_Permutation, elem_of_map_to_list. apply Ha. }
  destruct (merge_sort label_le (map_to_list labels)) as [|e es]; [by rewrite <- Hs in He|]. by rewrite decode_members.
Qed.

Definition demo_labels : gmap string string := {["app" := "web"; "tier" := "a<b&" +:+ String (chr 34) EmptyString]}.
Lemma snapshot_read_back_witness : exists text, Encode demo_labels = Ok text /\ decodePodLabels text = demo_labels.
Proof.
  destruct (Encode demo_labels) as [text|e] eqn:E; [|by vm_compute in E]. exists text. split; [done|].
  apply (snapshot_read_back demo_labels text); [|exact E].
  unfold demo_labels. intros k v [[<- <-]|[_ [<- <-]%lookup_singleton_Some]]%lookup_insert_Some; split; repeat (apply Forall_cons; split; [vm_compute; done|]); apply Forall_nil_2.
Defined.

(** Surrogates, repeated keys, [null] and a bad value. *)
Example decode_odd_texts :
  decodePodLabels (to_text ([123; 34] ++ escape (bytes_of "d83d") ++ escape (bytes_of "de00") ++ [34; 58; 110; 117; 108; 108; 32; 125; 10])) =
    {[utf8 [0xf0; 0x9f; 0x98; 0x80] := EmptyString]} /\
  decodePodLabels (to_text [123; 34; 97; 34; 58; 49; 125]) = ∅.
Proof. by split; vm_compute. Qed.
