(* ===== verification/SgMembers.v ===== *)
(** * The SecurityGroup and membership reconcilers (internal/controller/sdn/securitygroup_controller.go)

    One reconciler numbers the groups of a VPC, the other writes the groups of a Port from the
    labels of its pod.  The agent's index proves the written membership again before it grants a
    bit; end to end a pod gets exactly the groups that select it, and one that a group selects
    but cannot be resolved is never left unrestricted. *)
From S2P Require Import Prelude GoText GoNet Sha256 AddrText AddrMap Grants NpCompile SgIdentity ClaimNames Claims ClaimSafety ClaimServe Registry Authority SgCompile ApiCalls PodLabels.
Local Open Scope Z_scope.
Local Open Scope api_scope.

(** ** Objects and calls *)

(** A SecurityGroup with the fields only its reconciler uses. *)
Record sgobj := MkSgo { so_Created : Z; so_Phase : string; so_SG : SGObj LabelSelector }.
Definition so_UID (o : sgobj) : string := m_UID (sg_Meta (so_SG o)).
(** [corev1.Pod]. *)
Record PodObj := MkPodObj { po_Deleting : bool; po_UID : string; po_Labels : gmap string string }.

Inductive gcall :=
| GCtxErr
| GetSG (namespace name : string)
| ListSGs (namespace : string) (limit : Z) (token : string)
| UpdateSG (o : sgobj)
| GetPort (name : string)
| GetPod (namespace name : string)
(** The groups under a key of the [membershipVPCIndex] of the cache. *)
| ListGroups (key : string)
| UpdatePort (p : Port).

Definition ganswer (c : gcall) : Type :=
  match c with
  | GCtxErr => option apierr
  | GetSG _ _ => outcome sgobj
  | ListSGs _ _ _ => outcome (list sgobj * string)
  | UpdateSG _ | UpdatePort _ => outcome unit
  | GetPort _ => outcome Port
  | GetPod _ _ => outcome PodObj
  | ListGroups _ => outcome (list sgobj)
  end.
Abbreviation gprog := (eprog ganswer).

Definition gctx : gprog unit := Do GCtxErr (fun e => match e with Some e => fail e | None => good tt end).

(** [LabelPodNamespace], api/sdn/v1alpha1/labels.go:82-82. *)
Definition LabelPodNamespace : string := "sdn.cozystack.io/pod-namespace".
(** [LabelPodName], api/sdn/v1alpha1/labels.go:84-84. *)
Definition LabelPodName : string := "sdn.cozystack.io/pod-name".
(** [AnnotationPodLabels], api/sdn/v1alpha1/labels.go:93-93. *)
Definition AnnotationPodLabels : string := "sdn.cozystack.io/pod-labels".

Section Controllers.
Context `{Selectors} (IsDNS1123Label IsDNS1123Subdomain : string -> bool).

(** ** Numbers *)

Definition valid_id (id : Z) : bool := negb ((id <=? 0) || (MaxSecurityGroupsPerVPC <=? id)).

(** [walkSecurityGroupClaims], internal/controller/sdn/securitygroup_controller.go:154-166. *)
Definition walkSecurityGroupClaims {Acc} (namespace : string) (visit : Acc -> sgobj -> Acc) (acc : Acc) : gprog Acc :=
  wrapped "list SecurityGroup ID claims" (WalkClaims gctx (fun limit token => Do (ListSGs namespace limit token) Ret) visit acc).

(** Another group of the same VPC; the scan is of one namespace. *)
Definition rival (sg o : sgobj) : bool :=
  negb (bool_decide (sg_Name (so_SG o) = sg_Name (so_SG sg))) && bool_decide (sg_VPCName (so_SG o) = sg_VPCName (so_SG sg)).

(** [usedIDs], internal/controller/sdn/securitygroup_controller.go:138-152. *)
Definition used_visit (sg : sgobj) (used : gset Z) (o : sgobj) : gset Z :=
  if rival sg o && valid_id (sg_ID (so_SG o)) then {[sg_ID (so_SG o)]} ∪ used else used.

(** [allocateID], internal/controller/sdn/securitygroup_controller.go:124-135: the first number
    that is not used, or zero. *)
Definition allocateID (sg : sgobj) : gprog Z :=
  used <~ walkSecurityGroupClaims (sg_Namespace (so_SG sg)) (used_visit sg) ∅ ;;
  good (default 0 (head (filter (fun id => id ∉ used) (seqZ 1 (MaxSecurityGroupsPerVPC - 1))))).

(** [sgClaimOlder], internal/controller/sdn/securitygroup_controller.go:186-191. *)
Definition sgClaimOlder (a b : sgobj) : bool :=
  if so_Created a =? so_Created b then str_ltb (sg_Name (so_SG a)) (sg_Name (so_SG b)) else so_Created a <? so_Created b.

(** [lostIDToDuplicate], the visit of a group, internal/controller/sdn/securitygroup_controller.go:174-179. *)
Definition lostID_visit (sg : sgobj) (lost : bool) (o : sgobj) : bool :=
  if negb (rival sg o) || negb (sg_ID (so_SG o) =? sg_ID (so_SG sg)) then lost
  else if sgClaimOlder o sg then true else lost.
(** [lostIDToDuplicate], internal/controller/sdn/securitygroup_controller.go:171-182. *)
Definition lostIDToDuplicate (sg : sgobj) : gprog bool :=
  walkSecurityGroupClaims (sg_Namespace (so_SG sg)) (lostID_visit sg) false.

Definition set_sg_ID (id : Z) (phase : string) (o : sgobj) : sgobj :=
  let g := so_SG o in
  MkSgo (so_Created o) phase (MkSGObj (sg_Meta g) (sg_VPCName g) (sg_PodSelector g) (sg_Ingress g) (sg_Egress g) id).

(** [Reconcile], the number, internal/controller/sdn/securitygroup_controller.go:82-94. *)
Definition ensure_id (sg : sgobj) : gprog Z :=
  if negb (ObjectName IsDNS1123Subdomain (sg_VPCName (so_SG sg))) then good 0
  else if negb (valid_id (sg_ID (so_SG sg))) then allocateID sg
  else lost <~ lostIDToDuplicate sg ;; good (if (lost : bool) then 0 else sg_ID (so_SG sg)).

(** [SecurityGroupReconciler.Reconcile], internal/controller/sdn/securitygroup_controller.go:69-119. *)
Definition sg_Reconcile (namespace name : string) : gprog reconciled :=
  Do (GetSG namespace name) (fun got =>
    match got with
    | Bad e => if has_reason NotFound e then good Done else fail e
    | Good sg =>
        if m_Deleting (sg_Meta (so_SG sg)) then good Done
        else
          id <~ ensure_id sg ;;
          let phase := if id =? 0 then "Pending" else "Ready" in
          let finish := good (if id =? 0 then RequeueAfter (10 * Second) else Done) in
          if bool_decide (sg_ID (so_SG sg) = id) && bool_decide (so_Phase sg = phase) then finish
          else
            Do (UpdateSG (set_sg_ID id phase sg)) (fun r =>
              match r with
              | Good _ => finish
              | Bad e => if has_reason Conflict e then good Requeue else fail (wrap "update SecurityGroup status" e)
              end)
    end).

(** ** Membership *)

(** [membershipWorkLimit], internal/controller/sdn/securitygroup_controller.go:220-220. *)
Definition membershipWorkLimit : Z := 65536.

(** [membershipVPCKeys], internal/controller/sdn/securitygroup_controller.go:223-235. *)
Definition membershipVPCKeys (namespace name : string) : option string :=
  if negb (NamespaceName IsDNS1123Label namespace) || negb (ObjectName IsDNS1123Subdomain name) then None
  else Some (namespace +:+ "/" +:+ name).

(** [membershipInputWork], one group after the context, internal/controller/sdn/securitygroup_controller.go:257-267. *)
Definition selector_charge (work : Z) (s : LabelSelector) : outcome Z :=
  let work := work + Z.of_nat (size (MatchLabels s)) + Z.of_nat (length (MatchExpressions s)) in
  if membershipWorkLimit <? work then Bad (errorf "membership exceeds selector work budget")
  else
    (fix values (es : list Requirement) (work : Z) : outcome Z :=
       match es with
       | [] => Good work
       | e :: es =>
           let work := work + Z.of_nat (length (r_Values e)) in
           if membershipWorkLimit <? work then Bad (errorf "membership exceeds selector value budget") else values es work
       end) (MatchExpressions s) work.

(** [membershipInputWork], the loop over the groups, internal/controller/sdn/securitygroup_controller.go:250-269. *)
Fixpoint input_work (work : Z) (groups : list sgobj) : gprog unit :=
  match groups with
  | [] => gctx
  | g :: groups =>
      gctx ;;;
      if m_Deleting (sg_Meta (so_SG g)) then input_work work groups
      else work <~ Ret (selector_charge work (sg_PodSelector (so_SG g))) ;; input_work work groups
  end.
(** [membershipInputWork], internal/controller/sdn/securitygroup_controller.go:245-270. *)
Definition membershipInputWork (groups : list sgobj) : gprog unit :=
  if membershipWorkLimit <? Z.of_nat (length groups) then fail (errorf "membership exceeds groups")
  else input_work (Z.of_nat (length groups)) groups.

(** [podLabelsFor], internal/controller/sdn/securitygroup_controller.go:274-287. *)
Definition podLabelsFor (port : Port) : prog ganswer (gmap string string) :=
  let labels := m_Labels (p_Meta port) in
  let ns := at_key labels LabelPodNamespace in let name := at_key labels LabelPodName in let uid := at_key labels LabelPodUID in
  let snapshot := decodePodLabels (at_key (m_Annotations (p_Meta port)) AnnotationPodLabels) in
  if decide (ns = EmptyString \/ name = EmptyString \/ uid = EmptyString) then Ret snapshot
  else
    Do (GetPod ns name) (fun got =>
      match got with
      | Good pod => Ret (if negb (po_Deleting pod) && bool_decide (po_UID pod = uid) then po_Labels pod else snapshot)
      | Bad _ => Ret snapshot
      end).

Definition port_ref (port : Port) : string * string := (refNamespace (s_VPCRef (p_Spec port)), refName (s_VPCRef (p_Spec port))).
Definition in_vpc (port : Port) (g : sgobj) : bool := bool_decide (sg_VPCName (so_SG g) = refName (s_VPCRef (p_Spec port))).
(** The index of the groups of the Port's VPC. *)
Definition membership_index (port : Port) (groups : list sgobj) : SgIdentity.Index :=
  NewIndex IsDNS1123Label IsDNS1123Subdomain ((fun g => index_group (so_SG g)) <$> filter (fun g => in_vpc port g) groups).

(** The selected numbers, the proven references, and the reason the membership is guarded. *)
Record chosen := MkChosen { ch_selected : Z; ch_refs : list (Z * string); ch_error : option apierr }.

(** [PortMembershipReconciler.Reconcile], a group that selects the pod,
    internal/controller/sdn/securitygroup_controller.go:339-347. *)
Definition select_group (index : SgIdentity.Index) (port : Port) (g : sgobj) (c : chosen) : chosen :=
  let id := sg_ID (so_SG g) in
  if negb (valid_id id) || bool_decide (so_UID g = EmptyString) ||
     negb (bool_decide (default EmptyString (index_get index (port_ref port) id) = so_UID g))
  then MkChosen (Z.lor (ch_selected c) 1) (ch_refs c) (ch_error c)
  else MkChosen (Z.lor (ch_selected c) (Z.shiftl 1 id)) (ch_refs c ++ [(id, so_UID g)]) (ch_error c).

(** [PortMembershipReconciler.Reconcile], the loop over the groups,
    internal/controller/sdn/securitygroup_controller.go:326-348. *)
Fixpoint select_groups (index : SgIdentity.Index) (port : Port) (labels : gmap string string) (groups : list sgobj) (c : chosen) : gprog chosen :=
  match groups with
  | [] => good c
  | g :: groups =>
      gctx ;;;
      if negb (in_vpc port g) || m_Deleting (sg_Meta (so_SG g)) then select_groups index port labels groups c
      else
        match AsSelector (Some (sg_PodSelector (so_SG g))) with
        | None => good (MkChosen (ch_selected c) (ch_refs c) (Some (errorf "invalid podSelector for SecurityGroup")))
        | Some matches => select_groups index port labels groups (if matches labels then select_group index port g c else c)
        end
  end.

(** [PortMembershipReconciler.Reconcile], from the listed groups to the guarded selection,
    internal/controller/sdn/securitygroup_controller.go:305-352. *)
Definition resolve (port : Port) (labels : gmap string string) : gprog chosen :=
  input <~ match membershipVPCKeys (port_ref port).1 (port_ref port).2 with
           | None => good ([], Some (errorf "invalid Port VPC reference"))
           | Some key =>
               groups <~ wrapped "list SecurityGroups" (Do (ListGroups key) Ret) ;;
               pbind (membershipInputWork groups) (fun r => good (groups, match r with Good _ => None | Bad e => Some e end))
           end ;;
  gctx ;;;
  let '(groups, inputErr) := input in
  c <~ match inputErr with
       | Some e => good (MkChosen 0 [] (Some e))
       | None => select_groups (membership_index port groups) port labels groups (MkChosen 0 [] None)
       end ;;
  good (match ch_error c with Some e => MkChosen 1 [] (Some e) | None => c end).

Definition ref_le (a b : Z * string) : Prop := a.1 <= b.1.
#[export] Instance ref_le_dec a b : Decision (ref_le a b). Proof. unfold ref_le. apply _. Defined.

(** [PortMembershipReconciler.Reconcile], the status of a selection,
    internal/controller/sdn/securitygroup_controller.go:353-366. *)
Definition publish (port : Port) (c : chosen) : Port :=
  let ids := filter (fun id => Z.testbit (ch_selected c) id) (seqZ 0 MaxSecurityGroupsPerVPC) in
  MkPort (p_Meta port) (p_Spec port) (MkPortStatus ids (merge_sort ref_le (ch_refs c)) (at_key (m_Labels (p_Meta port)) LabelPodUID)).

(** [PortMembershipReconciler.Reconcile], internal/controller/sdn/securitygroup_controller.go:289-375. *)
Definition membership_Reconcile (name : string) : gprog reconciled :=
  Do (GetPort name) (fun got =>
    match got with
    | Bad e => if has_reason NotFound e then good Done else fail e
    | Good port =>
        if m_Deleting (p_Meta port) then good Done
        else
          labels <- try podLabelsFor port ;;
          c <~ resolve port labels ;;
          let port' := publish port c in
          if decide (st_Groups (p_Status port) = st_Groups (p_Status port') /\ st_GroupRefs (p_Status port) = st_GroupRefs (p_Status port') /\
                     st_GroupPodUID (p_Status port) = st_GroupPodUID (p_Status port')) then good Done
          else
            Do (UpdatePort port') (fun r =>
              match r with
              | Good _ => good Done
              | Bad e => if has_reason Conflict e then good Requeue else fail (wrap "update Port status.groups" e)
              end)
    end).

(** ** The selection *)

(** The group is of the Port's VPC, live, and selects the labels. *)
Definition matching (labels : gmap string string) (g : sgobj) : bool :=
  match AsSelector (Some (sg_PodSelector (so_SG g))) with Some matches => matches labels | None => false end.
Definition picks (port : Port) (labels : gmap string string) (g : sgobj) : bool :=
  in_vpc port g && negb (m_Deleting (sg_Meta (so_SG g))) && matching labels g.

(** The number and the UID of a picked group whose identity the index proves. *)
Definition proved (index : SgIdentity.Index) (port : Port) (g : sgobj) : option (Z * string) :=
  if negb (valid_id (sg_ID (so_SG g))) || bool_decide (so_UID g = EmptyString) ||
     negb (bool_decide (default EmptyString (index_get index (port_ref port) (sg_ID (so_SG g))) = so_UID g))
  then None else Some (sg_ID (so_SG g), so_UID g).

Context (P : forall c : gcall, ganswer c -> Prop).

Lemma select_groups_fold index port labels groups c0 c : ch_error c0 = None -> ch_error c = None ->
  returns P (select_groups index port labels groups c0) (Good c) ->
  c = fold_left (fun c g => select_group index port g c) (filter (fun g => picks port labels g) groups) c0.
Proof.
  revert c0. induction groups as [|g groups IH]; intros c0 H0 Hc; cbn [select_groups]; [by intros [= ->]|].
  rewrite returns_ebind. intros ([] & _ & Hr). destruct (picks port labels g) eqn:Ep.
  - rewrite filter_cons_True by by apply Is_true_true. unfold picks, matching in Ep. apply andb_prop in Ep as [[E1 E2]%andb_prop E3].
    rewrite E1 in Hr. apply negb_true_iff in E2. rewrite E2 in Hr. cbn [negb orb] in Hr.
    destruct (AsSelector _) as [matches|]; [|done]. rewrite E3 in Hr. cbn [fold_left]. apply IH; try done. unfold select_group. by case_if.
  - rewrite filter_cons_False by (intros ?%Is_true_true; congruence). unfold picks, matching in Ep.
    destruct (in_vpc port g), (m_Deleting (sg_Meta (so_SG g))); cbn [negb orb andb] in Hr, Ep; [by apply IH| |by apply IH..].
    destruct (AsSelector _) as [matches|]; [rewrite Ep in Hr; by apply IH|]. by injection Hr as <-.
Qed.

Lemma select_fold index port gs c0 :
  let c := fold_left (fun c g => select_group index port g c) gs c0 in
  ch_refs c = ch_refs c0 ++ omap (proved index port) gs /\
  forall n, 0 <= n -> Z.testbit (ch_selected c) n = true <->
    Z.testbit (ch_selected c0) n = true \/ exists g, g ∈ gs /\ default 0 (fst <$> proved index port g) = n.
Proof.
  revert c0. induction gs as [|g gs IH]; intros c0; cbn [fold_left omap list_omap].
  { split; [by rewrite app_nil_r|]. intros n _. split; [by left|]. intros [?|(g & ?%elem_of_nil & _)]; done. }
  destruct (IH (select_group index port g c0)) as [IH1 IH2]. cbn zeta in *. rewrite IH1. split.
  - unfold select_group, proved. case_if; cbn [ch_refs]; [done|]. by rewrite <- app_assoc.
  - intros n Hn. rewrite IH2 by done. setoid_rewrite elem_of_cons.
    assert (Hg : Z.testbit (ch_selected (select_group index port g c0)) n = true <->
      Z.testbit (ch_selected c0) n = true \/ default 0 (fst <$> proved index port g) = n).
    { unfold select_group, proved. destruct (negb _ || _ || _) eqn:E; cbn [ch_selected fmap option_fmap option_map default]; rewrite Z.lor_spec, orb_true_iff.
      - change 1 with (Z.shiftl 1 0). rewrite bit_shift, bool_decide_eq_true by lia. naive_solver.
      - apply orb_false_iff in E as [[E _]%orb_false_iff _]. unfold valid_id in E. rewrite negb_involutive in E. to_prop.
        rewrite bit_shift, bool_decide_eq_true by lia. naive_solver. }
    rewrite Hg. naive_solver.
Qed.

(** ** The agent's proof *)

Definition vpc_ref (g : sgobj) : string * string := (sg_Namespace (so_SG g), sg_VPCName (so_SG g)).
(** The group as the index sees it, and the groups of the cluster that hold a number of a VPC. *)
Definition sg_of (g : sgobj) : SecurityGroup :=
  MkSecurityGroup (m_Deleting (sg_Meta (so_SG g))) (vpc_ref g).1 (vpc_ref g).2 (sg_ID (so_SG g)) (so_UID g).
Definition holders_of (gs : list sgobj) (port : Port) (id : Z) : list SecurityGroup :=
  holders IsDNS1123Label IsDNS1123Subdomain ((fun g => index_group (so_SG g)) <$> gs) (port_ref port) id.

(** Exactly one live, well-named group of the VPC holds the number of [g], and it is [g]. *)
Definition resolved (all : list sgobj) (port : Port) (g : sgobj) : Prop :=
  so_UID g <> EmptyString /\ holders_of all port (sg_ID (so_SG g)) = [sg_of g].

#[local] Instance SecurityGroup_eq_dec : EqDecision SecurityGroup. Proof. solve_decision. Defined.
#[export] Instance resolved_dec all port g : Decision (resolved all port g). Proof. unfold resolved. apply _. Defined.

Section Proof.
Context (all : list sgobj) (port : Port) (labels : gmap string string).
Hypothesis names_ok : NamespaceName IsDNS1123Label (port_ref port).1 && ObjectName IsDNS1123Subdomain (port_ref port).2 = true.

Definition selects (g : sgobj) : Prop :=
  vpc_ref g = port_ref port /\ m_Deleting (sg_Meta (so_SG g)) = false /\ matching labels g = true.

Lemma holders_filter (R : sgobj -> Prop) `{forall g, Decision (R g)} gs id :
  (forall g, vpc_ref g = port_ref port -> R g) -> holders_of (filter R gs) port id = holders_of gs port id.
Proof.
  intros HR. unfold holders_of, holders. induction gs as [|g gs IH]; [done|]. rewrite filter_cons. case_decide as Hg.
  - cbn [fmap list_fmap omap list_omap]. destruct (admissible _ _ _); [|done]. rewrite !filter_cons. by case_decide; [f_equal|].
  - rewrite IH. cbn [fmap list_fmap omap list_omap]. destruct (admissible _ _ _) as [x|] eqn:E; [|done]. rewrite filter_cons_False; [done|].
    intros [Hl _]. apply Hg, HR. unfold admissible, index_group in E. repeat case_if; simplify_eq. exact Hl.
Qed.

Lemma holders_perm gs gs' id : gs ≡ₚ gs' -> holders_of gs port id ≡ₚ holders_of gs' port id.
Proof. intros Hp. unfold holders_of, holders. by rewrite Hp. Qed.

(** The groups of the VPC that the cache's index lists. *)
Context (groups : list sgobj) (listed : groups ≡ₚ filter (fun g => vpc_ref g = port_ref port) all).

Lemma listed_holders id : holders_of (filter (fun g => in_vpc port g) groups) port id ≡ₚ holders_of all port id.
Proof.
  rewrite holders_filter.
  - etrans; [by apply holders_perm|]. by rewrite holders_filter.
  - intros g Hg. apply Is_true_true, bool_decide_eq_true. by injection Hg.
Qed.

Lemma selects_picks g : g ∈ groups -> picks port labels g = true <-> selects g.
Proof.
  rewrite listed, list_elem_of_filter. intros [Hr _]. unfold picks, selects. rewrite !andb_true_iff, negb_true_iff.
  assert (in_vpc port g = true) by (apply bool_decide_eq_true; by injection Hr). tauto.
Qed.

Lemma admissible_of g : selects g -> valid_id (sg_ID (so_SG g)) = true ->
  admissible IsDNS1123Label IsDNS1123Subdomain (index_group (so_SG g)) = Some (sg_of g).
Proof.
  intros (Hr & Hd & _) Hv. apply andb_prop in names_ok as [Hn Ho]. rewrite <- Hr in Hn, Ho. unfold admissible, index_group.
  unfold valid_id in Hv. apply negb_true_iff, orb_false_iff in Hv as [H1 H2]. cbn [g_Deleting g_ID g_Namespace g_VPCName].
  rewrite Hd, H1, H2. cbn [orb]. cbn [vpc_ref fst snd] in Hn, Ho. rewrite Hn, Ho. cbn [negb orb]. unfold sg_of. by rewrite Hd.
Qed.

Lemma holders_valid gs id x : x ∈ holders_of gs port id -> g_ID x = id /\ valid_id id = true.
Proof.
  unfold holders_of, holders. rewrite list_elem_of_filter, list_elem_of_omap. intros [[_ <-] (y & Hy & E)]. split; [done|].
  unfold admissible in E. destruct y as [y|]; [|done]. repeat case_if; simplify_eq. unfold valid_id. to_prop. apply negb_true_iff, orb_false_iff. lia.
Qed.

Lemma proved_spec g : g ∈ groups -> selects g -> proved (membership_index port groups) port g =
  if decide (resolved all port g) then Some (sg_ID (so_SG g), so_UID g) else None.
Proof.
  intros Hin Hs. unfold proved, membership_index. rewrite NewIndex_get. fold (holders_of (filter (fun g => in_vpc port g) groups) port (sg_ID (so_SG g))).
  pose proof (listed_holders (sg_ID (so_SG g))) as Hp. unfold resolved.
  assert (Hall : g ∈ all) by (rewrite listed in Hin; by apply list_elem_of_filter in Hin as [_ ?]).
  destruct (valid_id (sg_ID (so_SG g))) eqn:Ev; cbn [negb orb].
  - assert (Hg : sg_of g ∈ holders_of all port (sg_ID (so_SG g))).
    { unfold holders_of, holders. apply list_elem_of_filter. split; [by split; [apply Hs|]|]. apply list_elem_of_omap.
      exists (index_group (so_SG g)). split; [|by apply admissible_of]. apply list_elem_of_fmap. by exists g. }
    case_bool_decide as Eu; cbn [orb]; [by rewrite decide_False by tauto|].
    destruct (holders_of (filter _ groups) port _) as [|h [|h' hs]]; cbn [default]; [apply Permutation_nil_l in Hp; rewrite <- Hp in Hg; by apply elem_of_nil in Hg| |].
    + apply Permutation_singleton_l in Hp. rewrite <- Hp in Hg. apply list_elem_of_singleton in Hg as <-.
      rewrite bool_decide_true by done. cbn [negb]. by rewrite decide_True by (by split; [|symmetry]).
    + rewrite bool_decide_false by (intros E; apply Eu; by rewrite <- E). cbn [negb]. rewrite decide_False; [done|]. intros [_ E]. rewrite E in Hp. apply Permutation_length in Hp. done.
  - rewrite decide_False; [done|]. intros [_ E]. assert (sg_of g ∈ holders_of all port (sg_ID (so_SG g))) as Hg by (rewrite E; by left).
    apply holders_valid in Hg as [_ ?]. congruence.
Qed.

(** ** What is published *)

Abbreviation picked := (filter (fun g => picks port labels g) groups).
Definition refs : list (Z * string) := omap (proved (membership_index port groups) port) picked.

Lemma picked_selects g : g ∈ picked <-> g ∈ groups /\ selects g.
Proof.
  rewrite list_elem_of_filter, Is_true_true.
  split; intros [H1 H2]; (split; [|done || by apply selects_picks]); [done|by apply selects_picks].
Qed.

Lemma refs_spec id uid : (id, uid) ∈ refs <-> exists g, g ∈ groups /\ selects g /\ resolved all port g /\ id = sg_ID (so_SG g) /\ uid = so_UID g.
Proof.
  unfold refs. rewrite list_elem_of_omap. split.
  - intros (g & [Hg Hs]%picked_selects & E). rewrite proved_spec in E by done. case_decide; simplify_eq. by exists g.
  - intros (g & Hg & Hs & Hr & -> & ->). exists g. rewrite picked_selects, proved_spec by done. by rewrite decide_True.
Qed.

(** The picked groups of a number are among its holders. *)
Lemma picked_length id : valid_id id = true ->
  (length (filter (fun g => sg_ID (so_SG g) = id) picked) <= length (holders_of groups port id))%nat.
Proof.
  intros Hv. assert (Hin : forall g, g ∈ groups -> vpc_ref g = port_ref port).
  { intros g. rewrite listed. by intros [? _]%list_elem_of_filter. }
  clear listed. unfold holders_of, holders. induction groups as [|g gs IH]; [done|]. rewrite (filter_cons _ g gs).
  assert (IH' := IH (fun g Hg => Hin g (list_elem_of_further _ _ _ Hg))). clear IH. cbn [fmap list_fmap omap list_omap].
  case_decide as Hp; [|destruct (admissible _ _ _); [rewrite filter_cons; case_decide; cbn; lia|lia]].
  apply Is_true_true in Hp. rewrite filter_cons. case_decide as Hid; [|destruct (admissible _ _ _); [rewrite filter_cons; case_decide; cbn; lia|lia]].
  unfold picks in Hp. apply andb_prop in Hp as [[_ H2]%andb_prop H3]. apply negb_true_iff in H2.
  assert (Hs : selects g) by (split_and!; [apply Hin; by left|done|done]).
  rewrite admissible_of by (done || by rewrite Hid). rewrite filter_cons_True; [cbn; lia|]. split; [apply Hs|exact Hid].
Qed.

Lemma refs_unique id : (length (filter (fun r => r.1 = id) refs) <= 1)%nat.
Proof.
  destruct (filter (fun r => r.1 = id) refs) as [|[i u] l] eqn:E; [cbn; lia|]. rewrite <- E.
  assert ((i, u) ∈ filter (fun r => r.1 = id) refs) as [Ei Hin]%list_elem_of_filter by (rewrite E; by left). cbn in Ei. subst i.
  apply refs_spec in Hin as (g & Hg & Hs & [Hu Hh] & -> & _). clear E l u.
  assert (Hv : valid_id (sg_ID (so_SG g)) = true) by (eapply (holders_valid all _ (sg_of g)); rewrite Hh; by left).
  pose proof (picked_length _ Hv) as Hl. assert (Hp : holders_of groups port (sg_ID (so_SG g)) ≡ₚ [sg_of g]).
  { rewrite <- Hh. etrans; [by apply holders_perm|]. by rewrite holders_filter. }
  apply Permutation_length in Hp. cbn in Hp. etrans; [|etrans; [exact Hl|lia]]. unfold refs. clear.
  induction picked as [|x l IH]; [done|]. cbn [omap list_omap].
  destruct (proved _ _ x) as [r|] eqn:E; [|rewrite filter_cons; case_decide; cbn; lia].
  assert (r.1 = sg_ID (so_SG x)) as Er by (unfold proved in E; case_if; by simplify_eq).
  rewrite !filter_cons, Er. case_decide; cbn; lia.
Qed.

Lemma refs_valid id uid : (id, uid) ∈ refs -> 1 <= id < MaxSecurityGroupsPerVPC.
Proof.
  intros (g & _ & _ & [_ Hh] & -> & _)%refs_spec. assert (Hv : valid_id (sg_ID (so_SG g)) = true) by (eapply (holders_valid all _ (sg_of g)); rewrite Hh; by left).
  unfold valid_id in Hv. to_prop. lia.
Qed.

Lemma refs_length : Z.of_nat (length refs) < MaxSecurityGroupsPerVPC.
Proof.
  assert (Hnd : NoDup refs.*1).
  { pose proof refs_unique as Hu. revert Hu. generalize refs. clear. intros l. induction l as [|[i u] l IH]; intros Hu; [constructor|].
    cbn [fmap list_fmap]. apply NoDup_cons. split.
    - intros ([i' u'] & E & Hin)%list_elem_of_fmap. cbn in E. subst i'. specialize (Hu i). rewrite filter_cons_True in Hu by done.
      assert ((i, u') ∈ filter (fun r => r.1 = i) l) as Hf by by apply list_elem_of_filter. cbn in Hu.
      destruct (filter _ l); [by apply elem_of_nil in Hf|cbn in Hu; lia].
    - apply IH. intros id. specialize (Hu id). rewrite filter_cons in Hu. case_decide; cbn in Hu; lia. }
  assert (Hsub : refs.*1 ⊆+ seqZ 1 (MaxSecurityGroupsPerVPC - 1)).
  { apply NoDup_submseteq; [done|]. intros id ([i u] & -> & Hin)%list_elem_of_fmap. apply refs_valid in Hin. apply elem_of_seqZ. cbn. lia. }
  apply submseteq_length in Hsub. rewrite length_fmap, length_seqZ in Hsub. unfold MaxSecurityGroupsPerVPC in *. lia.
Qed.

Definition memberships (l : list (Z * string)) : list Membership := (fun '(id, uid) => MkMembership id uid) <$> l.

Lemma naming_refs id uid : (id, uid) ∈ refs -> naming (memberships (merge_sort ref_le refs)) id = [MkMembership id uid].
Proof.
  intros Hin. assert (Hp : naming (memberships (merge_sort ref_le refs)) id ≡ₚ memberships (filter (fun r => r.1 = id) refs)).
  { unfold naming, memberships. rewrite merge_sort_Permutation. clear. induction refs as [|[i u] l IH]; [done|].
    cbn [fmap list_fmap]. rewrite !filter_cons. cbn [fst]. change (ref_ID (MkMembership i u)) with i.
    case_decide; cbn [fmap list_fmap]; [by rewrite IH|done]. }
  pose proof (refs_unique id) as Hu. assert (Hf : (id, uid) ∈ filter (fun r => r.1 = id) refs) by by apply list_elem_of_filter.
  destruct (filter (fun r => r.1 = id) refs) as [|x [|y l]]; [by apply elem_of_nil in Hf| |cbn in Hu; lia].
  apply list_elem_of_singleton in Hf as <-. by apply Permutation_singleton_r in Hp.
Qed.

(** The bitmap of the published membership, when nothing guarded it. *)
Context (c : chosen) (chosen_refs : ch_refs c = refs).
Hypothesis chosen_bits : forall n, 0 <= n -> Z.testbit (ch_selected c) n = true <->
  exists g, g ∈ picked /\ default 0 (fst <$> proved (membership_index port groups) port g) = n.

Definition bitmap : Z := Bitmap (NewIndex IsDNS1123Label IsDNS1123Subdomain ((fun g => index_group (so_SG g)) <$> all)) (index_port (publish port c)).

Lemma published_id n : n ∈ st_Groups (p_Status (publish port c)) <-> 0 <= n < MaxSecurityGroupsPerVPC /\ Z.testbit (ch_selected c) n = true.
Proof. cbn. rewrite list_elem_of_filter, elem_of_seqZ, Is_true_true. split; [intros [? ?]; split; [lia|done]|intros [? ?]; split; [done|lia]]. Qed.

Lemma published_length : Z.of_nat (length (st_Groups (p_Status (publish port c)))) <= MaxSecurityGroupsPerVPC.
Proof. cbn [publish p_Status st_Groups]. etrans; [apply inj_le, length_filter|]. rewrite length_seqZ. unfold MaxSecurityGroupsPerVPC. lia. Qed.

Lemma bitmap_bit id : 0 < id < MaxSecurityGroupsPerVPC ->
  Z.testbit bitmap id = true <-> exists g, g ∈ all /\ selects g /\ sg_ID (so_SG g) = id /\ resolved all port g.
Proof.
  intros Hid. unfold bitmap. rewrite Bitmap_proves by done.
  change (p_VPCRef (index_port (publish port c))) with (port_ref port). change (p_GroupRefs (index_port (publish port c))) with (memberships (merge_sort ref_le (ch_refs c))).
  change (p_Groups (index_port (publish port c))) with (st_Groups (p_Status (publish port c))). fold (holders_of all port id). rewrite published_id, chosen_refs.
  assert (Hall : forall g, g ∈ groups <-> g ∈ all /\ vpc_ref g = port_ref port) by (intros g; rewrite listed, list_elem_of_filter; tauto). split.
  - intros (_ & [_ (g & [Hg Hs]%picked_selects & E)%chosen_bits] & _); [|lia]. rewrite proved_spec in E by done.
    case_decide as Hr; [|cbn in E; lia]. exists g. split_and!; [by apply Hall|done|done|done].
  - intros (g & Hg & Hs & Hi & Hr). assert (Hin : g ∈ groups) by (apply Hall; split; [done|apply Hs]).
    assert (Href : (id, so_UID g) ∈ refs) by (apply refs_spec; by exists g). split_and!; [done|lia|lia| | | |].
    + apply chosen_bits; [lia|]. exists g. rewrite picked_selects, proved_spec, decide_True by done. done.
    + apply published_length.
    + unfold memberships. rewrite length_fmap, merge_sort_Permutation. apply refs_length.
    + destruct Hr as [Hu Hh]. exists (MkMembership id (so_UID g)), (sg_of g). split_and!; [by apply naming_refs|by rewrite <- Hi|done|done].
Qed.

Lemma bitmap_zero : bitmap = 0 <-> forall g, g ∈ all -> ~ selects g.
Proof.
  unfold bitmap. rewrite Bitmap_zero_iff. change (p_Groups (index_port (publish port c))) with (st_Groups (p_Status (publish port c))).
  assert (Hall : forall g, g ∈ groups <-> g ∈ all /\ vpc_ref g = port_ref port) by (intros g; rewrite listed, list_elem_of_filter; tauto). split.
  - intros [_ E] g Hg Hs. assert (Hin : g ∈ groups) by (apply Hall; split; [done|apply Hs]).
    set (n := default 0 (fst <$> proved (membership_index port groups) port g)).
    assert (Hn : 0 <= n < MaxSecurityGroupsPerVPC).
    { unfold n. rewrite proved_spec by done. case_decide as Hr; cbn; [|unfold MaxSecurityGroupsPerVPC; lia].
      assert ((sg_ID (so_SG g), so_UID g) ∈ refs) as Hx%refs_valid by (apply refs_spec; by exists g). lia. }
    assert (n ∈ st_Groups (p_Status (publish port c))) as Hx.
    { apply published_id. split; [done|]. apply chosen_bits; [lia|]. exists g. by rewrite picked_selects. }
    rewrite E in Hx. by apply elem_of_nil in Hx.
  - intros Hno. split; [done|]. destruct (st_Groups (p_Status (publish port c))) as [|n l] eqn:E; [done|]. exfalso.
    assert (n ∈ st_Groups (p_Status (publish port c))) as [Hn (g & [Hg Hs]%picked_selects & _)%chosen_bits]%published_id by (rewrite E; by left); [|lia].
    by apply (Hno g); [apply Hall|].
Qed.
End Proof.

(** The cache lists the groups of a VPC under its key. *)
Definition cache_of (all : list sgobj) (port : Port) (c : gcall) : ganswer c -> Prop :=
  match c return ganswer c -> Prop with
  | ListGroups _ => fun x => forall groups, x = Good groups -> groups ≡ₚ filter (fun g => vpc_ref g = port_ref port) all
  | _ => fun _ => True
  end.
End Controllers.

Section EndToEnd.
Context `{Selectors} (IsDNS1123Label IsDNS1123Subdomain : string -> bool).

Lemma publish_guarded (all : list sgobj) (port : Port) e :
  let b := Bitmap (NewIndex IsDNS1123Label IsDNS1123Subdomain ((fun g => index_group (so_SG g)) <$> all)) (index_port (publish port (MkChosen 1 [] (Some e)))) in
  b <> 0 /\ forall id, 0 < id < MaxSecurityGroupsPerVPC -> Z.testbit b id = false.
Proof.
  assert (Hg : p_Groups (index_port (publish port (MkChosen 1 [] (Some e)))) = [0]) by by vm_compute. cbn zeta. split.
  - rewrite Bitmap_zero_iff, Hg. by intros [_ ?].
  - intros id Hid. apply not_true_iff_false. rewrite Bitmap_proves, Hg by done. intros (_ & ->%list_elem_of_singleton & _). lia.
Qed.

(** C11. Membership end to end: after the membership of a Port was resolved and published, the
    agent's bitmap has the bit of a number exactly when a live group of the Port's VPC that
    selects the pod's labels holds it, alone; and the bitmap is empty, which leaves the pod
    unrestricted, exactly when no live group of the VPC selects the pod and nothing prevented
    the resolution. *)
Theorem membership_end_to_end (all : list sgobj) (port : Port) (labels : gmap string string) (c : chosen) :
  returns (cache_of all port) (resolve IsDNS1123Label IsDNS1123Subdomain port labels) (Good c) ->
  let b := Bitmap (NewIndex IsDNS1123Label IsDNS1123Subdomain ((fun g => index_group (so_SG g)) <$> all)) (index_port (publish port c)) in
  (forall id, 0 < id < MaxSecurityGroupsPerVPC -> Z.testbit b id = true <->
     ch_error c = None /\ exists g, g ∈ all /\ selects port labels g /\ sg_ID (so_SG g) = id /\ resolved IsDNS1123Label IsDNS1123Subdomain all port g) /\
  (b = 0 <-> ch_error c = None /\ forall g, g ∈ all -> ~ selects port labels g).
Proof.
  unfold resolve. rewrite returns_ebind. intros ([groups inputErr] & Hin & Hr). rewrite returns_ebind in Hr. destruct Hr as (_ & _ & Hr).
  rewrite returns_ebind in Hr. destruct Hr as (c1 & Hc1 & [= <-]). destruct (ch_error c1) as [e|] eqn:Ee.
  { destruct (publish_guarded all port e) as [H0 Hb]. cbn [ch_error]. split; [|split; [done|by intros [? _]]].
    intros id Hid. rewrite Hb by done. split; [done|by intros [? _]]. }
  destruct inputErr as [e|]; [by injection Hc1 as <-|]. unfold membershipVPCKeys in Hin.
  destruct (negb _ || _) eqn:Ek; [by injection Hin|]. apply orb_false_iff in Ek as [Hn%negb_false_iff Ho%negb_false_iff].
  rewrite returns_ebind in Hin. destruct Hin as (gs & Hgs & Hin). rewrite returns_wrapped in Hgs. destruct Hgs as (x & Hx & Ex). cbn in Ex. subst x.
  specialize (Hx gs eq_refl). rewrite returns_bind in Hin. destruct Hin as (r & _ & Hin). injection Hin as <- _.
  apply select_groups_fold in Hc1; [|done|done].
  destruct (select_fold (membership_index IsDNS1123Label IsDNS1123Subdomain port gs) port (filter (fun g => picks port labels g) gs) (MkChosen 0 [] None)) as [Hrefs Hbits].
  rewrite <- Hc1 in Hrefs, Hbits. cbn [ch_refs ch_selected app] in Hrefs, Hbits.
  assert (Hbits' : forall n, 0 <= n -> Z.testbit (ch_selected c1) n = true <->
    exists g, g ∈ filter (fun g => picks port labels g) gs /\ default 0 (fst <$> proved (membership_index IsDNS1123Label IsDNS1123Subdomain port gs) port g) = n).
  { intros n Hn0. rewrite Hbits, Z.bits_0 by done. naive_solver. }
  assert (Hnames : NamespaceName IsDNS1123Label (port_ref port).1 && ObjectName IsDNS1123Subdomain (port_ref port).2 = true) by by rewrite Hn, Ho.
  split.
  - intros id Hid. pose proof (bitmap_bit IsDNS1123Label IsDNS1123Subdomain all port labels Hnames gs Hx c1 Hrefs Hbits' id Hid) as Hb. unfold bitmap in Hb. rewrite Hb, Ee. tauto.
  - pose proof (bitmap_zero IsDNS1123Label IsDNS1123Subdomain all port labels Hnames gs Hx c1 Hbits') as Hb. unfold bitmap in Hb. rewrite Hb, Ee. tauto.
Qed.
End EndToEnd.

(** ** Numbers are not shared by one reconciler *)

Section Allocate.
Context (sg : sgobj) (P : forall c : gcall, ganswer c -> Prop) (rest : string -> list sgobj).
(** The pages of a list of the namespace are cut from one snapshot. *)
Hypothesis pages : forall limit token got, P (ListSGs (sg_Namespace (so_SG sg)) limit token) (Good got) -> exists tail,
  rest token = got.1 ++ tail /\ (got.2 = EmptyString /\ tail = [] \/ got.2 <> EmptyString /\ rest got.2 = tail).

Lemma used_fold l used id : id ∈ fold_left (used_visit sg) l used <->
  id ∈ used \/ exists o, o ∈ l /\ rival sg o = true /\ sg_ID (so_SG o) = id /\ valid_id id = true.
Proof.
  revert used. induction l as [|o l IH]; intros used; cbn [fold_left].
  { split; [by left|]. intros [?|(o & ?%elem_of_nil & _)]; done. }
  rewrite IH. setoid_rewrite elem_of_cons. unfold used_visit. destruct (rival sg o && _) eqn:E.
  - apply andb_prop in E as [E1 E2]. rewrite elem_of_union, elem_of_singleton. split.
    + intros [[->|?]|(x & ? & ?)]; [right; exists o; by split_and!; [left|..]|by left|right; exists x; tauto].
    + intros [?|(x & [->|Hx] & ? & <- & ?)]; [by left; right|by left; left|right; by exists x].
  - split.
    + intros [?|(x & ? & ?)]; [by left|right; exists x; tauto].
    + intros [?|(x & [->|Hx] & E1 & <- & E2)]; [by left|by rewrite E1, E2 in E|right; by exists x].
Qed.

Lemma first_free (Q : Z -> Prop) `{forall z, Decision (Q z)} n len :
  match head (filter Q (seqZ n len)) with
  | Some id => n <= id < n + len /\ Q id /\ forall z, n <= z < id -> ~ Q z
  | None => forall z, n <= z < n + len -> ~ Q z
  end.
Proof.
  destruct (decide (len <= 0)) as [Hl|Hl]; [rewrite seqZ_nil by done; cbn; intros; lia|].
  assert (exists k, len = Z.of_nat k) as [k ->] by (exists (Z.to_nat len); lia). clear Hl. revert n.
  induction k as [|k IH]; intros n; [rewrite seqZ_nil by done; cbn [filter list_filter head]; intros; lia|].
  rewrite seqZ_cons, filter_cons by lia. destruct (decide (Q n)) as [HQ|HQ]; cbn [head].
  - split_and!; [lia|lia|done|intros; lia].
  - specialize (IH (Z.succ n)). replace (Z.pred (Z.of_nat (S k))) with (Z.of_nat k) by lia.
    destruct (head _) as [id|].
    + destruct IH as (? & ? & Hlow). split_and!; [lia|lia|done|]. intros z Hz. destruct (decide (z = n)) as [->|]; [done|]. apply Hlow. lia.
    + intros z Hz. destruct (decide (z = n)) as [->|]; [done|]. apply IH. lia.
Qed.

(** A number that is handed out is the lowest one no other group of the VPC holds; none is
    handed out only when all are held. *)
Theorem allocateID_lowest id : returns P (allocateID sg) (Good id) ->
  let taken z := exists o, o ∈ rest EmptyString /\ rival sg o = true /\ sg_ID (so_SG o) = z in
  (valid_id id = true /\ ~ taken id /\ forall z, 0 < z < id -> taken z) \/
  (id = 0 /\ forall z, 0 < z < MaxSecurityGroupsPerVPC -> taken z).
Proof.
  unfold allocateID, walkSecurityGroupClaims. rewrite returns_ebind. intros (used & Hu & [= <-]). rewrite returns_wrapped in Hu.
  unfold WalkClaims in Hu. apply (walk_returns P gctx _ (used_visit sg) rest) in Hu.
  2: { intros limit token got (x & Hx & Ex). cbn in Ex. subst x. by apply pages in Hx. }
  assert (Htaken : forall z, 0 < z < MaxSecurityGroupsPerVPC -> z ∈ used <-> exists o, o ∈ rest EmptyString /\ rival sg o = true /\ sg_ID (so_SG o) = z).
  { intros z Hz. rewrite Hu, used_fold. assert (valid_id z = true) by (unfold valid_id; apply negb_true_iff, orb_false_iff; lia). set_solver. }
  pose proof (first_free (fun id => id ∉ used) 1 (MaxSecurityGroupsPerVPC - 1)) as Hf. cbn zeta.
  destruct (head _) as [n|]; cbn [default from_option Datatypes.id].
  - destruct Hf as (Hr & Hn & Hlow). left. split_and!.
    + unfold valid_id. apply negb_true_iff, orb_false_iff. lia.
    + intros Ht. apply Hn, Htaken; [lia|done].
    + intros z Hz. apply Htaken; [lia|]. destruct (decide (z ∈ used)); [done|]. destruct (Hlow z); [lia|done].
  - right. split; [done|]. intros z Hz. apply Htaken; [lia|]. destruct (decide (z ∈ used)); [done|]. destruct (Hf z); [lia|done].
Qed.
End Allocate.

(** ** A run *)

Definition demo_sg (name app : string) (id : Z) : sgobj :=
  MkSgo 0 "Ready" (MkSGObj (MkMeta name "t" name 1 false ∅ ∅ []) "net" (MkLabelSelector {["app" := app]} []) [] [] id).
(** Two groups select the pod, [late] has no number yet, [db] selects another pod. *)
Definition demo_groups : list sgobj := [demo_sg "front" "web" 3; demo_sg "late" "web" 0; demo_sg "db" "db" 4].
Definition demo_port : Port :=
  MkPort (MkMeta "net-10" EmptyString "p" 1 false {[LabelPodUID := "pod"]} ∅ [])
    (MkPortSpec (MkVPCRef "t" "net") "10.0.0.5" EmptyString EmptyString EmptyString "t" "web-0" false false true)
    (MkPortStatus [] [] EmptyString).
Definition demo_answers (c : gcall) : ganswer c :=
  match c with
  | GCtxErr => None
  | ListGroups _ => Good demo_groups
  | GetSG _ _ | ListSGs _ _ _ | GetPort _ | GetPod _ _ => Bad (errorf "unused")
  | UpdateSG _ | UpdatePort _ => Good tt
  end.
Definition demo_resolve : outcome chosen :=
  feed demo_answers (resolve (H := label_selectors) (fun _ => true) (fun _ => true) demo_port {["app" := "web"]}).

Lemma demo_cached c : cache_of demo_groups demo_port c (demo_answers c).
Proof. destruct c; try exact I. intros groups [= <-]. by vm_compute. Qed.

Lemma demo_resolved : demo_resolve = Good (MkChosen 9 [(3, "front")] None).
Proof. by vm_compute. Qed.

(** The pod is in group 3 and, for [late], under the guard. *)
Lemma membership_end_to_end_witness :
  Z.testbit (Bitmap (NewIndex (fun _ => true) (fun _ => true) ((fun g => index_group (so_SG g)) <$> demo_groups))
    (index_port (publish demo_port (MkChosen 9 [(3, "front")] None)))) 3 = true.
Proof.
  apply (proj2 (proj1 (membership_end_to_end (H := label_selectors) (fun _ => true) (fun _ => true) demo_groups demo_port {["app" := "web"]}
    (MkChosen 9 [(3, "front")] None) (eq_rect _ (returns _ _) (feed_returns _ _ _ demo_cached) _ demo_resolved)) 3 (conj eq_refl eq_refl))).
  split; [reflexivity|]. exists (demo_sg "front" "web" 3). split; [apply list_elem_of_here|]. split_and!; [by vm_compute..|].
  split; [discriminate|by vm_compute].
Defined.

(** All the groups come in one page. *)
Definition demo_listing (c : gcall) : ganswer c :=
  match c with
  | ListSGs _ _ _ => Good (demo_groups, EmptyString)
  | c => demo_answers c
  end.

Lemma demo_allocated : feed demo_listing (allocateID (demo_sg "late" "web" 0)) = Good 1.
Proof. by vm_compute. Qed.

Lemma allocateID_lowest_witness : valid_id 1 = true /\ forall o, o ∈ demo_groups -> rival (demo_sg "late" "web" 0) o = true -> sg_ID (so_SG o) <> 1.
Proof.
  destruct (allocateID_lowest (demo_sg "late" "web" 0) (fun c x => match c return ganswer c -> Prop with ListSGs _ _ _ => fun x => x = Good (demo_groups, EmptyString) | _ => fun _ => True end x)
    (fun _ => demo_groups)) with (id := 1) as [(Hv & Hn & _)|[? _]].
  - intros limit token got [= ->]. exists []. by split; [|left].
  - rewrite <- demo_allocated. apply feed_returns. by intros [].
  - split; [exact Hv|]. intros o Ho Hr He. apply Hn. by exists o.
  - discriminate.
Defined.
