(* ===== verification/PortGc.v ===== *)
(** * Garbage collection of Ports (internal/controller/sdn/port_gc_controller.go, port_gc_sandbox.go)

    A Port is an address in use; the collector frees the ones nobody will release: Ports whose
    pod is gone or finished, Ports of a sandbox the pod has left, and terminating Ports whose
    node no longer exists.  The reads come from a cache that may be old, so it confirms each
    verdict against the server before it acts.  Shown here: with any number of collectors, stale
    caches, failing calls and lost answers, no Port of a living pod is ever deleted for its pod
    being gone; and on a server that is up a collection does exactly what the objects ask for. *)
From S2P Require Import Prelude GoText GoNet AddrText AddrMap Grants ClaimNames Registry SgCompile ApiCalls PodLabels SgMembers.
Local Open Scope Z_scope.
Local Open Scope api_scope.

(** ** Objects and calls *)

(** A Port with its creation time, which may be absent. *)
Record gport := MkGPort { gp_Created : option Z; gp_Port : Port }.
Definition gp_Meta (p : gport) : ObjectMeta := p_Meta (gp_Port p).
Definition gp_Node (p : gport) : string := s_Node (p_Spec (gp_Port p)).
Definition gp_Label (p : gport) (k : string) : string := at_key (m_Labels (gp_Meta p)) k.
(** The claimant a Port records. *)
Definition claimant (p : gport) : string * string := (gp_Label p LabelPodNamespace, gp_Label p LabelPodName).
Definition claimant_uid (p : gport) : string := gp_Label p LabelPodUID.
#[export] Instance gport_eq_dec : EqDecision gport. Proof. solve_decision. Defined.

(** [corev1.Pod]. *)
Record gpod := MkGPod { pd_Namespace : string; pd_Name : string; pd_UID : string; pd_Phase : string; pd_IPs : list string; pd_Node : string }.
Definition pd_Key (p : gpod) : string * string := (pd_Namespace p, pd_Name p).
(** [FabricIPSpec], with the deletion of its [FabricIP], api/localsdn/v1alpha1/fabricip_types.go:55-84. *)
Record FabricIP := MkFabric {
  fi_Deleting : bool; fi_Address : string; fi_Node : string; fi_PodNamespace : string; fi_PodName : string; fi_PodUID : string;
  fi_ContainerID : string; fi_IfName : string
}.

(** A read goes to the cache or to the server. *)
Inductive source := Cached | Live.
Inductive gc_call :=
| GcPort (name : string)
| GcNode (from : source) (name : string)
| GcPod (from : source) (key : string * string)
| GcClaim (from : source) (name : string)
(** [time.Now]. *)
| GcNow
| GcUpdate (p : gport)
(** A delete with the UID and the resource version of the object as its preconditions. *)
| GcDelete (p : gport).
Definition gc_answer (c : gc_call) : Type :=
  match c with
  | GcPort _ => outcome gport
  | GcNode _ _ => outcome unit
  | GcPod _ _ => outcome gpod
  | GcClaim _ _ => outcome FabricIP
  | GcNow => Z
  | GcUpdate _ | GcDelete _ => outcome unit
  end.
Abbreviation gcprog := (eprog gc_answer).

(** [FinalizerSever], api/sdn/v1alpha1/labels.go:142-142. *)
Definition FinalizerSever : string := "sdn.cozystack.io/sever".
(** [AnnotationCNIIfName], api/sdn/v1alpha1/labels.go:96-96. *)
Definition AnnotationCNIIfName : string := "sdn.cozystack.io/cni-ifname".
Definition PodRunning : string := "Running".
(** [portSandboxGracePeriod], internal/controller/sdn/port_gc_sandbox.go:18-18. *)
Definition portSandboxGracePeriod : Z := 300 * Second.

(** ** The collector *)

(** [client.IgnoreNotFound]. *)
Definition ignoreNotFound {A} (a : A) (e : apierr) : gcprog A := if has_reason NotFound e then good a else fail e.

(** [currentPodSandbox], the claim of one address, internal/controller/sdn/port_gc_sandbox.go:94-98. *)
Definition claim_fits (pod : gpod) (ifName : string) (ip : IP) (c : FabricIP) : bool :=
  negb (fi_Deleting c || bool_decide (fi_ContainerID c = EmptyString) || negb (bool_decide (fi_IfName c = ifName)) ||
        negb (bool_decide (fi_PodUID c = pd_UID pod)) || negb (bool_decide (fi_PodNamespace c = pd_Namespace pod)) ||
        negb (bool_decide (fi_PodName c = pd_Name pod)) || negb (bool_decide (fi_Node c = pd_Node pod)) ||
        negb (IP_Equal ip (ParseIP (fi_Address c)))).

(** [currentPodSandbox], the loop over the addresses, internal/controller/sdn/port_gc_sandbox.go:85-104. *)
Fixpoint sandbox_of (from : source) (pod : gpod) (ifName : string) (ips : list string) (containerID : string) : gcprog string :=
  match ips with
  | [] => good containerID
  | address :: ips =>
      let ip := ParseIP address in
      if decide (ip = []) then good EmptyString
      else
        Do (GcClaim from (FabricIPName (IP_String ip))) (fun r =>
          match r with
          | Bad e => ignoreNotFound EmptyString e
          | Good c =>
              if negb (claim_fits pod ifName ip c) then good EmptyString
              else if negb (bool_decide (containerID = EmptyString)) && negb (bool_decide (containerID = fi_ContainerID c)) then good EmptyString
              else sandbox_of from pod ifName ips (fi_ContainerID c)
          end)
  end.

(** [currentPodSandbox], internal/controller/sdn/port_gc_sandbox.go:80-105. *)
Definition currentPodSandbox (from : source) (pod : gpod) (ifName : string) : gcprog string :=
  if bool_decide (pd_IPs pod = []) || (2 <? Z.of_nat (length (pd_IPs pod))) || bool_decide (pd_Node pod = EmptyString) then good EmptyString
  else sandbox_of from pod ifName (pd_IPs pod) EmptyString.

(** [reapObsoleteSandbox], internal/controller/sdn/port_gc_sandbox.go:43-75. *)
Definition reapObsoleteSandbox (port : gport) (pod : gpod) : gcprog reconciled :=
  let containerID := at_key (m_Annotations (gp_Meta port)) AnnotationContainerID in
  let ifName := at_key (m_Annotations (gp_Meta port)) AnnotationCNIIfName in
  match gp_Created port with
  | None => good Done
  | Some created =>
      if bool_decide (containerID = EmptyString) || negb (bool_decide (ifName = "eth0")) ||
         bool_decide (claimant_uid port = EmptyString) || negb (bool_decide (pd_UID pod = claimant_uid port)) ||
         negb (bool_decide (pd_Phase pod = PodRunning))
      then good Done
      else
        Do GcNow (fun now =>
          let remaining := portSandboxGracePeriod - (now - created) in
          if 0 <? remaining then good (RequeueAfter remaining)
          else
            current <~ currentPodSandbox Cached pod ifName ;;
            if bool_decide (current = EmptyString) || bool_decide (current = containerID) then good Done
            else
              Do (GcPod Live (pd_Key pod)) (fun r =>
                match r with
                | Bad e => ignoreNotFound Done e
                | Good livePod =>
                    if negb (bool_decide (pd_UID livePod = pd_UID pod)) || negb (bool_decide (pd_Phase livePod = PodRunning)) then good Done
                    else
                      current <~ currentPodSandbox Live livePod ifName ;;
                      if bool_decide (current = EmptyString) || bool_decide (current = containerID) then good Done
                      else
                        Do (GcDelete port) (fun r =>
                          match r with
                          | Good _ => good Done
                          | Bad e => if has_reason NotFound e then good Done else fail (wrap "gc obsolete sandbox Port" e)
                          end)
                end))
  end.

(** [reapIfAbandoned], the claimant is there and not finished,
    internal/controller/sdn/port_gc_controller.go:148-151. *)
Definition claimantActive (port : gport) (pod : gpod) : bool :=
  bool_decide (claimant_uid port = EmptyString) ||
  bool_decide (pd_UID pod = claimant_uid port) && negb (bool_decide (pd_Phase pod = "Succeeded")) && negb (bool_decide (pd_Phase pod = "Failed")).

(** [reapIfAbandoned], internal/controller/sdn/port_gc_controller.go:136-174. *)
Definition reapIfAbandoned (port : gport) : gcprog reconciled :=
  if negb (bool_decide (gp_Label port LabelVMName = EmptyString)) then good Done
  else if bool_decide ((claimant port).1 = EmptyString) || bool_decide ((claimant port).2 = EmptyString) then good Done
  else
    let confirm :=
      Do (GcPod Live (claimant port)) (fun r =>
        let delete :=
          Do (GcDelete port) (fun r =>
            match r with
            | Good _ => good Done
            | Bad e => if has_reason NotFound e then good Done else fail (wrap "gc abandoned port" e)
            end) in
        match r with
        | Good pod => if claimantActive port pod then good Done else delete
        | Bad e => if has_reason NotFound e then delete else fail (wrap "confirm claimant pod" e)
        end) in
    Do (GcPod Cached (claimant port)) (fun r =>
      match r with
      | Good pod => if claimantActive port pod then reapObsoleteSandbox port pod else confirm
      | Bad e => if has_reason NotFound e then confirm else fail (wrap "get claimant pod" e)
      end).

(** The Port without its sever finalizer. *)
Definition set_finalizers (fs : list string) (p : gport) : gport :=
  let m := gp_Meta p in
  MkGPort (gp_Created p) (MkPort (MkMeta (m_Name m) (m_Namespace m) (m_UID m) (m_ResourceVersion m) (m_Deleting m) (m_Labels m) (m_Annotations m) fs)
    (p_Spec (gp_Port p)) (p_Status (gp_Port p))).
Definition unsevered (p : gport) : gport := set_finalizers (filter (fun f => f <> FinalizerSever) (m_Finalizers (gp_Meta p))) p.

(** [PortGCReconciler.Reconcile], the release, internal/controller/sdn/port_gc_controller.go:119-130. *)
Definition release (port : gport) : gcprog reconciled :=
  Do (GcUpdate (unsevered port)) (fun r =>
    match r with
    | Good _ => good Done
    | Bad e => if has_reason Conflict e then good Requeue else fail (wrap "release sever finalizer" e)
    end).

(** [PortGCReconciler.Reconcile], internal/controller/sdn/port_gc_controller.go:91-131. *)
Definition gc_Reconcile (name : string) : gcprog reconciled :=
  Do (GcPort name) (fun r =>
    match r with
    | Bad e => ignoreNotFound Done e
    | Good port =>
        if negb (m_Deleting (gp_Meta port)) then reapIfAbandoned port
        else if negb (bool_decide (FinalizerSever ∈ m_Finalizers (gp_Meta port))) then good Done
        else if bool_decide (gp_Node port = EmptyString) then release port
        else
          Do (GcNode Cached (gp_Node port)) (fun r =>
            match r with
            | Good _ => good Done
            | Bad e =>
                if negb (has_reason NotFound e) then fail (wrap "get node" e)
                else
                  Do (GcNode Live (gp_Node port)) (fun r =>
                    match r with
                    | Good _ => good Done
                    | Bad e => if negb (has_reason NotFound e) then fail (wrap "confirm node" e) else release port
                    end)
            end)
    end).

(** ** The API server *)

(** Beside the objects: every version of them stored so far, which a cache may still return, the
    UIDs of all pods ever created, and what the server answered to which run. *)
Record server := MkServer {
  sv_rev : Z;
  sv_ports : gmap string gport;
  sv_seen : list gport;
  sv_pods : gmap (string * string) gpod;
  sv_pods_seen : list gpod;
  sv_uids : gset string;
  sv_nodes : gset string;
  sv_claims : gmap string FabricIP;
  sv_claims_seen : list (string * FabricIP);
  sv_clock : Z;
  (** The runs that were told there is no such pod, and no such node. *)
  sv_no_pod : gset (nat * (string * string));
  sv_no_node : gset (nat * string)
}.

Definition set_ports (rev : Z) (m : gmap string gport) (seen : list gport) (s : server) : server :=
  MkServer rev m seen (sv_pods s) (sv_pods_seen s) (sv_uids s) (sv_nodes s) (sv_claims s) (sv_claims_seen s) (sv_clock s) (sv_no_pod s) (sv_no_node s).
Definition set_pods (m : gmap (string * string) gpod) (seen : list gpod) (uids : gset string) (s : server) : server :=
  MkServer (sv_rev s) (sv_ports s) (sv_seen s) m seen uids (sv_nodes s) (sv_claims s) (sv_claims_seen s) (sv_clock s) (sv_no_pod s) (sv_no_node s).
Definition set_rest (nodes : gset string) (claims : gmap string FabricIP) (seen : list (string * FabricIP)) (clock : Z) (s : server) : server :=
  MkServer (sv_rev s) (sv_ports s) (sv_seen s) (sv_pods s) (sv_pods_seen s) (sv_uids s) nodes claims seen clock (sv_no_pod s) (sv_no_node s).
Definition told (pods : gset (nat * (string * string))) (nodes : gset (nat * string)) (s : server) : server :=
  MkServer (sv_rev s) (sv_ports s) (sv_seen s) (sv_pods s) (sv_pods_seen s) (sv_uids s) (sv_nodes s) (sv_claims s) (sv_claims_seen s) (sv_clock s)
    (pods ∪ sv_no_pod s) (nodes ∪ sv_no_node s).

Definition gp_Name (p : gport) : string := m_Name (gp_Meta p).
Definition gp_UID (p : gport) : string := m_UID (gp_Meta p).
Definition gp_RV (p : gport) : Z := m_ResourceVersion (gp_Meta p).
Definition set_RV (rv : Z) (deleting : bool) (p : gport) : gport :=
  let m := gp_Meta p in
  MkGPort (gp_Created p) (MkPort (MkMeta (m_Name m) (m_Namespace m) (m_UID m) rv deleting (m_Labels m) (m_Annotations m) (m_Finalizers m))
    (p_Spec (gp_Port p)) (p_Status (gp_Port p))).

(** A write stores the object under a new resource version; a terminating object without
    finalizers is removed. *)
Definition store (p : gport) (s : server) : server :=
  let p := set_RV (sv_rev s + 1) (m_Deleting (gp_Meta p)) p in
  if m_Deleting (gp_Meta p) && bool_decide (m_Finalizers (gp_Meta p) = [])
  then set_ports (sv_rev s + 1) (delete (gp_Name p) (sv_ports s)) (sv_seen s) s
  else set_ports (sv_rev s + 1) (<[gp_Name p := p]> (sv_ports s)) (p :: sv_seen s) s.
(** A delete of a live object: it starts to terminate. *)
Definition terminate (p : gport) (s : server) : server := store (set_RV (gp_RV p) true p) s.
(** What the registry stores for an update of [live]; creation time, UID and deletion are the server's. *)
Definition update_of (p live : gport) : gport :=
  let q := port_PrepareForUpdate (gp_Port p) (gp_Port live) in
  set_RV (gp_RV live) (m_Deleting (gp_Meta live)) (MkGPort (gp_Created live) q).

(** What the server may answer to a call of run [r]: a cached read is a version there was, a live
    read is the present one, a write may fail, and may be applied whatever the answer. *)
Definition serve (r : nat) (s : server) (c : gc_call) : gc_answer c -> server -> Prop :=
  match c return gc_answer c -> server -> Prop with
  | GcPort name => fun x s' => s' = s /\ forall p, x = Good p -> p ∈ sv_seen s /\ gp_Name p = name
  | GcNode Cached _ => fun _ s' => s' = s
  | GcNode Live name => fun x s' =>
      match x with
      | Good _ => s' = s
      | Bad e => if has_reason NotFound e then name ∉ sv_nodes s /\ s' = told ∅ {[(r, name)]} s else s' = s
      end
  | GcPod Cached key => fun x s' => s' = s /\ forall p, x = Good p -> p ∈ sv_pods_seen s /\ pd_Key p = key
  | GcPod Live key => fun x s' =>
      match x with
      | Good p => s' = s /\ sv_pods s !! key = Some p
      | Bad e => if has_reason NotFound e then sv_pods s !! key = None /\ s' = told {[(r, key)]} ∅ s else s' = s
      end
  | GcClaim Cached name => fun x s' => s' = s /\ forall c, x = Good c -> (name, c) ∈ sv_claims_seen s
  | GcClaim Live name => fun x s' => s' = s /\ forall c, x = Good c -> sv_claims s !! name = Some c
  | GcNow => fun x s' => s' = s /\ x = sv_clock s
  | GcUpdate p => fun x s' => (exists e, x = Bad e) /\ s' = s \/
      exists live, sv_ports s !! gp_Name p = Some live /\ gp_RV live = gp_RV p /\ gp_UID live = gp_UID p /\ s' = store (update_of p live) s
  | GcDelete p => fun x s' => (exists e, x = Bad e) /\ s' = s \/
      exists live, sv_ports s !! gp_Name p = Some live /\ gp_UID live = gp_UID p /\ gp_RV live = gp_RV p /\
        s' = if m_Deleting (gp_Meta live) then s else terminate live s
  end.

(** ** The system *)

Definition finished (p : gpod) : Prop := pd_Phase p = "Succeeded" \/ pd_Phase p = "Failed".

(** The other clients: Ports are created, changed and removed at will, but a Port names only
    pods that were created; a new pod has a new UID, a finished pod stays finished. *)
Inductive env : server -> server -> Prop :=
| env_port s p : claimant_uid p = EmptyString \/ claimant_uid p ∈ sv_uids s -> env s (store p s)
| env_port_gone s name : env s (set_ports (sv_rev s + 1) (delete name (sv_ports s)) (sv_seen s) s)
| env_pod_new s p : sv_pods s !! pd_Key p = None -> pd_UID p ∉ sv_uids s ->
    env s (set_pods (<[pd_Key p := p]> (sv_pods s)) (p :: sv_pods_seen s) ({[pd_UID p]} ∪ sv_uids s) s)
| env_pod_change s p old : sv_pods s !! pd_Key p = Some old -> pd_UID p = pd_UID old -> (finished old -> finished p) ->
    env s (set_pods (<[pd_Key p := p]> (sv_pods s)) (p :: sv_pods_seen s) (sv_uids s) s)
| env_pod_gone s key : env s (set_pods (delete key (sv_pods s)) (sv_pods_seen s) (sv_uids s) s)
| env_rest s nodes claims clock : sv_clock s <= clock ->
    env s (set_rest nodes claims (map_to_list claims ++ sv_claims_seen s) clock s).

Record sys := MkSys { y_srv : server; y_runs : gmap nat (gcprog reconciled) }.
Inductive step : sys -> sys -> Prop :=
| step_start s runs r name : runs !! r = None -> step (MkSys s runs) (MkSys s (<[r := gc_Reconcile name]> runs))
| step_call s s' runs r c k x : runs !! r = Some (Do c k) -> serve r s c x s' -> step (MkSys s runs) (MkSys s' (<[r := k x]> runs))
| step_env s s' runs : env s s' -> step (MkSys s runs) (MkSys s' runs).

(** Every version of a Port has its own resource version. *)
Record inv (s : server) : Prop := MkInv {
  iv_live n p : sv_ports s !! n = Some p -> p ∈ sv_seen s /\ gp_Name p = n;
  iv_rev p : p ∈ sv_seen s -> gp_RV p <= sv_rev s;
  iv_inj p q : p ∈ sv_seen s -> q ∈ sv_seen s -> gp_RV p = gp_RV q -> p = q;
  iv_uid p : p ∈ sv_seen s -> claimant_uid p = EmptyString \/ claimant_uid p ∈ sv_uids s;
  iv_pod key p : sv_pods s !! key = Some p -> p ∈ sv_pods_seen s /\ pd_Key p = key;
  iv_claim name c : sv_claims s !! name = Some c -> (name, c) ∈ sv_claims_seen s
}.
Definition reachable (s0 : server) : sys -> Prop := rtc step (MkSys s0 ∅).

(** ** What a collector may do *)

(** The pod of that UID existed, and is gone or finished. *)
Definition dead (s : server) (key : string * string) (uid : string) : Prop :=
  uid ∈ sv_uids s /\ forall p, sv_pods s !! key = Some p -> pd_UID p = uid -> finished p.

(** Every address of the pod was claimed for container [c]. *)
Definition runs_in (s : server) (pod : gpod) (c : string) : Prop :=
  (0 < length (pd_IPs pod) <= 2)%nat /\ pd_Node pod <> EmptyString /\
  forall a, a ∈ pd_IPs pod -> ParseIP a <> [] /\
    exists f, (FabricIPName (IP_String (ParseIP a)), f) ∈ sv_claims_seen s /\ claim_fits pod "eth0" (ParseIP a) f = true /\ fi_ContainerID f = c.
(** The Port is older than the grace period and the pod, running, had moved to another sandbox. *)
Definition moved (s : server) (p : gport) : Prop := exists created pod c,
  gp_Created p = Some created /\ portSandboxGracePeriod <= sv_clock s - created /\
  pod ∈ sv_pods_seen s /\ pd_Key pod = claimant p /\ pd_UID pod = claimant_uid p /\ pd_Phase pod = PodRunning /\
  runs_in s pod c /\ c <> EmptyString /\ c <> at_key (m_Annotations (gp_Meta p)) AnnotationContainerID.

Definition abandoned (r : nat) (s : server) (p : gport) : Prop :=
  gp_Label p LabelVMName = EmptyString /\ (claimant p).1 <> EmptyString /\ (claimant p).2 <> EmptyString /\
  (claimant_uid p = EmptyString /\ (r, claimant p) ∈ sv_no_pod s \/
   claimant_uid p <> EmptyString /\ (dead s (claimant p) (claimant_uid p) \/ moved s p)).

(** What is left of a terminating Port: nothing once it has no finalizers. *)
Definition left_over (s : server) (p : gport) : option gport :=
  if decide (m_Finalizers (gp_Meta p) = []) then None else Some (set_RV (sv_rev s + 1) true p).

(** A live Port may be deleted when it is abandoned; of a terminating one the sever finalizer may
    be released when its node is gone. *)
Definition lawful (r : nat) (s : server) (p : gport) (after : option gport) : Prop :=
  if m_Deleting (gp_Meta p) then
    FinalizerSever ∈ m_Finalizers (gp_Meta p) /\ (gp_Node p = EmptyString \/ (r, gp_Node p) ∈ sv_no_node s) /\ after = left_over s (unsevered p)
  else abandoned r s p /\ after = left_over s p.
Definition lawful_step (r : nat) (s s' : server) : Prop := forall n,
  sv_ports s' !! n = sv_ports s !! n \/ exists p, sv_ports s !! n = Some p /\ lawful r s p (sv_ports s' !! n).

(** What no client undoes. *)
Record evolves (s s' : server) : Prop := MkEvolves {
  ev_seen : sv_seen s ⊆ sv_seen s';
  ev_pods_seen : sv_pods_seen s ⊆ sv_pods_seen s';
  ev_claims_seen : sv_claims_seen s ⊆ sv_claims_seen s';
  ev_uids : sv_uids s ⊆ sv_uids s';
  ev_clock : sv_clock s <= sv_clock s';
  ev_no_pod : sv_no_pod s ⊆ sv_no_pod s';
  ev_no_node : sv_no_node s ⊆ sv_no_node s';
  ev_dead key uid : dead s key uid -> dead s' key uid
}.
#[local] Instance evolves_preorder : PreOrder evolves.
Proof.
  split.
  - intros s. by split.
  - intros s s1 s2 [] []. split; eauto; try by etrans.
Qed.

(** ** Every step keeps to it *)

Lemma store_inv p s : claimant_uid p = EmptyString \/ claimant_uid p ∈ sv_uids s -> inv s -> inv (store p s).
Proof.
  intros Hu [H1 H2 H3 H4 H5 H6]. unfold store. set (q := set_RV _ _ p). assert (gp_RV q = sv_rev s + 1) as Hq by done.
  case_match.
  - split; cbn; [|intros x Hx; specialize (H2 x Hx); lia|done..]. intros n x [_ Hx]%lookup_delete_Some. by apply H1.
  - split; cbn; [| | | |done|done].
    + intros n x [[<- <-]|[_ Hx]]%lookup_insert_Some; [split; [by left|done]|]. destruct (H1 n x Hx). split; [by right|done].
    + intros x [->|Hx]%elem_of_cons; [lia|]. specialize (H2 x Hx). lia.
    + intros x y [->|Hx]%elem_of_cons [->|Hy]%elem_of_cons; intros E; [done|specialize (H2 y Hy); lia|specialize (H2 x Hx); lia|by apply H3].
    + intros x [->|Hx]%elem_of_cons; [exact Hu|by apply H4].
Qed.

Lemma store_evolves p s : evolves s (store p s).
Proof. unfold store. case_match; split; cbn; (done || set_solver). Qed.

Lemma gc_env_ok s s' : env s s' -> inv s -> evolves s s' /\ inv s'.
Proof.
  intros [s1 p Hu|s1 name|s1 p Hn Hu|s1 p old Ho Eu Hf|s1 key|s1 nodes claims clock Hc] Hi.
  - split; [apply store_evolves|by apply store_inv].
  - split; [by split|]. destruct Hi as [H1 H2 H3 H4 H5 H6]. split; cbn; [|intros x Hx; specialize (H2 x Hx); lia|done..].
    intros n x [_ Hx]%lookup_delete_Some. by apply H1.
  - split.
    + split; cbn; try (done || set_solver). intros key uid [Hin Hd]. split; [set_solver|]. cbn. intros q [[<- <-]|[_ Hq]]%lookup_insert_Some Eq; [congruence|by apply Hd].
    + destruct Hi as [H1 H2 H3 H4 H5 H6]. split; cbn; [done|done|done|set_solver| |done].
      intros key q [[<- <-]|[_ Hq]]%lookup_insert_Some; [split; [by left|done]|]. destruct (H5 key q Hq). split; [by right|done].
  - split.
    + split; cbn; try (done || set_solver). intros key uid [Hin Hd]. split; [done|]. cbn.
      intros q [[<- <-]|[_ Hq]]%lookup_insert_Some Eq; [apply Hf, (Hd old); congruence|by apply Hd].
    + destruct Hi as [H1 H2 H3 H4 H5 H6]. split; cbn; [done..| |done].
      intros key q [[<- <-]|[_ Hq]]%lookup_insert_Some; [split; [by left|done]|]. destruct (H5 key q Hq). split; [by right|done].
  - split.
    + split; cbn; try done. intros k uid [Hin Hd]. split; [done|]. cbn. intros q [_ Hq]%lookup_delete_Some. by apply Hd.
    + destruct Hi as [H1 H2 H3 H4 H5 H6]. split; cbn; [done..| |done]. intros k q [_ Hq]%lookup_delete_Some. by apply H5.
  - split; [split; cbn; try (done || set_solver)|]. destruct Hi as [H1 H2 H3 H4 H5 H6]. split; cbn; [done..|].
    intros name c Hn. apply elem_of_app. left. by apply elem_of_map_to_list.
Qed.

(** A collector writes back only what it read. *)
Definition own (s : server) (c : gc_call) : Prop :=
  match c with GcUpdate p => claimant_uid p = EmptyString \/ claimant_uid p ∈ sv_uids s | _ => True end.
Definition quiet (c : gc_call) : bool := match c with GcUpdate _ | GcDelete _ => false | _ => true end.

Lemma told_ok pods nodes s : inv s -> evolves s (told pods nodes s) /\ inv (told pods nodes s).
Proof. intros []. split; [split; cbn; (done || set_solver)|by split]. Qed.

Lemma serve_ok r s c x s' : serve r s c x s' -> own s c -> inv s -> evolves s s' /\ inv s'.
Proof.
  intros Hs Ho Hi. assert (evolves s s /\ inv s) as Hr by done. destruct c as [name|[] name|[] key|[] name| |p|p]; cbn in Hs, Ho.
  all: repeat (case_match; destruct_and?; subst; try done); destruct_and?; subst; try done; try by apply told_ok.
  - destruct Hs as [[_ ->]|(live & _ & _ & _ & ->)]; [done|]. split; [apply store_evolves|by apply store_inv].
  - destruct Hs as [[_ ->]|(live & Hl & _ & _ & ->)]; [done|]. case_match; [done|].
    split; [apply store_evolves|]. apply store_inv; [|done]. destruct Hi as [I1 _ _ I4 _ _]. by destruct (I4 live (proj1 (I1 _ _ Hl))); [left|right].
Qed.

Lemma serve_quiet r s c x s' : quiet c = true -> serve r s c x s' -> sv_ports s' = sv_ports s.
Proof. intros Hq Hs. destruct c as [name|[] name|[] key|[] name| |p|p]; try done; cbn in Hs; repeat (case_match; destruct_and?; subst; try done); by destruct_and?; subst. Qed.

(** The server with a claim about the past. *)
Definition evolves' (w w' : server * Prop) : Prop := evolves w.1 w'.1 /\ (w.2 -> w'.2).
Definition inv' (w : server * Prop) : Prop := inv w.1 /\ w.2.
#[local] Instance evolves'_preorder : PreOrder evolves'.
Proof.
  split; [intros w; by split|]. intros w w1 w2 [? ?] [? ?]. split; [by etrans|auto].
Qed.

Section Collector.
Context (r : nat).

(** The calls of run [r], with a claim that all of them were lawful so far. *)
Definition serve_lawful (w : server * Prop) (c : gc_call) (x : gc_answer c) (w' : server * Prop) : Prop :=
  serve r w.1 c x w'.1 /\ w'.2 = (w.2 /\ lawful_step r w.1 w'.1).

Abbreviation ok := (rg serve_lawful evolves' inv').

Lemma ok_do {A} (Q : A -> server * Prop -> Prop) c k w :
  (forall s x s', evolves w.1 s -> inv s -> serve r s c x s' -> own s c /\ (evolves s s' -> inv s' -> lawful_step r s s' /\ ok (k x) Q (s', True))) ->
  ok (Do c k) Q w.
Proof.
  intros Hk [s P] x [s' P'] [He _] [Hi HP] [Hs EP]. cbn in *. destruct (Hk s x s' He Hi Hs) as [Ho Hl].
  destruct (serve_ok _ _ _ _ _ Hs Ho Hi) as [He' Hi']. destruct (Hl He' Hi') as [Hlaw Hok]. subst P'.
  split_and!; [split; [done|by cbn]|split; done|]. refine (rg_stable serve_lawful evolves' inv' _ _ (s', True) _ _ Hok). split; [done|by intros _].
Qed.

(** A read. *)
Lemma ok_read {A} (Q : A -> server * Prop -> Prop) c k w : quiet c = true ->
  (forall s x s', evolves w.1 s' -> inv s' -> evolves s s' -> inv s -> serve r s c x s' -> ok (k x) Q (s', True)) -> ok (Do c k) Q w.
Proof.
  intros Hq Hk. apply ok_do. intros s x s' He Hi Hs. split; [by destruct c|]. intros He' Hi'. split.
  - intros n. left. by rewrite (serve_quiet _ _ _ _ _ Hq Hs).
  - apply (Hk s); [by etrans|done..].
Qed.

Lemma ok_weaken {A} (p : prog gc_answer A) Q Q' w : (forall a w', evolves w.1 w'.1 -> inv w'.1 -> Q a w' -> Q' a w') -> ok p Q w -> ok p Q' w.
Proof. intros HQ. apply rg_mono; [apply _|]. intros a w' [He _] Hi H. apply HQ; [done|by destruct Hi|by apply H]. Qed.
Lemma ok_ret {A} (a : A) (Q : A -> server * Prop -> Prop) w : (forall w', evolves w.1 w'.1 -> Q a w') -> ok (Ret a) Q w.
Proof. intros H w' [He _] _. by apply H. Qed.
Lemma ok_ebind {A B} (p : gcprog A) (f : A -> gcprog B) w : inv w.1 -> w.2 ->
  ok p (fun x w => forall a, x = Good a -> ok (f a) (fun _ _ => True) w) w -> ok (ebind p f) (fun _ _ => True) w.
Proof.
  intros Hi HP H. apply rg_bind; [apply _|by split|]. revert H. apply ok_weaken. intros [a|e] w' _ _ Ha; [by apply Ha|by apply ok_ret].
Qed.

(** ** The verdicts *)

Definition claimed_for (pod : gpod) (c : string) (ips : list string) (s : server) : Prop := forall a, a ∈ ips -> ParseIP a <> [] /\
  exists f, (FabricIPName (IP_String (ParseIP a)), f) ∈ sv_claims_seen s /\ claim_fits pod "eth0" (ParseIP a) f = true /\ fi_ContainerID f = c.

Lemma claimed_stable pod c ips s s' : evolves s s' -> claimed_for pod c ips s -> claimed_for pod c ips s'.
Proof. intros He H a Ha. destruct (H a Ha) as (? & f & Hf & ?). split; [done|]. exists f. split; [by apply (ev_claims_seen _ _ He)|done]. Qed.

Lemma moved_stable p s s' : evolves s s' -> moved s p -> moved s' p.
Proof.
  intros He (created & pod & c & ? & Hg & Hp & ? & ? & ? & (? & ? & Hr) & ? & ?). exists created, pod, c. pose proof (ev_clock _ _ He).
  split_and!; [done|lia|by apply (ev_pods_seen _ _ He)|done..| |done|done]. split_and!; [tauto|tauto|done|]. by eapply claimed_stable.
Qed.

Lemma abandoned_stable p s s' : evolves s s' -> abandoned r s p -> abandoned r s' p.
Proof.
  intros He (? & ? & ? & Hc). split_and!; [done..|]. destruct Hc as [[? Hn]|[? [Hd|Hm]]].
  - left. split; [done|]. by apply (ev_no_pod _ _ He).
  - right. split; [done|]. left. by apply (ev_dead _ _ He).
  - right. split; [done|]. right. by eapply moved_stable.
Qed.

Lemma fits_container pod i ip f : claim_fits pod i ip f = true -> fi_ContainerID f <> EmptyString.
Proof. intros Ef E. unfold claim_fits in Ef. rewrite E, orb_true_r in Ef. done. Qed.

Lemma sandbox_ok from pod ips past c w : c <> EmptyString \/ past = [] -> claimed_for pod c past w.1 -> inv w.1 ->
  ok (sandbox_of from pod "eth0" ips c) (fun x w => forall c', x = Good c' -> c' <> EmptyString -> claimed_for pod c' (past ++ ips) w.1) w.
Proof.
  revert past c w. induction ips as [|a ips IH]; intros past c w Hc Hp Hi; cbn [sandbox_of].
  { apply ok_ret. intros w' He c' [= <-] _. rewrite app_nil_r. by eapply claimed_stable. }
  destruct (decide (ParseIP a = [])) as [|Hne]; [apply ok_ret; intros w' _ c' [= <-]; done|].
  apply ok_read; [done|]. intros s x s' He Hi' He' Hi1 Hs. destruct x as [f|e].
  2: { unfold ignoreNotFound. case_match; apply ok_ret; intros w' _ c' E; [by injection E as <-|done]. }
  destruct (claim_fits pod "eth0" (ParseIP a) f) eqn:Ef; cbn [negb]; [|apply ok_ret; intros w' _ c' [= <-]; done].
  case_match eqn:Ec; [apply ok_ret; intros w' _ c' [= <-]; done|].
  pose proof (fits_container _ _ _ _ Ef) as Hf.
  replace (past ++ a :: ips) with ((past ++ [a]) ++ ips) by by rewrite <- app_assoc. apply IH; [by left| |done].
  intros b [Hb|Hb%list_elem_of_singleton]%elem_of_app.
  - destruct Hc as [Hc| ->]; [|by apply elem_of_nil in Hb]. destruct (claimed_stable _ _ _ _ _ He Hp b Hb) as (? & g & ? & ? & <-).
    split; [done|]. exists g. split_and!; [done..|]. rewrite bool_decide_false in Ec by done. cbn in Ec. apply negb_false_iff, bool_decide_eq_true in Ec. done.
  - subst b. split; [done|]. exists f. split_and!; [|done..]. destruct from; cbn in Hs; destruct Hs as [-> Hs]; [by apply Hs|]. by apply (iv_claim _ Hi1), Hs.
Qed.

Lemma current_ok from pod w : inv w.1 ->
  ok (currentPodSandbox from pod "eth0") (fun x w => forall c, x = Good c -> c <> EmptyString -> runs_in w.1 pod c) w.
Proof.
  intros Hi. unfold currentPodSandbox. case_match eqn:E; [apply ok_ret; intros w' _ c [= <-]; done|].
  apply orb_false_iff in E as [[E1 E2]%orb_false_iff E3]. apply bool_decide_eq_false in E1, E3. apply Z.ltb_ge in E2.
  eapply ok_weaken, (sandbox_ok from pod (pd_IPs pod) []); [|by right|intros a Ha; by apply elem_of_nil in Ha|done].
  intros x w' _ _ Hx c Ex Hc. split_and!; [|lia|done|by apply Hx]. by destruct (pd_IPs pod); [|cbn; lia].
Qed.

(** ** The writes *)

Lemma own_version s port live : inv s -> port ∈ sv_seen s -> sv_ports s !! gp_Name port = Some live -> gp_RV live = gp_RV port -> live = port.
Proof. intros Hi Hp Hl E. by apply (iv_inj _ Hi); [apply (iv_live _ Hi _ _ Hl)|..]. Qed.

(** Storing a terminating version of a Port. *)
Lemma store_left p s n : m_Deleting (gp_Meta p) = true ->
  sv_ports (store p s) !! n = if decide (n = gp_Name p) then left_over s p else sv_ports s !! n.
Proof.
  intros Hd. unfold store, left_over. rewrite Hd. cbn. change (gp_Name (set_RV _ _ p)) with (gp_Name p).
  destruct (decide (m_Finalizers (gp_Meta p) = [])) as [E|E]; [rewrite bool_decide_true by done|rewrite bool_decide_false by done]; cbn.
  - destruct (decide (n = _)) as [->|]; [by rewrite lookup_delete_eq|by rewrite lookup_delete_ne by done].
  - destruct (decide (n = _)) as [->|]; [by rewrite lookup_insert_eq|by rewrite lookup_insert_ne by done].
Qed.

Lemma delete_ok (k : outcome unit -> gcprog reconciled) w port : port ∈ sv_seen w.1 -> m_Deleting (gp_Meta port) = false -> abandoned r w.1 port ->
  (forall x w', ok (k x) (fun _ _ => True) w') -> ok (Do (GcDelete port : gc_call) k) (fun _ _ => True) w.
Proof.
  intros Hp Hd Ha Hk. apply ok_do. intros s x s' He Hi Hs. split; [done|]. intros _ _. split; [|apply Hk].
  destruct Hs as [[_ ->]|(live & Hl & _ & Hr & ->)]; [by left|]. assert (live = port) by (apply (own_version s); [done|by apply (ev_seen _ _ He)|done|done]). subst live.
  rewrite Hd. intros n. unfold terminate. rewrite store_left by done. change (gp_Name (set_RV _ _ port)) with (gp_Name port).
  destruct (decide (n = gp_Name port)) as [->|]; [right|by left]. exists port. split; [done|]. unfold lawful. rewrite Hd.
  split; [by eapply abandoned_stable|]. unfold left_over. done.
Qed.

Lemma release_ok w port : port ∈ sv_seen w.1 -> m_Deleting (gp_Meta port) = true -> inv w.1 ->
  FinalizerSever ∈ m_Finalizers (gp_Meta port) -> gp_Node port = EmptyString \/ (r, gp_Node port) ∈ sv_no_node w.1 ->
  ok (release port) (fun _ _ => True) w.
Proof.
  intros Hp Hd Hi0 Hf Hn. apply ok_do. intros s x s' He Hi Hs. assert (port ∈ sv_seen s) as Hps by by apply (ev_seen _ _ He).
  split; [exact (iv_uid _ Hi port Hps)|]. intros _ _. split; [|destruct x; repeat case_match; by apply ok_ret].
  destruct Hs as [[_ ->]|(live & Hl & Hr & _ & ->)]; [by left|]. change (gp_Name (unsevered port)) with (gp_Name port) in Hl.
  assert (live = port) by by apply (own_version s). subst live. intros n. rewrite store_left by exact Hd.
  change (gp_Name (update_of _ _)) with (gp_Name port). destruct (decide (n = gp_Name port)) as [->|]; [right|by left].
  exists port. split; [done|]. unfold lawful. rewrite Hd. split_and!; [done| |].
  - destruct Hn as [?|Hn]; [by left|right]. by apply (ev_no_node _ _ He).
  - unfold left_over. done.
Qed.

Lemma deleted_ok text w (x : outcome unit) : ok (match x with
    | Good _ => good Done
    | Bad e => if has_reason NotFound e then good Done else fail (wrap text e)
    end : gcprog reconciled) (fun _ _ => True) (w : server * Prop).
Proof. destruct x; [by apply ok_ret|]. case_match; by apply ok_ret. Qed.

Lemma reapObsoleteSandbox_ok w port pod : inv w.1 -> w.2 -> port ∈ sv_seen w.1 -> m_Deleting (gp_Meta port) = false ->
  gp_Label port LabelVMName = EmptyString -> (claimant port).1 <> EmptyString -> (claimant port).2 <> EmptyString -> pd_Key pod = claimant port ->
  ok (reapObsoleteSandbox port pod) (fun _ _ => True) w.
Proof.
  intros Hi HP Hp Hd Hvm Hns Hname Hk. unfold reapObsoleteSandbox. destruct (gp_Created port) as [created|] eqn:Ec; [|by apply ok_ret].
  case_match eqn:E; [by apply ok_ret|]. apply orb_false_iff in E as [[[[_ E2]%orb_false_iff E3]%orb_false_iff E4]%orb_false_iff E5].
  apply negb_false_iff, bool_decide_eq_true in E2, E4, E5. apply bool_decide_eq_false in E3. rewrite E2.
  apply ok_read; [done|]. intros s0 now s He1 Hi1 He0 _ [-> ->]. destruct (Z.ltb_spec 0 (portSandboxGracePeriod - (sv_clock s0 - created))) as [|Hg]; [by apply ok_ret|].
  apply ok_ebind; [done|done|]. eapply ok_weaken, (current_ok Cached pod); [|done]. intros x1 w2 He2 Hi2 _ c1 ->. cbn in He2.
  case_match; [by apply ok_ret|]. apply ok_read; [done|]. intros s3 [live|e] s4 He4 Hi4 _ Hi3 Hs; [|unfold ignoreNotFound; case_match; by apply ok_ret].
  destruct Hs as [-> Hl]. case_match eqn:E; [by apply ok_ret|]. apply orb_false_iff in E as [E6 E7]. apply negb_false_iff, bool_decide_eq_true in E6, E7.
  apply ok_ebind; [done|done|]. eapply ok_weaken, (current_ok Live live); [|done]. intros x5 w5 He5 Hi5 Hrun c5 ->. specialize (Hrun c5 eq_refl). cbn in He5.
  case_match eqn:E; [by apply ok_ret|]. apply orb_false_iff in E as [E8 E9]. apply bool_decide_eq_false in E8, E9.
  assert (evolves s0 w5.1) as He by by repeat (etrans; [eassumption|]). assert (evolves w.1 w5.1) as Hew by by etrans.
  apply delete_ok; [by apply (ev_seen _ _ Hew)|done| |intros; apply deleted_ok].
  destruct (iv_pod _ Hi3 _ _ Hl) as [Hls Hlk]. pose proof (ev_clock _ _ He).
  split_and!; [done..|]. right. split; [done|]. right. exists created, live, c5.
  split_and!; [done|lia|by apply (ev_pods_seen _ _ He5)|congruence..|by apply Hrun|done|done].
Qed.

Lemma reapIfAbandoned_ok w port : inv w.1 -> port ∈ sv_seen w.1 -> m_Deleting (gp_Meta port) = false -> ok (reapIfAbandoned port) (fun _ _ => True) w.
Proof.
  intros Hi Hp Hd. unfold reapIfAbandoned. case_match eqn:E; [by apply ok_ret|]. apply negb_false_iff, bool_decide_eq_true in E as Hvm.
  case_match eqn:E1; [by apply ok_ret|]. apply orb_false_iff in E1 as [Hns Hname]. apply bool_decide_eq_false in Hns, Hname.
  set (confirm := Do (GcPod Live _) _). assert (forall w', evolves w.1 w'.1 -> inv w'.1 -> ok confirm (fun _ _ => True) w') as Hconfirm.
  { intros w1 He1 Hi1. unfold confirm. apply ok_read; [done|]. intros s1 x s2 He2 Hi2 _ Hi0 Hs. assert (evolves w.1 s2) as He by by etrans.
    assert (claimant_uid port = EmptyString \/ claimant_uid port ∈ sv_uids s2) as Hu by (apply (iv_uid _ Hi2), (ev_seen _ _ He); done).
    destruct x as [pod|e].
    - destruct Hs as [-> Hs]. destruct (claimantActive port pod) eqn:Ea; [by apply ok_ret|]. unfold claimantActive in Ea.
      apply orb_false_iff in Ea as [Eu Ea]. apply bool_decide_eq_false in Eu. apply delete_ok; [by apply (ev_seen _ _ He)|done| |intros; apply deleted_ok].
      split_and!; [done..|]. right. split; [done|]. left. split; [by destruct Hu|]. cbn. intros q Hq Eq. assert (q = pod) as -> by congruence.
      rewrite bool_decide_true in Ea by done. cbn in Ea. apply andb_false_iff in Ea as [Ea%negb_false_iff|Ea%negb_false_iff]; apply bool_decide_eq_true in Ea; [by left|by right].
    - cbn in Hs. destruct (has_reason NotFound e); [|by apply ok_ret]. destruct Hs as [Hnone ->].
      apply delete_ok; [by apply (ev_seen _ _ He)|done| |intros; apply deleted_ok]. split_and!; [done..|].
      destruct (decide (claimant_uid port = EmptyString)) as [Eu|Eu]; [left|right].
      + split; [done|]. cbn. set_solver.
      + split; [done|]. left. split; [by destruct Hu|]. cbn. intros q Hq. congruence. }
  apply ok_read; [done|]. intros s1 x s2 He2 Hi2 _ Hi0 Hs. cbn in Hs. destruct Hs as [-> Hs]. destruct x as [pod|e].
  - destruct (claimantActive port pod); [|by apply Hconfirm]. destruct (Hs pod eq_refl) as [_ Hk].
    apply reapObsoleteSandbox_ok; [done|done|by apply (ev_seen _ _ He2)|done..].
  - case_match; [by apply Hconfirm|by apply ok_ret].
Qed.

Lemma gc_Reconcile_ok name w : inv w.1 -> ok (gc_Reconcile name) (fun _ _ => True) w.
Proof.
  intros Hi. apply ok_read; [done|]. intros s0 x s He Hi1 _ _ [-> Hx]. destruct x as [port|e]; [|unfold ignoreNotFound; case_match; by apply ok_ret].
  destruct (Hx port eq_refl) as [Hp _]. destruct (m_Deleting (gp_Meta port)) eqn:Hd; cbn [negb]; [|by apply reapIfAbandoned_ok].
  case_match eqn:Ef; [by apply ok_ret|]. apply negb_false_iff, bool_decide_eq_true in Ef.
  case_match eqn:En; [apply release_ok; [done..|]; left; by apply bool_decide_eq_true in En|].
  apply ok_read; [done|]. intros s1 [|e] s2 He2 Hi2 _ _ _; [by apply ok_ret|]. case_match; [by apply ok_ret|].
  apply ok_read; [done|]. intros s3 [|e'] s4 He4 Hi4 _ _ Hs; [by apply ok_ret|]. cbn in Hs.
  destruct (has_reason NotFound e'); cbn [negb]; [|by apply ok_ret]. destruct Hs as [_ ->].
  apply release_ok; [|done|done|done|right; cbn; set_solver]. apply (ev_seen _ _ He4), (ev_seen _ _ He2). done.
Qed.
End Collector.

(** Each run keeps to the law, whatever the others do. *)
Definition sys_ok (y : sys) : Prop := inv (y_srv y) /\
  forall r p, y_runs y !! r = Some p -> rg (serve_lawful r) evolves' inv' p (fun _ _ => True) (y_srv y, True).

Lemma run_kept r p s s' : evolves s s' -> rg (serve_lawful r) evolves' inv' p (fun _ (_ : server * Prop) => True) (s, True) ->
  rg (A := outcome reconciled) (serve_lawful r) evolves' inv' p (fun _ _ => True) (s', True).
Proof. intros He. by apply (rg_stable (serve_lawful r) evolves' inv'). Qed.

Lemma call_ok r s c k x s' : inv s -> rg (A := outcome reconciled) (serve_lawful r) evolves' inv' (Do c k) (fun _ _ => True) (s, True) -> serve r s c x s' ->
  evolves s s' /\ inv s' /\ lawful_step r s s' /\ rg (serve_lawful r) evolves' inv' (k x) (fun _ _ => True) (s', True).
Proof.
  intros Hi Hr Hs. destruct (Hr (s, True) x (s', True /\ lawful_step r s s')) as ([He _] & [Hi' [_ Hl]] & Hk); [by split|by split|by split|].
  split_and!; [done..|]. by apply (rg_stable (serve_lawful r) evolves' inv' _ _ (s', True /\ lawful_step r s s')).
Qed.

Lemma step_sys_ok y y' : step y y' -> sys_ok y -> sys_ok y'.
Proof.
  intros [s runs r name Hn|s s' runs r c k x Hr Hs|s s' runs He] [Hi Hruns]; cbn in *.
  - split; [done|]. cbn. intros r' p [[<- <-]|[_ Hp]]%lookup_insert_Some; [by apply gc_Reconcile_ok|by apply Hruns].
  - destruct (call_ok r s c k x s' Hi (Hruns r _ Hr) Hs) as (He & Hi' & _ & Hk). split; [done|]. cbn.
    intros r' p [[<- <-]|[_ Hp]]%lookup_insert_Some; [done|]. by eapply run_kept, Hruns.
  - destruct (gc_env_ok s s' He Hi) as [Hev Hi']. split; [done|]. cbn. intros r p Hp. by eapply run_kept, Hruns.
Qed.

Lemma gc_reachable_ok s0 y : inv s0 -> reachable s0 y -> sys_ok y.
Proof.
  intros Hi Hr. assert (sys_ok (MkSys s0 ∅)) as H0 by (split; [done|intros r p Hp; cbn in Hp; by rewrite lookup_empty in Hp]).
  revert H0. induction Hr as [|y1 y2 y3 Hs _ IH]; [done|]. intros H. by apply IH, (step_sys_ok y1).
Qed.

(** C14. The collector never takes an address in use: with any number of collections at once,
    stale caches, failing calls, lost answers and other clients in between, a call of a
    collection changes a stored Port only if the Port is terminating, its node was gone, and
    nothing but its sever finalizer goes, or if the Port is not a VM's and its claimant, by its
    UID, has died or finished for good at that very moment, or the Port is older than the
    grace period and its running claimant had moved to another sandbox; a claimant recorded
    without a UID was gone when the same collection asked. *)
Theorem port_gc_safe s0 s runs r c k x s' :
  inv s0 -> reachable s0 (MkSys s runs) -> runs !! r = Some (Do c k) -> serve r s c x s' -> lawful_step r s s'.
Proof. intros Hi Hreach Hr Hs. destruct (gc_reachable_ok s0 _ Hi Hreach) as [Hi' Hruns]. by destruct (call_ok r s c k x s' Hi' (Hruns r _ Hr) Hs) as (_ & _ & ? & _). Qed.

(** ** A server that is up *)

Definition found {A} (x : option A) : outcome A := match x with Some a => Good a | None => Bad (MkErr NotFound "not found") end.
(** The server answers at once, its caches are current, and preconditions fail with a conflict. *)
Definition matches (s : server) (p : gport) : option gport :=
  live ← sv_ports s !! gp_Name p; guard (gp_UID live = gp_UID p /\ gp_RV live = gp_RV p);; Some live.
Definition written (s : server) (p : gport) : outcome unit :=
  match matches s p with Some _ => Good tt | None => Bad (MkErr Conflict "conflict") end.
Definition up (s : server) (c : gc_call) : gc_answer c :=
  match c with
  | GcPort name => found (sv_ports s !! name)
  | GcNode _ name => found (if decide (name ∈ sv_nodes s) then Some tt else None)
  | GcPod _ key => found (sv_pods s !! key)
  | GcClaim _ name => found (sv_claims s !! name)
  | GcNow => sv_clock s
  | GcUpdate p | GcDelete p => written s p
  end.
Definition effect (r : nat) (s : server) (c : gc_call) : server :=
  match c with
  | GcNode Live name => if decide (name ∈ sv_nodes s) then s else told ∅ {[(r, name)]} s
  | GcPod Live key => if decide (sv_pods s !! key = None) then told {[(r, key)]} ∅ s else s
  | GcUpdate p => match matches s p with Some live => store (update_of p live) s | None => s end
  | GcDelete p => match matches s p with Some live => if m_Deleting (gp_Meta live) then s else terminate live s | None => s end
  | _ => s
  end.

Lemma matches_Some s p live : matches s p = Some live <-> sv_ports s !! gp_Name p = Some live /\ gp_UID live = gp_UID p /\ gp_RV live = gp_RV p.
Proof.
  unfold matches. destruct (sv_ports s !! gp_Name p) as [l|]; cbn; [|naive_solver]. case_guard; cbn; naive_solver.
Qed.

(** Such a server answers as a server may. *)
Lemma up_serves r s c : inv s -> serve r s c (up s c) (effect r s c).
Proof.
  intros Hi. destruct c as [name|[] name|[] key|[] name| |p|p]; cbn; try done.
  - split; [done|]. intros p. destruct (sv_ports s !! name) eqn:E; [|done]. intros [= ->]. by apply (iv_live _ Hi).
  - by destruct (decide (name ∈ sv_nodes s)).
  - split; [done|]. intros p. destruct (sv_pods s !! key) eqn:E; [|done]. intros [= ->]. by apply (iv_pod _ Hi).
  - destruct (sv_pods s !! key) eqn:E; cbn; [by rewrite decide_False|by rewrite decide_True].
  - split; [done|]. intros p. destruct (sv_claims s !! name) eqn:E; [|done]. intros [= ->]. by apply (iv_claim _ Hi).
  - split; [done|]. intros p. by destruct (sv_claims s !! name); intros [= ->].
  - unfold written. destruct (matches s p) as [live|] eqn:E; [right|left; split; [by eexists|done]]. apply matches_Some in E as (? & ? & ?). by exists live.
  - unfold written. destruct (matches s p) as [live|] eqn:E; [right|left; split; [by eexists|done]]. apply matches_Some in E as (? & ? & ?). by exists live.
Qed.

Fixpoint exec {A} (r : nat) (p : prog gc_answer A) (s : server) : A * server :=
  match p with
  | Ret a => (a, s)
  | Do c k => exec r (k (up s c)) (effect r s c)
  end.

Lemma gc_exec_bind {A B} r (p : prog gc_answer A) (f : A -> prog gc_answer B) s : exec r (pbind p f) s = exec r (f (exec r p s).1) (exec r p s).2.
Proof. revert s. induction p as [a|c k IH]; intros s; [done|]. apply IH. Qed.

(** The current claims of the addresses of a pod are all for container [c]. *)
Definition claimed_now (s : server) (pod : gpod) (c : string) (ips : list string) : Prop := forall a, a ∈ ips -> ParseIP a <> [] /\
  exists f, sv_claims s !! FabricIPName (IP_String (ParseIP a)) = Some f /\ claim_fits pod "eth0" (ParseIP a) f = true /\ fi_ContainerID f = c.

Lemma exec_sandbox r from pod s ips c :
  let x := exec r (sandbox_of from pod "eth0" ips c) s in
  x.2 = s /\ exists d, x.1 = Good d /\
    (d <> EmptyString -> claimed_now s pod d ips /\ (c = EmptyString \/ c = d)) /\
    (forall e, claimed_now s pod e ips -> c = e \/ c = EmptyString /\ ips <> [] -> d = e).
Proof.
  revert c. induction ips as [|a ips IH]; intros c; cbn [sandbox_of].
  { split; [done|]. exists c. split; [done|]. split; [intros _; split; [|by right]; intros a Ha; by apply elem_of_nil in Ha|]. by intros e _ [?|[_ ?]]. }
  assert (Hcons : forall e, claimed_now s pod e (a :: ips) <-> claimed_now s pod e [a] /\ claimed_now s pod e ips).
  { intros e. split; [intros H; split; intros b Hb; apply H; set_solver|intros [H1 H2] b [->|Hb]%elem_of_cons; [apply H1; by left|by apply H2]]. }
  assert (Hfail : (forall e, ~ claimed_now s pod e [a]) \/ (forall e, claimed_now s pod e [a] -> c <> EmptyString /\ c <> e) -> exists d, Good EmptyString = Good d /\
    (d <> EmptyString -> claimed_now s pod d (a :: ips) /\ (c = EmptyString \/ c = d)) /\
    (forall e, claimed_now s pod e (a :: ips) -> c = e \/ c = EmptyString /\ a :: ips <> [] -> d = e)).
  { intros Hno. exists EmptyString. split_and!; [done..|]. intros e [H1 _]%Hcons Hc. destruct Hno as [Hno|Hno]; [by destruct (Hno e)|]. destruct (Hno e H1). by destruct Hc as [?|[? _]]. }
  destruct (decide (ParseIP a = [])) as [Ea|Ea]; cbn [exec].
  { split; [done|]. apply Hfail. left. intros e H. by destruct (H a ltac:(by left)). }
  assert (effect r s (GcClaim from (FabricIPName (IP_String (ParseIP a)))) = s) as -> by by destruct from. cbn [up].
  destruct (sv_claims s !! _) as [f|] eqn:El; cbn [found].
  2: { split; [done|]. apply Hfail. left. intros e H. destruct (H a ltac:(by left)) as (_ & g & Hg & _). congruence. }
  assert (Hone : forall e, claimed_now s pod e [a] -> claim_fits pod "eth0" (ParseIP a) f = true /\ fi_ContainerID f = e).
  { intros e H. destruct (H a ltac:(by left)) as (_ & g & Hg & ?). rewrite El in Hg. by injection Hg as <-. }
  destruct (claim_fits pod "eth0" (ParseIP a) f) eqn:Ef; cbn [negb].
  2: { split; [done|]. apply Hfail. left. intros e H. by destruct (Hone e H). }
  assert (claimed_now s pod (fi_ContainerID f) [a]) as Ha by (intros b ->%list_elem_of_singleton; split; [done|by exists f]).
  pose proof (fits_container _ _ _ _ Ef) as Hf. destruct (decide (c = EmptyString \/ c = fi_ContainerID f)) as [Hc|Hc].
  - assert (negb (bool_decide (c = EmptyString)) && negb (bool_decide (c = fi_ContainerID f)) = false) as ->.
    { apply andb_false_iff. rewrite !negb_false_iff, !bool_decide_eq_true. done. }
    destruct (IH (fi_ContainerID f)) as (E2 & d & E1 & H1 & H2). split; [done|]. exists d. split; [done|]. split.
    + intros Hd. destruct (H1 Hd) as [Hips [?|<-]]; [done|]. split; [by apply Hcons|done].
    + intros e [H3 H4]%Hcons _. destruct (Hone e H3) as [_ <-]. apply H2; [done|by left].
  - rewrite !bool_decide_false by tauto. cbn. split; [done|]. apply Hfail. right. intros e [_ <-]%Hone. tauto.
Qed.

(** The pod can be placed in one sandbox, [c]. *)
Definition placed (s : server) (pod : gpod) (c : string) : Prop :=
  (0 < length (pd_IPs pod) <= 2)%nat /\ pd_Node pod <> EmptyString /\ c <> EmptyString /\ claimed_now s pod c (pd_IPs pod).

Lemma exec_current r from pod s :
  exists d, exec r (currentPodSandbox from pod "eth0") s = (Good d, s) /\ (d <> EmptyString -> placed s pod d) /\ (forall e, placed s pod e -> d = e).
Proof.
  unfold currentPodSandbox. destruct (bool_decide (pd_IPs pod = []) || _ || _) eqn:E.
  - exists EmptyString. split_and!; [done..|]. intros e (Hl & Hn & He & Hc). exfalso.
    apply orb_true_iff in E as [[E%bool_decide_eq_true|E%Z.ltb_lt]%orb_true_iff|E%bool_decide_eq_true]; [rewrite E in Hl; cbn in Hl; lia|lia|done].
  - apply orb_false_iff in E as [[E1 E2]%orb_false_iff E3]. apply bool_decide_eq_false in E1, E3. apply Z.ltb_ge in E2.
    destruct (exec_sandbox r from pod s (pd_IPs pod) EmptyString) as (Es & d & Ed & H1 & H2). exists d. split_and!.
    + rewrite (surjective_pairing (exec _ _ _)), Es, Ed. done.
    + intros Hd. destruct (H1 Hd) as [Hc _]. split_and!; [|lia|done..]. by destruct (pd_IPs pod); [|cbn; lia].
    + intros e (_ & _ & _ & Hc). apply H2; [done|by right].
Qed.

(** The Port is older than the grace period and its running pod is placed in another sandbox. *)
Definition obsolete (s : server) (p : gport) (pod : gpod) : Prop :=
  let container := at_key (m_Annotations (gp_Meta p)) AnnotationContainerID in
  container <> EmptyString /\ at_key (m_Annotations (gp_Meta p)) AnnotationCNIIfName = "eth0" /\
  claimant_uid p <> EmptyString /\ pd_UID pod = claimant_uid p /\ pd_Phase pod = PodRunning /\
  (exists created, gp_Created p = Some created /\ portSandboxGracePeriod <= sv_clock s - created) /\
  exists c, placed s pod c /\ c <> container.
Definition collectable (s : server) (p : gport) : Prop :=
  gp_Label p LabelVMName = EmptyString /\ (claimant p).1 <> EmptyString /\ (claimant p).2 <> EmptyString /\
  match sv_pods s !! claimant p with
  | None => True
  | Some pod => claimantActive p pod = false \/ obsolete s p pod
  end.
Definition releasable (s : server) (p : gport) : Prop :=
  FinalizerSever ∈ m_Finalizers (gp_Meta p) /\ (gp_Node p = EmptyString \/ gp_Node p ∉ sv_nodes s).

(** Under the condition the Port is left as [q], and nothing else changes; otherwise nothing does. *)
Definition settles (s s' : server) (name : string) (C : Prop) (q : option gport) : Prop :=
  (C -> sv_ports s' !! name = q /\ forall n, n <> name -> sv_ports s' !! n = sv_ports s !! n) /\ (~ C -> sv_ports s' = sv_ports s).

Lemma settles_no s name (C : Prop) q : ~ C -> settles s s name C q.
Proof. by split. Qed.

(** The write that ends a collection; [t] is the server after the reads. *)
Lemma settles_delete r s t p text (C : Prop) : C -> sv_ports t = sv_ports s -> sv_rev t = sv_rev s -> sv_ports s !! gp_Name p = Some p -> m_Deleting (gp_Meta p) = false ->
  settles s (exec (A := outcome reconciled) r (Do (GcDelete p) (fun x =>
    match x with Good _ => good Done | Bad e => if has_reason NotFound e then good Done else fail (wrap text e) end)) t).2 (gp_Name p) C (left_over s p).
Proof.
  intros HC Ep Er Hp Hd. split; [|done]. intros _. cbn [exec up effect]. unfold written.
  assert (matches t p = Some p) as -> by (apply matches_Some; rewrite Ep; done). rewrite Hd. cbn [exec good snd]. unfold terminate. split.
  - rewrite store_left, decide_True by done. unfold left_over. by rewrite Er.
  - intros n Hn. rewrite store_left, decide_False by done. by rewrite Ep.
Qed.

Lemma settles_release r s t p (C : Prop) : C -> sv_ports t = sv_ports s -> sv_rev t = sv_rev s -> sv_ports s !! gp_Name p = Some p -> m_Deleting (gp_Meta p) = true ->
  settles s (exec r (release p) t).2 (gp_Name p) C (left_over s (unsevered p)).
Proof.
  intros HC Ep Er Hp Hd. split; [|done]. intros _. unfold release. cbn [exec up effect]. unfold written.
  assert (matches t (unsevered p) = Some p) as -> by (apply matches_Some; rewrite Ep; done). cbn [exec good snd].
  assert (m_Deleting (gp_Meta (update_of (unsevered p) p)) = true) as Hd' by exact Hd. split.
  - rewrite store_left, decide_True by done. unfold left_over. rewrite Er. done.
  - intros n Hn. rewrite store_left, decide_False by done. by rewrite Ep.
Qed.

Lemma settles_iff s s' name (C C' : Prop) q : (C <-> C') -> settles s s' name C q -> settles s s' name C' q.
Proof. unfold settles. tauto. Qed.

Lemma settles_sandbox r s p pod : sv_pods s !! pd_Key pod = Some pod -> sv_ports s !! gp_Name p = Some p -> m_Deleting (gp_Meta p) = false ->
  settles s (exec r (reapObsoleteSandbox p pod) s).2 (gp_Name p) (obsolete s p pod) (left_over s p).
Proof.
  intros Hpod Hp Hd. unfold reapObsoleteSandbox. destruct (gp_Created p) as [created|] eqn:Ec.
  2: { apply settles_no. intros (_ & _ & _ & _ & _ & (x & Hx & _) & _). congruence. }
  destruct (bool_decide (at_key _ _ = EmptyString) || _ || _ || _ || _) eqn:E.
  { apply settles_no. intros (H1 & H2 & H3 & H4 & H5 & _).
    rewrite bool_decide_false, bool_decide_true, bool_decide_false, bool_decide_true, bool_decide_true in E by done. done. }
  apply orb_false_iff in E as [[[[E1 E2]%orb_false_iff E3]%orb_false_iff E4]%orb_false_iff E5].
  apply negb_false_iff, bool_decide_eq_true in E2, E4, E5. apply bool_decide_eq_false in E1, E3. rewrite E2. cbn [exec up effect].
  destruct (Z.ltb_spec 0 (portSandboxGracePeriod - (sv_clock s - created))) as [Hg|Hg].
  { apply settles_no. intros (_ & _ & _ & _ & _ & (x & Hx & ?) & _). assert (x = created) by congruence. lia. }
  assert (Hno : forall d, (d <> EmptyString -> placed s pod d) /\ (forall e, placed s pod e -> d = e) ->
    bool_decide (d = EmptyString) || bool_decide (d = at_key (m_Annotations (gp_Meta p)) AnnotationContainerID) = true -> ~ obsolete s p pod).
  { intros d [_ Hd2] Eo (_ & _ & _ & _ & _ & _ & c & Hc & Hne). rewrite (Hd2 c Hc) in Eo. destruct Hc as (_ & _ & Hcn & _).
    rewrite !bool_decide_false in Eo by done. done. }
  unfold ebind. rewrite gc_exec_bind. destruct (exec_current r Cached pod s) as (d & -> & Hd1). cbn [fst snd].
  destruct (_ || _) eqn:Ed; [apply settles_no; by eapply Hno|]. cbn [exec up effect]. rewrite Hpod. cbn [found]. rewrite decide_False by done.
  rewrite E5, !bool_decide_true by done. cbn [negb orb].
  rewrite gc_exec_bind. destruct (exec_current r Live pod s) as (d' & -> & Hd1'). cbn [fst snd].
  destruct (bool_decide (d' = _) || _) eqn:Ed'; [apply settles_no; by eapply Hno|]. apply settles_delete; [|done..].
  apply orb_false_iff in Ed' as [D1 D2]. apply bool_decide_eq_false in D1, D2. split_and!; [done..|exists created; split; [done|lia]|].
  exists d'. split; [by apply Hd1'|done].
Qed.

Lemma not_found_reason text : has_reason NotFound (MkErr NotFound text) = true.
Proof. done. Qed.

Lemma settles_reap r s p : inv s -> sv_ports s !! gp_Name p = Some p -> m_Deleting (gp_Meta p) = false ->
  settles s (exec r (reapIfAbandoned p) s).2 (gp_Name p) (collectable s p) (left_over s p).
Proof.
  intros Hi Hp Hd. unfold reapIfAbandoned, collectable. case_bool_decide as Hvm; cbn [negb]; [|apply settles_no; tauto].
  destruct (bool_decide _ || bool_decide _) eqn:En.
  { apply settles_no. apply orb_true_iff in En as [En|En]; apply bool_decide_eq_true in En; tauto. }
  apply orb_false_iff in En as [E1 E2]. apply bool_decide_eq_false in E1, E2. cbn [exec up effect].
  destruct (sv_pods s !! claimant p) as [pod|] eqn:Epod; cbn [found].
  - destruct (claimantActive p pod) eqn:Ea.
    + destruct (iv_pod _ Hi _ _ Epod) as [_ Hk]. eapply settles_iff, settles_sandbox; [|by rewrite Hk|done..]. naive_solver.
    + cbn [exec up effect]. rewrite Epod. cbn [found]. rewrite Ea, decide_False by done. apply settles_delete; [|done..]. auto.
  - rewrite not_found_reason. cbn [exec up effect]. rewrite Epod. cbn [found]. rewrite decide_True by done.
    rewrite not_found_reason. apply settles_delete; done.
Qed.

(** C24. On a server that is up a collection does exactly what is asked for: a Port that is not
    terminating is deleted if and only if it is no VM's Port and its recorded claimant is absent,
    another pod, finished, or placed in another sandbox after the grace period; of a terminating
    one the sever finalizer is released if and only if its node does not exist; no other Port
    is touched. *)
Theorem gc_exact r s name p : inv s -> sv_ports s !! name = Some p ->
  let s' := (exec r (gc_Reconcile name) s).2 in
  if m_Deleting (gp_Meta p) then settles s s' name (releasable s p) (left_over s (unsevered p))
  else settles s s' name (collectable s p) (left_over s p).
Proof.
  intros Hi Hp. assert (gp_Name p = name) as Hn by by apply (iv_live _ Hi) in Hp as [_ ?]. cbn zeta. unfold gc_Reconcile. cbn [exec up effect]. rewrite Hp. cbn [found].
  subst name. destruct (m_Deleting (gp_Meta p)) eqn:Hd; cbn [negb]; [|by apply settles_reap]. unfold releasable.
  case_bool_decide as Hf; cbn [negb]; [|apply settles_no; tauto]. case_bool_decide as Hn; [apply settles_release; auto|].
  cbn [exec up effect]. destruct (decide (gp_Node p ∈ sv_nodes s)) as [Hin|Hin]; cbn [found]; [apply settles_no; tauto|].
  rewrite not_found_reason. cbn [negb exec up effect]. rewrite !decide_False by done. cbn [found].
  rewrite not_found_reason. cbn [negb]. apply settles_release; auto.
Qed.

(** ** A run *)

(** The pod of the Port was deleted without its node reporting it. *)
Definition orphan : gport :=
  MkGPort (Some 0) (MkPort (MkMeta "p1" EmptyString "pu" 1 false {[LabelPodNamespace := "t"; LabelPodName := "web"; LabelPodUID := "u1"]} ∅ [FinalizerSever])
    (MkPortSpec (MkVPCRef "t" "net") "10.0.0.5" EmptyString "n1" EmptyString "t" "web" false false true) emptyStatus).
Definition cluster : server := MkServer 1 {["p1" := orphan]} [orphan] ∅ [] {["u1"]} {["n1"]} ∅ [] 0 ∅ ∅.

Lemma cluster_inv : inv cluster.
Proof.
  split; cbn.
  - intros n p [<- <-]%lookup_singleton_Some. split; [by left|done].
  - by intros p ->%list_elem_of_singleton.
  - by intros p q ->%list_elem_of_singleton ->%list_elem_of_singleton.
  - intros p ->%list_elem_of_singleton. right. vm_compute. done.
  - intros key p. by rewrite lookup_empty.
  - intros name c. by rewrite lookup_empty.
Qed.

(** The program and the server when [n] calls were answered. *)
Fixpoint played (n : nat) (p : gcprog reconciled) (s : server) : gcprog reconciled * server :=
  match n, p with
  | S n, Do c k => played n (k (up s c)) (effect 0 s c)
  | _, _ => (p, s)
  end.

Lemma played_reachable n p s s0 runs : inv s -> sys_ok (MkSys s {[0%nat := p]}) -> runs = {[0%nat := p]} -> reachable s0 (MkSys s runs) ->
  reachable s0 (MkSys (played n p s).2 {[0%nat := (played n p s).1]}).
Proof.
  revert p s runs. induction n as [|n IH]; intros p s runs Hi Hok -> Hr; [done|]. destruct p as [a|c k]; [done|]. cbn [played].
  assert (step (MkSys s {[0%nat := Do c k]}) (MkSys (effect 0 s c) {[0%nat := k (up s c)]})) as Hstep.
  { assert ({[0%nat := k (up s c)]} = (<[0%nat := k (up s c)]> {[0%nat := Do c k]} : gmap nat (gcprog reconciled))) as -> by by rewrite insert_singleton_eq.
    apply step_call; [apply lookup_singleton_eq|]. by apply up_serves. }
  pose proof (step_sys_ok _ _ Hstep Hok) as Hok'. eapply IH; [apply Hok'|done|done|]. by eapply rtc_r.
Qed.

(** The fourth call deletes the Port. *)
Lemma orphan_deleted : let '(p, s) := played 3 (gc_Reconcile "p1") cluster in
  exists k, p = Do (GcDelete orphan) k /\ sv_ports (effect 0 s (GcDelete orphan)) !! "p1" = Some (set_RV 2 true orphan).
Proof. eexists. split; [reflexivity|by vm_compute]. Qed.

Lemma port_gc_safe_witness : abandoned 0 (played 3 (gc_Reconcile "p1") cluster).2 orphan.
Proof.
  pose proof orphan_deleted as Hd. pose proof cluster_inv as Hi.
  assert (reachable cluster (MkSys cluster {[0%nat := gc_Reconcile "p1"]})) as H1 by (apply rtc_once, (step_start cluster ∅ 0 "p1"), lookup_empty).
  pose proof (gc_reachable_ok _ _ Hi H1) as Hok. pose proof (played_reachable 3 _ _ _ _ Hi Hok eq_refl H1) as Hreach.
  destruct (gc_reachable_ok _ _ Hi Hreach) as [Hi3 _]. destruct (played 3 (gc_Reconcile "p1") cluster) as [p s] eqn:E. destruct Hd as (k & Ep & Hs). cbn [fst snd y_srv y_runs] in *. subst p.
  assert (sv_ports s !! "p1" = Some orphan) as Hp by (injection E as _ <-; by vm_compute).
  destruct (port_gc_safe cluster s _ 0 (GcDelete orphan) k (up s (GcDelete orphan)) (effect 0 s (GcDelete orphan)) Hi Hreach (lookup_singleton_eq _ _)
    (up_serves 0 s (GcDelete orphan) Hi3) "p1") as [Hsame|(q & Hq & Hl)].
  - rewrite Hs, Hp in Hsame. discriminate.
  - assert (q = orphan) as -> by congruence. exact (proj1 Hl).
Defined.

Lemma gc_exact_witness : sv_ports (exec 0 (gc_Reconcile "p1") cluster).2 !! "p1" = Some (set_RV 2 true orphan).
Proof.
  refine (proj1 (proj1 (gc_exact 0 cluster "p1" orphan cluster_inv eq_refl) _)). split_and!; [reflexivity|discriminate|discriminate|exact I].
Defined.
